(* ===== verification/_CoqProject ===== *)
-Q . S2P
Prelude.v
GoStd.v
GoText.v
GoNet.v
HashUtil.v
DebName.v
Sql.v
GoNum.v
FloatInt.v
GoConf.v
Cache.v
CacheFacts.v
CacheSys.v
MetaCache.v
MetaSys.v
FleetMsg.v
Fleet.v
FleetSys.v
FleetProto.v
FleetProtoSys.v
DlState.v
DlStateSys.v
Downloader.v
DownloaderSys.v
Scheduler.v
RateLimit.v
Retry.v
Security.v
SecuritySys.v
PkgIndex.v
PkgIndexSys.v
AptLocal.v
AptLocalSys.v
Release.v
Timeouts.v
TimeoutsSys.v
Scorer.v
ScorerSys.v
Mirror.v
MirrorSys.v
Node.v
NodeSys.v
Support.v
AuditLog.v
AuditLogSys.v
Config.v
ConfigSys.v
Proxy.v
ProxyMeta.v
ProxySys.v
PkgServe.v
PkgServeSys.v
Gateway.v
GatewaySys.v
Daemon.v
DaemonSys.v
Seed.v
SeedSys.v
CacheCmd.v
CacheCmdSys.v
AdminApi.v
AdminApiSys.v
Metrics.v
MetricsSys.v
Dashboard.v
ServerStatus.v
DashboardSys.v
RelayWatch.v
RelayWatchSys.v
NodeSetup.v
NodeSetupSys.v
Wizard.v
WizardSys.v
