(* ===== verification/Prelude.v ===== *)
(** * debswarm: a verification development

    debswarm is a peer-to-peer proxy for APT packages.  A daemon serves packages
    to APT on a machine, or to the machines of a LAN: from a local
    content-addressed cache, from other members of its fleet or of a libp2p
    network, or from a mirror.  It reads the package lists that pass through it,
    checks them against the signed Release files of the repositories, and uses the
    hashes they list to decide which bytes it may serve.  The development models
    the parts that carry this logic as executable Gallina definitions and proves
    what makes them correct.  The sources are below src/internal/ and
    src/cmd/debswarm/.

    ** Foundations

    - Prelude.v (this file): results of fallible functions, 64-bit integers with
      their wrap-around, sums over finite maps, tactics and hint databases.
    - GoStd.v, GoText.v, GoNet.v, GoNum.v, GoConf.v: what the code uses of the Go
      standard library: strings and paths on bytes, bufio.Scanner, UTF-8,
      net/url, host and port splitting, IP and CIDR parsing, exact floating point
      (SpecFloat), durations.  FloatInt.v: whole numbers in float64 are exact up to
      53 bits.
    - Sql.v: what the code uses of SQLite: rows by primary key, and result sets in
      any order the ORDER BY clause allows.

    ** Components, files and correspondence

    Each method of the sources is a definition under its own name; the state of a
    component is a record with the fields of the struct; errors are values; what
    the outside does (system calls, statements, mirrors, peers, clients, clocks)
    is an argument, so that theorems quantify over it.  A file X.v has the
    definitions of a component, XSys.v its theorems.

    - HashUtil.v (hashutil), DebName.v (cache/parser.go), Retry.v (retry),
      Scheduler.v (scheduler), RateLimit.v (ratelimit), Support.v (requestid,
      sanitize, connectivity, verify).
    - Cache.v, CacheFacts.v, CacheSys.v: cache/cache.go, the package cache with its
      table, files, readers and eviction.  MetaCache.v, MetaSys.v:
      cache/metadata.go, the metadata cache with its own budget.
    - FleetMsg.v: fleet/messages.go and the decode loop of fleet/protocol.go.
      Fleet.v, FleetSys.v: fleet/coordinator.go.  Each critical section and each
      channel operation is one definition, [step] interleaves them in every order,
      and a Go panic is the result [None].  FleetProto.v, FleetProtoSys.v: the
      cache of outgoing streams of fleet/protocol.go, any number of senders
      interleaved.
    - DlState.v, DlStateSys.v: downloader/state.go, the tables of resumable
      downloads.  Downloader.v, DownloaderSys.v: downloader/downloader.go.
    - Security.v, SecuritySys.v: security/url.go and multiaddr.go, p2p/gater.go.
    - PkgIndex.v, PkgIndexSys.v: index/index.go and sources.go, with the identity
      of the pointers the lookup maps share.  AptLocal.v, AptLocalSys.v:
      aptlists/watcher.go and aptarchives/importer.go.
    - Release.v: release/release.go, gpg/keyring.go and gpg/verify.go.
    - Timeouts.v, TimeoutsSys.v: timeouts/timeouts.go.  Scorer.v, ScorerSys.v:
      peers/scorer.go.  Mirror.v, MirrorSys.v: mirror/fetcher.go.  Node.v,
      NodeSys.v: p2p/node.go, psk.go, identity.go and the transfer limits of relay.go.  NodeSetup.v,
      NodeSetupSys.v: how node.go builds a node from its configuration.
      RelayWatch.v, RelayWatchSys.v: relay.go, its candidates, the relay service that
      follows the reachability, and the observers with their gauges.
    - Config.v, ConfigSys.v: config/config.go.
    - Proxy.v, ProxyMeta.v, ProxySys.v: the classification of requests, the
      verification policy (proxy/verify.go) and metadata requests of
      proxy/server.go.  PkgServe.v, PkgServeSys.v: its package requests.
      Gateway.v, GatewaySys.v: its HTTP front (allowlist, multiplexer, tunnels) and
      background work.  AdminApi.v, AdminApiSys.v: proxy/api.go.
    - Daemon.v, DaemonSys.v: cmd/debswarm/daemon.go and helpers.go, with
      [NewServer] and the admin server of proxy/server.go.  Seed.v, SeedSys.v:
      cmd/debswarm/seed.go.  CacheCmd.v, CacheCmdSys.v: cache_cmd.go,
      rollback_cmd.go, and the opening and sweeping of cache.go.  AuditLog.v,
      AuditLogSys.v: audit/event.go and json_writer.go.  Wizard.v, WizardSys.v:
      config_wizard.go.
    - Metrics.v, MetricsSys.v: metrics/metrics.go, the exposition included.
      Dashboard.v (dashboard/dashboard.go), ServerStatus.v (the health check, the
      statistics and the gauges of proxy/server.go), DashboardSys.v.

    ** Interfaces

    Components meet the outside, and each other where one relies only on what
    another promises, through classes whose laws are documented behaviour:
    [GoUnicode], [GoUpper], [GoQuote] (text beyond ASCII), [Sha256] (the length of
    a digest), [SqlOrder] and [GoSort] and [GoRange] (orders that are left open),
    [GoTime], [TimeFormat], [OpenPGP], [Decompressors], [MathExp], [FloatConv]
    (libraries), and
    [ParallelDownloader] (what package requests rely on of the downloader, which
    PkgServeSys.v discharges with Downloader.v).  Each has an instance with which
    the examples and witnesses are evaluated.

    ** What the theorems show

    - End to end: [trust_chain], over any run of requests and background work, ties
      the bytes of a package response to a Release that a trusted key has signed;
      [package_response_verified] and [package_available] are its two halves for
      one request (whatever peers and storage do, what is served are bytes of the listed
      hash, cut short only where a cached file cannot be read, and it is served if
      the mirror has it); [enforce_index_backed] and [verification_policy] are the
      part of the index, against a specification of their own ([vouched]: the Release
      lists the path with the SHA-256 of the body, or the digest of a by-hash URL,
      whose body is not compared); [daemon_starts_safe], [validated_config] and
      [client_allowlist] that a daemon that runs is configured and guarded as its
      files and flags say, and [node_admission] that only those peers connect to it
      that its key and its lists admit.
    - Package and metadata cache: accounting and content invariants over all
      operations and failures ([cache_invariant], [metadata_budget_invariant]; in
      CacheFacts.v [Held] is the invariant, [Core] without the claim on the tracked
      size, which needs the size queries to work), eviction, budgets, round trips
      ([Put_then_Get]).
    - Index and Release: loading refines a specification on stanzas
      ([load_refines]), lookups are sound and complete ([index_lookups]), printing
      and parsing round-trip, Release files against a reference parser
      ([release_lists]); APT's own archives ([import_accounted]).
    - Metadata requests: stale copies, conditional requests ([stale_copy_served],
      [not_modified_only_conditional]).
    - Downloads: verified results, completion, the grid of chunks and its accounting
      without foreign keys ([download_state_accounting]), resumption.
    - Fleet: no panic on a channel in any interleaving, round trips of messages,
      the end of every download is told; the streams of the protocol stay whole
      under every interleaving ([fleet_streams]).
    - Peers and network: transfers deliver the range asked for, upload slots,
      selection and blacklists, which addresses and URLs are allowed however they
      are spelt (against an independent list of internal networks), tunnels, whose
      early bytes are lost.
    - Operation: only the machine itself changes its cache through the admin API
      ([admin_api]); checking a cache reports exactly what is damaged
      ([cache_verify_exact]); a synchronising import keeps what the source has and
      removes the rest ([seed_sync]); the audit log is a gapless suffix of what was
      logged, one line per event ([audit_trail]); the configuration wizard ends on
      every input and saves what is valid ([wizard_ends]).
    - Observation: the counts of the histograms served are those the observations define
      ([histogram_exact]); the relay metrics implement an abstract record of whole
      numbers ([relay_metrics_refine]); the gauges served are the numbers of the
      components ([gauges_current]); the dashboard allows no foreign script and
      lists the newest downloads ([dashboard_safe]).
    - The theorems named in no list of properties ([commit_within_budget], [message_roundtrip], [dashboard_safe], [Fetch_sound],
      [list_names_agree], [timeouts_bounded], [election_unique_winner],
      [chunk_sources_agree], [contains_spec], [Do_spec] and others) hold as well;
      lemmas and examples record the cases in which the code does not do what it means to.

    ** Bounds and fuel

    [int64] values are [Z] with [wrap64] at each operation that can overflow;
    theorems that need it bound the sizes below 2^63.  Loops that are not
    structural carry fuel: the stream decoder the length of its input (a message
    takes 23 bytes), the loops of [itoa] and [formatBytes] 64 (19 digits and six
    units are what an int64 needs), the waits and writes of rate limiting the number of bytes
    (each iteration takes one), the JSON and log escapers the length of the text (a
    rune takes a byte), shown to be enough by the theorems that
    give the loops' full results.  [NextStart] makes the eight iterations of the
    source, [Do] its attempts.

    ** Not modelled

    Log lines, the texts of errors, JSON and HTML; the SQL of the schema and its
    migrations; directories for partial downloads apart from the assembly file and
    the sweep; libp2p, the DHT and TCP connections (what they deliver is an input);
    the Go scheduler (interleavings are explicit where the code shares state) and
    contexts (cancellation is an input): hence not the coalescing of equal
    downloads, several seeding workers at once, the shutdown of the server and of
    goroutines (lifecycle/manager.go), and the loops of tickers, whose single ticks
    are modelled.  The benchmark tools simulate peers to measure speed; systemd
    notification, statfs and the construction of HTTP clients only call the system;
    and the other commands of the command line print what the packages above
    return. *)

From stdpp Require Export base tactics gmap strings list sorting numbers fin_maps.
From Stdlib Require Export ZArith Lia.
#[global] Set Default Goal Selector "!".

Declare Scope go_scope.
Delimit Scope go_scope with go.

(** ** Results of fallible Go functions

    A Go function returning [(T, error)] is a function into [res E T]; [E] is the
    enumeration of the errors the function can return.  *)
Inductive res (E A : Type) : Type :=
| Ok (a : A)
| Err (e : E).
Arguments Ok {E A} a.
Arguments Err {E A} e.

Definition is_ok {E A} (r : res E A) : bool :=
  match r with Ok _ => true | Err _ => false end.

#[global] Instance res_eq_dec {E A} `{EqDecision E, EqDecision A} : EqDecision (res E A).
Proof. solve_decision. Defined.

(** ** Machine integers

    Go's [int64] is represented by the [Z] it denotes; [wrap64] is the reduction
    every [int64] operation performs on the mathematical result.  *)
Definition wrap64 (z : Z) : Z := ((z + 2^63) mod 2^64 - 2^63)%Z.

Definition int64_range (z : Z) : Prop := (- 2^63 <= z < 2^63)%Z.

Notation "a +₆₄ b" := (wrap64 (a + b)) (at level 50, left associativity) : go_scope.
Notation "a -₆₄ b" := (wrap64 (a - b)) (at level 50, left associativity) : go_scope.

Section wrap64.
Open Scope Z_scope.

Lemma wrap64_range z : int64_range (wrap64 z).
Proof.
  unfold wrap64, int64_range. pose proof (Z.mod_pos_bound (z + 2^63) (2^64)).
  lia.
Qed.

Lemma wrap64_id z : int64_range z → wrap64 z = z.
Proof. unfold wrap64, int64_range. intros H. rewrite Z.mod_small; lia. Qed.

(** [wrap64] only depends on the residue modulo [2^64]. *)
Lemma wrap64_cong a b : a mod 2^64 = b mod 2^64 → wrap64 a = wrap64 b.
Proof.
  unfold wrap64. intros H.
  rewrite (Z.add_mod a), (Z.add_mod b), H by lia. done.
Qed.

Lemma wrap64_mod z : wrap64 z mod 2^64 = z mod 2^64.
Proof.
  unfold wrap64. rewrite Zminus_mod, Zmod_mod, <- Zminus_mod.
  f_equal. lia.
Qed.

Lemma wrap64_add_l a b : wrap64 (wrap64 a + b) = wrap64 (a + b).
Proof.
  apply wrap64_cong. rewrite Z.add_mod, wrap64_mod, <- Z.add_mod by lia. done.
Qed.

Lemma wrap64_sub_l a b : wrap64 (wrap64 a - b) = wrap64 (a - b).
Proof.
  apply wrap64_cong. rewrite Zminus_mod, wrap64_mod, <- Zminus_mod. done.
Qed.

Lemma wrap64_add_r a b : wrap64 (a + wrap64 b) = wrap64 (a + b).
Proof. rewrite Z.add_comm, wrap64_add_l. f_equal. lia. Qed.
End wrap64.

Create HintDb debswarm discriminated.
#[export] Hint Resolve wrap64_range wrap64_id : debswarm.
Create Rewrite HintDb wrap64.
#[export] Hint Rewrite wrap64_add_l wrap64_sub_l wrap64_add_r : wrap64.

(** ** Sums over finite maps

    The size accounting of the caches is stated with [sum_map]. *)
Section sum_map.
Context {K V : Type} `{Countable K}.
Open Scope Z_scope.

Definition sum_map (f : V → Z) (m : gmap K V) : Z :=
  map_fold (λ _ v acc, f v + acc) 0 m.

Lemma sum_map_empty (f : V → Z) : sum_map f ∅ = 0.
Proof. apply map_fold_empty. Qed.

Lemma sum_map_insert_None (f : V → Z) (m : gmap K V) k v :
  m !! k = None → sum_map f (<[k := v]> m) = f v + sum_map f m.
Proof. intros Hk. unfold sum_map. rewrite map_fold_insert_L; [done| lia| done]. Qed.

Lemma sum_map_delete (f : V → Z) (m : gmap K V) k v :
  m !! k = Some v → sum_map f m = f v + sum_map f (delete k m).
Proof. intros Hk. unfold sum_map. rewrite (map_fold_delete_L _ _ k v m); [done|lia|done]. Qed.

Lemma sum_map_delete_default (f : V → Z) (m : gmap K V) k :
  sum_map f (delete k m) = sum_map f m - from_option f 0 (m !! k).
Proof.
  destruct (m !! k) as [v|] eqn:Hk; simpl.
  - rewrite (sum_map_delete f m k v Hk). lia.
  - rewrite delete_id by done. lia.
Qed.

Lemma sum_map_insert (f : V → Z) (m : gmap K V) k v :
  sum_map f (<[k := v]> m) = f v + sum_map f m - from_option f 0 (m !! k).
Proof.
  rewrite <- insert_delete_eq, sum_map_insert_None by apply lookup_delete_eq.
  rewrite sum_map_delete_default. lia.
Qed.

Lemma sum_map_alter (f : V → Z) (g : V → V) (m : gmap K V) k :
  (∀ v, f (g v) = f v) → sum_map f (alter g k m) = sum_map f m.
Proof.
  intros Hfg. destruct (m !! k) as [v|] eqn:Hk.
  - assert (alter g k m = <[k := g v]> m) as ->.
    { apply map_eq. intros j. rewrite lookup_alter, lookup_insert.
      case_decide; subst; [by rewrite Hk|done]. }
    rewrite sum_map_insert, Hk, Hfg. simpl. lia.
  - assert (alter g k m = m) as ->; [|done].
    apply map_eq. intros j. rewrite lookup_alter.
    case_decide; subst; [by rewrite Hk|done].
Qed.

Lemma sum_map_nonneg (f : V → Z) (m : gmap K V) :
  (∀ k v, m !! k = Some v → 0 <= f v) → 0 <= sum_map f m.
Proof.
  induction m as [|k v m Hk IH] using map_ind; intros Hf.
  - rewrite sum_map_empty. lia.
  - rewrite sum_map_insert_None by done.
    pose proof (Hf k v (lookup_insert_eq _ _ _)).
    assert (0 <= sum_map f m); [|lia].
    apply IH. intros j w Hj. apply (Hf j w).
    rewrite lookup_insert_ne; [done|]. intros ->. congruence.
Qed.

Lemma sum_map_subseteq (f : V → Z) (m1 m2 : gmap K V) :
  m1 ⊆ m2 → (∀ k v, m2 !! k = Some v → 0 <= f v) → sum_map f m1 <= sum_map f m2.
Proof.
  revert m2. induction m1 as [|k v m1 Hk IH] using map_ind; intros m2 Hsub Hf.
  - rewrite sum_map_empty. by apply sum_map_nonneg.
  - assert (m2 !! k = Some v) as Hk2 by (eapply lookup_weaken; [apply lookup_insert_eq|done]).
    rewrite sum_map_insert_None, (sum_map_delete f m2 k v) by done.
    assert (sum_map f m1 <= sum_map f (delete k m2)); [|lia]. apply IH.
    + rewrite <- (delete_insert_id m1 k v) by done. by apply delete_mono.
    + intros j w. rewrite lookup_delete_Some. intros [_ Hj]. eauto.
Qed.
End sum_map.

(** ** Tactics *)

(** Destructs the scrutinee of the outermost [match]/[if] of the goal or of a
    hypothesis, remembering the equation. *)
Ltac split_match :=
  match goal with
  | |- context [match ?x with _ => _ end] => destruct x eqn:?
  | H : context [match ?x with _ => _ end] |- _ => destruct x eqn:?
  end.

(** Turns boolean comparisons into propositions and calls [lia]. *)
Ltac blia :=
  repeat match goal with
  | H : (_ <? _)%Z = true |- _ => apply Z.ltb_lt in H
  | H : (_ <? _)%Z = false |- _ => apply Z.ltb_ge in H
  | H : (_ <=? _)%Z = true |- _ => apply Z.leb_le in H
  | H : (_ <=? _)%Z = false |- _ => apply Z.leb_gt in H
  | H : (_ =? _)%Z = true |- _ => apply Z.eqb_eq in H
  | H : (_ =? _)%Z = false |- _ => apply Z.eqb_neq in H
  | H : _ && _ = true |- _ => apply andb_prop in H as [? ?]
  end; lia.
