(* ===== verification/GoStd.v ===== *)
(** * The Go standard-library functions the modelled packages call

    Go strings are byte sequences; they are represented by [string], whose
    characters are bytes.  [strings.ToLower], [strings.TrimSpace] and [strings.Fields]
    follow the Go implementation: an ASCII path that is written out here, and a Unicode path
    for strings that contain a byte above 127, which is a parameter
    ([GoUnicode]).  Lexical path functions are those of [path/filepath] on Unix. *)

From S2P Require Import Prelude.
From Stdlib Require Import Ascii.
Open Scope Z_scope.

(** ** Bytes *)

Definition code (a : ascii) : Z := Z.of_N (N_of_ascii a).

Lemma code_range a : 0 <= code a < 256.
Proof.
  unfold code. pose proof (N_ascii_bounded a). lia.
Qed.

Definition byte_of (z : Z) : ascii := ascii_of_N (Z.to_N (z mod 256)).

Lemma code_byte_of z : code (byte_of z) = z mod 256.
Proof.
  unfold code, byte_of. pose proof (Z.mod_pos_bound z 256).
  rewrite N_ascii_embedding; lia.
Qed.

Lemma byte_of_code a : byte_of (code a) = a.
Proof.
  unfold byte_of. rewrite Z.mod_small by apply code_range.
  unfold code. rewrite N2Z.id. apply ascii_N_embedding.
Qed.

Lemma code_inj a b : code a = code b → a = b.
Proof. intros H. rewrite <- (byte_of_code a), <- (byte_of_code b). by f_equal. Qed.

Abbreviation slash := ("/"%char).
#[global] Arguments String.append !_ _ /.

Fixpoint str_forallb (p : ascii → bool) (s : string) : bool :=
  match s with
  | EmptyString => true
  | String c s => p c && str_forallb p s
  end.

Definition str_no (c : ascii) (s : string) : bool := str_forallb (λ a, negb (Ascii.eqb a c)) s.

(** [s[:n]] and [s[n:]] for [n] within bounds. *)
Fixpoint str_take (n : nat) (s : string) : string :=
  match n, s with
  | S n, String c s => String c (str_take n s)
  | _, _ => EmptyString
  end.

Fixpoint str_drop (n : nat) (s : string) : string :=
  match n, s with
  | S n, String _ s => str_drop n s
  | _, _ => s
  end.

Section string_lemmas.
Lemma str_app_assoc a b c : (a +:+ b) +:+ c = a +:+ (b +:+ c).
Proof. induction a; simpl; congruence. Qed.

Lemma str_app_nil_r a : a +:+ "" = a.
Proof. induction a; simpl; congruence. Qed.

Lemma str_length_app a b : String.length (a +:+ b) = (String.length a + String.length b)%nat.
Proof. induction a; simpl; congruence. Qed.

Lemma str_app_inj_l a b c : a +:+ b = a +:+ c → b = c.
Proof. induction a; simpl; [done|]. intros [=]. auto. Qed.

Lemma str_app_inj_len a b c d :
  String.length a = String.length c → a +:+ b = c +:+ d → a = c ∧ b = d.
Proof.
  revert c. induction a as [|x a IH]; intros [|y c]; simpl; try done.
  intros [= Hl] [= -> Heq]. destruct (IH c Hl Heq) as [-> ->]. done.
Qed.

Lemma str_take_drop n s : str_take n s +:+ str_drop n s = s.
Proof. revert s. induction n; intros [|c s]; simpl; try done. by rewrite IHn. Qed.

Lemma str_length_take n s : (n <= String.length s)%nat → String.length (str_take n s) = n.
Proof. revert s. induction n; intros [|c s] H; simpl in *; try lia. rewrite IHn; lia. Qed.

Lemma str_length_take_le n s : String.length (str_take n s) = Nat.min n (String.length s).
Proof. revert n. induction s as [|c s IH]; intros [|n]; simpl; try done. by rewrite IH. Qed.

Lemma str_length_drop n s : String.length (str_drop n s) = (String.length s - n)%nat.
Proof. revert s. induction n; intros [|c s]; simpl; try done. Qed.

Lemma str_take_app a b : str_take (String.length a) (a +:+ b) = a.
Proof. induction a; simpl; [by destruct b|congruence]. Qed.

Lemma str_take_all a : str_take (String.length a) a = a.
Proof. induction a; simpl; congruence. Qed.

Lemma str_drop_app a b : str_drop (String.length a) (a +:+ b) = b.
Proof. induction a; simpl; [by destruct b|congruence]. Qed.

Lemma str_forallb_app p a b : str_forallb p (a +:+ b) = str_forallb p a && str_forallb p b.
Proof. induction a; simpl; [done|]. by rewrite IHa, andb_assoc. Qed.

Lemma str_forallb_take p n s : str_forallb p s = true → str_forallb p (str_take n s) = true.
Proof.
  revert s. induction n; intros [|c s]; simpl; try done.
  rewrite !andb_true_iff. naive_solver.
Qed.

Lemma str_forallb_impl (p q : ascii → bool) s :
  (∀ c, p c = true → q c = true) → str_forallb p s = true → str_forallb q s = true.
Proof. intros Hpq. induction s; simpl; [done|]. rewrite !andb_true_iff. naive_solver. Qed.
End string_lemmas.

(** ** Package [strings] *)

Definition HasPrefix (s p : string) : bool := String.prefix p s.

Definition HasSuffix (s p : string) : bool :=
  (String.length p <=? String.length s)%nat
  && String.eqb (str_drop (String.length s - String.length p) s) p.

Fixpoint Contains (s p : string) : bool :=
  HasPrefix s p || match s with EmptyString => false | String _ s => Contains s p end.

(** [strings.Index]; [None] is -1. *)
Fixpoint Index (s p : string) : option nat :=
  if HasPrefix s p then Some 0%nat
  else match s with
       | EmptyString => None
       | String _ s => S <$> Index s p
       end.

(** The bytes of [s] before the first one in [cut], as [s[:IndexAny(s, cut)]]. *)
Fixpoint until_any (cut : ascii → bool) (s : string) : string :=
  match s with
  | EmptyString => EmptyString
  | String a s => if cut a then EmptyString else String a (until_any cut s)
  end.

(** [strings.Split] for a one-byte separator. *)
Fixpoint Split (c : ascii) (s : string) : list string :=
  match s with
  | EmptyString => [EmptyString]
  | String a s' =>
      if Ascii.eqb a c then EmptyString :: Split c s'
      else match Split c s' with
           | [] => [String a EmptyString]
           | w :: ws => String a w :: ws
           end
  end.

(** [strings.Join]. *)
Definition Join (l : list string) (sep : string) : string := String.concat sep l.
#[global] Arguments Join : simpl never.

(** The Unicode paths of [strings.ToLower], [strings.TrimSpace] and
    [strings.Fields], taken for strings with a byte above 127. *)
Class GoUnicode := {
  unicode_ToLower : string → string;
  unicode_TrimSpace : string → string;
  unicode_Fields : string → list string;
  unicode_ToLower_nil : ∀ s, unicode_ToLower s = "" → s = "";
}.

(** For evaluating examples, all of whose strings are ASCII. *)
Definition ascii_only : GoUnicode := {|
  unicode_ToLower := id; unicode_TrimSpace := id; unicode_Fields s := [s];
  unicode_ToLower_nil := λ s (H : id s = ""), H;
|}.

Definition isASCII (s : string) : bool := str_forallb (λ a, code a <? 128) s.

Definition ascii_lower (a : ascii) : ascii :=
  if (65 <=? code a) && (code a <=? 90) then byte_of (code a + 32) else a.

Fixpoint str_map (f : ascii → ascii) (s : string) : string :=
  match s with EmptyString => EmptyString | String a s => String (f a) (str_map f s) end.

Definition ToLower `{GoUnicode} (s : string) : string :=
  if isASCII s then str_map ascii_lower s else unicode_ToLower s.

Lemma ToLower_nil `{GoUnicode} s : ToLower s = "" → s = "".
Proof. unfold ToLower. case_match; [by destruct s|apply unicode_ToLower_nil]. Qed.

(** The ASCII white space of [strings.TrimSpace]: tab, LF, VT, FF, CR, space. *)
Definition ascii_space (a : ascii) : bool :=
  ((9 <=? code a) && (code a <=? 13)) || (code a =? 32).

Fixpoint trim_left (s : string) : string :=
  match s with
  | EmptyString => EmptyString
  | String a s' => if ascii_space a then trim_left s' else s
  end.

Fixpoint trim_right (s : string) : string :=
  match s with
  | EmptyString => EmptyString
  | String a s' =>
      match trim_right s' with
      | EmptyString => if ascii_space a then EmptyString else String a EmptyString
      | t => String a t
      end
  end.

Definition TrimSpace `{GoUnicode} (s : string) : string :=
  if isASCII s then trim_right (trim_left s) else unicode_TrimSpace s.

(** ** Package [strconv] *)

(** The value of a digit in [strconv]'s loop: decimal digits, then letters of
    either case. *)
Definition digit_value (a : ascii) : option Z :=
  let c := code a in
  if (48 <=? c) && (c <=? 57) then Some (c - 48)
  else if (97 <=? c) && (c <=? 122) then Some (c - 97 + 10)
  else if (65 <=? c) && (c <=? 90) then Some (c - 65 + 10)
  else None.

Fixpoint parse_digits (base : Z) (acc : Z) (s : string) : option Z :=
  match s with
  | EmptyString => Some acc
  | String a s =>
      match digit_value a with
      | Some d => if d <? base then parse_digits base (acc * base + d) s else None
      | None => None
      end
  end.

(** [strconv.ParseUint(s, base, bits)] for an explicit base; [None] is an error
    (no digits, an invalid digit, or a value that does not fit). *)
Definition ParseUint (s : string) (base bits : Z) : option Z :=
  match s with
  | EmptyString => None
  | _ => match parse_digits base 0 s with
         | Some v => if v <? 2 ^ bits then Some v else None
         | None => None
         end
  end.

(** Decimal formatting ([%d], [strconv.Itoa]) of an int; 20 digits suffice. *)
Fixpoint itoa_go (fuel : nat) (n : Z) (acc : string) : string :=
  match fuel with
  | O => acc
  | S fuel =>
      let acc := String (byte_of (48 + n mod 10)) acc in
      if n <? 10 then acc else itoa_go fuel (n / 10) acc
  end.

Definition Itoa (n : Z) : string :=
  if n <? 0 then String "-" (itoa_go 20 (- n) "") else itoa_go 20 n "".

Lemma digit_code n : 48 <= code (byte_of (48 + n mod 10)) < 58.
Proof.
  pose proof (Z.mod_pos_bound n 10). rewrite code_byte_of, Z.mod_small; lia.
Qed.

Lemma itoa_go_digits fuel n acc :
  str_forallb (λ a, (48 <=? code a) && (code a <? 58)) acc = true →
  str_forallb (λ a, (48 <=? code a) && (code a <? 58)) (itoa_go fuel n acc) = true.
Proof.
  revert n acc. induction fuel as [|fuel IH]; intros n acc Hacc; [done|]. cbn [itoa_go].
  assert (str_forallb (λ a, (48 <=? code a) && (code a <? 58)) (String (byte_of (48 + n mod 10)) acc) = true) as Hs.
  { cbn [str_forallb]. rewrite Hacc. pose proof (digit_code n).
    rewrite andb_true_r, andb_true_iff, Z.leb_le, Z.ltb_lt. lia. }
  destruct (n <? 10); [done|]. by apply IH.
Qed.

(** [strconv.Atoi]: an optional sign, decimal digits, and the range of [int]
    (64 bits). *)
Definition Atoi (s : string) : option Z :=
  match s with
  | String a s' =>
      if Ascii.eqb a "-" then
        match ParseUint s' 10 64 with
        | Some v => if v <=? 2 ^ 63 then Some (- v) else None
        | None => None
        end
      else
        match ParseUint (if Ascii.eqb a "+" then s' else s) 10 64 with
        | Some v => if v <? 2 ^ 63 then Some v else None
        | None => None
        end
  | EmptyString => None
  end.

(** ** Package [encoding/hex] *)

Definition hex_digit (z : Z) : ascii :=
  if z <? 10 then byte_of (48 + z) else byte_of (97 + (z - 10)).

Fixpoint EncodeToString (s : string) : string :=
  match s with
  | EmptyString => EmptyString
  | String a s =>
      String (hex_digit (code a / 16)) (String (hex_digit (code a mod 16)) (EncodeToString s))
  end.

Definition is_lower_hex (a : ascii) : bool :=
  ((48 <=? code a) && (code a <=? 57)) || ((97 <=? code a) && (code a <=? 102)).

(** ** Package [path/filepath] *)

(** One component of the left-to-right scan of [filepath.Clean]; the stack holds
    the components kept so far, innermost first. *)
Definition clean_step (rooted : bool) (stk : list string) (c : string) : list string :=
  if String.eqb c "" || String.eqb c "." then stk
  else if String.eqb c ".." then
    match stk with
    | top :: rest => if String.eqb top ".." then c :: stk else rest
    | [] => if rooted then [] else [c]
    end
  else c :: stk.

Definition is_rooted (p : string) : bool := HasPrefix p "/".

Definition Clean (p : string) : string :=
  if String.eqb p "" then "."
  else
    let stk := foldl (clean_step (is_rooted p)) [] (Split slash p) in
    let body := Join (rev stk) "/" in
    if is_rooted p then "/" +:+ body
    else if String.eqb body "" then "." else body.

(** [filepath.Join]: the non-empty elements joined by slashes, cleaned. *)
Definition filepath_Join (elems : list string) : string :=
  let ne := List.filter (λ e, negb (String.eqb e "")) elems in
  match ne with [] => "" | _ => Clean (Join ne "/") end.

(** [filepath.Base]: the last non-empty component. *)
Definition filepath_Base (p : string) : string :=
  if String.eqb p "" then "."
  else
    match last (List.filter (λ e, negb (String.eqb e "")) (Split slash p)) with
    | Some c => c
    | None => "/"
    end.

Example Clean_ex1 : Clean "/a/./b//../c" = "/a/c". Proof. reflexivity. Qed.
Example Clean_ex2 : Clean "../../x/y/.." = "../../x". Proof. reflexivity. Qed.
Example Clean_ex3 : Clean "/../a" = "/a". Proof. reflexivity. Qed.
Example Join_ex : filepath_Join ["/var/cache"; "packages"; ""; "x"] = "/var/cache/packages/x".
Proof. reflexivity. Qed.
Example Base_ex : filepath_Base "pool/main/c/curl/curl_7.88.1-10_amd64.deb" = "curl_7.88.1-10_amd64.deb".
Proof. reflexivity. Qed.

(** ** Facts about splitting and joining *)
Section split_lemmas.
Variable c : ascii.

Lemma Split_nonnil s : Split c s ≠ [].
Proof. destruct s as [|a s]; simpl; [done|]. repeat case_match; done. Qed.

Lemma Split_app a b : Split c (a +:+ String c b) = Split c a ++ Split c b.
Proof.
  induction a as [|x a IH]; simpl; [by rewrite Ascii.eqb_refl|].
  rewrite IH. destruct (Ascii.eqb x c); [done|].
  pose proof (Split_nonnil a). by destruct (Split c a).
Qed.

Lemma Split_no s : str_no c s = true → Split c s = [s].
Proof.
  induction s as [|x s IH]; simpl; [done|].
  unfold str_no in *. simpl. rewrite andb_true_iff, negb_true_iff.
  intros [-> Hs]. by rewrite (IH Hs).
Qed.

Lemma Join_cons x l : l ≠ [] → Join (x :: l) (String c "") = x +:+ String c (Join l (String c "")).
Proof. by destruct l. Qed.

Lemma Join_app l1 l2 :
  l1 ≠ [] → l2 ≠ [] →
  Join (l1 ++ l2) (String c "") = Join l1 (String c "") +:+ String c (Join l2 (String c "")).
Proof.
  intros H1 H2. induction l1 as [|x l1 IH]; [done|].
  destruct (decide (l1 = [])) as [->|Hne].
  - change ([x] ++ l2) with (x :: l2). by rewrite Join_cons.
  - change ((x :: l1) ++ l2) with (x :: (l1 ++ l2)).
    rewrite !Join_cons, IH by (done || by destruct l1).
    rewrite str_app_assoc. done.
Qed.

(** Splitting inverts joining when no piece contains the separator. *)
Lemma Split_Join l :
  l ≠ [] → Forall (λ s, str_no c s = true) l → Split c (Join l (String c "")) = l.
Proof.
  intros Hne Hl. induction Hl as [|x l Hx Hl IH]; [done|].
  destruct (decide (l = [])) as [->|Hne']; [by apply Split_no|].
  rewrite Join_cons, Split_app, (Split_no x), IH by done. done.
Qed.

Lemma Split_pieces s : Forall (λ x, str_no c x = true) (Split c s).
Proof.
  induction s as [|x s IH]; simpl; [by repeat constructor|].
  destruct (Ascii.eqb x c) eqn:Hx; [by constructor|].
  destruct IH as [|w ws Hw Hws]; constructor; unfold str_no in *; simpl; rewrite ?Hx; done.
Qed.

Lemma Join_Split s : Join (Split c s) (String c "") = s.
Proof.
  induction s as [|x s IH]; simpl; [done|].
  pose proof (Split_nonnil s) as Hnn.
  destruct (Ascii.eqb_spec x c) as [->|].
  - rewrite Join_cons by done. simpl. by rewrite IH.
  - destruct (Split c s) as [|w ws] eqn:Hs; [done|].
    rewrite <- IH. destruct ws; done.
Qed.
End split_lemmas.

Lemma HasSuffix_app x p : HasSuffix (x +:+ p) p = true.
Proof.
  unfold HasSuffix. rewrite str_length_app, andb_true_iff, Nat.leb_le. split; [lia|].
  replace (String.length x + String.length p - String.length p)%nat with (String.length x) by lia.
  rewrite str_drop_app. apply String.eqb_refl.
Qed.

Lemma HasSuffix_inv s p : HasSuffix s p = true → ∃ x, s = x +:+ p.
Proof.
  unfold HasSuffix. rewrite andb_true_iff, String.eqb_eq. intros [_ H].
  exists (str_take (String.length s - String.length p) s).
  rewrite <- H at 2. by rewrite str_take_drop.
Qed.

(** ** Facts about [filepath.Join]

    A plain component is one that lexical cleaning keeps. *)
Definition plain (s : string) : bool :=
  negb (String.eqb s "") && negb (String.eqb s ".") && negb (String.eqb s "..") && str_no slash s.

(** What [filepath.Join] puts in front of plain components: the cleaned base
    directory and a separator. *)
Definition dir_prefix (base : string) : string :=
  if String.eqb base "" then ""
  else
    let stk := foldl (clean_step (is_rooted base)) [] (Split slash base) in
    (if is_rooted base then "/" else "") +:+
    match stk with [] => "" | _ => Join (rev stk) "/" +:+ "/" end.

Lemma clean_plain rooted stk cs :
  Forall (λ s, plain s = true) cs → foldl (clean_step rooted) stk cs = rev cs ++ stk.
Proof.
  intros Hcs. revert stk. induction Hcs as [|x cs Hx Hcs IH]; intros stk; [done|].
  simpl. rewrite IH. unfold plain in Hx. rewrite !andb_true_iff, !negb_true_iff in Hx.
  destruct Hx as [[[H1 H2] H3] _]. unfold clean_step. rewrite H1, H2, H3. simpl.
  by rewrite <- app_assoc.
Qed.

Lemma is_rooted_cons a s : is_rooted (String a s) = Ascii.eqb slash a.
Proof.
  unfold is_rooted, HasPrefix. cbn [String.prefix].
  destruct (Ascii.eqb_spec slash a) as [<-|Hne]; destruct (ascii_dec slash _) as [He|He]; try done.
  by destruct s.
Qed.

Lemma is_rooted_app a b : a ≠ "" → is_rooted (a +:+ b) = is_rooted a.
Proof. destruct a as [|x a]; [done|]. intros _. simpl. by rewrite !is_rooted_cons. Qed.

Lemma filepath_Join_plain base cs :
  cs ≠ [] → Forall (λ s, plain s = true) cs →
  filepath_Join (base :: cs) = dir_prefix base +:+ Join cs "/".
Proof.
  intros Hne Hcs.
  assert (List.filter (λ e, negb (String.eqb e "")) cs = cs) as Hf.
  { clear Hne. induction Hcs as [|x cs Hx Hcs IH]; [done|]. simpl. rewrite IH.
    unfold plain in Hx. rewrite !andb_true_iff in Hx. destruct Hx as [[[-> _] _] _]. done. }
  assert (Forall (λ s, str_no slash s = true) cs) as Hns.
  { eapply Forall_impl; [exact Hcs|]. intros s. unfold plain.
    rewrite !andb_true_iff. naive_solver. }
  assert (Join cs "/" ≠ "") as Hj.
  { destruct cs as [|x cs]; [done|]. inversion Hcs as [|? ? Hx]; subst.
    destruct x; [done|]. unfold Join. simpl. by destruct cs. }
  unfold filepath_Join, dir_prefix. simpl. rewrite Hf.
  destruct (String.eqb_spec base "") as [->|Hb]; simpl.
  - destruct cs as [|x cs]; [done|]. unfold Clean.
    destruct (String.eqb_spec (Join (x :: cs) "/") "") as [|_]; [done|].
    rewrite Split_Join, clean_plain, app_nil_r, rev_involutive by done.
    assert (is_rooted (Join (x :: cs) "/") = false) as ->.
    { inversion Hns as [|? ? Hx]; subst. inversion Hcs as [|? ? Hx']; subst.
      destruct x as [|a x]; [done|]. unfold str_no in Hx. simpl in Hx.
      apply andb_true_iff in Hx as [Hx _]. apply negb_true_iff, Ascii.eqb_neq in Hx.
      destruct cs; unfold Join; simpl; rewrite is_rooted_cons; apply Ascii.eqb_neq; congruence. }
    destruct (String.eqb_spec (Join (x :: cs) "/") "") as [|_]; done.
  - rewrite Join_cons by done. unfold Clean.
    destruct (String.eqb_spec (base +:+ String slash (Join cs "/")) "") as [He|_];
      [by destruct base|].
    rewrite is_rooted_app, Split_app, foldl_app, Split_Join, clean_plain by done.
    set (stk := foldl _ _ _). rewrite rev_app_distr, rev_involutive.
    assert (Join (rev stk ++ cs) "/" = match stk with [] => "" | _ => Join (rev stk) "/" +:+ "/" end
              +:+ Join cs "/") as Hjoin.
    { destruct stk as [|y stk]; [done|]. rewrite Join_app, str_app_assoc; [done| |done].
      simpl. by destruct (rev stk). }
    rewrite Hjoin. destruct (is_rooted base); simpl; [done|].
    destruct (String.eqb_spec (match stk with [] => "" | _ => Join (rev stk) "/" +:+ "/" end
              +:+ Join cs "/") "") as [He|_]; [|done].
    exfalso. destruct stk; simpl in He; [done|].
    apply (f_equal String.length) in He. rewrite !str_length_app in He. simpl in He. lia.
Qed.
