(* ===== verification/GoText.v ===== *)
(** * Text processing of the Go standard library

    [bufio.Scanner] over lines, [strings.Fields] and the trimming functions,
    [strconv.ParseInt] with the values it returns along with an error, and the
    iteration order of Go maps. *)

From S2P Require Import Prelude GoStd.
From Stdlib Require Import Ascii.
Open Scope Z_scope.

Abbreviation LF := ("010"%char).
Abbreviation CR := ("013"%char).
Abbreviation TAB := ("009"%char).

(** ** bufio.Scanner with ScanLines *)

(** A trailing carriage return is dropped from a line. *)
Fixpoint dropCR (s : string) : string :=
  match s with
  | EmptyString => EmptyString
  | String a EmptyString => if Ascii.eqb a CR then EmptyString else s
  | String a s => String a (dropCR s)
  end.

Lemma dropCR_no s : str_no CR s = true → dropCR s = s.
Proof.
  induction s as [|a s IH]; [done|]. unfold str_no. cbn [str_forallb]. intros [Ha Hs]%andb_prop. cbn [dropCR].
  destruct s; [|by rewrite IH]. by rewrite (proj1 (negb_true_iff _) Ha).
Qed.

(** A line that does not fit the buffer, terminator included, ends the scan with
    [ErrTooLong]; what comes after the last newline is a line if not empty. *)
Fixpoint scan_pieces (max : Z) (rd_ok : bool) (pieces : list string) : list string * bool :=
  match pieces with
  | [] => ([], rd_ok)
  | [p] =>
      if String.eqb p "" then ([], rd_ok)
      else if max <=? Z.of_nat (String.length p) then ([], false) else ([dropCR p], rd_ok)
  | p :: rest =>
      if max <=? Z.of_nat (String.length p) then ([], false)
      else let '(ls, ok) := scan_pieces max rd_ok rest in (dropCR p :: ls, ok)
  end.

(** The tokens of a scanner with a maximal token size over a reader that
    delivers [data] and then ends normally or with an error, and whether [Err]
    is nil. *)
Definition scan (max : Z) (data : string) (rd_ok : bool) : list string * bool :=
  scan_pieces max rd_ok (Split LF data).

Example scan_ex : scan 100 ("a" +:+ String CR (String LF "b: c") +:+ String LF "") true = (["a"; "b: c"], true).
Proof. reflexivity. Qed.

(** A text of lines, each ended by a newline. *)
Definition unlines (ls : list string) : string := foldr (λ l acc, l +:+ String LF acc) "" ls.

(** A line the scanner returns as it is. *)
Definition scannable (max : Z) (l : string) : Prop :=
  str_no LF l = true ∧ dropCR l = l ∧ Z.of_nat (String.length l) < max.

Lemma Split_unlines ls : Forall (λ l, str_no LF l = true) ls → Split LF (unlines ls) = ls ++ [""].
Proof.
  induction 1 as [|l ls Hl Hls IH]; [done|]. cbn [unlines foldr].
  change (foldr (λ l acc, l +:+ String LF acc) "" ls) with (unlines ls).
  by rewrite Split_app, (Split_no LF l Hl), IH.
Qed.

Lemma scan_pieces_app max ok ls : Forall (scannable max) ls → scan_pieces max ok (ls ++ [""]) = (ls, ok).
Proof.
  induction 1 as [|l ls (Hn & Hc & Hl) Hls IH]; [done|]. cbn [app scan_pieces].
  replace (max <=? _) with false by (symmetry; blia). rewrite IH, Hc.
  by destruct ls.
Qed.

(** Scanning inverts [unlines]. *)
Lemma scan_unlines max ok ls : Forall (scannable max) ls → scan max (unlines ls) ok = (ls, ok).
Proof.
  intros Hls. unfold scan. rewrite Split_unlines; [by apply scan_pieces_app|].
  eapply Forall_impl; [exact Hls|]. by intros l (? & _).
Qed.

(** ** Readers *)

(** What a reader delivers until it ends, and whether it ends with [io.EOF]. *)
Abbreviation stream := (string * bool)%type.

(** [io.LimitReader]: at the limit the stream ends normally. *)
Definition LimitReader (r : stream) (limit : Z) : stream :=
  if Z.of_nat (String.length r.1) <? limit then r else (str_take (Z.to_nat limit) r.1, true).

Lemma LimitReader_all r limit : Z.of_nat (String.length r.1) < limit → LimitReader r limit = r.
Proof. intros Hl. unfold LimitReader. by rewrite (proj2 (Z.ltb_lt _ _) Hl). Qed.

Lemma LimitReader_cut s ok limit : limit <= Z.of_nat (String.length s) →
  LimitReader (s, ok) limit = (str_take (Z.to_nat limit) s, true).
Proof. intros Hl. unfold LimitReader. cbn [fst]. by rewrite (proj2 (Z.ltb_ge _ _) Hl). Qed.

(** [s[a:b]] within bounds. *)
Definition substr (s : string) (a b : Z) : string := str_take (Z.to_nat (b - a)) (str_drop (Z.to_nat a) s).

Lemma substr_length s a b :
  0 <= a <= b → b <= Z.of_nat (String.length s) → Z.of_nat (String.length (substr s a b)) = b - a.
Proof. intros Ha Hb. unfold substr. rewrite str_length_take; [lia|]. rewrite str_length_drop. lia. Qed.

(** ** Package [strings] *)

(** The ASCII white space at which [strings.Fields] splits is the one of
    [strings.TrimSpace]. *)
Fixpoint fields_go (s : string) (cur : string) : list string :=
  let flush := if String.eqb cur "" then [] else [cur] in
  match s with
  | EmptyString => flush
  | String a s => if ascii_space a then flush ++ fields_go s "" else fields_go s (cur +:+ String a "")
  end.

Definition Fields `{GoUnicode} (s : string) : list string :=
  if isASCII s then fields_go s "" else unicode_Fields s.

(** Text of visible ASCII characters is not changed by trimming. *)
Definition visible_char (a : ascii) : bool := (33 <=? code a) && (code a <? 127).

Lemma trim_visible v : str_forallb visible_char v = true → trim_left v = v ∧ trim_right v = v.
Proof.
  assert (∀ a, visible_char a = true → ascii_space a = false) as Hns.
  { intros a Ha. unfold visible_char in Ha. unfold ascii_space. apply not_true_is_false. blia. }
  induction v as [|a v IH]; intros Hv; [done|]. cbn [str_forallb] in Hv. apply andb_prop in Hv as [Ha Hv].
  destruct (IH Hv) as [_ Hr]. cbn [trim_left trim_right]. rewrite Hr, (Hns a Ha). split; [done|]. by destruct v.
Qed.

Lemma isASCII_visible v : str_forallb visible_char v = true → isASCII v = true.
Proof. apply str_forallb_impl. unfold visible_char. intros a Ha. blia. Qed.

Lemma TrimSpace_visible `{GoUnicode} v : str_forallb visible_char v = true → TrimSpace v = v.
Proof.
  intros Hv. unfold TrimSpace. rewrite isASCII_visible by done. by destruct (trim_visible v Hv) as [-> ->].
Qed.

(** [strings.TrimRight(s, "/")]. *)
Fixpoint trim_right_slash (s : string) : string :=
  match s with
  | EmptyString => EmptyString
  | String a s' =>
      match trim_right_slash s' with
      | EmptyString => if Ascii.eqb a slash then EmptyString else String a EmptyString
      | t => String a t
      end
  end.

Definition TrimSuffix (s suffix : string) : string :=
  if HasSuffix s suffix then str_take (String.length s - String.length suffix) s else s.

(** [strings.LastIndex] of one byte. *)
Fixpoint LastIndexByte (c : ascii) (s : string) : option nat :=
  match s with
  | EmptyString => None
  | String a s' =>
      match LastIndexByte c s' with
      | Some i => Some (S i)
      | None => if Ascii.eqb a c then Some 0%nat else None
      end
  end.

(** [strings.Cut(s, sep)] for one byte: before, after, found. *)
Fixpoint Cut (c : ascii) (s : string) : string * string * bool :=
  match s with
  | EmptyString => ("", "", false)
  | String a s' =>
      if Ascii.eqb a c then ("", s', true)
      else let '(b, r, found) := Cut c s' in (String a b, r, found)
  end.

Lemma Cut_spec c a b : str_no c a = true → Cut c (a +:+ String c b) = (a, b, true).
Proof.
  induction a as [|x a IH]; cbn; [by rewrite Ascii.eqb_refl|].
  unfold str_no. cbn. rewrite andb_true_iff, negb_true_iff. intros [-> Ha]. by rewrite IH.
Qed.

(** ** strconv.ParseInt

    The value is returned together with whether the error is nil: a value out of
    range comes with the nearest bound, a syntax error with 0.  The loop stops at
    the first digit that overflows, before looking at the rest. *)
Inductive NumErr := ErrSyntax | ErrRange.

Fixpoint parse_uint_loop (base max acc : Z) (s : string) : Z * option NumErr :=
  match s with
  | EmptyString => (acc, None)
  | String a s =>
      match digit_value a with
      | Some d =>
          if base <=? d then (0, Some ErrSyntax)
          else if max <? acc * base + d then (max, Some ErrRange)
          else parse_uint_loop base max (acc * base + d) s
      | None => (0, Some ErrSyntax)
      end
  end.

Definition ParseInt (s : string) : Z * bool :=
  match s with
  | EmptyString => (0, false)
  | String a s' =>
      let neg := Ascii.eqb a "-" in
      let digits := if neg || Ascii.eqb a "+" then s' else s in
      match digits with
      | EmptyString => (0, false)
      | _ =>
          match parse_uint_loop 10 (2 ^ 64 - 1) 0 digits with
          | (_, Some ErrSyntax) => (0, false)
          | (un, err) =>
              if negb neg && (2 ^ 63 <=? un) then (2 ^ 63 - 1, false)
              else if neg && (2 ^ 63 <? un) then (- 2 ^ 63, false)
              else (if neg then - un else un, match err with None => true | Some _ => false end)
          end
      end
  end.

Example ParseInt_ex : map ParseInt ["42"; "-7"; "12x"; "99999999999999999999x"; ""; "+3"]
  = [(42, true); (-7, true); (0, false); (2^63 - 1, false); (0, false); (3, true)].
Proof. reflexivity. Qed.

Lemma ParseInt_range s : int64_range (ParseInt s).1.
Proof.
  assert (∀ max acc t, 0 <= acc <= max → 0 <= (parse_uint_loop 10 max acc t).1 <= max) as Hloop.
  { intros max acc t. revert acc. induction t as [|a t IH]; intros acc Hacc; cbn; [done|].
    destruct (digit_value a) as [d|] eqn:Hd; cbn; [|lia]. destruct (10 <=? d) eqn:H1; cbn; [lia|].
    destruct (max <? _) eqn:H2; cbn; [lia|]. apply IH.
    assert (0 <= d); [|blia]. unfold digit_value in Hd. repeat case_match; simplify_eq; blia. }
  unfold ParseInt, int64_range. destruct s as [|a s']; cbn; [lia|].
  destruct (if _ || _ then _ else _) as [|b t] eqn:Ht; cbn [fst]; [lia|].
  specialize (Hloop (2^64 - 1) 0 (String b t) ltac:(lia)).
  destruct (parse_uint_loop _ _ _ _) as [un [[]|]]; cbn [fst] in *; [lia|..];
    destruct (Ascii.eqb a "-"); cbn [negb andb]; repeat case_match; cbn [fst]; blia.
Qed.

(** *** Decimal round trip *)

Lemma digit_value_decimal d : 0 <= d < 10 → digit_value (byte_of (48 + d)) = Some d.
Proof.
  intros Hd. unfold digit_value. rewrite code_byte_of, Z.mod_small by lia.
  replace ((48 <=? 48 + d) && (48 + d <=? 57)) with true by (symmetry; rewrite andb_true_iff, !Z.leb_le; lia).
  f_equal. lia.
Qed.

Lemma parse_itoa_go fuel n acc w max :
  0 <= n < 10 ^ Z.of_nat fuel → n <= max → parse_uint_loop 10 max n acc = (w, None) →
  parse_uint_loop 10 max 0 (itoa_go fuel n acc) = (w, None).
Proof.
  revert n acc. induction fuel as [|fuel IH]; intros n acc Hn Hmax Hw.
  { assert (n = 0) as -> by (cbn in Hn; lia). done. }
  cbn [itoa_go].
  pose proof (Z.mod_pos_bound n 10 ltac:(lia)) as Hm.
  destruct (n <? 10) eqn:Hsmall.
  - cbn [parse_uint_loop]. rewrite digit_value_decimal by lia.
    replace (10 <=? n mod 10) with false by (symmetry; blia).
    replace (0 * 10 + n mod 10) with n by (rewrite Z.mod_small; blia).
    replace (max <? n) with false by (symmetry; blia). done.
  - assert (0 <= n / 10 < 10 ^ Z.of_nat fuel).
    { rewrite Nat2Z.inj_succ, Z.pow_succ_r in Hn by lia. split; [apply Z.div_pos; lia|].
      apply Z.div_lt_upper_bound; lia. }
    assert (n = n / 10 * 10 + n mod 10) as Hdm by (pose proof (Z.div_mod n 10); lia).
    assert (parse_uint_loop 10 max (n / 10) (String (byte_of (48 + n mod 10)) acc) = (w, None)) as Hstep.
    { cbn [parse_uint_loop]. rewrite digit_value_decimal by lia.
      replace (10 <=? n mod 10) with false by (symmetry; blia). rewrite <- Hdm.
      replace (max <? n) with false by (symmetry; blia). done. }
    apply IH; [done| |done]. assert (n / 10 <= n) by (apply Z.div_le_upper_bound; lia). lia.
Qed.

Lemma itoa_go_cons fuel n acc : (0 < fuel)%nat → ∃ d t, itoa_go fuel n acc = String (byte_of (48 + d mod 10)) t.
Proof.
  revert n acc. induction fuel as [|fuel IH]; intros n acc Hf; [lia|]. cbn [itoa_go].
  destruct (n <? 10); [eauto|]. destruct fuel as [|fuel]; [cbn; eauto|]. apply IH. lia.
Qed.

Lemma ParseInt_Itoa n : 0 <= n < 2 ^ 63 → ParseInt (Itoa n) = (n, true).
Proof.
  intros Hn. unfold Itoa. replace (n <? 0) with false by (symmetry; blia).
  assert (parse_uint_loop 10 (2 ^ 64 - 1) 0 (itoa_go 20 n "") = (n, None)) as Hp.
  { apply parse_itoa_go; [|lia|done]. split; [lia|]. transitivity (2 ^ 63); [lia|done]. }
  destruct (itoa_go_cons 20 n "" ltac:(lia)) as (d & t & Heq). rewrite Heq in *.
  unfold ParseInt. pose proof (digit_code d) as Hd.
  assert (∀ c, code c < 48 → Ascii.eqb (byte_of (48 + d mod 10)) c = false) as Hne.
  { intros c Hc. apply Ascii.eqb_neq. intros Hx. rewrite Hx in Hd. lia. }
  rewrite !Hne by (vm_compute; done). cbn [orb negb andb]. rewrite Hp.
  replace (2 ^ 63 <=? n) with false by (symmetry; blia). done.
Qed.

(** ** Ranging over a Go map

    The order is unspecified: any permutation of the entries. *)
Class GoRange := {
  go_range {A : Type} : list A → list A;
  go_range_perm {A} (l : list A) : go_range l ≡ₚ l;
}.

Definition range_id : GoRange := {| go_range A l := l; go_range_perm A l := Permutation_refl l |}.
