(* ===== verification/GoNet.v ===== *)
(** * Packages net and net/url of the Go standard library

    What the code uses of them, as of Go 1.25: parsing an IP address and the
    classes of addresses, parsing a URL into host and path, percent decoding and
    [net.SplitHostPort].  An address is its 16 bytes, IPv4 in its mapped form. *)

From S2P Require Import Prelude GoStd GoText.
From Stdlib Require Import Ascii.
Open Scope Z_scope.

(** ** Characters *)

Definition is_digit (a : ascii) : bool := (48 <=? code a) && (code a <=? 57).
Definition is_letter (a : ascii) : bool :=
  ((65 <=? code a) && (code a <=? 90)) || ((97 <=? code a) && (code a <=? 122)).

Definition unhex (a : ascii) : option Z :=
  match digit_value a with Some d => if d <? 16 then Some d else None | None => None end.

(** [hex.DecodeString]: digits of either case, in pairs. *)
Fixpoint DecodeString (s : string) : option string :=
  match s with
  | EmptyString => Some EmptyString
  | String h (String l rest) =>
      match unhex h, unhex l, DecodeString rest with
      | Some vh, Some vl, Some t => Some (String (byte_of (vh * 16 + vl)) t)
      | _, _, _ => None
      end
  | _ => None
  end.

Definition one_of (chars : string) (a : ascii) : bool := negb (str_no a chars).

(** ** IP addresses *)

Definition IP : Type := list Z.

Definition IPv4 (a b c d : Z) : IP := repeat 0 10 ++ [255; 255; a; b; c; d].

(** A field of dotted decimal: digits without a superfluous zero, at most 255. *)
Definition octet (s : string) : option Z :=
  match s with
  | EmptyString => None
  | String a rest =>
      if Ascii.eqb a "0" && negb (String.eqb rest "") then None
      else if str_forallb is_digit s then
        match parse_digits 10 0 s with Some v => if v <=? 255 then Some v else None | None => None end
      else None
  end.

Definition parseIPv4 (s : string) : option (list Z) :=
  match Split "." s with
  | [a; b; c; d] =>
      match octet a, octet b, octet c, octet d with
      | Some a, Some b, Some c, Some d => Some [a; b; c; d]
      | _, _, _, _ => None
      end
  | _ => None
  end.

(** The leading hexadecimal digits of a group: their number, value and the rest. *)
Fixpoint hex_prefix (s : string) (n : nat) (acc : Z) : nat * Z * string :=
  match s with
  | EmptyString => (n, acc, s)
  | String a s' => match unhex a with Some d => hex_prefix s' (S n) (acc * 16 + d) | None => (n, acc, s) end
  end.

(** The groups of an IPv6 address: their bytes, without those an ellipsis (whose
    position is kept) stands for.  The fuel is the number of groups. *)
Fixpoint v6_groups (fuel : nat) (s : string) (bytes : list Z) (ellipsis : option nat)
  : option (list Z * option nat) :=
  match fuel with
  | O => if String.eqb s "" then Some (bytes, ellipsis) else None
  | S fuel =>
      let '(n, acc, rest) := hex_prefix s 0 0 in
      if (n =? 0)%nat || (4 <? n)%nat then None
      else
        match rest with
        | EmptyString => Some (bytes ++ [acc / 256; acc mod 256], ellipsis)
        | String a rest =>
            if Ascii.eqb a "." then
              if match ellipsis with None => negb (length bytes =? 12)%nat | Some _ => false end then None
              else if (16 <? length bytes + 4)%nat then None
              else match parseIPv4 s with Some v4 => Some (bytes ++ v4, ellipsis) | None => None end
            else
            let bytes := bytes ++ [acc / 256; acc mod 256] in
            if negb (Ascii.eqb a ":") then None
            else
              match rest with
              | EmptyString => None
              | String b rest' =>
                  if Ascii.eqb b ":" then
                    match ellipsis with
                    | Some _ => None
                    | None => if String.eqb rest' "" then Some (bytes, Some (length bytes))
                              else v6_groups fuel rest' bytes (Some (length bytes))
                    end
                  else v6_groups fuel rest bytes ellipsis
              end
        end
  end.

(** Zeros fill the place of the ellipsis, which stands for at least one group. *)
Definition v6_expand (r : list Z * option nat) : option IP :=
  let '(bytes, ellipsis) := r in
  match ellipsis with
  | None => if (length bytes =? 16)%nat then Some bytes else None
  | Some e =>
      if (length bytes <? 16)%nat
      then Some (take e bytes ++ repeat 0 (16 - length bytes) ++ drop e bytes) else None
  end.

Definition parseIPv6 (s : string) : option IP :=
  if HasPrefix s "::" then
    let s := str_drop 2 s in
    if String.eqb s "" then Some (repeat 0 16)
    else v6_groups 8 s [] (Some 0%nat) ≫= v6_expand
  else v6_groups 8 s [] None ≫= v6_expand.

(** [net.ParseIP]; an address with a zone is refused. *)
Definition ParseIP (s : string) : option IP :=
  match List.filter (one_of ".:%") (String.list_ascii_of_string s) with
  | a :: _ =>
      if Ascii.eqb a "." then
        parseIPv4 s ≫= λ v4, match v4 with [a; b; c; d] => Some (IPv4 a b c d) | _ => None end
      else if Ascii.eqb a ":" then if str_no "%" s then parseIPv6 s else None
      else None
  | [] => None
  end.

(** [ip.To4()]. *)
Definition To4 (ip : IP) : option (Z * Z * Z * Z) :=
  match ip with
  | [0; 0; 0; 0; 0; 0; 0; 0; 0; 0; 255; 255; a; b; c; d] => Some (a, b, c, d)
  | _ => None
  end.

Definition byte_at (ip : IP) (i : nat) : Z := default 0 (ip !! i).

Definition IsLoopback (ip : IP) : bool :=
  match To4 ip with
  | Some (a, _, _, _) => a =? 127
  | None => bool_decide (ip = repeat 0 15 ++ [1])
  end.

Definition IsPrivate (ip : IP) : bool :=
  match To4 ip with
  | Some (a, b, _, _) => (a =? 10) || ((a =? 172) && (Z.land b 240 =? 16)) || ((a =? 192) && (b =? 168))
  | None => Z.land (byte_at ip 0) 254 =? 252
  end.

Definition IsLinkLocalUnicast (ip : IP) : bool :=
  match To4 ip with
  | Some (a, b, _, _) => (a =? 169) && (b =? 254)
  | None => (byte_at ip 0 =? 254) && (Z.land (byte_at ip 1) 192 =? 128)
  end.

Definition IsLinkLocalMulticast (ip : IP) : bool :=
  match To4 ip with
  | Some (a, b, c, _) => (a =? 224) && (b =? 0) && (c =? 0)
  | None => (byte_at ip 0 =? 255) && (Z.land (byte_at ip 1) 15 =? 2)
  end.

Definition IsUnspecified (ip : IP) : bool :=
  match To4 ip with
  | Some (a, b, c, d) => (a =? 0) && (b =? 0) && (c =? 0) && (d =? 0)
  | None => bool_decide (ip = repeat 0 16)
  end.

Example ParseIP_ex1 : ParseIP "192.168.1.20" = Some (IPv4 192 168 1 20). Proof. reflexivity. Qed.
Example ParseIP_ex2 : ParseIP "fe80::1:2" = Some [254; 128; 0; 0; 0; 0; 0; 0; 0; 0; 0; 0; 0; 1; 0; 2].
Proof. reflexivity. Qed.
Example ParseIP_ex3 : ParseIP "::ffff:10.0.0.1" = Some (IPv4 10 0 0 1). Proof. reflexivity. Qed.
Example ParseIP_ex4 : map ParseIP ["127.0.0.01"; "1.2.3"; "::1%eth0"; "1:2:3:4:5:6:7:8:9"; "256.1.1.1"; ":::"; "1::2::3"]
  = repeat None 7.
Proof. reflexivity. Qed.

(** ** Percent encoding *)

Inductive encoding := encodePath | encodeHost | encodeZone | encodeUser.

(** ASCII bytes a host or zone may contain unescaped. *)
Definition host_char (a : ascii) : bool :=
  is_letter a || is_digit a || (code a =? 34) || one_of "!$&'()*+,;=:[]<>-_.~" a.

(** [unescape]: [None] is an error. *)
Fixpoint unescape (mode : encoding) (s : string) : option string :=
  match s with
  | EmptyString => Some EmptyString
  | String a s' =>
      if Ascii.eqb a "%" then
        match s' with
        | String h (String l rest) =>
            match unhex h, unhex l with
            | Some vh, Some vl =>
                let v := byte_of (vh * 16 + vl) in
                let is25 := Ascii.eqb h "2" && Ascii.eqb l "5" in
                if match mode with
                   | encodeHost => (vh <? 8) && negb is25
                   | encodeZone => negb is25 && negb (code v =? 32) && negb (host_char v)
                   | _ => false
                   end
                then None
                else String v <$> unescape mode rest
            | _, _ => None
            end
        | _ => None
        end
      else if match mode with
              | encodeHost | encodeZone => (code a <? 128) && negb (host_char a)
              | _ => false
              end
      then None
      else String a <$> unescape mode s'
  end.

(** [url.PathUnescape]. *)
Definition PathUnescape (s : string) : option string := unescape encodePath s.

(** ** url.Parse *)

Record URL := mkURL { u_Scheme : string; u_Host : string; u_Path : string; u_RawQuery : string }.

(** [getScheme]: scheme and rest; [None] is an error. *)
Fixpoint scheme_loop (s seen : string) : option (string * string) :=
  match s with
  | EmptyString => Some ("", seen)
  | String a s' =>
      let next := scheme_loop s' (seen +:+ String a "") in
      if is_letter a then next
      else if is_digit a || one_of "+-." a then
        if String.eqb seen "" then Some ("", s) else next
      else if Ascii.eqb a ":" then if String.eqb seen "" then None else Some (seen, s')
      else Some ("", seen +:+ s)
  end.

Definition validOptionalPort (port : string) : bool :=
  match port with
  | EmptyString => true
  | String a s => Ascii.eqb a ":" && str_forallb is_digit s
  end.

Definition validUserinfo (s : string) : bool :=
  str_forallb (λ a, is_letter a || is_digit a || one_of "-._:~!$&'()*+,;=%@" a) s.

(** A bracketed host must be an IPv6 address, possibly with a zone. *)
Definition bracketed (inner : string) : bool :=
  let '(addr, zone, has) := Cut "%" inner in
  (negb has || negb (String.eqb zone "")) && negb (str_no ":" addr)
  && match parseIPv6 addr with Some _ => true | None => false end.

Definition parseHost (host : string) : option string :=
  match LastIndexByte "[" host with
  | Some o =>
      match LastIndexByte "]" host with
      | None => None
      | Some c =>
          let colonPort := str_drop (S c) host in
          if negb (validOptionalPort colonPort) || (c <? o)%nat then None
          else
            let hostname := str_take (c - S o) (str_drop (S o) host) in
            let unescaped :=
              match Index hostname "%25" with
              | Some z => unescape encodeHost (str_take z hostname) ≫= λ h,
                          unescape encodeZone (str_drop z hostname) ≫= λ z, Some (h +:+ z)
              | None => unescape encodeHost hostname
              end in
            unescaped ≫= λ h, if bracketed h then Some ("[" +:+ h +:+ "]" +:+ colonPort) else None
      end
  | None =>
      match LastIndexByte ":" host with
      | Some i => if validOptionalPort (str_drop i host) then unescape encodeHost host else None
      | None => unescape encodeHost host
      end
  end.

Definition parseAuthority (authority : string) : option string :=
  match LastIndexByte "@" authority with
  | None => parseHost authority
  | Some i =>
      parseHost (str_drop (S i) authority) ≫= λ host,
      let userinfo := str_take i authority in
      if validUserinfo userinfo then
        let '(user, password, _) := Cut ":" userinfo in
        match unescape encodeUser user, unescape encodeUser password with
        | Some _, Some _ => Some host
        | _, _ => None
        end
      else None
  end.

Definition ctl_byte (a : ascii) : bool := (code a <? 32) || (code a =? 127).

Definition url_Parse `{GoUnicode} (rawURL : string) : option URL :=
  let '(u, frag, _) := Cut "#" rawURL in
  if negb (str_forallb (λ a, negb (ctl_byte a)) u) then None
  else
    let parsed :=
      if String.eqb u "*" then Some (mkURL "" "" "*" "")
      else
        scheme_loop u "" ≫= λ sr,
        let scheme := ToLower sr.1 in
        let '(rest, query, _) := Cut "?" sr.2 in
        if negb (HasPrefix rest "/") && negb (String.eqb scheme "") then Some (mkURL scheme "" "" query)
        else if negb (HasPrefix rest "/") && negb (str_no ":" (until_any (Ascii.eqb slash) rest)) then None
        else if (negb (String.eqb scheme "") || negb (HasPrefix rest "///")) && HasPrefix rest "//" then
          let a := str_drop 2 rest in
          let authority := until_any (Ascii.eqb slash) a in
          parseAuthority authority ≫= λ host,
          unescape encodePath (str_drop (String.length authority) a) ≫= λ path,
          Some (mkURL scheme host path query)
        else unescape encodePath rest ≫= λ path, Some (mkURL scheme "" path query)
    in
    match unescape encodePath frag with Some _ => parsed | None => None end.

(** [u.Hostname()]. *)
Definition Hostname (u : URL) : string :=
  let host := u_Host u in
  let host := match LastIndexByte ":" host with
              | Some i => if validOptionalPort (str_drop i host) then str_take i host else host
              | None => host
              end in
  if HasPrefix host "[" && HasSuffix host "]" then str_take (String.length host - 2) (str_drop 1 host) else host.

(** ** net.SplitHostPort *)
Definition SplitHostPort (hostport : string) : option (string * string) :=
  match LastIndexByte ":" hostport with
  | None => None
  | Some i =>
      let port := str_drop (S i) hostport in
      if HasPrefix hostport "[" then
        match Index hostport "]" with
        | None => None
        | Some e =>
            if (S e =? String.length hostport)%nat || negb (S e =? i)%nat then None
            else if negb (str_no "[" (str_drop 1 hostport)) || negb (str_no "]" (str_drop (S e) hostport)) then None
            else Some (str_take (e - 1) (str_drop 1 hostport), port)
        end
      else
        let host := str_take i hostport in
        if negb (str_no ":" host) || negb (str_no "[" hostport) || negb (str_no "]" hostport) then None
        else Some (host, port)
  end.

Section examples.
#[local] Existing Instance ascii_only.

Example Parse_ex1 :
  (λ u, (u_Scheme u, Hostname u, u_Path u)) <$> url_Parse "HTTP://user:pw@Deb.debian.org:80/debian/pool/a%2Bb.deb?x=1#f"
  = Some ("http", "Deb.debian.org", "/debian/pool/a+b.deb").
Proof. reflexivity. Qed.
Example Parse_ex2 : Hostname <$> url_Parse "http://[::1]:3142/x" = Some "::1". Proof. reflexivity. Qed.
Example Parse_ex3 : map (λ u, u_Host <$> url_Parse u) ["http://a b/"; "http://h:8x/"; ":x"; "mailto:me"; "/rel/path"; "a:b/c"]
  = [None; None; None; Some ""; Some ""; Some ""].
Proof. reflexivity. Qed.
Example SplitHostPort_ex : map SplitHostPort ["deb.debian.org:443"; "[::1]:80"; "::1:80"; "host"; "[::1]"]
  = [Some ("deb.debian.org", "443"); Some ("::1", "80"); None; None; None].
Proof. reflexivity. Qed.
End examples.
