(* ===== verification/HashUtil.v ===== *)
(** * internal/hashutil: SHA-256 during I/O

    [crypto/sha256] is a parameter: a digest function into 32 bytes
    ([Sha256]).  A [hash.Hash] is the byte string absorbed so far, as its
    documentation specifies: [Write] adds data to the running hash and [Sum]
    does not change the state. *)

From S2P Require Import Prelude GoStd.
From Stdlib Require Import Ascii.
Open Scope Z_scope.

(** ** crypto/sha256 *)
Class Sha256 := {
  Sum256 : string → string;
  Sum256_length : ∀ s, String.length (Sum256 s) = 32%nat;
}.

(** A well-formed hex SHA-256. *)
Definition valid_hash (h : string) : bool :=
  (String.length h =? 64)%nat && str_forallb is_lower_hex h.

(** ** A writer over a byte sink

    The behaviour of the underlying [io.Writer] on a buffer: [None] when it
    takes everything, [Some n] when it fails after [n] bytes. *)
Definition Sink := string → option nat.

Definition sink_write (w : Sink) (p : string) : string * bool :=
  match w p with
  | None => (p, true)
  | Some n => (str_take n p, false)
  end.

Record HashingWriter := mkHashingWriter {
  hw_out : string;     (* the bytes the underlying writer has taken *)
  hw_hasher : string;  (* the bytes absorbed by the running hash *)
}.

Definition NewHashingWriter : HashingWriter := {| hw_out := ""; hw_hasher := "" |}.

(** [n, err := hw.w.Write(p); if n > 0 { hw.hasher.Write(p[:n]) }]. *)
Definition hw_Write (w : Sink) (hw : HashingWriter) (p : string) : HashingWriter * nat * bool :=
  let '(taken, ok) := sink_write w p in
  let n := String.length taken in
  ({| hw_out := hw_out hw +:+ taken;
      hw_hasher := if (0 <? n)%nat then hw_hasher hw +:+ str_take n p else hw_hasher hw |},
   n, ok).

(** [io.Copy] into a [HashingWriter] from a reader that delivers [chunks] and
    then ends with EOF ([rd_ok]) or an error.  Returns the writer, the byte
    count and whether the copy succeeded. *)
Fixpoint io_Copy (w : Sink) (chunks : list string) (rd_ok : bool) (hw : HashingWriter) (written : Z)
  : HashingWriter * Z * bool :=
  match chunks with
  | [] => (hw, written, rd_ok)
  | p :: rest =>
      let '(hw', n, ok) := hw_Write w hw p in
      let written' := written + Z.of_nat n in
      if ok then
        if (n =? String.length p)%nat then io_Copy w rest rd_ok hw' written'
        else (hw', written', false)
      else (hw', written', false)
  end.

Record HashingReader := mkHashingReader {
  hr_src : string;     (* what the underlying reader still has *)
  hr_hasher : string;
}.

Definition NewHashingReader (r : string) : HashingReader := {| hr_src := r; hr_hasher := "" |}.

(** A [Read] for which the underlying reader delivers [n] bytes. *)
Definition hr_Read (n : nat) (hr : HashingReader) : HashingReader * string :=
  let d := str_take n (hr_src hr) in
  ({| hr_src := str_drop n (hr_src hr);
      hr_hasher := if (0 <? String.length d)%nat then hr_hasher hr +:+ d else hr_hasher hr |}, d).

Section sha.
Context `{Sha256}.

Definition HashBytes (data : string) : string := EncodeToString (Sum256 data).

Definition hw_Sum (hw : HashingWriter) : string := EncodeToString (Sum256 (hw_hasher hw)).

Definition hr_Sum (hr : HashingReader) : string := EncodeToString (Sum256 (hr_hasher hr)).

(** Reads everything; [None] is a read error. *)
Definition HashReader (r : option string) : option string :=
  match r with
  | Some data => Some (EncodeToString (Sum256 data))
  | None => None
  end.

Definition Verify (r : option string) (expectedHash : string) : option bool :=
  match HashReader r with
  | Some actual => Some (String.eqb actual expectedHash)
  | None => None
  end.

(** *** Facts *)

Lemma hex_digit_lower z : 0 <= z < 16 → is_lower_hex (hex_digit z) = true.
Proof.
  intros Hz. assert (z ∈ seqZ 0 16) as Hin by (apply elem_of_seqZ; lia).
  revert Hin. clear Hz. revert z.
  apply Forall_forall. vm_compute. repeat constructor.
Qed.

Lemma EncodeToString_hex s : str_forallb is_lower_hex (EncodeToString s) = true.
Proof.
  induction s as [|a s IH]; [done|]. simpl. rewrite !andb_true_iff.
  pose proof (code_range a).
  split_and!; [apply hex_digit_lower..|done].
  - split; [apply Z.div_pos; lia|apply Z.div_lt_upper_bound; lia].
  - apply Z.mod_pos_bound. lia.
Qed.

Lemma EncodeToString_length s : String.length (EncodeToString s) = (2 * String.length s)%nat.
Proof. induction s as [|a s IH]; [done|]. simpl. rewrite IH. lia. Qed.

Lemma HashBytes_valid data : valid_hash (HashBytes data) = true.
Proof.
  unfold valid_hash, HashBytes. rewrite EncodeToString_length, Sum256_length.
  by rewrite EncodeToString_hex.
Qed.

Lemma hw_Write_inv w hw p :
  hw_out hw = hw_hasher hw →
  let '(hw', n, ok) := hw_Write w hw p in
  hw_out hw' = hw_hasher hw'.
Proof.
  intros Heq. unfold hw_Write, sink_write. destruct (w p) as [k|].
  - simpl. rewrite Heq. destruct (str_take k p) as [|a t] eqn:Ht; simpl.
    + by rewrite str_app_nil_r.
    + f_equal. rewrite <- (str_take_drop k p), Ht. simpl.
      change (String a (str_take (String.length t) (t +:+ str_drop k p)))
        with (str_take (String.length (String a t)) (String a t +:+ str_drop k p)).
      by rewrite str_take_app.
  - simpl. rewrite Heq. destruct p as [|a t]; simpl; [by rewrite str_app_nil_r|].
    by rewrite str_take_all.
Qed.

(** The running hash always covers exactly the bytes the sink has taken, even
    when a write fails part-way. *)
Lemma io_Copy_inv w chunks rd_ok hw n :
  hw_out hw = hw_hasher hw →
  let '(hw', _, _) := io_Copy w chunks rd_ok hw n in
  hw_out hw' = hw_hasher hw'.
Proof.
  revert hw n. induction chunks as [|p rest IH]; intros hw n Heq; simpl; [done|].
  pose proof (hw_Write_inv w hw p Heq) as Hw.
  destruct (hw_Write w hw p) as [[hw' k] ok]. destruct ok; [|done].
  destruct (k =? String.length p)%nat; [|done]. by apply IH.
Qed.

(** A successful copy delivers the concatenation of the chunks and counts it. *)
Lemma io_Copy_ok w chunks rd_ok hw n :
  let '(hw', n', ok) := io_Copy w chunks rd_ok hw n in
  ok = true →
  hw_out hw' = hw_out hw +:+ Join chunks "" ∧
  n' = n + Z.of_nat (String.length (Join chunks "")).
Proof.
  revert hw n. induction chunks as [|p rest IH]; intros hw n; simpl.
  - intros _. unfold Join. simpl. rewrite str_app_nil_r. split; [done|lia].
  - assert (Join (p :: rest) "" = p +:+ Join rest "") as Hj.
    { unfold Join. destruct rest; simpl; [by rewrite str_app_nil_r|done]. }
    unfold hw_Write, sink_write. destruct (w p) as [k|]; simpl; [done|].
    rewrite Nat.eqb_refl.
    specialize (IH {| hw_out := hw_out hw +:+ p;
      hw_hasher := if (0 <? String.length p)%nat then hw_hasher hw +:+ str_take (String.length p) p
                   else hw_hasher hw |} (n + Z.of_nat (String.length p))).
    destruct (io_Copy _ _ _ _ _) as [[hw' n'] ok]. intros Hok.
    destruct (IH Hok) as [-> ->]. simpl. rewrite Hj, str_app_assoc, str_length_app.
    split; [done|lia].
Qed.
End sha.

(** A concrete digest for evaluating examples (not SHA-256): the length and the
    bytes of the input, repeated to 32 bytes. *)
Definition toy_sum (s : string) : string :=
  str_take 32 (String (byte_of (Z.of_nat (String.length s))) (s +:+
    String.concat "" (replicate 32 (String (byte_of 90) "")))).

Lemma toy_sum_length s : String.length (toy_sum s) = 32%nat.
Proof.
  unfold toy_sum. apply str_length_take. simpl. rewrite str_length_app. simpl. lia.
Qed.

Definition toy_sha : Sha256 := {| Sum256 := toy_sum; Sum256_length := toy_sum_length |}.
