(* ===== verification/DebName.v ===== *)
(** * internal/cache/parser.go: package metadata from a file name

    [{name}_{version}_{arch}.deb]: the architecture and the version are the last
    two pieces between underscores, the name is everything before them. *)

From S2P Require Import Prelude GoStd.
From Stdlib Require Import Ascii.
Open Scope Z_scope.

Section deb_name.
Context `{GoUnicode}.

(** Returns [(name, version, arch, ok)]. *)
Definition ParseDebFilename (filename : string) : string * string * string * bool :=
  let base := filepath_Base filename in
  if negb (HasSuffix (ToLower base) ".deb") then ("", "", "", false)
  else
    let base := str_take (String.length base - 4) base in
    let parts := Split "_" base in
    if (length parts <? 3)%nat then ("", "", "", false)
    else
      let arch := default "" (parts !! (length parts - 1)%nat) in
      let version := default "" (parts !! (length parts - 2)%nat) in
      let name := Join (take (length parts - 2) parts) "_" in
      if String.eqb name "" || String.eqb version "" || String.eqb arch ""
      then ("", "", "", false)
      else (name, version, arch, true).

Definition ParseDebFilenameFromPath (path : string) : string * string * string :=
  let '(name, version, arch, _) := ParseDebFilename path in (name, version, arch).

(** The file name a triple is published under. *)
Definition deb_filename (name version arch : string) : string :=
  name +:+ "_" +:+ version +:+ "_" +:+ arch +:+ ".deb".

(** *** Facts *)

Definition deb_part (s : string) : bool :=
  negb (String.eqb s "") && str_no slash s && str_no "_" s && isASCII s.

Lemma str_map_app f a b : str_map f (a +:+ b) = str_map f a +:+ str_map f b.
Proof. induction a; simpl; congruence. Qed.

Lemma filepath_Base_plain dir f :
  f ≠ "" → str_no slash f = true →
  filepath_Base (dir +:+ "/" +:+ f) = f ∧ filepath_Base f = f.
Proof.
  intros Hne Hns. unfold filepath_Base.
  assert (String.eqb f "" = false) as Hf by by apply String.eqb_neq.
  rewrite Hf. rewrite (Split_no slash f Hns). simpl. rewrite Hf. simpl. split; [|done].
  destruct (String.eqb_spec (dir +:+ String slash f) "") as [He|_]; [by destruct dir|].
  rewrite Split_app, (Split_no slash f Hns), List.filter_app. simpl. rewrite Hf. simpl.
  by rewrite last_snoc.
Qed.

Lemma ToLower_deb s :
  isASCII s = true → HasSuffix (ToLower (s +:+ ".deb")) ".deb" = true.
Proof.
  intros Hs. unfold ToLower.
  assert (isASCII (s +:+ ".deb") = true) as ->.
  { unfold isASCII in *. rewrite str_forallb_app, Hs. done. }
  rewrite str_map_app. apply (HasSuffix_app (str_map ascii_lower s) ".deb").
Qed.

(** The parts of a stem split at underscores, from the right. *)
Lemma parts_of_stem nparts version arch :
  nparts ≠ [] → Forall (λ s, str_no "_" s = true) nparts →
  str_no "_" version = true → str_no "_" arch = true →
  Split "_" (Join nparts "_" +:+ String "_" (version +:+ String "_" arch))
  = nparts ++ [version; arch].
Proof.
  intros Hne Hn Hv Ha.
  rewrite Split_app, Split_Join, Split_app, (Split_no _ version), (Split_no _ arch) by done.
  done.
Qed.

(** What a stem with at least three parts parses to. *)
Lemma parse_parts nparts version arch :
  let parts := nparts ++ [version; arch] in
  default "" (parts !! (length parts - 1)%nat) = arch ∧
  default "" (parts !! (length parts - 2)%nat) = version ∧
  take (length parts - 2) parts = nparts.
Proof.
  simpl. rewrite length_app. simpl.
  replace (length nparts + 2 - 1)%nat with (length nparts + 1)%nat by lia.
  replace (length nparts + 2 - 2)%nat with (length nparts) by lia.
  rewrite (lookup_app_r nparts) by lia. rewrite (lookup_app_r nparts) by lia.
  replace (length nparts + 1 - length nparts)%nat with 1%nat by lia.
  rewrite Nat.sub_diag. split_and!; [done..|]. by rewrite take_app_length.
Qed.

Lemma parts_decompose (parts : list string) :
  (3 <= length parts)%nat → ∃ np v a, parts = np ++ [v; a] ∧ np ≠ [].
Proof.
  intros Hl. destruct parts as [|a parts _] using rev_ind; [simpl in *; lia|].
  destruct parts as [|v np _] using rev_ind; [simpl in *; lia|].
  exists np, v, a. rewrite <- app_assoc. split; [done|].
  intros ->. simpl in *. lia.
Qed.

Lemma str_length_map f s : String.length (str_map f s) = String.length s.
Proof. induction s; simpl; congruence. Qed.

(** Removing the extension of an ASCII base name removes its last four bytes. *)
Lemma deb_extension s :
  isASCII s = true → HasSuffix (ToLower s) ".deb" = true →
  let ext := str_drop (String.length s - 4) s in
  String.length ext = 4%nat ∧ ToLower ext = ".deb".
Proof.
  intros Hs Hsuf. unfold ToLower in Hsuf. rewrite Hs in Hsuf.
  apply HasSuffix_inv in Hsuf as [x Hx].
  pose proof (f_equal String.length Hx) as Hlen.
  rewrite str_length_map, str_length_app in Hlen. simpl in Hlen.
  assert (String.length (str_take (String.length s - 4) s) = String.length x) as Hl4.
  { rewrite str_length_take; lia. }
  cbv zeta. split; [rewrite str_length_drop; lia|].
  rewrite <- (str_take_drop (String.length s - 4) s) in Hs, Hx.
  unfold isASCII in Hs. rewrite str_forallb_app in Hs. apply andb_true_iff in Hs as [_ Hs].
  unfold ToLower, isASCII. rewrite Hs. rewrite str_map_app in Hx.
  apply str_app_inj_len in Hx as [_ Hx]; [done|]. by rewrite str_length_map.
Qed.

(** A published file name, with or without a directory in front, parses
    back to the name, version and architecture it was built from, also when
    the name itself contains underscores. *)
Theorem deb_filename_roundtrip dir name version arch :
  name ≠ "" → str_no slash name = true → isASCII name = true →
  deb_part version = true → deb_part arch = true →
  ParseDebFilename (dir +:+ "/" +:+ deb_filename name version arch) = (name, version, arch, true) ∧
  ParseDebFilename (deb_filename name version arch) = (name, version, arch, true).
Proof.
  intros Hn Hns Hna Hv Ha. unfold deb_part in Hv, Ha.
  rewrite !andb_true_iff, negb_true_iff in Hv, Ha.
  destruct Hv as [[[Hv0 Hvs] Hvu] Hva], Ha as [[[Ha0 Has] Hau] Haa].
  set (stem := name +:+ String "_" (version +:+ String "_" arch)).
  assert (deb_filename name version arch = stem +:+ ".deb") as ->.
  { unfold deb_filename, stem. cbn [String.append].
    rewrite str_app_assoc. cbn [String.append]. rewrite str_app_assoc. done. }
  assert (isASCII stem = true) as Hsa.
  { unfold isASCII in *. unfold stem. rewrite str_forallb_app. simpl.
    rewrite str_forallb_app. simpl. by rewrite Hna, Hva, Haa. }
  assert (str_no slash (stem +:+ ".deb") = true) as Hss.
  { unfold str_no in *. unfold stem. rewrite !str_forallb_app. simpl.
    rewrite str_forallb_app. simpl. by rewrite Hns, Hvs, Has. }
  destruct (filepath_Base_plain dir (stem +:+ ".deb")) as [Hb1 Hb2];
    [by unfold stem; destruct name|done|].
  assert (∀ f, filepath_Base f = stem +:+ ".deb" → ParseDebFilename f = (name, version, arch, true))
    as Hparse; [|split; apply Hparse; assumption].
  intros f Hf. unfold ParseDebFilename. rewrite Hf, ToLower_deb by done. cbn [negb].
  rewrite str_length_app.
  replace (String.length stem + String.length ".deb" - 4)%nat with (String.length stem) by (simpl; lia).
  rewrite str_take_app. unfold stem.
  assert (Split "_" (name +:+ String "_" (version +:+ String "_" arch))
          = Split "_" name ++ [version; arch]) as ->.
  { rewrite <- (Join_Split "_" name) at 1.
    apply parts_of_stem; (done || apply Split_nonnil || apply Split_pieces). }
  destruct (parse_parts (Split "_" name) version arch) as (-> & -> & ->).
  rewrite Join_Split.
  assert ((length (Split "_" name ++ [version; arch]) <? 3)%nat = false) as ->.
  { apply Nat.ltb_ge. rewrite length_app. simpl. pose proof (Split_nonnil "_" name).
    destruct (Split "_" name); [done|simpl; lia]. }
  assert (String.eqb name "" = false) as -> by by apply String.eqb_neq.
  by rewrite Hv0, Ha0.
Qed.

(** Whenever parsing succeeds on an ASCII base name, the base name is
    exactly [name_version_arch] and four more bytes (the extension), none of
    the fields is empty, and version and architecture contain no underscore. *)
Theorem ParseDebFilename_sound f name version arch :
  isASCII (filepath_Base f) = true →
  ParseDebFilename f = (name, version, arch, true) →
  ∃ ext, filepath_Base f = name +:+ "_" +:+ version +:+ "_" +:+ arch +:+ ext ∧
    String.length ext = 4%nat ∧ ToLower ext = ".deb" ∧
    name ≠ "" ∧ version ≠ "" ∧ arch ≠ "" ∧
    str_no "_" version = true ∧ str_no "_" arch = true.
Proof.
  intros Hasc. unfold ParseDebFilename. set (base := filepath_Base f) in *.
  destruct (HasSuffix (ToLower base) ".deb") eqn:Hsuf; [|done]. cbn [negb].
  destruct (deb_extension base Hasc Hsuf) as [Hl Hext].
  set (stem := str_take (String.length base - 4) base).
  destruct (length (Split "_" stem) <? 3)%nat eqn:Hlen; [done|]. apply Nat.ltb_ge in Hlen.
  destruct (parts_decompose _ Hlen) as (np & v & a & Hp & Hnp).
  pose proof (Split_pieces "_" stem) as Hpieces. pose proof (Join_Split "_" stem) as Hstem.
  rewrite Hp in *. destruct (parse_parts np v a) as (-> & -> & ->).
  destruct (String.eqb_spec (Join np "_") "") as [|Hn]; [done|].
  destruct (String.eqb_spec v "") as [|Hv]; [done|].
  destruct (String.eqb_spec a "") as [|Ha]; [done|]. simpl. intros [= <- <- <-].
  exists (str_drop (String.length base - 4) base).
  rewrite Forall_app in Hpieces. destruct Hpieces as [_ Hpieces].
  inversion_clear Hpieces as [|? ? Hv' Hpieces']. inversion_clear Hpieces' as [|? ? Ha' _].
  rewrite Join_app in Hstem by done. change (Join [v; a] "_") with (v +:+ String "_" a) in Hstem.
  split_and!; try done.
  rewrite <- (str_take_drop (String.length base - 4) base) at 1. fold stem.
  rewrite <- Hstem. rewrite str_app_assoc. simpl. by rewrite str_app_assoc.
Qed.
End deb_name.

(** *** Witnesses *)
#[local] Existing Instance ascii_only.

Lemma deb_filename_roundtrip_witness :
  ParseDebFilename "/pool/main/a_b_1.2_amd64.deb" = ("a_b", "1.2", "amd64", true).
Proof. apply (deb_filename_roundtrip "/pool/main" "a_b" "1.2" "amd64"); (done || reflexivity). Defined.

Lemma ParseDebFilename_sound_witness :
  ∃ ext, "hello_2.10_i386.DEB" = "hello" +:+ "_" +:+ "2.10" +:+ "_" +:+ "i386" +:+ ext ∧ ToLower ext = ".deb".
Proof.
  destruct (ParseDebFilename_sound "x/hello_2.10_i386.DEB" "hello" "2.10" "i386")
    as (ext & Hb & _ & Hl & _); [vm_compute; reflexivity|vm_compute; reflexivity|].
  exists ext. split; [exact Hb|exact Hl].
Defined.
