(* ===== verification/Sql.v ===== *)
(** * What the caches use of SQLite

    A table with a primary key is a finite map from keys to rows.  A statement
    either succeeds or fails as a whole; the failures are the environment's
    choice.  The order of a result set is only what its [ORDER BY] clause fixes,
    so it is an interface ([SqlOrder]): any reordering of the selected rows that
    is sorted by the clause's comparison. *)

From S2P Require Import Prelude.

Class SqlOrder := {
  sql_order {A : Type} (le : A → A → bool) (l : list A) : list A;
  sql_order_perm {A} (le : A → A → bool) (l : list A) : sql_order le l ≡ₚ l;
  sql_order_sorted {A} (le : A → A → bool) (l : list A) :
    (∀ x y, le x y = true ∨ le y x = true) →
    (∀ x y z, le x y = true → le y z = true → le x z = true) →
    StronglySorted (λ x y, le x y = true) (sql_order le l);
}.

(** An implementation: insertion sort. *)
Section insertion_sort.
Context {A : Type} (le : A → A → bool).

Fixpoint sorted_insert (x : A) (l : list A) : list A :=
  match l with
  | [] => [x]
  | y :: l' => if le x y then x :: l else y :: sorted_insert x l'
  end.

Fixpoint isort (l : list A) : list A :=
  match l with [] => [] | x :: l => sorted_insert x (isort l) end.

Lemma sorted_insert_perm x l : sorted_insert x l ≡ₚ x :: l.
Proof.
  induction l as [|y l IH]; simpl; [done|]. destruct (le x y); [done|].
  rewrite IH. by apply Permutation_swap.
Qed.

Lemma isort_perm l : isort l ≡ₚ l.
Proof. induction l as [|x l IH]; simpl; [done|]. by rewrite sorted_insert_perm, IH. Qed.

Lemma isort_sorted l :
  (∀ x y, le x y = true ∨ le y x = true) →
  (∀ x y z, le x y = true → le y z = true → le x z = true) →
  StronglySorted (λ x y, le x y = true) (isort l).
Proof.
  intros Htot Htrans. induction l as [|x l IH]; simpl; [constructor|].
  induction IH as [|y ys Hys IH Hall]; simpl; [by repeat constructor|].
  destruct (le x y) eqn:Hxy.
  - constructor; [by constructor|]. constructor; [done|].
    eapply Forall_impl; [exact Hall|]. eauto.
  - constructor; [done|]. rewrite sorted_insert_perm. constructor; [|done].
    destruct (Htot x y); congruence.
Qed.
End insertion_sort.

Definition isort_order : SqlOrder := {|
  sql_order A := isort;
  sql_order_perm A := isort_perm;
  sql_order_sorted A := isort_sorted;
|}.

(** Rows selected by a [WHERE] clause, in the order of the clause's comparison. *)
Definition select_order `{SqlOrder} {K V} `{Countable K}
    (p : V → bool) (le : K * V → K * V → bool) (m : gmap K V) : list (K * V) :=
  sql_order le (List.filter (λ kv, p kv.2) (map_to_list m)).

Section select.
Context `{SqlOrder} {K V : Type} `{Countable K}.

Lemma elem_of_select p le (m : gmap K V) k v :
  (k, v) ∈ select_order p le m ↔ m !! k = Some v ∧ p v = true.
Proof.
  unfold select_order. rewrite sql_order_perm, list_elem_of_In, filter_In, <- list_elem_of_In.
  rewrite elem_of_map_to_list. done.
Qed.

Lemma NoDup_fst_filter (f : K * V → bool) (l : list (K * V)) :
  NoDup l.*1 → NoDup (List.filter f l).*1.
Proof.
  induction l as [|[k v] l IH]; simpl; [done|]. rewrite NoDup_cons. intros [Hk Hl].
  destruct (f (k, v)); simpl; [|by apply IH].
  apply NoDup_cons. split; [|by apply IH].
  intros Hin. apply Hk. apply list_elem_of_fmap in Hin as ([k' v'] & -> & Hin).
  rewrite list_elem_of_In, filter_In, <- list_elem_of_In in Hin.
  apply list_elem_of_fmap. exists (k', v'). naive_solver.
Qed.

Lemma select_NoDup p le (m : gmap K V) : NoDup (select_order p le m).*1.
Proof.
  unfold select_order. rewrite sql_order_perm.
  apply NoDup_fst_filter, NoDup_fst_map_to_list.
Qed.
End select.
