(* ===== verification/GoNum.v ===== *)
(** * Floating point, durations and sorting

    [float64] is IEEE 754 binary64 without fused operations, as on amd64;
    [sort.Slice] is any sort, which need not be stable. *)

From S2P Require Import Prelude Sql.
From Stdlib Require Import SpecFloat.
Open Scope Z_scope.

(** ** float64 *)

Definition float64 : Type := spec_float.
Definition f_of_Z (z : Z) : float64 := binary_normalize 53 1024 z 0 false.
Definition fadd : float64 → float64 → float64 := SFadd 53 1024.
Definition fsub : float64 → float64 → float64 := SFsub 53 1024.
Definition fmul : float64 → float64 → float64 := SFmul 53 1024.
Definition fdiv : float64 → float64 → float64 := SFdiv 53 1024.

(** The constant [n / d]. *)
Definition f_dec (n d : Z) : float64 := fdiv (f_of_Z n) (f_of_Z d).

(** Truncation of a finite number. *)
Definition f_to_Z (f : float64) : Z :=
  match f with
  | S754_finite s m e =>
      let z := if 0 <=? e then Zpos m * 2 ^ e else Zpos m / 2 ^ (- e) in
      if s then - z else z
  | _ => 0
  end.

(** [int(math.Floor(f))] of a finite number. *)
Definition f_floor (f : float64) : Z :=
  match f with
  | S754_finite s m e =>
      let z := if s then Zneg m else Zpos m in
      if 0 <=? e then z * 2 ^ e else z / 2 ^ (- e)
  | _ => 0
  end.

Definition is_finite (f : float64) : bool :=
  match f with S754_finite _ _ _ | S754_zero _ => true | _ => false end.

(** The conversion to [int64]: what it yields for a value out of range is left to
    the implementation of the language. *)
Class FloatConv := { out_of_range : float64 → Z; out_of_range_int64 : ∀ f, int64_range (out_of_range f) }.

Definition f_to_int64 `{FloatConv} (f : float64) : Z :=
  if is_finite f && (- 2 ^ 63 <=? f_to_Z f) && (f_to_Z f <? 2 ^ 63) then f_to_Z f else out_of_range f.

Lemma f_to_int64_range `{FloatConv} f : int64_range (f_to_int64 f).
Proof.
  unfold f_to_int64, int64_range. destruct (is_finite f && _ && _) eqn:Hr; [|apply out_of_range_int64].
  apply andb_prop in Hr as [[_ ?]%andb_prop ?]. blia.
Qed.

(** On amd64. *)
Lemma minInt64_range : int64_range (- 2 ^ 63).
Proof. unfold int64_range. lia. Qed.
Definition amd64 : FloatConv := {| out_of_range _ := - 2 ^ 63; out_of_range_int64 _ := minInt64_range |}.

Definition is_nan (f : float64) : bool := match f with S754_nan => true | _ => false end.

(** *** The order of the numbers *)

Lemma SFltb_asym a b : SFltb a b = true → SFltb b a = false.
Proof.
  unfold SFltb. destruct a as [[]|[]| |[] m e], b as [[]|[]| |[] m' e']; cbn; try done;
    rewrite (Z.compare_antisym e e'); destruct (Z.compare e e'); cbn; try done;
    change (Pcompare m m' Eq) with (Pos.compare m m'); change (Pcompare m' m Eq) with (Pos.compare m' m);
    rewrite (Pos.compare_antisym m m'); by destruct (Pos.compare m m').
Qed.

Lemma SFltb_irrefl a : SFltb a a = false.
Proof. destruct (SFltb a a) eqn:Ha; [|done]. pose proof (SFltb_asym _ _ Ha). congruence. Qed.

(** [NaN] apart, not being less is transitive. *)
Lemma SFltb_neg_trans a b c :
  is_nan a = false → is_nan b = false → is_nan c = false →
  SFltb b a = false → SFltb c b = false → SFltb c a = false.
Proof.
  unfold SFltb. destruct a as [[]|[]| |[] m e], b as [[]|[]| |[] m' e'], c as [[]|[]| |[] m'' e'']; cbn; try done;
    intros _ _ _;
    destruct (Z.compare_spec e' e), (Z.compare_spec e'' e'), (Z.compare_spec e'' e); subst; try done; try lia;
    repeat match goal with |- context [Pcompare ?x ?y Eq] => change (Pcompare x y Eq) with (Pos.compare x y) end;
    destruct (Pos.compare_spec m' m), (Pos.compare_spec m'' m'), (Pos.compare_spec m'' m); subst; cbn; done || lia.
Qed.

(** [math.Min] of two numbers. *)
Definition fmin (a b : float64) : float64 := if SFltb b a then b else a.

(** ** time.Duration in nanoseconds *)

Definition Nanosecond : Z := 1.
Definition Millisecond : Z := 10 ^ 6.
Definition Second : Z := 10 ^ 9.
Definition Minute : Z := 60 * Second.
Definition Hour : Z := 60 * Minute.

Definition Seconds (d : Z) : float64 :=
  fadd (f_of_Z (Z.quot d Second)) (fdiv (f_of_Z (Z.rem d Second)) (f_of_Z Second)).
Definition Hours (d : Z) : float64 :=
  fadd (f_of_Z (Z.quot d Hour)) (fdiv (f_of_Z (Z.rem d Hour)) (f_of_Z Hour)).

(** ** sort.Slice

    A permutation; and when the comparison is a strict weak order on the
    elements, nothing precedes an element that is less than it. *)
Class GoSort := {
  sort_Slice : ∀ {A}, (A → A → bool) → list A → list A;
  sort_Slice_perm : ∀ {A} (less : A → A → bool) l, sort_Slice less l ≡ₚ l;
  sort_Slice_sorted : ∀ {A} (less : A → A → bool) (l : list A),
    (∀ x y, x ∈ l → y ∈ l → less x y = true → less y x = false) →
    (∀ x y z, x ∈ l → y ∈ l → z ∈ l → less y x = false → less z y = false → less z x = false) →
    StronglySorted (λ x y, less y x = false) (sort_Slice less l);
}.

Lemma isort_sorted_on {A} (less : A → A → bool) (l : list A) :
  (∀ x y, x ∈ l → y ∈ l → less x y = true → less y x = false) →
  (∀ x y z, x ∈ l → y ∈ l → z ∈ l → less y x = false → less z y = false → less z x = false) →
  StronglySorted (λ x y, less y x = false) (isort (λ a b, negb (less b a)) l).
Proof.
  intros Hasym Htrans. induction l as [|x l IH]; cbn [isort]; [constructor|].
  assert (StronglySorted (λ x y, less y x = false) (isort (λ a b, negb (less b a)) l)) as Hs.
  { apply IH.
    - intros a b Ha Hb. apply Hasym; by right.
    - intros a b c Ha Hb Hc. apply Htrans; by right. }
  assert (∀ y, y ∈ isort (λ a b, negb (less b a)) l → y ∈ x :: l) as Hin.
  { intros y Hy. right. by rewrite isort_perm in Hy. }
  clear IH. induction Hs as [|y ys Hys IH Hall]; cbn [sorted_insert]; [by repeat constructor|].
  assert (y ∈ x :: l) as Hy by (apply Hin; left).
  destruct (less y x) eqn:Hyx; cbn [negb].
  - constructor; [apply IH; intros z Hz; apply Hin; by right|]. rewrite sorted_insert_perm. constructor; [|done].
    apply Hasym; [done|left|done].
  - constructor; [by constructor|]. constructor; [done|]. apply Forall_forall. intros z Hz.
    apply (Htrans x y z); [left|done|apply Hin; by right|done|]. by eapply Forall_forall in Hall.
Qed.

Definition insertion_Slice : GoSort := {|
  sort_Slice A less := isort (λ a b, negb (less b a));
  sort_Slice_perm A less := isort_perm _;
  sort_Slice_sorted A := isort_sorted_on;
|}.
