(* ===== verification/FloatInt.v ===== *)
(** * Whole numbers in float64

    Up to 53 bits a whole number is represented exactly, and sums and differences
    of whole numbers are exact as long as they stay below that: what makes a gauge
    that is only ever raised and lowered by whole amounts a counter. *)

From S2P Require Import Prelude GoNum.
From Stdlib Require Import SpecFloat.
Open Scope Z_scope.

(** ** Digits and shifts *)

Lemma digits_log2 p : Zpos (digits2_pos p) = Z.log2 (Zpos p) + 1.
Proof.
  assert (∀ q, digits2_pos q = Pos.size q) as Hsize by (intros q; induction q; cbn; congruence).
  rewrite Hsize. destruct p; cbn [Pos.size Z.log2]; lia.
Qed.

Lemma digits_pow2 p q k : 0 <= k → Zpos q = Zpos p * 2 ^ k → Zpos (digits2_pos q) = Zpos (digits2_pos p) + k.
Proof. intros Hk Hq. rewrite !digits_log2, Hq, Z.log2_mul_pow2 by lia. lia. Qed.

Lemma iter_xO p d : Zpos (Pos.iter xO p d) = Zpos p * 2 ^ Zpos d.
Proof.
  induction d as [|d IH] using Pos.peano_ind; [cbn; lia|].
  rewrite Pos.iter_succ, Pos2Z.inj_xO, IH, Pos2Z.inj_succ, Z.pow_succ_r by lia. lia.
Qed.

Lemma shl_align_down m e e' : e' <= e → Zpos (fst (shl_align m e e')) = Zpos m * 2 ^ (e - e').
Proof.
  intros He. unfold shl_align. destruct (e' - e) as [|d|d] eqn:Hd; [|lia|]; cbn [fst].
  - replace (e - e') with 0 by lia. lia.
  - rewrite iter_xO. do 2 f_equal. lia.
Qed.

Abbreviation exact m := (Build_shr_record m false false) (only parsing).

Lemma shr_1_double m : 0 < m → shr_1 (exact (2 * m)) = exact m.
Proof. by destruct m. Qed.

Lemma shr_exact n m : 0 < m → iter_pos shr_1 n (exact (m * 2 ^ Zpos n)) = exact m.
Proof.
  revert m. induction n as [n IH|n IH|]; intros m Hm; cbn [iter_pos].
  - replace (m * 2 ^ Zpos n~1) with (2 * (m * 2 ^ Zpos n * 2 ^ Zpos n)).
    2:{ replace (Zpos n~1) with (1 + Zpos n + Zpos n) by lia. rewrite !Z.pow_add_r by lia. ring. }
    rewrite shr_1_double, !IH by lia. done.
  - replace (m * 2 ^ Zpos n~0) with (m * 2 ^ Zpos n * 2 ^ Zpos n).
    2:{ replace (Zpos n~0) with (Zpos n + Zpos n) by lia. rewrite Z.pow_add_r by lia. ring. }
    rewrite !IH by lia. done.
  - rewrite <- (shr_1_double m) by done. do 2 f_equal. cbn. lia.
Qed.

(** ** The representation of a whole number *)

(** The mantissa is brought to 53 digits. *)
Definition whole (s : bool) (p : positive) (f : float64) : Prop :=
  ∃ m, f = S754_finite s m (Zpos (digits2_pos p) - 53) ∧ Zpos m = Zpos p * 2 ^ (53 - Zpos (digits2_pos p)).

Lemma fexp_whole d : 0 < d → fexp 53 1024 d = d - 53.
Proof. intros Hd. unfold fexp, emin. lia. Qed.

(** Rounding leaves a mantissa of 53 digits alone. *)
Lemma round_canonical s m e :
  Zpos (digits2_pos m) = 53 → -52 <= e <= 0 → binary_round_aux 53 1024 s (Zpos m) e loc_Exact = S754_finite s m e.
Proof.
  intros Hm He. unfold binary_round_aux, shr_fexp. cbn [Zdigits2 shr_record_of_loc].
  rewrite Hm, fexp_whole by lia. replace (53 + e - 53 - e) with 0 by lia.
  cbn [shr loc_of_shr_record round_nearest_even shr_m Zdigits2 shr_record_of_loc].
  rewrite Hm, fexp_whole by lia. replace (53 + e - 53 - e) with 0 by lia. cbn [shr shr_m].
  by replace (e <=? 1024 - 53) with true by (symmetry; blia).
Qed.

(** Whatever power of two the mantissa is multiplied with, and the exponent
    lowered by, the result is the same number. *)
Lemma round_whole s p q k :
  Zpos (digits2_pos p) <= 53 → 0 <= k → Zpos q = Zpos p * 2 ^ k → whole s p (binary_round 53 1024 s q (- k)).
Proof.
  intros Hp Hk Hq. pose proof (digits_pow2 p q k Hk Hq) as Hd. set (d := Zpos (digits2_pos p)) in *.
  assert (0 < d) by (unfold d; lia). unfold binary_round. rewrite Hd.
  replace (d + k + - k) with d by lia. rewrite fexp_whole by done.
  unfold shl_align. destruct (d - 53 - - k) as [|j|j] eqn:Hj.
  - (* nothing to shift *)
    exists q. rewrite round_canonical by lia. fold d. split; [f_equal; lia|]. rewrite Hq. do 2 f_equal. lia.
  - (* to the right, by zeros only *)
    assert (0 < Zpos p * 2 ^ (53 - d)) as Hpos by (apply Z.mul_pos_pos; [lia|apply Z.pow_pos_nonneg; lia]).
    destruct (Zpos p * 2 ^ (53 - d)) as [|m|m] eqn:Hm; [lia| |lia].
    assert (Zpos (digits2_pos m) = 53) as H53.
    { rewrite (digits_pow2 p m (53 - d)) by lia. fold d. lia. }
    exists m. split; [|done]. unfold binary_round_aux at 1, shr_fexp at 1. cbn [Zdigits2 shr_record_of_loc].
    rewrite Hd. replace (d + k + - k) with d by lia. rewrite fexp_whole, Hj by done. cbn [shr].
    replace (Zpos q) with (Zpos m * 2 ^ Zpos j).
    2:{ rewrite Hq, <- Hm, <- Z.mul_assoc, <- Z.pow_add_r by lia. do 2 f_equal. lia. }
    rewrite shr_exact by lia. pose proof (round_canonical s m (d - 53) H53 ltac:(lia)) as Hc.
    unfold binary_round_aux, shr_fexp in Hc. cbn [Zdigits2 shr_record_of_loc] in Hc.
    rewrite H53, fexp_whole in Hc by lia. replace (53 + (d - 53) - 53 - (d - 53)) with 0 in Hc by lia.
    cbn [shr loc_of_shr_record round_nearest_even shr_m Zdigits2 shr_record_of_loc] in Hc |- *.
    replace (- k + Zpos j) with (d - 53) by lia. exact Hc.
  - (* to the left *)
    assert (Zpos (Pos.iter xO q j) = Zpos p * 2 ^ (53 - d)) as Hm.
    { rewrite iter_xO, Hq, <- Z.mul_assoc, <- Z.pow_add_r by lia. do 2 f_equal. lia. }
    exists (Pos.iter xO q j). split; [|done]. rewrite round_canonical; [done| |lia].
    rewrite (digits_pow2 p _ (53 - d)) by lia. fold d. lia.
Qed.

Lemma whole_unique s p f g : whole s p f → whole s p g → f = g.
Proof. intros (m & -> & Hm) (m' & -> & Hm'). f_equal. lia. Qed.

Lemma small_digits p : Zpos p < 2 ^ 53 → Zpos (digits2_pos p) <= 53.
Proof. intros Hp. rewrite digits_log2. apply Z.log2_lt_pow2 in Hp; lia. Qed.

Definition small (z : Z) : Prop := - 2 ^ 53 < z < 2 ^ 53.

Lemma round_at_0 s p : Zpos p < 2 ^ 53 → whole s p (binary_round 53 1024 s p 0).
Proof. intros Hp. apply (round_whole s p p 0); [by apply small_digits|lia..]. Qed.

Lemma normalize_whole z k :
  small z → 0 <= k → binary_normalize 53 1024 (z * 2 ^ k) (- k) false = f_of_Z z.
Proof.
  intros Hz Hk. assert (0 < 2 ^ k) by (apply Z.pow_pos_nonneg; lia). unfold small in Hz.
  unfold f_of_Z. destruct z as [|p|p]; [done| |];
    match goal with |- context [binary_normalize _ _ (?a * ?b) _ _] => destruct (a * b) as [|q|q] eqn:Hq; try lia end;
    cbn [binary_normalize]; eapply (whole_unique _ p);
    [apply (round_whole _ p q k)|apply round_at_0|apply (round_whole _ p q k)|apply round_at_0];
    try apply small_digits; lia.
Qed.

Lemma f_of_Z_cases z :
  small z →
  (z = 0 ∧ f_of_Z z = S754_zero false) ∨
  ∃ s p, z = cond_Zopp s (Zpos p) ∧ whole s p (f_of_Z z) ∧ Zpos (digits2_pos p) <= 53.
Proof.
  unfold small. intros Hz. destruct z as [|p|p]; [by left| |]; right;
    [exists false, p|exists true, p]; (split_and!; [done| |apply small_digits; lia]);
    apply round_at_0; lia.
Qed.

Lemma align_whole p m e : 
  Zpos m = Zpos p * 2 ^ (53 - Zpos (digits2_pos p)) → Zpos (digits2_pos p) <= 53 → e <= Zpos (digits2_pos p) - 53 →
  Zpos (fst (shl_align m (Zpos (digits2_pos p) - 53) e)) = Zpos p * 2 ^ (- e).
Proof.
  intros Hm Hp He. rewrite shl_align_down, Hm, <- Z.mul_assoc, <- Z.pow_add_r by lia. do 2 f_equal. lia.
Qed.

(** ** Exact sums and differences *)

Lemma fadd_whole x y : small x → small y → small (x + y) → fadd (f_of_Z x) (f_of_Z y) = f_of_Z (x + y).
Proof.
  intros Hx Hy Hxy.
  destruct (f_of_Z_cases x Hx) as [[-> ->]|(s & p & Ep & (m & Em & Hm) & Hp)];
  destruct (f_of_Z_cases y Hy) as [[-> Ey]|(s' & p' & Ep' & (m' & Em' & Hm') & Hp')];
  rewrite ?Z.add_0_r, ?Ey, ?Em, ?Em'; try done.
  unfold fadd, SFadd. set (e := Z.min _ _). rewrite !align_whole by (done || unfold e; lia).
  rewrite <- (normalize_whole (x + y) (- e)) by (done || unfold e; lia). rewrite Z.opp_involutive. f_equal.
  rewrite Ep, Ep'. unfold cond_Zopp. destruct s, s'; ring.
Qed.

Lemma f_of_Z_opp z : small z → z ≠ 0 → f_of_Z (- z) = SFopp (f_of_Z z).
Proof.
  unfold small. intros Hz Hne. destruct z as [|p|p]; [done| |];
    [change (- Zpos p) with (Zneg p)|change (- Zneg p) with (Zpos p)];
    pose proof (round_at_0 false p ltac:(lia) : whole false p (f_of_Z (Zpos p))) as (m & -> & Hm);
    pose proof (round_at_0 true p ltac:(lia) : whole true p (f_of_Z (Zneg p))) as (m' & -> & Hm');
    cbn; f_equal; lia.
Qed.

Lemma fsub_whole x y : small x → small y → small (x - y) → fsub (f_of_Z x) (f_of_Z y) = f_of_Z (x - y).
Proof.
  intros Hx Hy Hxy.
  destruct (f_of_Z_cases x Hx) as [[-> ->]|(s & p & Ep & (m & Em & Hm) & Hp)];
  destruct (f_of_Z_cases y Hy) as [[-> Ey]|(s' & p' & Ep' & (m' & Em' & Hm') & Hp')];
  rewrite ?Z.sub_0_r, ?Ey, ?Em, ?Em'; try done.
  - assert (y ≠ 0) by (rewrite Ep'; unfold cond_Zopp; destruct s'; lia).
    replace (0 - y) with (- y) by lia. rewrite f_of_Z_opp, Em' by done. done.
  - unfold fsub, SFsub. set (e := Z.min _ _). rewrite !align_whole by (done || unfold e; lia).
    rewrite <- (normalize_whole (x - y) (- e)) by (done || unfold e; lia). rewrite Z.opp_involutive. f_equal.
    rewrite Ep, Ep'. unfold cond_Zopp. destruct s, s'; ring.
Qed.

(** ** Conversion back *)

Lemma f_to_Z_whole z : small z → f_to_Z (f_of_Z z) = z.
Proof.
  intros Hz. destruct (f_of_Z_cases z Hz) as [[-> ->]|(s & p & -> & (m & -> & Hm) & Hp)]; [done|].
  unfold f_to_Z. rewrite Hm.
  assert ((if 0 <=? Zpos (digits2_pos p) - 53 then Zpos p * 2 ^ (53 - Zpos (digits2_pos p)) * 2 ^ (Zpos (digits2_pos p) - 53)
    else Zpos p * 2 ^ (53 - Zpos (digits2_pos p)) / 2 ^ (- (Zpos (digits2_pos p) - 53))) = Zpos p) as ->.
  { destruct (0 <=? _) eqn:H0.
    - replace (Zpos (digits2_pos p)) with 53 by blia. lia.
    - replace (- (Zpos (digits2_pos p) - 53)) with (53 - Zpos (digits2_pos p)) by lia.
      apply Z.div_mul. pose proof (Z.pow_pos_nonneg 2 (53 - Zpos (digits2_pos p))). lia. }
  by destruct s.
Qed.

Lemma is_finite_whole z : small z → is_finite (f_of_Z z) = true.
Proof. intros Hz. by destruct (f_of_Z_cases z Hz) as [[-> ->]|(s & p & -> & (m & -> & Hm) & Hp)]. Qed.

Lemma f_to_int64_whole `{FloatConv} z : small z → f_to_int64 (f_of_Z z) = z.
Proof.
  intros Hz. unfold f_to_int64. rewrite is_finite_whole, f_to_Z_whole by done. unfold small in Hz.
  by replace (true && _ && _) with true by (symmetry; rewrite !andb_true_iff, Z.leb_le, Z.ltb_lt; lia).
Qed.

Lemma SFeqb_finite f : is_finite f = true → SFeqb f f = true.
Proof.
  destruct f as [[]|[]| |[] m e]; try done; intros _; unfold SFeqb; cbn [SFcompare]; rewrite Z.compare_refl;
    change (Pcompare m m Eq) with (Pos.compare m m); by rewrite Pos.compare_refl.
Qed.
