(* ===== verification/GoConf.v ===== *)
(** * Durations and networks of the Go standard library

    [time.ParseDuration], [strings.ToUpper], [net.JoinHostPort], and networks in
    CIDR notation ([net.ParseCIDR], [CIDRMask], [IPNet.Contains]) as of Go 1.25,
    with the equivalence of the byte-wise mask test and the comparison of address
    prefixes. *)

From S2P Require Import Prelude GoStd GoText GoNet GoNum.
From Stdlib Require Import Ascii.
Open Scope Z_scope.

(** ** Package strings *)

(** The Unicode path of [strings.ToUpper]. *)
Class GoUpper := { unicode_ToUpper : string → string }.
Definition ascii_upper_only : GoUpper := {| unicode_ToUpper := id |}.

Definition ascii_upper (a : ascii) : ascii :=
  if (97 <=? code a) && (code a <=? 122) then byte_of (code a - 32) else a.

Definition ToUpper `{GoUpper} (s : string) : string :=
  if isASCII s then str_map ascii_upper s else unicode_ToUpper s.

(** [net.JoinHostPort]. *)
Definition JoinHostPort (host port : string) : string :=
  if str_no ":" host then host +:+ ":" +:+ port else "[" +:+ host +:+ "]:" +:+ port.

(** ** time.ParseDuration *)
Module Duration.

(** Digits as a [uint64]; [None] when they exceed 2{^63}. *)
Fixpoint leadingInt (x : Z) (s : string) : option (Z * string) :=
  match s with
  | EmptyString => Some (x, s)
  | String c s' =>
      if is_digit c then
        if 2 ^ 63 / 10 <? x then None
        else let x := x * 10 + (code c - 48) in if 2 ^ 63 <? x then None else leadingInt x s'
      else Some (x, s)
  end.

(** Digits after the point as a fraction [x / scale]; digits that do not fit are dropped. *)
Fixpoint leadingFraction (x : Z) (scale : float64) (overflow : bool) (s : string) : Z * float64 * string :=
  match s with
  | EmptyString => (x, scale, s)
  | String c s' =>
      if is_digit c then
        if overflow || ((2 ^ 63 - 1) / 10 <? x) then leadingFraction x scale true s'
        else let y := x * 10 + (code c - 48) in
             if 2 ^ 63 <? y then leadingFraction x scale true s'
             else leadingFraction y (fmul scale (f_of_Z 10)) false s'
      else (x, scale, s)
  end.

Fixpoint span_unit (s : string) : string * string :=
  match s with
  | EmptyString => ("", "")
  | String c s' =>
      if Ascii.eqb c "." || is_digit c then ("", s)
      else let '(u, rest) := span_unit s' in (String c u, rest)
  end.

(** U+00B5 and U+03BC both stand for micro. *)
Definition unitMap (u : string) : option Z :=
  let micro a b := String (byte_of a) (String (byte_of b) "s") in
  match List.find (λ p, String.eqb u p.1)
          [("ns", 1); ("us", 10 ^ 3); (micro 194 181, 10 ^ 3); (micro 206 188, 10 ^ 3); ("ms", 10 ^ 6);
           ("s", Second); ("m", Minute); ("h", Hour)] with
  | Some p => Some p.2
  | None => None
  end.

(** One number with its unit: its value as a [uint64] and the rest. *)
Definition component (s : string) : option (Z * string) :=
  match s with
  | EmptyString => None
  | String c _ =>
      if negb (Ascii.eqb c "." || is_digit c) then None
      else
        match leadingInt 0 s with
        | None => None
        | Some (v, s1) =>
            let pre := negb (String.length s =? String.length s1)%nat in
            let '(f, scale, s2, post) :=
              match s1 with
              | String d t =>
                  if Ascii.eqb d "." then
                    let '(f, scale, s2) := leadingFraction 0 (f_of_Z 1) false t in
                    (f, scale, s2, negb (String.length t =? String.length s2)%nat)
                  else (0, f_of_Z 1, s1, false)
              | EmptyString => (0, f_of_Z 1, s1, false)
              end in
            if negb pre && negb post then None
            else
              let '(u, rest) := span_unit s2 in
              match unitMap u with
              | None => None
              | Some unit =>
                  if 2 ^ 63 / unit <? v then None
                  else
                    let v := v * unit in
                    let v := if 0 <? f then v + f_to_Z (fmul (f_of_Z f) (fdiv (f_of_Z unit) scale)) else v in
                    if 2 ^ 63 <? v then None else Some (v, rest)
              end
        end
  end.

(** The components, added up in a [uint64]; each is shorter than its string. *)
Fixpoint components (fuel : nat) (d : Z) (s : string) : option Z :=
  match fuel, s with
  | _, EmptyString => Some d
  | O, _ => None
  | S fuel, _ =>
      match component s with
      | None => None
      | Some (v, rest) => let d := (d + v) mod 2 ^ 64 in if 2 ^ 63 <? d then None else components fuel d rest
      end
  end.

Definition ParseDuration (s : string) : option Z :=
  let '(neg, s) :=
    match s with
    | String c t => if Ascii.eqb c "-" then (true, t) else if Ascii.eqb c "+" then (false, t) else (false, s)
    | EmptyString => (false, s)
    end in
  if String.eqb s "0" then Some 0
  else if String.eqb s "" then None
  else
    match components (String.length s) 0 s with
    | None => None
    | Some d => if neg then Some (wrap64 (- wrap64 d)) else if 2 ^ 63 - 1 <? d then None else Some d
    end.

Example ParseDuration_ex :
  map ParseDuration ["5m"; "1h30m"; "1.5h"; "-2s"; "0"; "300"; ""; "1d"; "9223372036854775808ns"; ".5s"; "."] =
  [Some (5 * Minute); Some (90 * Minute); Some (90 * Minute); Some (-2 * Second); Some 0; None; None; None; None;
   Some (500 * 10 ^ 6); None].
Proof. vm_compute. reflexivity. Qed.

(** The sum wraps around: two components of 2{^63} ns each make no time at all. *)
Example ParseDuration_wraps : ParseDuration "9223372036854775808ns9223372036854775808ns" = Some 0.
Proof. vm_compute. reflexivity. Qed.

Lemma components_range fuel d s x : 0 <= d <= 2 ^ 63 → components fuel d s = Some x → 0 <= x <= 2 ^ 63.
Proof.
  revert d s. induction fuel as [|fuel IH]; intros d s Hd; destruct s as [|c s]; cbn [components];
    try (intros [= <-]; lia); try discriminate.
  destruct (component _) as [[v rest]|]; [|discriminate].
  destruct (2 ^ 63 <? _) eqn:Hlt; [discriminate|]. apply IH.
  pose proof (Z.mod_pos_bound (d + v) (2 ^ 64)). blia.
Qed.

Lemma ParseDuration_range s d : ParseDuration s = Some d → int64_range d.
Proof.
  unfold ParseDuration, int64_range. intros Hp. destruct (match s with EmptyString => _ | String _ _ => _ end) as [neg t].
  destruct (String.eqb t "0"); [simplify_eq; lia|]. destruct (String.eqb t ""); [discriminate|].
  destruct (components _ 0 t) as [x|] eqn:Hc; [|discriminate]. apply components_range in Hc; [|lia].
  destruct neg; [simplify_eq; apply wrap64_range|]. destruct (2 ^ 63 - 1 <? x) eqn:Hx; simplify_eq. blia.
Qed.

End Duration.

(** ** Networks *)
Module Net.

(** An address as [netip.ParseAddr] returns it, without a zone: IPv4 or IPv6, and
    the 16 bytes. *)
Definition ParseAddr (s : string) : option (bool * IP) :=
  match List.filter (one_of ".:%") (String.list_ascii_of_string s) with
  | a :: _ => (λ ip, (Ascii.eqb a ".", ip)) <$> ParseIP s
  | [] => None
  end.

(** [dtoi]: the value and the rest after the digits. *)
Fixpoint dtoi_go (n : Z) (s : string) : option (Z * string) :=
  match s with
  | String c s' =>
      if is_digit c then
        let n := n * 10 + (code c - 48) in if 0xFFFFFF <=? n then None else dtoi_go n s'
      else Some (n, s)
  | EmptyString => Some (n, s)
  end.

Definition dtoi (s : string) : option (Z * string) :=
  match s with String c _ => if is_digit c then dtoi_go 0 s else None | EmptyString => None end.

Fixpoint CIDRMask (ones : Z) (l : nat) : list Z :=
  match l with
  | O => []
  | S l => if 8 <=? ones then 255 :: CIDRMask (ones - 8) l else 255 - Z.shiftr 255 ones :: CIDRMask 0 l
  end.

(** [ip.To4()] of 4 or 16 bytes. *)
Definition to4 (ip : list Z) : option (list Z) :=
  if (length ip =? 4)%nat then Some ip
  else match To4 ip with Some (a, b, c, d) => Some [a; b; c; d] | None => None end.

Record IPNet := mkIPNet { n_IP : list Z; n_Mask : list Z }.

Definition and_bytes (a b : list Z) : list Z := zip_with Z.land a b.

Definition ParseCIDR (s : string) : option IPNet :=
  let '(addr, mask, found) := Cut "/" s in
  if negb found then None
  else
    match ParseAddr addr, dtoi mask with
    | Some (is4, ip), Some (n, EmptyString) =>
        if (if is4 then 32 else 128) <? n then None
        else
          let m := CIDRMask n (if is4 then 4 else 16) in
          let ip := if is4 then default ip (to4 ip) else ip in
          Some (mkIPNet (and_bytes ip m) m)
    | _, _ => None
    end.

Definition networkNumberAndMask (n : IPNet) : option (list Z * list Z) :=
  let ip := default (n_IP n) (to4 (n_IP n)) in
  let m := n_Mask n in
  if (length ip =? 4)%nat && (length m =? 16)%nat then Some (ip, drop 12 m)
  else if (length ip =? length m)%nat && ((length m =? 4)%nat || (length m =? 16)%nat) then Some (ip, m)
  else None.

Definition IPNet_Contains (n : IPNet) (ip : list Z) : bool :=
  match networkNumberAndMask n with
  | None => false
  | Some (nn, m) =>
      let ip := default ip (to4 ip) in
      (length ip =? length nn)%nat && bool_decide (and_bytes nn m = and_bytes ip m)
  end.

Example Contains_ex :
  let inside c s := match ParseCIDR c, ParseIP s with Some n, Some ip => Some (IPNet_Contains n ip) | _, _ => None end in
  (inside "192.168.1.77/24" "192.168.1.3", inside "192.168.1.0/24" "192.168.2.3", inside "10.0.0.0/33" "10.0.0.1",
   inside "0.0.0.0/0" "8.8.8.8", inside "::/0" "8.8.8.8", inside "fd00::/8" "fd12::1", inside "::ffff:10.0.0.0/104" "10.1.2.3")
  = (Some true, Some false, None, Some true, Some false, Some true, Some true).
Proof. vm_compute. reflexivity. Qed.

(** *** The mask test compares the leading bits *)

(** The number that bytes spell, most significant first. *)
Fixpoint be_value (l : list Z) : Z :=
  match l with [] => 0 | b :: l => b * 2 ^ (8 * Z.of_nat (length l)) + be_value l end.

Definition bytes (l : list Z) : Prop := Forall (λ b, 0 <= b < 256) l.

Lemma be_value_range l : bytes l → 0 <= be_value l < 2 ^ (8 * Z.of_nat (length l)).
Proof.
  induction 1 as [|b l Hb _ IH]; cbn [be_value length]; [done|].
  replace (8 * Z.of_nat (S (length l))) with (8 + 8 * Z.of_nat (length l)) by lia.
  rewrite Z.pow_add_r by lia. change (2 ^ 8) with 256. nia.
Qed.

Lemma mask_byte a n : 0 <= a < 256 → 0 <= n < 8 →
  Z.land a (255 - Z.shiftr 255 n) = a / 2 ^ (8 - n) * 2 ^ (8 - n).
Proof.
  intros Ha Hn.
  assert (forallb (λ i, forallb (λ j, Z.land (Z.of_nat i) (255 - Z.shiftr 255 (Z.of_nat j))
            =? Z.of_nat i / 2 ^ (8 - Z.of_nat j) * 2 ^ (8 - Z.of_nat j)) (List.seq 0 8)) (List.seq 0 256) = true) as Hall
    by (vm_compute; reflexivity).
  rewrite forallb_forall in Hall. specialize (Hall (Z.to_nat a)). rewrite forallb_forall in Hall.
  assert (In (Z.to_nat a) (List.seq 0 256)) as Hin by (apply in_seq; lia).
  specialize (Hall Hin (Z.to_nat n)). rewrite !Z2Nat.id in Hall by lia.
  apply Z.eqb_eq, Hall, in_seq. lia.
Qed.

Lemma and_mask_zero a b l : length a = length b →
  (and_bytes a (CIDRMask 0 l) = and_bytes b (CIDRMask 0 l)).
Proof.
  revert a b. induction l as [|l IH]; intros [|x a] [|y b] Hl; try done.
  cbn [and_bytes zip_with CIDRMask]. change (8 <=? 0) with false. cbv iota.
  change (255 - Z.shiftr 255 0) with 0. rewrite !Z.land_0_r. f_equal. apply IH. by injection Hl.
Qed.

Lemma div_shift a v k m : 0 <= v < 2 ^ k → 0 <= k → 0 <= m → (a * 2 ^ k + v) / 2 ^ (k + m) = a / 2 ^ m.
Proof.
  intros Hv Hk Hm. rewrite Z.pow_add_r, <- Z.div_div by lia. f_equal.
  rewrite Z.div_add_l, Z.div_small by lia. lia.
Qed.

(** Two addresses agree under a mask of [n] ones exactly when their numbers have
    the same [n] leading bits. *)
Lemma mask_prefix a b n : bytes a → bytes b → length a = length b → 0 <= n <= 8 * Z.of_nat (length a) →
  and_bytes a (CIDRMask n (length a)) = and_bytes b (CIDRMask n (length a)) ↔
  be_value a / 2 ^ (8 * Z.of_nat (length a) - n) = be_value b / 2 ^ (8 * Z.of_nat (length a) - n).
Proof.
  intros Ha. revert b n. induction Ha as [|x a Hx Ha IH]; intros b n Hb Hl Hn; destruct b as [|y b]; try done.
  apply Forall_cons in Hb as [Hy Hb]. injection Hl as Hl. cbn [length] in Hn |- *.
  pose proof (be_value_range a Ha) as Hva. pose proof (be_value_range b Hb) as Hvb. rewrite <- Hl in Hvb.
  cbn [CIDRMask be_value]. rewrite <- Hl. set (k := 8 * Z.of_nat (length a)) in *.
  replace (8 * Z.of_nat (S (length a))) with (k + 8) in * by lia.
  destruct (Z.leb_spec 8 n) as [Hge|Hlt]; cbn [and_bytes zip_with].
  - assert (∀ z, 0 <= z < 256 → Z.land z 255 = z) as Hland.
    { intros z Hz. change 255 with (Z.ones 8). rewrite Z.land_ones by lia. change (2 ^ 8) with 256. apply Z.mod_small; lia. }
    rewrite !Hland by done. specialize (IH b (n - 8) Hb Hl ltac:(lia)). fold k in IH.
    replace (k + 8 - n) with (k - (n - 8)) by lia. set (j := k - (n - 8)) in *.
    assert (∀ z v, 0 <= v < 2 ^ k → (z * 2 ^ k + v) / 2 ^ j = z * 2 ^ (n - 8) + v / 2 ^ j ∧ 0 <= v / 2 ^ j < 2 ^ (n - 8)) as Hdiv.
    { intros z v Hv. replace (2 ^ k) with (2 ^ (n - 8) * 2 ^ j) in * by (rewrite <- Z.pow_add_r by lia; f_equal; lia).
      split; [rewrite Z.mul_assoc, Z.div_add_l by lia; done|]. split; [apply Z.div_pos; lia|].
      apply Z.div_lt_upper_bound; lia. }
    destruct (Hdiv x (be_value a) Hva) as [-> Hqa]. destruct (Hdiv y (be_value b) Hvb) as [-> Hqb].
    split.
    + intros [= -> Heq]. by rewrite (proj1 IH Heq).
    + intros Heq. assert (x = y) as -> by nia. f_equal. apply IH. lia.
  - rewrite !mask_byte by lia. replace (k + 8 - n) with (k + (8 - n)) by lia. rewrite !div_shift by lia. split.
    + intros [= Heq _]. nia.
    + intros ->. f_equal. by apply and_mask_zero.
Qed.

(** *** Parsed addresses are 16 bytes *)

Ltac byte_list := unfold bytes; repeat (apply List.Forall_cons; [lia|]); apply List.Forall_nil.

Lemma hex_prefix_range s n acc : 0 <= acc < 16 ^ Z.of_nat n →
  let '(n', acc', _) := hex_prefix s n acc in 0 <= acc' < 16 ^ Z.of_nat n'.
Proof.
  revert n acc. induction s as [|a s IH]; intros n acc Hacc; cbn [hex_prefix]; [done|].
  unfold unhex. destruct (digit_value a) as [d|] eqn:Hd; [|done]. destruct (d <? 16) eqn:Hlt; [|done].
  apply IH. assert (0 <= d) by (unfold digit_value in Hd; repeat case_match; simplify_eq; blia).
  rewrite Nat2Z.inj_succ, Z.pow_succ_r by lia. blia.
Qed.

Lemma octet_range s v : octet s = Some v → 0 <= v < 256.
Proof.
  unfold octet. destruct s as [|a s]; [done|]. destruct (_ && negb _); [done|].
  destruct (str_forallb is_digit (String a s)) eqn:Hd; [|done].
  destruct (parse_digits 10 0 (String a s)) as [w|] eqn:Hp; [|done]. destruct (w <=? 255) eqn:Hw; [|done]. intros [= <-].
  assert (∀ t x y, 0 <= x → parse_digits 10 x t = Some y → 0 <= y) as Hpos.
  { clear. induction t as [|c t IH]; intros x y Hx; cbn [parse_digits]; [intros [= <-]; done|].
    destruct (digit_value c) as [d|] eqn:Hdv; [|done]. destruct (d <? 10); [|done]. apply IH.
    unfold digit_value in Hdv. repeat case_match; simplify_eq; blia. }
  apply Hpos in Hp; [blia|lia].
Qed.

Lemma parseIPv4_bytes s l : parseIPv4 s = Some l → bytes l ∧ length l = 4%nat.
Proof.
  unfold parseIPv4. repeat (case_match; try done). intros [= <-].
  repeat match goal with H : octet _ = Some _ |- _ => apply octet_range in H end.
  split; [byte_list|done].
Qed.

Lemma group_bytes n acc : (n <= 4)%nat → 0 <= acc < 16 ^ Z.of_nat n → bytes [acc / 256; acc mod 256].
Proof.
  intros Hn Hacc. assert (acc < 65536).
  { assert (16 ^ Z.of_nat n <= 16 ^ 4) by (apply Z.pow_le_mono_r; lia). lia. }
  pose proof (Z.mod_pos_bound acc 256). assert (0 <= acc / 256 < 256) by (split; [apply Z.div_pos|apply Z.div_lt_upper_bound]; lia).
  byte_list.
Qed.

Lemma v6_groups_bytes fuel s bs e r : bytes bs → v6_groups fuel s bs e = Some r → bytes r.1.
Proof.
  revert s bs e. induction fuel as [|fuel IH]; intros s bs e Hb; cbn [v6_groups]; [case_match; [intros [= <-]; done|done]|].
  pose proof (hex_prefix_range s 0 0 ltac:(cbn; lia)) as Hr. destruct (hex_prefix s 0 0) as [[n acc] rest].
  destruct ((n =? 0)%nat || (4 <? n)%nat) eqn:Hn; [done|]. apply orb_false_iff in Hn as [_ Hn%Nat.ltb_ge].
  assert (bytes (bs ++ [acc / 256; acc mod 256])) as Hb' by (apply Forall_app; split; [done|by eapply group_bytes]).
  destruct rest as [|a rest]; [intros [= <-]; done|].
  destruct (Ascii.eqb a ".").
  { repeat (case_match; try done). all: intros [= <-]; apply Forall_app; split; [done|].
    all: by match goal with H : parseIPv4 _ = Some _ |- _ => apply parseIPv4_bytes in H as [? _] end. }
  destruct (negb (Ascii.eqb a ":")); [done|]. destruct rest as [|b rest']; [done|].
  destruct (Ascii.eqb b ":"); [|by apply IH]. destruct e; [done|].
  destruct (String.eqb rest' ""); [intros [= <-]; done|by apply IH].
Qed.

Lemma v6_expand_bytes r ip : bytes r.1 → v6_expand r = Some ip → bytes ip ∧ length ip = 16%nat.
Proof.
  destruct r as [bs [e|]]; cbn [v6_expand fst]; intros Hb.
  - destruct (Nat.ltb_spec (length bs) 16) as [Hlt|]; [|done]. intros [= <-]. split.
    + apply Forall_app. split; [by apply Forall_take|]. apply Forall_app. split; [|by apply Forall_drop].
      apply List.Forall_forall. intros x Hx%repeat_spec. subst x. lia.
    + rewrite !length_app, repeat_length, length_take, length_drop. lia.
  - destruct (Nat.eqb_spec (length bs) 16) as [Heq|]; [|done]. by intros [= <-].
Qed.

Lemma ParseIP_bytes s ip : ParseIP s = Some ip → bytes ip ∧ length ip = 16%nat.
Proof.
  unfold ParseIP. destruct (List.filter _ _) as [|a l]; [done|]. destruct (Ascii.eqb a ".").
  - destruct (parseIPv4 s) as [v4|] eqn:H4; [|done]. apply parseIPv4_bytes in H4 as [Hb _]. cbn.
    repeat (case_match; try done). intros [= <-]. split; [|done]. subst. unfold bytes in Hb.
    repeat (apply Forall_cons in Hb as [? Hb]). unfold IPv4. cbn [repeat app]. byte_list.
  - destruct (Ascii.eqb a ":"); [|done]. destruct (str_no _ s); [|done]. unfold parseIPv6.
    destruct (HasPrefix s "::").
    + destruct (String.eqb _ ""); [intros [= <-]; split; [cbn [repeat]; byte_list|done]|].
      destruct (v6_groups _ _ _ _) as [r|] eqn:Hg; [|done]. apply v6_groups_bytes in Hg; [|constructor]. by apply v6_expand_bytes.
    + destruct (v6_groups _ _ _ _) as [r|] eqn:Hg; [|done]. apply v6_groups_bytes in Hg; [|constructor]. by apply v6_expand_bytes.
Qed.

Ltac pow_consts :=
  repeat match goal with |- context [2 ^ (8 * ?k)] =>
    let v := eval vm_compute in (2 ^ (8 * k)) in change (2 ^ (8 * k)) with v end.

(** An IPv4 address is one whose first 96 bits are those of the mapped prefix. *)
Lemma To4_mapped ip : bytes ip → length ip = 16%nat → is_Some (To4 ip) ↔ be_value ip / 2 ^ 32 = 65535.
Proof.
  intros Hb Hl. do 16 (destruct ip as [|? ip]; [done|]). destruct ip; [|done]. unfold bytes in Hb.
  repeat (apply Forall_cons in Hb as [? Hb]). split.
  - intros [x Hx]. unfold To4 in Hx. repeat (case_match; try done). cbn [be_value length].
    pow_consts. symmetry. apply Z.div_unique with (r := z11 * 16777216 + z12 * 65536 + z13 * 256 + z14); lia.
  - intros Hv. match goal with |- is_Some (To4 [?b0; ?b1; ?b2; ?b3; ?b4; ?b5; ?b6; ?b7; ?b8; ?b9; ?b10; ?b11; ?b12; ?b13; ?b14; ?b15]) =>
      assert (b0 = 0 ∧ b1 = 0 ∧ b2 = 0 ∧ b3 = 0 ∧ b4 = 0 ∧ b5 = 0 ∧ b6 = 0 ∧ b7 = 0 ∧ b8 = 0 ∧ b9 = 0 ∧ b10 = 255 ∧ b11 = 255)
        as (-> & -> & -> & -> & -> & -> & -> & -> & -> & -> & -> & ->) end; [|by eexists].
    match type of Hv with ?x / _ = _ => assert (65535 * 4294967296 <= x < 65536 * 4294967296) as Hx
      by (pose proof (Z.div_mod x (2 ^ 32) ltac:(lia)); pose proof (Z.mod_pos_bound x (2 ^ 32) ltac:(lia)); lia) end.
    clear Hv Hb. cbn [be_value length] in Hx. revert Hx. pow_consts. intros Hx. repeat split; lia.
Qed.

(** *** What a network contains *)

Lemma and_bytes_length a m : length a = length m → length (and_bytes a m) = length a.
Proof. intros Hl. unfold and_bytes. rewrite length_zip_with. lia. Qed.

Lemma and_bytes_idem a m : and_bytes (and_bytes a m) m = and_bytes a m.
Proof.
  revert m. induction a as [|x a IH]; intros [|y m]; cbn; try done. f_equal; [|apply IH].
  by rewrite <- Z.land_assoc, Z.land_diag.
Qed.

Lemma CIDRMask_length n l : length (CIDRMask n l) = l.
Proof. revert n. induction l as [|l IH]; intros n; cbn [CIDRMask]; [done|]. destruct (8 <=? n); cbn [length]; by rewrite IH. Qed.

Lemma default_Some {A} (x y : A) : default x (Some y) = y. Proof. done. Qed.
Lemma default_None {A} (x : A) : default x None = x. Proof. done. Qed.

Lemma to4_16 ip : length ip = 16%nat → to4 ip = match To4 ip with Some (a, b, c, d) => Some [a; b; c; d] | None => None end.
Proof. intros Hl. unfold to4. by rewrite Hl. Qed.

Lemma To4_shape ip a b c d : To4 ip = Some (a, b, c, d) → ip = repeat 0 10 ++ [255; 255; a; b; c; d].
Proof. unfold To4. repeat (case_match; try done). intros [= <- <- <- <-]. done. Qed.

(** The first [n] of 128 bits. *)
Definition prefix_bits (n : Z) (ip : IP) : Z := be_value ip / 2 ^ (128 - n).

Lemma mapped_value a b c d :
  be_value (repeat 0 10 ++ [255; 255; a; b; c; d]) = 65535 * 2 ^ 32 + be_value [a; b; c; d].
Proof. cbn [repeat app be_value length]. pow_consts. change (2 ^ 32) with 4294967296. lia. Qed.

(** Two mapped addresses share [96 + n] bits when their last four bytes share [n]. *)
Lemma mapped_prefix a b c d a' b' c' d' n :
  bytes [a; b; c; d] → bytes [a'; b'; c'; d'] → 0 <= n <= 32 →
  prefix_bits (96 + n) (repeat 0 10 ++ [255; 255; a; b; c; d]) = prefix_bits (96 + n) (repeat 0 10 ++ [255; 255; a'; b'; c'; d'])
  ↔ and_bytes [a; b; c; d] (CIDRMask n 4) = and_bytes [a'; b'; c'; d'] (CIDRMask n 4).
Proof.
  intros Hb Hb' Hn. pose proof (mask_prefix [a; b; c; d] [a'; b'; c'; d'] n Hb Hb' eq_refl) as Hm.
  cbn [length] in Hm. rewrite Hm by lia. clear Hm. change (8 * Z.of_nat 4) with 32. unfold prefix_bits. rewrite !mapped_value.
  replace (128 - (96 + n)) with (32 - n) by lia.
  assert (∀ v, (65535 * 2 ^ 32 + v) / 2 ^ (32 - n) = 65535 * 2 ^ n + v / 2 ^ (32 - n)) as Hd.
  { intros v. replace (2 ^ 32) with (2 ^ n * 2 ^ (32 - n)) by (rewrite <- Z.pow_add_r by lia; f_equal; lia).
    rewrite Z.mul_assoc, Z.div_add_l by lia. done. }
  rewrite !Hd. lia.
Qed.

(** Sharing 96 bits or more with an IPv4 address makes an IPv4 address. *)
Lemma prefix_mono n k a b : 0 <= k <= n → n <= 128 → prefix_bits n a = prefix_bits n b → prefix_bits k a = prefix_bits k b.
Proof.
  intros Hk Hn Heq. unfold prefix_bits in *. replace (128 - k) with ((128 - n) + (n - k)) by lia.
  rewrite Z.pow_add_r, <- !Z.div_div by lia. by rewrite Heq.
Qed.

Lemma To4_prefix ip : bytes ip → length ip = 16%nat → is_Some (To4 ip) ↔ prefix_bits 96 ip = 65535.
Proof. intros Hb Hl. apply To4_mapped; done. Qed.

(** [s] denotes the network of the addresses that share [n] leading bits with [a],
    IPv4 addresses counted in their mapped form. *)
Definition denotes (s : string) (a : IP) (n : Z) : Prop :=
  ∃ addr mask is4 k, Cut "/" s = (addr, mask, true) ∧ ParseAddr addr = Some (is4, a) ∧ dtoi mask = Some (k, "") ∧
    n = if (is4 : bool) then 96 + k else k.

Definition in_network (a : IP) (n : Z) (ip : IP) : Prop :=
  prefix_bits n ip = prefix_bits n a ∧ (is_Some (To4 ip) → 96 <= n).

Lemma dtoi_nonneg s n r : dtoi s = Some (n, r) → 0 <= n.
Proof.
  assert (∀ t x y r, 0 <= x → dtoi_go x t = Some (y, r) → 0 <= y) as Hgo.
  { clear. induction t as [|c t IH]; intros x y r Hx; cbn [dtoi_go]; [intros [= <- _]; done|].
    destruct (is_digit c) eqn:Hc; [|intros [= <- _]; done]. destruct (_ <=? _); [done|]. apply IH.
    unfold is_digit in Hc. apply andb_prop in Hc as [? ?]. blia. }
  unfold dtoi. destruct s as [|c s]; [done|]. destruct (is_digit c); [|done]. apply Hgo. lia.
Qed.

Lemma bytes_tail a b c d : bytes (repeat 0 10 ++ [255; 255; a; b; c; d]) → bytes [a; b; c; d].
Proof. intros Hb. cbn in Hb. unfold bytes in Hb. repeat (apply Forall_cons in Hb as [? Hb]). byte_list. Qed.

Lemma Contains_v4 x y z w k ip :
  bytes [x; y; z; w] → 0 <= k <= 32 → bytes ip → length ip = 16%nat →
  let m := CIDRMask k 4 in
  IPNet_Contains (mkIPNet (and_bytes [x; y; z; w] m) m) ip = true ↔ in_network (repeat 0 10 ++ [255; 255; x; y; z; w]) (96 + k) ip.
Proof.
  intros Hb Hk Hip Hl m. unfold IPNet_Contains, networkNumberAndMask. cbn [n_IP n_Mask].
  assert (length m = 4%nat) as Hm by apply CIDRMask_length.
  assert (length (and_bytes [x; y; z; w] m) = 4%nat) as Hlen by (by rewrite and_bytes_length).
  assert (to4 (and_bytes [x; y; z; w] m) = Some (and_bytes [x; y; z; w] m)) as -> by (unfold to4; by rewrite Hlen).
  rewrite default_Some, Hlen, Hm. cbn [Nat.eqb andb orb]. rewrite Hlen, to4_16, and_bytes_idem by done. unfold in_network.
  destruct (To4 ip) as [[[[x' y'] z'] w']|] eqn:H4.
  - rewrite default_Some. cbn [length Nat.eqb andb]. rewrite bool_decide_eq_true.
    apply To4_shape in H4 as Hs. subst ip.
    pose proof (mapped_prefix x y z w x' y' z' w' k Hb (bytes_tail _ _ _ _ Hip) Hk) as Hmp. fold m in Hmp. rewrite <- Hmp.
    split; [intros ->; split; [done|lia]|intros [-> _]; done].
  - rewrite default_None, Hl. cbn [Nat.eqb andb]. split; [done|]. intros [Hp _].
    assert (is_Some (To4 ip)) as [? ?]; [|congruence]. apply To4_prefix; [done..|].
    rewrite (prefix_mono (96 + k) 96 _ _ ltac:(lia) ltac:(lia) Hp). unfold prefix_bits. rewrite mapped_value.
    pose proof (be_value_range _ Hb). cbn [length] in *. change (128 - 96) with 32. change (8 * Z.of_nat 4) with 32 in *.
    rewrite Z.div_add_l, Z.div_small by lia. done.
Qed.

(** Masking keeps the first [n] bits. *)
Lemma and_mask_prefix a n : bytes a → length a = 16%nat → 0 <= n <= 128 →
  bytes (and_bytes a (CIDRMask n 16)) ∧ prefix_bits n (and_bytes a (CIDRMask n 16)) = prefix_bits n a.
Proof.
  intros Hb Hl Hn. assert (bytes (and_bytes a (CIDRMask n 16))) as Hb'.
  { clear Hl. revert n Hn. generalize 16%nat as l. induction Hb as [|x a Hx Hb IH]; intros l n Hn; [constructor|].
    destruct l as [|l]; [constructor|]. cbn [CIDRMask]. destruct (Z.leb_spec 8 n) as [Hge|Hlt].
    - apply List.Forall_cons; [|apply IH; lia]. change 255 with (Z.ones 8). rewrite Z.land_ones by lia.
      apply Z.mod_pos_bound. lia.
    - apply List.Forall_cons; [|apply IH; lia]. rewrite mask_byte by lia.
      assert (0 < 2 ^ (8 - n)) by (apply Z.pow_pos_nonneg; lia).
      pose proof (Z.mul_div_le x (2 ^ (8 - n)) ltac:(lia)). assert (0 <= x / 2 ^ (8 - n)) by (apply Z.div_pos; lia). lia. }
  split; [done|]. pose proof (mask_prefix (and_bytes a (CIDRMask n 16)) a n Hb' Hb) as Hm.
  rewrite and_bytes_length in Hm by (by rewrite CIDRMask_length). rewrite Hl in Hm.
  unfold prefix_bits. change 128 with (8 * Z.of_nat 16). apply Hm; [done|lia|apply and_bytes_idem].
Qed.

Lemma CIDRMask_full n k l : 8 * Z.of_nat k <= n → drop k (CIDRMask n (k + l)) = CIDRMask (n - 8 * Z.of_nat k) l.
Proof.
  revert n. induction k as [|k IH]; intros n Hn; [by rewrite Z.sub_0_r|]. cbn [CIDRMask Nat.add].
  rewrite (proj2 (Z.leb_le 8 n)) by lia. cbn [drop]. rewrite IH by lia. f_equal. lia.
Qed.

Lemma CIDRMask_drop n : 96 <= n → drop 12 (CIDRMask n 16) = CIDRMask (n - 96) 4.
Proof.
  intros Hn. exact (CIDRMask_full n 12 4 Hn).
Qed.

Lemma masked_short a n : bytes a → length a = 16%nat → 0 <= n < 96 → To4 (and_bytes a (CIDRMask n 16)) = None.
Proof.
  intros Hb Hl Hn. destruct (To4 (and_bytes a (CIDRMask n 16))) as [[[[x y] z] w]|] eqn:H4; [|done]. exfalso.
  apply To4_shape in H4. assert ((and_bytes a (CIDRMask n 16)) !! 11%nat = Some 255) as H11 by (by rewrite H4).
  unfold and_bytes in H11. rewrite lookup_zip_with in H11. destruct (a !! 11%nat) as [b|] eqn:Hb11; [|done].
  assert (∃ v, CIDRMask n 16 !! 11%nat = Some v ∧ 0 <= v < 255) as (v & Hv & Hr).
  { assert (∀ i l n, 0 <= n < 8 * Z.of_nat (S i) → (i < l)%nat → ∃ v, CIDRMask n l !! i = Some v ∧ 0 <= v < 255) as Hgen.
    { clear. induction i as [|i IH]; intros l n Hn Hi; (destruct l as [|l]; [lia|]); cbn [CIDRMask].
      - rewrite (proj2 (Z.leb_gt 8 n)) by lia. eexists. split; [done|]. rewrite Z.shiftr_div_pow2 by lia.
        assert (1 <= 255 / 2 ^ n); [|assert (0 < 2 ^ n) by (apply Z.pow_pos_nonneg; lia);
          assert (255 / 2 ^ n <= 255) by (apply Z.div_le_upper_bound; nia); lia].
        apply Z.div_le_lower_bound; [apply Z.pow_pos_nonneg; lia|]. assert (2 ^ n <= 2 ^ 7) by (apply Z.pow_le_mono_r; lia). lia.
      - destruct (Z.leb_spec 8 n); cbn [lookup list_lookup]; apply IH; lia. }
    apply Hgen; lia. }
  rewrite Hv in H11. assert (Z.land b v = 255) as Hland by (cbn [mbind option_bind] in H11; by injection H11).
  assert (Z.land v (Z.ones 8) = 255) as Hv255.
  { change (Z.ones 8) with 255. rewrite <- Hland at 1. by rewrite Z.land_comm, <- Z.land_assoc, Z.land_diag. }
  rewrite Z.land_ones, Z.mod_small in Hv255 by lia. lia.
Qed.

Lemma Contains_v6 a n ip :
  bytes a → length a = 16%nat → 0 <= n <= 128 → bytes ip → length ip = 16%nat →
  let m := CIDRMask n 16 in
  IPNet_Contains (mkIPNet (and_bytes a m) m) ip = true ↔ in_network a n ip.
Proof.
  intros Hb Hl Hn Hip Hli m. assert (length m = 16%nat) as Hm by apply CIDRMask_length.
  destruct (and_mask_prefix a n Hb Hl Hn) as [Hbm Hpm]. fold m in Hbm, Hpm.
  assert (length (and_bytes a m) = 16%nat) as Hlen by (rewrite and_bytes_length; congruence).
  unfold IPNet_Contains, networkNumberAndMask, in_network. cbn [n_IP n_Mask]. rewrite (to4_16 _ Hlen), <- Hpm.
  destruct (To4 (and_bytes a m)) as [[[[x y] z] w]|] eqn:H4.
  - (* an IPv4 network in its mapped form *)
    assert (96 <= n) as Hn96.
    { destruct (Z_lt_le_dec n 96) as [Hlt|]; [|done]. pose proof (masked_short a n Hb Hl ltac:(lia)) as Hno. fold m in Hno. congruence. }
    rewrite default_Some, Hm. cbn [length Nat.eqb andb]. replace (drop 12 m) with (CIDRMask (n - 96) 4) by (symmetry; by apply CIDRMask_drop).
    apply To4_shape in H4 as Hs.
    pose proof (bytes_tail x y z w ltac:(by rewrite <- Hs)) as Hb4.
    pose proof (Contains_v4 x y z w (n - 96) ip Hb4 ltac:(lia) Hip Hli) as Hc. cbn zeta in Hc. rewrite <- Hs in Hc.
    replace (96 + (n - 96)) with n in Hc by lia. unfold in_network in Hc. rewrite <- Hc. clear Hc.
    unfold IPNet_Contains, networkNumberAndMask. cbn [n_IP n_Mask].
    assert (length (and_bytes [x; y; z; w] (CIDRMask (n - 96) 4)) = 4%nat) as Hl4
      by (rewrite and_bytes_length; rewrite ?CIDRMask_length; done).
    assert (to4 (and_bytes [x; y; z; w] (CIDRMask (n - 96) 4)) = Some (and_bytes [x; y; z; w] (CIDRMask (n - 96) 4))) as ->
      by (unfold to4; by rewrite Hl4).
    rewrite default_Some, Hl4, CIDRMask_length. cbn [Nat.eqb andb orb]. rewrite Hl4, and_bytes_idem. done.
  - rewrite default_None, Hlen, Hm. cbn [Nat.eqb andb orb]. rewrite Hlen, and_bytes_idem, (to4_16 _ Hli).
    destruct (To4 ip) as [[[[x' y'] z'] w']|] eqn:Hi4.
    + rewrite default_Some. cbn [length Nat.eqb andb]. split; [done|]. intros [Hp H96]. exfalso. specialize (H96 ltac:(by eexists)).
      assert (is_Some (To4 (and_bytes a m))) as [? ?]; [|congruence]. apply To4_prefix; [done..|].
      rewrite <- (prefix_mono n 96 _ _ ltac:(lia) ltac:(lia) Hp). apply To4_prefix; [done..|]. by eexists.
    + rewrite default_None, Hli. cbn [Nat.eqb andb]. rewrite bool_decide_eq_true.
      pose proof (mask_prefix a ip n Hb Hip ltac:(congruence) ltac:(lia)) as Hmp. rewrite Hl in Hmp. fold m in Hmp.
      rewrite Hmp, Hpm. change (8 * Z.of_nat 16) with 128. unfold prefix_bits.
      split; [intros Heq; split; [done|by intros [? ?]]|by intros [Heq _]].
Qed.

(** A text in CIDR notation stands for the addresses with its leading bits. *)
Lemma ParseCIDR_denotes s net : ParseCIDR s = Some net →
  ∃ a n, denotes s a n ∧ ∀ ip, bytes ip → length ip = 16%nat → IPNet_Contains net ip = true ↔ in_network a n ip.
Proof.
  unfold ParseCIDR. destruct (Cut "/" s) as [[addr mask] [|]] eqn:Hcut; [|done]. cbn [negb].
  destruct (ParseAddr addr) as [[is4 a]|] eqn:Ha; [|done]. destruct (dtoi mask) as [[k [|? ?]]|] eqn:Hk; [|done|done].
  pose proof (dtoi_nonneg _ _ _ Hk) as Hk0. destruct (_ <? k) eqn:Hmax; [done|]. intros [= <-].
  assert (ParseIP addr = Some a ∧ (is4 = true → ∃ x y z w, a = IPv4 x y z w)) as [Hip H4].
  { unfold ParseAddr in Ha. destruct (List.filter _ _) as [|c l] eqn:Hf; [done|].
    destruct (ParseIP addr) as [ip|] eqn:Hp; [|done]. cbn in Ha. injection Ha as <- <-. split; [done|]. intros Hdot.
    unfold ParseIP in Hp. rewrite Hf, Hdot in Hp. destruct (parseIPv4 addr) as [v4|]; [|done]. cbn in Hp.
    repeat (case_match; try done). injection Hp as <-. eauto. }
  destruct (ParseIP_bytes _ _ Hip) as [Hb Hl]. exists a, (if is4 then 96 + k else k). split.
  { exists addr, mask, is4, k. done. }
  intros ip Hbi Hli. destruct is4.
  - destruct (H4 eq_refl) as (x & y & z & w & ->). change (default (IPv4 x y z w) (to4 (IPv4 x y z w))) with [x; y; z; w].
    apply Contains_v4; try done; [by apply bytes_tail|]. blia.
  - apply Contains_v6; try done. blia.
Qed.
End Net.
