(* ===== verification/Cache.v ===== *)
(** * internal/cache/cache.go: the content-addressed package cache

    The state of a [Cache] is its configuration, its tracked size, the rows of
    the [packages] table, the files below [basePath] (by path), the reader
    counts and the access records not yet flushed.  Operations take an [IO]:
    the clock, the free disk space and, for every system call and every SQL
    statement, whether it succeeds.  Operations that hold the cache lock are
    single steps; a panic (slicing a hash shorter than 16 bytes for a log line)
    is the error [EPanic].

    The metadata cache ([internal/cache/metadata.go]) is in MetaCache.v. *)

From S2P Require Import Prelude GoStd HashUtil DebName Sql.
From Stdlib Require Import Ascii.
Open Scope Z_scope.
Open Scope go_scope.

Module Cache.

(** ** Data *)

Inductive CacheErr :=
| ErrNotFound | ErrHashMismatch | ErrInsufficientDiskSpace | ErrFileInUse | ErrCacheFull
| ENoRows       (* sql.ErrNoRows handed to the caller *)
| EFs           (* a failed system call *)
| EDb           (* a failed SQL statement *)
| EPanic.       (* slice bounds out of range *)

#[global] Instance CacheErr_eq_dec : EqDecision CacheErr.
Proof. solve_decision. Defined.

(** A row of the [packages] table; its primary key [sha256] is the map key. *)
Record Row := mkRow {
  size : Z;
  filename : string;
  added_at : Z;
  last_accessed : Z;
  access_count : Z;
  announced : Z;
  package_name : string;
  package_version : string;
  architecture : string;
  pinned : Z;
}.

(** The Go struct [Package]; times are Unix seconds. *)
Record Package := mkPackage {
  SHA256 : string;
  Size : Z;
  Filename : string;
  AddedAt : Z;
  LastAccessed : Z;
  AccessCount : Z;
  Announced : Z;
  PackageName : string;
  PackageVersion : string;
  Architecture : string;
  Pinned : bool;
}.

Record accessRecord := mkAccess { ar_last : Z; ar_count : Z }.

Record Cache := mkCache {
  basePath : string;
  maxSize : Z;
  minFreeSpace : Z;
  currentSize : Z;
  packages : gmap string Row;
  disk : gmap string string;
  activeReaders : gmap string Z;
  pendingAccess : gmap string accessRecord;
  evictions : nat;    (* calls of the onEvict callback *)
}.

(** The [trackedReader] handed out by [Get]. *)
Record trackedReader := mkReader { tr_file : string; tr_hash : string; tr_closed : bool }.

(** ** The environment of one operation *)

Inductive fsop :=
| FsMkdirAll (path : string) | FsRename (src dst : string) | FsRemove (path : string)
| FsOpen (path : string) | FsCreateTemp | FsClose.

Inductive dbop :=
| DbBegin | DbPrepare | DbCommit | DbUpdateAccess (h : string)
| DbSelectSize (h : string) | DbUpsert (h : string) | DbDelete (h : string)
| DbQueryEvict | DbScan (h : string) | DbRowsErr | DbSelectInfo (h : string)
| DbUpdate (h : string) | DbQuery | DbRowsAffected.

Record IO := mkIO {
  now : Z;                  (* time.Now().Unix() *)
  freeSpace : option Z;     (* getDiskFreeSpace *)
  fs : fsop → bool;         (* does the system call succeed? *)
  db : dbop → bool;         (* does the statement succeed? *)
}.

(** ** Field updates *)

Definition set_packages (p : gmap string Row) (c : Cache) : Cache :=
  mkCache (basePath c) (maxSize c) (minFreeSpace c) (currentSize c) p (disk c)
          (activeReaders c) (pendingAccess c) (evictions c).
Definition set_disk (d : gmap string string) (c : Cache) : Cache :=
  mkCache (basePath c) (maxSize c) (minFreeSpace c) (currentSize c) (packages c) d
          (activeReaders c) (pendingAccess c) (evictions c).
Definition set_size (n : Z) (c : Cache) : Cache :=
  mkCache (basePath c) (maxSize c) (minFreeSpace c) n (packages c) (disk c)
          (activeReaders c) (pendingAccess c) (evictions c).
Definition set_readers (r : gmap string Z) (c : Cache) : Cache :=
  mkCache (basePath c) (maxSize c) (minFreeSpace c) (currentSize c) (packages c) (disk c)
          r (pendingAccess c) (evictions c).
Definition set_pending (p : gmap string accessRecord) (c : Cache) : Cache :=
  mkCache (basePath c) (maxSize c) (minFreeSpace c) (currentSize c) (packages c) (disk c)
          (activeReaders c) p (evictions c).
Definition count_eviction (c : Cache) : Cache :=
  mkCache (basePath c) (maxSize c) (minFreeSpace c) (currentSize c) (packages c) (disk c)
          (activeReaders c) (pendingAccess c) (S (evictions c)).

(** ** Paths *)

Definition packagePath (c : Cache) (sha256Hash : string) : string :=
  if (String.length sha256Hash <? 2)%nat
  then filepath_Join [basePath c; "packages"; "sha256"; "_invalid"; sha256Hash]
  else filepath_Join [basePath c; "packages"; "sha256"; str_take 2 sha256Hash; sha256Hash].

(** [filepath.Join(c.basePath, "packages", "pending")]. *)
Definition pendingDir (c : Cache) : string := filepath_Join [basePath c; "packages"; "pending"].

Definition PartialDir (c : Cache) (hash : string) : string :=
  filepath_Join [basePath c; "packages"; "partial"; hash].

(** ** Reading rows *)

(** [rows.Scan] into a [Package]. *)
Definition scan (h : string) (r : Row) : Package := {|
  SHA256 := h; Size := size r; Filename := filename r; AddedAt := added_at r;
  LastAccessed := last_accessed r; AccessCount := access_count r; Announced := announced r;
  PackageName := package_name r; PackageVersion := package_version r;
  Architecture := architecture r; Pinned := negb (pinned r =? 0) |}.

Definition getPackageInfo (io : IO) (c : Cache) (h : string) : res CacheErr Package :=
  if db io (DbSelectInfo h) then
    match packages c !! h with
    | Some r => Ok (scan h r)
    | None => Err ENoRows
    end
  else Err EDb.

Definition Has (c : Cache) (h : string) : bool :=
  match disk c !! packagePath c h with Some _ => true | None => false end.

(** ** Readers and access records *)

Definition readers (c : Cache) (h : string) : Z := default 0 (activeReaders c !! h).

Definition incReader (h : string) (c : Cache) : Cache :=
  set_readers (<[h := readers c h + 1]> (activeReaders c)) c.

(** [activeReaders[h]--; if activeReaders[h] <= 0 { delete(activeReaders, h) }]. *)
Definition decReader (h : string) (c : Cache) : Cache :=
  let n := readers c h - 1 in
  if n <=? 0 then set_readers (delete h (activeReaders c)) c
  else set_readers (<[h := n]> (activeReaders c)) c.

Definition recordAccess (io : IO) (h : string) (c : Cache) : Cache :=
  let rec := default (mkAccess 0 0) (pendingAccess c !! h) in
  set_pending (<[h := mkAccess (now io) (ar_count rec + 1)]> (pendingAccess c)) c.

Definition Get (io : IO) (h : string) (c : Cache)
  : res CacheErr (trackedReader * Package) * Cache :=
  let path := packagePath c h in
  match disk c !! path with
  | None => (Err ErrNotFound, c)
  | Some content =>
      if fs io (FsOpen path) then
        let c := recordAccess io h (incReader h c) in
        match getPackageInfo io c h with
        | Ok pkg => (Ok (mkReader content h false, pkg), c)
        | Err e => (Err e, decReader h c)
        end
      else (Err EFs, c)
  end.

(** [trackedReader.Close]: the [sync.Once] makes a second call a no-op. *)
Definition Close (tr : trackedReader) (c : Cache) : trackedReader * Cache :=
  if tr_closed tr then (tr, c)
  else (mkReader (tr_file tr) (tr_hash tr) true, decReader (tr_hash tr) c).

(** ** Flushing access records *)

(** [UPDATE packages SET last_accessed = MAX(last_accessed, ?), access_count = access_count + ?]. *)
Definition apply_access (a : accessRecord) (r : Row) : Row :=
  mkRow (size r) (filename r) (added_at r) (Z.max (last_accessed r) (ar_last a))
        (access_count r + ar_count a) (announced r)
        (package_name r) (package_version r) (architecture r) (pinned r).

Definition flush_rows (io : IO) (pending : gmap string accessRecord) (rows : gmap string Row)
  : gmap string Row :=
  map_fold (λ h a rows, if db io (DbUpdateAccess h) then alter (apply_access a) h rows else rows)
    rows pending.

(** The batch is taken before the transaction starts: it is lost when the
    transaction cannot be begun, prepared or committed. *)
Definition flushAccess (io : IO) (c : Cache) : Cache :=
  if decide (pendingAccess c = ∅) then c
  else
    let c' := set_pending ∅ c in
    if db io DbBegin && db io DbPrepare && db io DbCommit
    then set_packages (flush_rows io (pendingAccess c) (packages c)) c'
    else c'.

(** ** Deletion *)

(** [os.Remove(path)]: removing an absent file is the [IsNotExist] error that
    every caller ignores. *)
Definition os_Remove (io : IO) (path : string) (d : gmap string string) : gmap string string * bool :=
  match d !! path with
  | None => (d, true)
  | Some _ => if fs io (FsRemove path) then (delete path d, true) else (d, false)
  end.

Definition deleteUnlocked (io : IO) (h : string) (sizeHint : Z) (c : Cache)
  : res CacheErr unit * Cache :=
  if 0 <? readers c h then (Err ErrFileInUse, c)
  else if (sizeHint <? 0) && negb (db io (DbSelectSize h)) then (Err EDb, c)
  else
    let sz := if sizeHint <? 0 then from_option size 0 (packages c !! h) else sizeHint in
    let '(d, ok) := os_Remove io (packagePath c h) (disk c) in
    if ok then
      let c := set_disk d c in
      if db io (DbDelete h) then
        (Ok tt, set_size (currentSize c -₆₄ sz) (set_packages (delete h (packages c)) c))
      else (Err EDb, c)
    else (Err EFs, c).

Definition Delete (io : IO) (h : string) (c : Cache) : res CacheErr unit * Cache :=
  deleteUnlocked io h (-1) c.

(** ** Making room *)

(** Seven days in seconds: packages accessed within it are never evicted. *)
Definition evictWindow : Z := 604800.

(** [last_accessed + access_count * 86400]. *)
Definition evictScore (r : Row) : Z := last_accessed r + access_count r * 86400.

(** [WHERE last_accessed < ? AND pinned = 0]. *)
Definition evictable (io : IO) (r : Row) : bool :=
  (last_accessed r <? now io - evictWindow) && (pinned r =? 0).

Definition score_le (a b : string * Row) : bool := evictScore a.2 <=? evictScore b.2.

(** The loop over the eviction candidates. *)
Fixpoint evictLoop (io : IO) (needed : Z) (cands : list (string * Row)) (c : Cache)
  : res CacheErr unit * Cache :=
  match cands with
  | [] => (Ok tt, c)
  | (h, r) :: rest =>
      if maxSize c <? currentSize c +₆₄ needed then
        if negb (db io (DbScan h)) then evictLoop io needed rest c
        else if (String.length h <? 16)%nat then (Err EPanic, c)
        else
          match deleteUnlocked io h (size r) c with
          | (Ok _, c') => evictLoop io needed rest (count_eviction c')
          | (Err _, c') => evictLoop io needed rest c'
          end
      else (Ok tt, c)
  end.

Section with_order.
Context `{SqlOrder}.

Definition candidates (io : IO) (c : Cache) : list (string * Row) :=
  select_order (evictable io) score_le (packages c).

Definition ensureSpace (io : IO) (needed : Z) (c0 : Cache) : res CacheErr unit * Cache :=
  let c := flushAccess io c0 in
  if match freeSpace io with
     | Some free => (0 <? minFreeSpace c) && (free -₆₄ needed <? minFreeSpace c)
     | None => false
     end
  then (Err ErrInsufficientDiskSpace, c)
  else if currentSize c +₆₄ needed <=? maxSize c then (Ok tt, c)
  else if negb (db io DbQueryEvict) then (Err EDb, c)
  else
    match evictLoop io needed (candidates io c) c with
    | (Err e, c') => (Err e, c')
    | (Ok _, c') =>
        if negb (db io DbRowsErr) then (Err EDb, c')
        else if maxSize c' <? currentSize c' +₆₄ needed then (Err ErrCacheFull, c')
        else (Ok tt, c')
    end.

(** ** Storing *)

Context `{GoUnicode}.

(** [INSERT ... ON CONFLICT(sha256) DO UPDATE SET ...]. *)
Definition upsert_row (io : IO) (sz : Z) (fname : string) (old : option Row) : Row :=
  let '(n, v, a, _) := ParseDebFilename fname in
  match old with
  | None => mkRow sz fname (now io) (now io) 1 0 n v a 0
  | Some r =>
      mkRow sz fname (added_at r) (now io) (access_count r + 1) (announced r)
            (if String.eqb n "" then package_name r else n)
            (if String.eqb v "" then package_version r else v)
            (if String.eqb a "" then architecture r else a)
            (pinned r)
  end.

(** Moving [filePath] to [finalPath]: a file that is already there is kept and
    the source consumed; otherwise the source is renamed.  [None] is the
    failed rename. *)
Definition moveIntoPlace (io : IO) (filePath finalPath : string) (d : gmap string string)
  : option (gmap string string) :=
  match d !! finalPath with
  | Some _ => Some ((os_Remove io filePath d).1)
  | None =>
      match d !! filePath with
      | Some content =>
          if fs io (FsRename filePath finalPath)
          then Some (<[finalPath := content]> (delete filePath d))
          else None
      | None => None
      end
  end.

Definition commitVerifiedFile (io : IO) (filePath hash fname : string) (sz : Z) (c0 : Cache)
  : res CacheErr unit * Cache :=
  match ensureSpace io sz c0 with
  | (Err e, c) => (Err e, c)
  | (Ok _, c) =>
      let finalPath := packagePath c hash in
      if negb (fs io (FsMkdirAll finalPath)) then (Err EFs, c)
      else
        match moveIntoPlace io filePath finalPath (disk c) with
        | None => (Err EFs, c)
        | Some d =>
            let c := set_disk d c in
            let existing := if db io (DbSelectSize hash) then packages c !! hash else None in
            if negb (db io (DbUpsert hash)) then (Err EDb, c)
            else
              let row := upsert_row io sz fname (packages c !! hash) in
              let delta := match existing with Some r => sz -₆₄ size r | None => sz end in
              let c := set_size (currentSize c +₆₄ delta)
                         (set_packages (<[hash := row]> (packages c)) c) in
              if (String.length hash <? 16)%nat then (Err EPanic, c) else (Ok tt, c)
        end
  end.

Definition PutFile (io : IO) (filePath hash fname : string) (sz : Z) (c : Cache)
  : res CacheErr unit * Cache := commitVerifiedFile io filePath hash fname sz c.

Context `{Sha256}.

(** What the reader given to [Put] delivers, the disk's answer to each write and
    the random part of the temporary name. *)
Record PutData := mkPutData {
  pd_chunks : list string;
  pd_ok : bool;
  pd_sink : Sink;
  pd_rand : string;
}.

Definition pendingPath (c : Cache) (expectedHash rand : string) : string :=
  pendingDir c +:+ "/" +:+ expectedHash +:+ "." +:+ rand.

(** [os.CreateTemp] fails when the pattern contains a path separator. *)
Definition createTemp (io : IO) (expectedHash : string) : bool :=
  fs io FsCreateTemp && str_no slash expectedHash.

Definition remove_pending (io : IO) (p : string) (c : Cache) : Cache :=
  set_disk (os_Remove io p (disk c)).1 c.

Definition Put (io : IO) (pd : PutData) (expectedHash fname : string) (c : Cache)
  : res CacheErr unit * Cache :=
  if negb (createTemp io expectedHash) then (Err EFs, c)
  else
    let p := pendingPath c expectedHash (pd_rand pd) in
    let '(hw, sz, ok) := io_Copy (pd_sink pd) (pd_chunks pd) (pd_ok pd) NewHashingWriter 0 in
    let c := set_disk (<[p := hw_out hw]> (disk c)) c in
    if negb ok then (Err EFs, remove_pending io p c)
    else if negb (fs io FsClose) then (Err EFs, remove_pending io p c)
    else if negb (String.eqb (hw_Sum hw) expectedHash)
    then (Err ErrHashMismatch, remove_pending io p c)
    else
      match commitVerifiedFile io p expectedHash fname sz c with
      | (Err e, c) => (Err e, remove_pending io p c)
      | (Ok _, c) => (Ok tt, c)
      end.

End with_order.

(** ** Row updates *)

Definition set_announced (t : Z) (r : Row) : Row :=
  mkRow (size r) (filename r) (added_at r) (last_accessed r) (access_count r) t
        (package_name r) (package_version r) (architecture r) (pinned r).
Definition set_pinned (p : Z) (r : Row) : Row :=
  mkRow (size r) (filename r) (added_at r) (last_accessed r) (access_count r) (announced r)
        (package_name r) (package_version r) (architecture r) p.
Definition set_meta (n v a : string) (r : Row) : Row :=
  mkRow (size r) (filename r) (added_at r) (last_accessed r) (access_count r) (announced r)
        n v a (pinned r).

Definition MarkAnnounced (io : IO) (h : string) (c : Cache) : res CacheErr unit * Cache :=
  if db io (DbUpdate h)
  then (Ok tt, set_packages (alter (set_announced (now io)) h (packages c)) c)
  else (Err EDb, c).

(** Shared shape of [Pin] and [Unpin]: [rows == 0] is [ErrNotFound]; the log line
    slices the hash. *)
Definition update_pin (io : IO) (p : Z) (h : string) (c : Cache) : res CacheErr unit * Cache :=
  if negb (db io (DbUpdate h)) then (Err EDb, c)
  else
    let c' := set_packages (alter (set_pinned p) h (packages c)) c in
    if negb (db io DbRowsAffected) then (Err EDb, c')
    else
      match packages c !! h with
      | None => (Err ErrNotFound, c')
      | Some _ => if (String.length h <? 16)%nat then (Err EPanic, c') else (Ok tt, c')
      end.

Definition Pin (io : IO) (h : string) (c : Cache) := update_pin io 1 h c.
Definition Unpin (io : IO) (h : string) (c : Cache) := update_pin io 0 h c.

Definition IsPinned (io : IO) (c : Cache) (h : string) : bool :=
  if db io (DbSelectInfo h) then
    match packages c !! h with Some r => negb (pinned r =? 0) | None => false end
  else false.

(** ** Start-up *)

(** [SELECT COALESCE(SUM(size), 0) FROM packages]. *)
Definition calculateSize (io : IO) (c : Cache) : Cache :=
  if db io DbQuery then set_size (wrap64 (sum_map size (packages c))) c else c.

(** A cache opened on an existing database and directory. *)
Definition NewWithMinFreeSpace (io : IO) (base : string) (maxSz minFree : Z)
    (rows : gmap string Row) (files : gmap string string) : Cache :=
  calculateSize io (mkCache base maxSz minFree 0 rows files ∅ ∅ 0).

(** ** Queries *)
Section queries.
Context `{SqlOrder} `{GoUnicode}.

Definition recent_le (a b : string * Row) : bool := last_accessed b.2 <=? last_accessed a.2.
Definition popular_le (a b : string * Row) : bool :=
  (access_count b.2 <? access_count a.2)
  || ((access_count b.2 =? access_count a.2) && (last_accessed b.2 <=? last_accessed a.2)).

Definition scan_all (l : list (string * Row)) : list Package := (λ kv, scan kv.1 kv.2) <$> l.

Definition List (io : IO) (c : Cache) : res CacheErr (list Package) * Cache :=
  let c := flushAccess io c in
  if db io DbQuery then (Ok (scan_all (select_order (λ _, true) recent_le (packages c))), c)
  else (Err EDb, c).

Definition GetUnannounced (io : IO) (c : Cache) : res CacheErr (list Package) :=
  if db io DbQuery
  then Ok (scan_all (select_order (λ r, announced r <? now io - 12 * 3600) (λ _ _, true) (packages c)))
  else Err EDb.

Definition ListByPackageName (io : IO) (name : string) (c : Cache) : res CacheErr (list Package) :=
  if db io DbQuery
  then Ok (scan_all (select_order (λ r, String.eqb (package_name r) name) recent_le (packages c)))
  else Err EDb.

Definition ListPinned (io : IO) (c : Cache) : res CacheErr (list Package) :=
  if db io DbQuery
  then Ok (scan_all (select_order (λ r, pinned r =? 1) recent_le (packages c)))
  else Err EDb.

Definition PinnedCount (io : IO) (c : Cache) : Z :=
  if db io DbQuery
  then Z.of_nat (length (select_order (λ r, pinned r =? 1) recent_le (packages c))) else 0.

Definition RecentPackages (io : IO) (limit : Z) (c : Cache) : res CacheErr (list Package) :=
  let limit := if limit <=? 0 then 10 else limit in
  if db io DbQuery
  then Ok (scan_all (take (Z.to_nat limit) (select_order (λ _, true) recent_le (packages c))))
  else Err EDb.

Definition PopularPackages (io : IO) (limit : Z) (c : Cache) : res CacheErr (list Package) :=
  let limit := if limit <=? 0 then 10 else limit in
  if db io DbQuery
  then Ok (scan_all (take (Z.to_nat limit) (select_order (λ _, true) popular_le (packages c))))
  else Err EDb.

(** One row of a query whose [WHERE] clause may match several. *)
Definition GetByNameVersionArch (io : IO) (name version arch : string) (c : Cache)
  : res CacheErr Package :=
  if db io DbQuery then
    match select_order (λ r, String.eqb (package_name r) name && String.eqb (package_version r) version
                             && String.eqb (architecture r) arch) (λ _ _, true) (packages c) with
    | (h, r) :: _ => Ok (scan h r)
    | [] => Err ErrNotFound
    end
  else Err EDb.

Definition Count (io : IO) (c : Cache) : Z :=
  if db io DbQuery then Z.of_nat (base.size (packages c)) else 0.

(** The rows with no package name whose file name parses, then one update each. *)
Definition missing_updates (io : IO) (c : Cache) : list (string * (string * string * string)) :=
  omap (λ kv, if negb (db io (DbScan kv.1)) then None
              else let '(n, v, a, ok) := ParseDebFilename (filename kv.2) in
                   if ok : bool then Some (kv.1, (n, v, a)) else None)
    (select_order (λ r, String.eqb (package_name r) "") (λ _ _, true) (packages c)).

Fixpoint apply_updates (io : IO) (l : list (string * (string * string * string)))
    (updated : Z) (c : Cache) : res CacheErr Z * Cache :=
  match l with
  | [] => (Ok updated, c)
  | (h, (n, v, a)) :: rest =>
      if db io (DbUpdate h)
      then apply_updates io rest (updated + 1)
             (set_packages (alter (set_meta n v a) h (packages c)) c)
      else if (String.length h <? 16)%nat then (Err EPanic, c)
      else apply_updates io rest updated c
  end.

Definition PopulateMissingMetadata (io : IO) (c : Cache) : res CacheErr Z * Cache :=
  if negb (db io DbQuery) then (Err EDb, c)
  else if negb (db io DbRowsErr) then (Err EDb, c)
  else apply_updates io (missing_updates io c) 0 c.

(** ** Statistics *)

Record CacheStats := mkStats {
  TotalPackages : Z; TotalSize : Z; MaxSize : Z; TotalAccesses : Z; BandwidthSaved : Z;
  OldestAccess : Z; NewestAccess : Z; UniquePackages : Z;
}.

Definition Stats (io : IO) (c : Cache) : res CacheErr CacheStats * Cache :=
  let c := flushAccess io c in
  let rows := (map_to_list (packages c)).*2 in
  if db io DbQuery then
    (Ok {| TotalPackages := Z.of_nat (base.size (packages c));
           TotalSize := sum_map size (packages c);
           MaxSize := maxSize c;
           TotalAccesses := sum_map access_count (packages c);
           BandwidthSaved := sum_map (λ r, size r * access_count r) (packages c);
           OldestAccess := match rows with
                           | [] => 0
                           | r :: l => foldr (λ r m, Z.min (last_accessed r) m) (last_accessed r) l
                           end;
           NewestAccess := match rows with
                           | [] => 0
                           | r :: l => foldr (λ r m, Z.max (last_accessed r) m) (last_accessed r) l
                           end;
           UniquePackages := sum_map (λ r, if String.eqb (package_name r) "" then 0 else 1) (packages c) |}, c)
  else (Err EDb, c).
End queries.

End Cache.
