(* ===== verification/CacheFacts.v ===== *)
(** * Properties of the package cache

    Paths of distinct hashes are distinct; the tracked size is the sum of the
    rows; every cached file hashes to its name; a file with an open reader is
    never removed; eviction takes the lowest scores first, stops as soon as the
    budget is met, and never touches a pinned or recently used package. *)

From S2P Require Import Prelude GoStd HashUtil DebName Sql Cache.
From Stdlib Require Import Ascii.
Open Scope Z_scope.
Open Scope go_scope.

Module CacheFacts.
Import Cache.

(** ** Paths *)
Section paths.

Lemma valid_hash_inv h :
  valid_hash h = true → String.length h = 64%nat ∧ str_forallb is_lower_hex h = true.
Proof. unfold valid_hash. by rewrite andb_true_iff, Nat.eqb_eq. Qed.

Lemma lower_hex_not a c : is_lower_hex a = true → is_lower_hex c = false → Ascii.eqb a c = false.
Proof. intros Ha Hc. apply Ascii.eqb_neq. intros ->. congruence. Qed.

Lemma plain_hex s : str_forallb is_lower_hex s = true → s ≠ "" → plain s = true.
Proof.
  intros Hs Hne. unfold plain. rewrite !andb_true_iff, !negb_true_iff, !String.eqb_neq.
  split_and!; try done; try (intros ->; done).
  unfold str_no. eapply str_forallb_impl; [|exact Hs].
  intros a Ha. simpl. rewrite (lower_hex_not a slash); done.
Qed.

Lemma packagePath_valid c h :
  valid_hash h = true →
  packagePath c h
  = dir_prefix (basePath c) +:+ "packages/sha256/" +:+ (str_take 2 h +:+ String slash h).
Proof.
  intros Hv. apply valid_hash_inv in Hv as [Hl Hx]. unfold packagePath.
  rewrite Hl. change (64 <? 2)%nat with false. cbv iota.
  assert (str_take 2 h ≠ "" ∧ h ≠ "") as [Ht Hh].
  { destruct h as [|a [|b h]]; try (simpl in Hl; lia). done. }
  rewrite filepath_Join_plain; [done|done|].
  repeat constructor; apply plain_hex; try done. by apply str_forallb_take.
Qed.

Lemma pendingDir_eq c : pendingDir c = dir_prefix (basePath c) +:+ "packages/pending".
Proof. unfold pendingDir. rewrite filepath_Join_plain; [done|done|by repeat constructor]. Qed.

Lemma packagePath_base c c' h : basePath c = basePath c' → packagePath c h = packagePath c' h.
Proof. unfold packagePath. by intros ->. Qed.

Lemma packagePath_inj c h1 h2 :
  valid_hash h1 = true → valid_hash h2 = true → packagePath c h1 = packagePath c h2 → h1 = h2.
Proof.
  intros H1 H2. rewrite !packagePath_valid by done. intros Heq.
  apply str_app_inj_l, str_app_inj_l in Heq.
  apply valid_hash_inv in H1 as [H1 _]. apply valid_hash_inv in H2 as [H2 _].
  apply str_app_inj_len in Heq as [_ Heq]; [congruence|].
  rewrite !str_length_take by lia. done.
Qed.

Lemma packagePath_not_pending c h e r :
  valid_hash h = true → packagePath c h ≠ pendingPath c e r.
Proof.
  intros H1. rewrite packagePath_valid by done. unfold pendingPath. rewrite pendingDir_eq.
  rewrite str_app_assoc. intros Heq. by apply str_app_inj_l in Heq.
Qed.
End paths.

(** ** Flushing access records *)
Section flush.
Lemma flush_rows_lookup io p rows h :
  flush_rows io p rows !! h =
    (λ r, match p !! h with
          | Some a => if db io (DbUpdateAccess h) then apply_access a r else r
          | None => r
          end) <$> rows !! h.
Proof.
  unfold flush_rows.
  apply (map_fold_weak_ind (λ r p, r !! h =
    (λ r, match p !! h with
          | Some a => if db io (DbUpdateAccess h) then apply_access a r else r
          | None => r
          end) <$> rows !! h)).
  - rewrite lookup_empty. by destruct (rows !! h).
  - intros k a m r Hk IH. destruct (decide (h = k)) as [->|Hne].
    + rewrite lookup_insert_eq. rewrite Hk in IH. destruct (db io (DbUpdateAccess k)).
      * rewrite lookup_alter, decide_True by done. rewrite IH. by destruct (rows !! k).
      * rewrite IH. by destruct (rows !! k).
    + rewrite lookup_insert_ne by done.
      destruct (db io (DbUpdateAccess k)); [|done]. by rewrite lookup_alter_ne.
Qed.

Lemma flush_rows_sum io p rows : sum_map size (flush_rows io p rows) = sum_map size rows.
Proof.
  unfold flush_rows. apply (map_fold_weak_ind (λ r _, sum_map size r = sum_map size rows)); [done|].
  intros k a m r _ IH. destruct (db io _); [|done]. by rewrite sum_map_alter.
Qed.

(** The cases of [flushAccess]. *)
Lemma flushAccess_cases io c :
  flushAccess io c = c ∨ flushAccess io c = set_pending ∅ c ∨
  flushAccess io c = set_packages (flush_rows io (pendingAccess c) (packages c)) (set_pending ∅ c).
Proof. unfold flushAccess. case_decide; [auto|]. destruct (_ && _); auto. Qed.

(** A flush changes neither files nor readers nor sizes, and keeps every row
    up to its access fields. *)
Lemma flushAccess_frame io c :
  basePath (flushAccess io c) = basePath c ∧ maxSize (flushAccess io c) = maxSize c ∧
  currentSize (flushAccess io c) = currentSize c ∧ disk (flushAccess io c) = disk c ∧
  activeReaders (flushAccess io c) = activeReaders c ∧
  minFreeSpace (flushAccess io c) = minFreeSpace c ∧
  sum_map size (packages (flushAccess io c)) = sum_map size (packages c).
Proof.
  destruct (flushAccess_cases io c) as [->|[->| ->]]; simpl; split_and!; try done.
  apply flush_rows_sum.
Qed.

(** The row of [h] after a flush. *)
Lemma flushAccess_lookup io c h :
  ∃ f, packages (flushAccess io c) !! h = f <$> packages c !! h ∧
    ∀ r, size (f r) = size r ∧ pinned (f r) = pinned r ∧ last_accessed r <= last_accessed (f r).
Proof.
  destruct (flushAccess_cases io c) as [->|[->| ->]].
  - exists id. rewrite option_fmap_id. split; [done|]. intros r. simpl. lia.
  - exists id. simpl. rewrite option_fmap_id. split; [done|]. intros r. simpl. lia.
  - simpl. rewrite flush_rows_lookup.
    eexists. split; [reflexivity|]. intros r. simpl.
    destruct (pendingAccess c !! h); [|lia]. destruct (db io _); simpl; lia.
Qed.
End flush.

(** ** Size accounting *)

Definition size_ok (c : Cache) : Prop := currentSize c = wrap64 (sum_map size (packages c)).

Section size.
Lemma flushAccess_size io c : size_ok c → size_ok (flushAccess io c).
Proof.
  unfold size_ok. destruct (flushAccess_frame io c) as (_ & _ & -> & _ & _ & _ & ->). done.
Qed.

(** Every exit of [deleteUnlocked]. *)
Lemma deleteUnlocked_cases io h sh c :
  let '(r, c') := deleteUnlocked io h sh c in
  (∃ e, r = Err e ∧ c' = c) ∨
  (r = Err EDb ∧ readers c h <= 0 ∧ c' = set_disk (delete (packagePath c h) (disk c)) c) ∨
  (r = Ok tt ∧ readers c h <= 0 ∧ db io (DbDelete h) = true ∧
   c' = set_size (wrap64 (currentSize c - (if sh <? 0 then from_option size 0 (packages c !! h) else sh)))
          (set_packages (delete h (packages c)) (set_disk (delete (packagePath c h) (disk c)) c))).
Proof.
  unfold deleteUnlocked, os_Remove.
  destruct (0 <? readers c h) eqn:Hr; [left; eauto|].
  destruct ((sh <? 0) && _); [left; eauto|].
  destruct (disk c !! packagePath c h) eqn:Hd; [destruct (fs io _); [|left; eauto]|];
    [|rewrite (delete_id (disk c)) by done];
    destruct (db io (DbDelete h)) eqn:Hdb; right; first
      [left; split_and!; [done|blia|done] | right; split_and!; [done|blia|done|done]].
Qed.

Lemma deleteUnlocked_size io h sh c :
  size_ok c → (sh < 0 ∨ sh = from_option size 0 (packages c !! h)) →
  size_ok (deleteUnlocked io h sh c).2.
Proof.
  intros Hc Hsh. pose proof (deleteUnlocked_cases io h sh c) as Hd.
  destruct (deleteUnlocked io h sh c) as [r c'].
  destruct Hd as [(e & -> & ->)|[(-> & _ & ->)|(-> & _ & _ & ->)]]; simpl; [done|done|].
  unfold size_ok in *. simpl. rewrite sum_map_delete_default, Hc, wrap64_sub_l.
  f_equal. destruct (sh <? 0) eqn:?; [lia|]. destruct Hsh; [blia|lia].
Qed.
End size.

(** ** What an eviction may remove

    [removes S c c']: [c'] is [c] without the rows and files of some hashes in
    [S]; configuration and readers are unchanged. *)
Record removes (S : string → Prop) (c c' : Cache) : Prop := mkRemoves {
  rm_base : basePath c' = basePath c;
  rm_max : maxSize c' = maxSize c;
  rm_free : minFreeSpace c' = minFreeSpace c;
  rm_readers : activeReaders c' = activeReaders c;
  rm_rows : ∀ h, packages c' !! h = packages c !! h ∨ (S h ∧ packages c' !! h = None);
  rm_disk : ∀ p, disk c' !! p = disk c !! p ∨
                 (disk c' !! p = None ∧ ∃ h, S h ∧ p = packagePath c h);
}.

Section removes.
Lemma removes_refl S c : removes S c c.
Proof. constructor; auto. Qed.

Lemma removes_mono (S T : string → Prop) c c' :
  (∀ h, S h → T h) → removes S c c' → removes T c c'.
Proof.
  intros HST [H1 H2 H3 H4 H5 H6]. constructor; try done.
  - intros h. destruct (H5 h) as [|[? ?]]; auto.
  - intros p. destruct (H6 p) as [|(? & h & ? & ?)]; eauto 6.
Qed.

Lemma removes_trans S c1 c2 c3 : removes S c1 c2 → removes S c2 c3 → removes S c1 c3.
Proof.
  intros [A1 A2 A3 A4 A5 A6] [B1 B2 B3 B4 B5 B6]. constructor; try congruence.
  - intros h. destruct (B5 h) as [->|[? ->]]; auto.
  - intros p. destruct (B6 p) as [->|(-> & h & ? & ->)]; [auto|].
    right. split; [done|]. exists h. split; [done|]. by apply packagePath_base.
Qed.

Lemma removes_count_eviction S c c' : removes S c c' → removes S c (count_eviction c').
Proof. intros [H1 H2 H3 H4 H5 H6]. by constructor. Qed.

Lemma delete_removes io h sh c :
  removes (λ x, x = h ∧ readers c h <= 0) c (deleteUnlocked io h sh c).2.
Proof.
  pose proof (deleteUnlocked_cases io h sh c) as Hd.
  destruct (deleteUnlocked io h sh c) as [r c'].
  destruct Hd as [(e & -> & ->)|[(-> & Hr & ->)|(-> & Hr & _ & ->)]]; simpl;
    [apply removes_refl|constructor; simpl; auto..].
  - intros p. rewrite lookup_delete. case_decide; subst; [right; eauto|by left].
  - intros x. rewrite lookup_delete. case_decide; subst; [by right|by left].
  - intros p. rewrite lookup_delete. case_decide; subst; [right; eauto|by left].
Qed.
End removes.
#[export] Hint Resolve removes_refl removes_count_eviction : debswarm.

(** The candidate hashes that no reader holds. *)
Definition unread (c : Cache) (cands : list (string * Row)) (h : string) : Prop :=
  h ∈ cands.*1 ∧ readers c h <= 0.

Section evict_loop.
Variables (io : IO) (needed : Z).

Lemma evictLoop_removes cands c :
  removes (unread c cands) c (evictLoop io needed cands c).2.
Proof.
  revert c. induction cands as [|[h r] rest IH]; intros c; simpl; [auto with debswarm|].
  assert (∀ c', readers c' = readers c → removes (unread c' rest) c' (evictLoop io needed rest c').2 →
            removes (unread c ((h, r) :: rest)) c' (evictLoop io needed rest c').2) as Hrest.
  { intros c' Hc'. apply removes_mono. intros x [Hin Hx]. split; [by right|]. by rewrite <- Hc'. }
  destruct (maxSize c <? _); [|auto with debswarm].
  destruct (negb _); [by apply Hrest|].
  destruct (_ <? 16)%nat; [auto with debswarm|].
  pose proof (delete_removes io h (size r) c) as Hdel.
  assert (removes (unread c ((h, r) :: rest)) c (deleteUnlocked io h (size r) c).2) as Hdel'.
  { eapply removes_mono; [|exact Hdel]. intros x [-> Hr]. split; [by left|done]. }
  destruct (deleteUnlocked io h (size r) c) as [[u|e] c']; simpl in *.
  - eapply removes_trans; [by apply removes_count_eviction|]. apply Hrest; [|apply IH].
    unfold readers. simpl. by rewrite (rm_readers _ _ _ Hdel).
  - eapply removes_trans; [exact Hdel'|]. apply Hrest; [|apply IH].
    unfold readers. by rewrite (rm_readers _ _ _ Hdel).
Qed.

(** The candidates still to come are untouched rows. *)
Definition fresh (cands : list (string * Row)) (c : Cache) : Prop :=
  NoDup cands.*1 ∧ ∀ h r, (h, r) ∈ cands → packages c !! h = Some r.

Lemma fresh_cons h r rest c :
  fresh ((h, r) :: rest) c → packages c !! h = Some r ∧ fresh rest c ∧ h ∉ rest.*1.
Proof.
  intros [Hnd Hin]. apply NoDup_cons in Hnd as [Hh Hnd].
  split_and!; [apply Hin; by left| |done]. split; [done|]. intros h' r' ?. apply Hin. by right.
Qed.

Lemma fresh_delete h rest sh c :
  fresh rest c → h ∉ rest.*1 → fresh rest (deleteUnlocked io h sh c).2.
Proof.
  intros [Hnd Hin] Hh. split; [done|]. intros h' r' Hr'.
  destruct (rm_rows _ _ _ (delete_removes io h sh c) h') as [->|[[-> _] _]]; [by apply Hin|].
  exfalso. apply Hh. by apply (list_elem_of_fmap_2 fst _ (h, r')).
Qed.

Lemma evictLoop_size cands c :
  fresh cands c → size_ok c → size_ok (evictLoop io needed cands c).2.
Proof.
  revert c. induction cands as [|[h r] rest IH]; intros c Hf Hs; simpl; [done|].
  apply fresh_cons in Hf as (Hh & Hf & Hnin).
  destruct (maxSize c <? _); [|done].
  destruct (negb _); [by apply IH|]. destruct (_ <? 16)%nat; [done|].
  pose proof (fresh_delete h rest (size r) c Hf Hnin) as Hf'.
  assert (size_ok (deleteUnlocked io h (size r) c).2) as Hs'.
  { apply deleteUnlocked_size; [done|]. right. by rewrite Hh. }
  destruct (deleteUnlocked io h (size r) c) as [[u|e] c']; by apply IH.
Qed.
End evict_loop.

Section ensure_space.
Context `{SqlOrder}.

Lemma candidates_fresh io c : fresh (candidates io c) c.
Proof.
  split; [apply select_NoDup|]. intros h r. unfold candidates. rewrite elem_of_select. tauto.
Qed.

(** [ensureSpace] flushes, then removes unread candidates only. *)
Lemma ensureSpace_removes io needed c :
  let c1 := flushAccess io c in
  removes (unread c1 (candidates io c1)) c1 (ensureSpace io needed c).2.
Proof.
  cbv zeta. unfold ensureSpace. set (c1 := flushAccess io c).
  destruct (match freeSpace io with Some _ => _ | None => _ end); [auto with debswarm|].
  destruct (_ <=? _); [auto with debswarm|]. destruct (negb _); [auto with debswarm|].
  pose proof (evictLoop_removes io needed (candidates io c1) c1) as Hev.
  destruct (evictLoop _ _ _ _) as [[u|e] c']; simpl in *; [|done].
  destruct (negb _); [done|]. destruct (_ <? _); done.
Qed.

Lemma ensureSpace_size io needed c : size_ok c → size_ok (ensureSpace io needed c).2.
Proof.
  intros Hc. unfold ensureSpace. set (c1 := flushAccess io c).
  assert (size_ok c1) as Hc1 by by apply flushAccess_size.
  destruct (match freeSpace io with Some _ => _ | None => _ end); [done|].
  destruct (_ <=? _); [done|]. destruct (negb _); [done|].
  pose proof (evictLoop_size io needed (candidates io c1) c1 (candidates_fresh io c1) Hc1) as Hev.
  destruct (evictLoop _ _ _ _) as [[u|e] c']; simpl in *; [|done].
  destruct (negb _); [done|]. destruct (_ <? _); done.
Qed.

(** A successful [ensureSpace] leaves room for what was asked. *)
Lemma ensureSpace_fits io needed c c' :
  ensureSpace io needed c = (Ok tt, c') → currentSize c' +₆₄ needed <= maxSize c'.
Proof.
  unfold ensureSpace. set (c1 := flushAccess io c).
  destruct (match freeSpace io with Some _ => _ | None => _ end); [done|].
  destruct (_ <=? _) eqn:Hle; [intros [= <-]; blia|]. destruct (negb _); [done|].
  destruct (evictLoop _ _ _ _) as [[u|e] c2]; [|done].
  destruct (negb _); [done|]. destruct (_ <? _) eqn:Hlt; [done|]. intros [= <-]. blia.
Qed.
End ensure_space.

(** ** Committing a verified file *)
Section commit.
Context `{SqlOrder} `{GoUnicode}.

Lemma upsert_row_size io sz f o : size (upsert_row io sz f o) = sz.
Proof. unfold upsert_row. destruct (ParseDebFilename f) as [[[? ?] ?] ?]. by destruct o. Qed.

Lemma upsert_row_pinned io sz f r : pinned (upsert_row io sz f (Some r)) = pinned r.
Proof. unfold upsert_row. destruct (ParseDebFilename f) as [[[? ?] ?] ?]. done. Qed.

Lemma moveIntoPlace_spec io fp fin d d' :
  moveIntoPlace io fp fin d = Some d' → fp ≠ fin →
  (∀ p, p ≠ fp → p ≠ fin → d' !! p = d !! p) ∧
  d' !! fin = match d !! fin with Some x => Some x | None => d !! fp end ∧
  is_Some (d' !! fin) ∧
  (d' !! fp = None ∨ (d' !! fp = d !! fp ∧ is_Some (d !! fin))).
Proof.
  unfold moveIntoPlace, os_Remove. intros Hmv Hne.
  destruct (d !! fin) as [x|] eqn:Hfin.
  - destruct (d !! fp) as [y|] eqn:Hfp; [destruct (fs io (FsRemove fp))|]; simplify_eq/=.
    + split_and!; try (by rewrite lookup_delete_ne by done).
      * intros p Hp _. by rewrite lookup_delete_ne.
      * left. apply lookup_delete_eq.
    + split_and!; eauto.
    + split_and!; eauto.
  - destruct (d !! fp) as [y|] eqn:Hfp; [|done]. destruct (fs io _); simplify_eq/=.
    split_and!.
    + intros p Hp Hp'. rewrite lookup_insert_ne, lookup_delete_ne by done. done.
    + by rewrite lookup_insert_eq.
    + rewrite lookup_insert_eq. eauto.
    + left. rewrite lookup_insert_ne by done. apply lookup_delete_eq.
Qed.

(** The state after a completed commit into the files [d]. *)
Definition committed (io : IO) (hash f : string) (sz : Z) (d : gmap string string) (c1 : Cache) : Cache :=
  set_size (wrap64 (currentSize c1 +
      match (if db io (DbSelectSize hash) then packages c1 !! hash else None) with
      | Some r0 => sz -₆₄ size r0 | None => sz end))
    (set_packages (<[hash := upsert_row io sz f (packages c1 !! hash)]> (packages c1))
       (set_disk d c1)).

(** Every exit of [commitVerifiedFile], in terms of the state [c1] in which room
    has been made. *)
Lemma commit_cases io fp hash f sz c :
  let '(r1, c1) := ensureSpace io sz c in
  let '(r, c') := commitVerifiedFile io fp hash f sz c in
  let fin := packagePath c1 hash in
  (∃ e, r = Err e ∧ c' = c1 ∧ (r1 = Err e ∨ r = Err EFs)) ∨
  (r1 = Ok tt ∧ ∃ d, moveIntoPlace io fp fin (disk c1) = Some d ∧
     ((r = Err EDb ∧ db io (DbUpsert hash) = false ∧ c' = set_disk d c1) ∨
      ((r = Ok tt ∨ (r = Err EPanic ∧ (String.length hash < 16)%nat)) ∧
       c' = committed io hash f sz d c1))).
Proof.
  unfold commitVerifiedFile. destruct (ensureSpace io sz c) as [[[]|e] c1]; [|left; eauto].
  destruct (negb (fs io _)); [left; exists EFs; split_and!; auto|].
  destruct (moveIntoPlace _ _ _ _) as [d|] eqn:Hmv; [|left; exists EFs; split_and!; auto].
  destruct (db io (DbUpsert hash)) eqn:Hup; simpl.
  - destruct (_ <? 16)%nat eqn:Hl; right; (split; [done|]); exists d; (split; [done|]); right;
      (split; [|done]); [right; split; [done|by apply Nat.ltb_lt]|by left].
  - right. split; [done|]. exists d. split; [done|]. left. done.
Qed.

Lemma commit_size io fp hash f sz c :
  db io (DbSelectSize hash) = true → size_ok c →
  size_ok (commitVerifiedFile io fp hash f sz c).2.
Proof.
  intros Hdb Hc. pose proof (commit_cases io fp hash f sz c) as Hcc.
  pose proof (ensureSpace_size io sz c Hc) as Hs.
  destruct (ensureSpace io sz c) as [r1 c1]. destruct (commitVerifiedFile _ _ _ _ _ _) as [r c'].
  simpl in *. destruct Hcc as [(e & _ & -> & _)|(_ & d & _ & [(_ & _ & ->)|(_ & ->)])]; try done.
  unfold size_ok in *. simpl. rewrite Hdb, sum_map_insert, upsert_row_size.
  rewrite Hs, wrap64_add_l. destruct (packages c1 !! hash); simpl.
  - rewrite wrap64_add_r. f_equal. lia.
  - f_equal. lia.
Qed.
End commit.

(** ** The invariant of a running cache

    A system is a cache and the readers handed out so far. *)
Section invariant.
Context `{SqlOrder} `{GoUnicode} `{Sha256}.

(** Every file stored under a hash has that hash. *)
Definition content_ok (c : Cache) : Prop :=
  ∀ h x, valid_hash h = true → disk c !! packagePath c h = Some x → HashBytes x = h.

Definition rows_ok (c : Cache) : Prop :=
  ∀ h r, packages c !! h = Some r → valid_hash h = true ∧ 0 <= size r.

Definition open_on (h : string) (tr : trackedReader) : bool :=
  negb (tr_closed tr) && String.eqb (tr_hash tr) h.

Definition open_count (h : string) (l : list trackedReader) : Z :=
  Z.of_nat (length (List.filter (open_on h) l)).

(** The reader counts are the numbers of open readers, and the file of an open
    reader is in place. *)
Definition readers_ok (l : list trackedReader) (c : Cache) : Prop :=
  (∀ h, readers c h = open_count h l) ∧
  ∀ tr, tr ∈ l → tr_closed tr = false →
    valid_hash (tr_hash tr) = true ∧ disk c !! packagePath c (tr_hash tr) = Some (tr_file tr).

(** What holds of a running cache; the account of its size only under [sized], the
    assumption that the statements reading sizes succeed. *)
Record Held (sized : Prop) (c : Cache) (l : list trackedReader) : Prop := mkInv {
  inv_size : sized → size_ok c;
  inv_content : content_ok c;
  inv_rows : rows_ok c;
  inv_readers : readers_ok l c;
}.

Context {sized : Prop}.
Abbreviation Inv := (Held sized).

Lemma open_count_pos tr l : tr ∈ l → tr_closed tr = false → 0 < open_count (tr_hash tr) l.
Proof.
  intros Hin Hop. unfold open_count.
  assert (tr ∈ List.filter (open_on (tr_hash tr)) l) as Hf.
  { rewrite list_elem_of_In, filter_In, <- list_elem_of_In. split; [done|].
    unfold open_on. by rewrite Hop, String.eqb_refl. }
  destruct (List.filter _ l); [by apply elem_of_nil in Hf|]. simpl. lia.
Qed.

(** Removing unread packages preserves the invariant, apart from the size. *)
Lemma removes_inv S c c' l :
  removes S c c' → (∀ h, S h → valid_hash h = true ∧ readers c h <= 0) →
  (sized → size_ok c') → Inv c l → Inv c' l.
Proof.
  intros Hrm HS Hsz [_ Hct Hrw [Hcnt Hopen]]. destruct Hrm as [Hb Hm Hf Hr Hrows Hdisk].
  assert (∀ h, packagePath c' h = packagePath c h) as Hp by (intros; by apply packagePath_base).
  constructor; [done| | |split].
  - intros h x Hv Hx. rewrite Hp in Hx. destruct (Hdisk (packagePath c h)) as [He|[He _]]; [|congruence].
    apply Hct; [done|]. congruence.
  - intros h r Hh. destruct (Hrows h) as [He|[_ He]]; [|congruence]. apply (Hrw h r). congruence.
  - intros h. unfold readers. rewrite Hr. apply Hcnt.
  - intros tr Hin Hop. destruct (Hopen tr Hin Hop) as [Hv Hd]. split; [done|]. rewrite Hp.
    destruct (Hdisk (packagePath c (tr_hash tr))) as [->|(_ & h & Hh & Heq)]; [done|].
    destruct (HS h Hh) as [Hvh Hz]. apply packagePath_inj in Heq; [|done|done]. subst h.
    pose proof (open_count_pos tr l Hin Hop). rewrite Hcnt in Hz. lia.
Qed.

(** Changes to rows that keep keys and sizes. *)
Lemma rows_update_inv c l f h :
  (∀ r, size (f r) = size r) → Inv c l → Inv (set_packages (alter f h (packages c)) c) l.
Proof.
  intros Hf [Hsz Hct Hrw Hrd]. constructor; [|done| |done].
  - unfold size_ok in *. simpl. by rewrite sum_map_alter.
  - intros h' r'. simpl. rewrite lookup_alter. case_decide; [|apply Hrw].
    subst h'. destruct (packages c !! h) eqn:He; simpl; [|done].
    intros [= <-]. rewrite Hf. by apply Hrw.
Qed.

Lemma flushAccess_inv io c l : Inv c l → Inv (flushAccess io c) l.
Proof.
  intros [Hsz Hct Hrw [Hcnt Hopen]].
  destruct (flushAccess_frame io c) as (Hb & _ & _ & Hd & Hr & _ & _).
  assert (∀ h, packagePath (flushAccess io c) h = packagePath c h) as Hp
    by (intros; by apply packagePath_base).
  constructor; [intros; by apply flushAccess_size, Hsz| | |split].
  - intros h x Hv. rewrite Hp, Hd. by apply Hct.
  - intros h r. destruct (flushAccess_lookup io c h) as (f & -> & Hf).
    destruct (packages c !! h) as [r0|] eqn:He; simpl; [|done]. intros [= <-].
    destruct (Hf r0) as [-> _]. by apply Hrw.
  - intros h. unfold readers. rewrite Hr. apply Hcnt.
  - intros tr Hin Hop. rewrite Hp, Hd. by apply Hopen.
Qed.

Lemma ensureSpace_inv io needed c l : Inv c l → Inv (ensureSpace io needed c).2 l.
Proof.
  intros Hi. pose proof (flushAccess_inv io c l Hi) as Hi1.
  eapply removes_inv; [apply ensureSpace_removes| |intros; by apply ensureSpace_size, Hi|exact Hi1].
  intros h [Hin Hr]. split; [|done]. apply list_elem_of_fmap in Hin as ([h' r] & -> & Hin).
  unfold candidates in Hin. rewrite elem_of_select in Hin. destruct Hin as [Hin _].
  by apply (inv_rows _ _ _ Hi1 h' r).
Qed.

Lemma Delete_inv io h c l : valid_hash h = true → Inv c l → Inv (Delete io h c).2 l.
Proof.
  intros Hv Hi. eapply removes_inv; [apply delete_removes| | |exact Hi].
  - intros x [-> Hr]. done.
  - intros Hp. apply deleteUnlocked_size; [by apply Hi|]. left. lia.
Qed.

(** A file at the path of no hash is never touched by making room. *)
Definition outside (c : Cache) (p : string) : Prop :=
  ∀ h, valid_hash h = true → p ≠ packagePath c h.

Lemma ensureSpace_outside io needed c l p :
  Inv c l → outside c p →
  basePath (ensureSpace io needed c).2 = basePath c ∧
  disk (ensureSpace io needed c).2 !! p = disk c !! p.
Proof.
  intros Hi Hout. pose proof (flushAccess_inv io c l Hi) as Hi1.
  destruct (ensureSpace_removes io needed c) as [Hb _ _ _ _ Hd].
  destruct (flushAccess_frame io c) as (Hb1 & _ & _ & Hd1 & _).
  split; [congruence|]. destruct (Hd p) as [->|(_ & h & [Hin _] & ->)]; [by rewrite Hd1|].
  exfalso. apply list_elem_of_fmap in Hin as ([h' r] & -> & Hin).
  unfold candidates in Hin. rewrite elem_of_select in Hin. destruct Hin as [Hin _]. simpl in *.
  apply (Hout h'); [by apply (inv_rows _ _ _ Hi1 h' r)|]. by apply packagePath_base.
Qed.

(** Installing a file whose content has the hash it is stored under. *)
Lemma install_inv io fp hash d c l x :
  Inv c l → outside c fp → valid_hash hash = true →
  disk c !! fp = Some x → HashBytes x = hash →
  moveIntoPlace io fp (packagePath c hash) (disk c) = Some d →
  Inv (set_disk d c) l ∧ is_Some (d !! packagePath c hash).
Proof.
  intros [Hsz Hct Hrw [Hcnt Hopen]] Hout Hv Hfp Hx Hmv.
  apply moveIntoPlace_spec in Hmv as (Hoth & Hfin & Hsome & _); [|by apply Hout].
  split; [|done]. constructor; [done| |done|split; [done|]].
  - intros h y Hvh Hy. simpl in Hy. change (packagePath (set_disk d c) h) with (packagePath c h) in Hy.
    destruct (decide (packagePath c h = packagePath c hash)) as [He|He].
    + apply packagePath_inj in He; [|done|done]. subst h. rewrite Hfin in Hy.
      destruct (disk c !! packagePath c hash) eqn:Hd; [|congruence].
      apply Hct; [done|]. congruence.
    + rewrite Hoth in Hy; [by apply Hct|by apply not_eq_sym, Hout|done].
  - intros tr Hin Hop. destruct (Hopen tr Hin Hop) as [Hvt Hd]. split; [done|]. simpl.
    change (packagePath (set_disk d c) (tr_hash tr)) with (packagePath c (tr_hash tr)).
    destruct (decide (packagePath c (tr_hash tr) = packagePath c hash)) as [He|He].
    + rewrite He, Hfin. rewrite He in Hd. by rewrite Hd.
    + rewrite Hoth; [done|by apply not_eq_sym, Hout|done].
Qed.

Lemma committed_inv io hash f sz d c l :
  Inv (set_disk d c) l → valid_hash hash = true → 0 <= sz →
  (sized → size_ok (committed io hash f sz d c)) → Inv (committed io hash f sz d c) l.
Proof.
  intros [Hsz Hct Hrw Hrd] Hv Hpos Hsz'. constructor; [done|done| |done].
  intros h r. simpl. rewrite lookup_insert. case_decide; [|apply Hrw].
  intros [= <-]. subst h. by rewrite upsert_row_size.
Qed.

Lemma commit_inv io fp hash f sz c l x :
  Inv c l → (sized → db io (DbSelectSize hash) = true) → valid_hash hash = true → 0 <= sz →
  outside c fp → disk c !! fp = Some x → HashBytes x = hash →
  Inv (commitVerifiedFile io fp hash f sz c).2 l.
Proof.
  intros Hi Hdb Hv Hsz Hout Hfp Hx.
  pose proof (λ Hp, commit_size io fp hash f sz c (Hdb Hp) (inv_size _ _ _ Hi Hp)) as Hs'.
  pose proof (commit_cases io fp hash f sz c) as Hcc.
  pose proof (ensureSpace_inv io sz c l Hi) as Hi1.
  destruct (ensureSpace_outside io sz c l fp Hi Hout) as [Hb Hd].
  destruct (ensureSpace io sz c) as [r1 c1]. destruct (commitVerifiedFile _ _ _ _ _ _) as [r c'].
  simpl in *. destruct Hcc as [(e & _ & -> & _)|(_ & d & Hmv & Hcc)]; [done|].
  assert (outside c1 fp) as Hout1.
  { intros h Hh. rewrite (packagePath_base c1 c h Hb). by apply Hout. }
  destruct (install_inv io fp hash d c1 l x Hi1 Hout1 Hv) as [Hi2 _]; [congruence|done|done|].
  destruct Hcc as [(_ & _ & ->)|(_ & ->)]; [done|]. by apply committed_inv.
Qed.

(** Files outside the package directories can come and go. *)
Lemma disk_outside_inv c l d :
  Inv c l → (∀ h, valid_hash h = true → d !! packagePath c h = disk c !! packagePath c h) →
  Inv (set_disk d c) l.
Proof.
  intros [Hsz Hct Hrw [Hcnt Hopen]] Hd. constructor; [done| |done|split; [done|]].
  - intros h x Hv Hx. apply Hct; [done|]. rewrite <- Hd by done. exact Hx.
  - intros tr Hin Hop. destruct (Hopen tr Hin Hop) as [Hv Ht]. split; [done|].
    simpl. change (packagePath (set_disk d c) ?h) with (packagePath c h). by rewrite Hd.
Qed.

Lemma remove_pending_inv io p c l : Inv c l → outside c p → Inv (remove_pending io p c) l.
Proof.
  intros Hi Hout. apply disk_outside_inv; [done|]. intros h Hv. unfold os_Remove.
  destruct (disk c !! p); [|done]. destruct (fs io _); [|done]. simpl.
  rewrite lookup_delete_ne; [done|]. by apply Hout.
Qed.

Lemma commit_base io fp hash f sz c :
  basePath (commitVerifiedFile io fp hash f sz c).2 = basePath c.
Proof.
  pose proof (commit_cases io fp hash f sz c) as Hcc.
  destruct (ensureSpace_removes io sz c) as [Hb _ _ _ _ _].
  destruct (flushAccess_frame io c) as (Hb1 & _).
  destruct (ensureSpace io sz c) as [r1 c1]. destruct (commitVerifiedFile _ _ _ _ _ _) as [r c'].
  simpl in *. destruct Hcc as [(e & _ & -> & _)|(_ & d & _ & [(_ & _ & ->)|(_ & ->)])];
    simpl; congruence.
Qed.

Lemma io_Copy_nonneg w l ok hw n : 0 <= n → 0 <= (io_Copy w l ok hw n).1.2.
Proof.
  revert hw n. induction l as [|p l IH]; intros hw n Hn; [done|]. cbn [io_Copy].
  destruct (hw_Write w hw p) as [[hw' k] ok']. destruct ok'; [|simpl; lia].
  destruct (_ =? _)%nat; [apply IH|simpl]; lia.
Qed.

Lemma Put_inv io pd hash f c l :
  Inv c l → (sized → db io (DbSelectSize hash) = true) → Inv (Put io pd hash f c).2 l.
Proof.
  intros Hi Hdb. unfold Put. destruct (negb (createTemp io hash)); [done|].
  set (p := pendingPath c hash (pd_rand pd)).
  assert (outside c p) as Hout.
  { intros h Hv. apply not_eq_sym. by apply packagePath_not_pending. }
  pose proof (io_Copy_inv (pd_sink pd) (pd_chunks pd) (pd_ok pd) NewHashingWriter 0 eq_refl) as Hcp.
  pose proof (io_Copy_nonneg (pd_sink pd) (pd_chunks pd) (pd_ok pd) NewHashingWriter 0) as Hnn.
  destruct (io_Copy _ _ _ _ _) as [[hw sz] ok]. simpl in Hnn.
  set (c1 := set_disk (<[p := hw_out hw]> (disk c)) c).
  assert (Inv c1 l) as Hi1.
  { apply disk_outside_inv; [done|]. intros h Hv. by rewrite lookup_insert_ne by by apply Hout. }
  assert (outside c1 p) as Hout1 by exact Hout.
  destruct (negb ok); [by apply remove_pending_inv|].
  destruct (negb (fs io FsClose)); [by apply remove_pending_inv|].
  destruct (String.eqb_spec (hw_Sum hw) hash) as [Heq|]; simpl; [|by apply remove_pending_inv].
  assert (HashBytes (hw_out hw) = hash) as Hh by by rewrite Hcp.
  assert (Inv (commitVerifiedFile io p hash f sz c1).2 l) as Hi2.
  { apply (commit_inv io p hash f sz c1 l (hw_out hw)); try done.
    - rewrite <- Hh. apply HashBytes_valid.
    - lia.
    - simpl. apply lookup_insert_eq. }
  pose proof (commit_base io p hash f sz c1) as Hb2.
  destruct (commitVerifiedFile _ _ _ _ _ _) as [[u|e] c2]; simpl in *; [done|].
  apply remove_pending_inv; [done|]. intros h Hv.
  rewrite (packagePath_base c2 c h Hb2). by apply Hout.
Qed.

Lemma readers_inc h c h' :
  readers (incReader h c) h' = if decide (h = h') then readers c h + 1 else readers c h'.
Proof. unfold readers, incReader. simpl. rewrite lookup_insert. by case_decide. Qed.

Lemma readers_dec h c h' :
  0 <= readers c h - 1 →
  readers (decReader h c) h' = if decide (h = h') then readers c h - 1 else readers c h'.
Proof.
  intros Hpos. unfold decReader. destruct (_ <=? 0) eqn:Hle; unfold readers at 1; simpl.
  - rewrite lookup_delete. case_decide; [simpl; blia|done].
  - rewrite lookup_insert. by case_decide.
Qed.

Lemma readers_update_inv c c' l l' :
  Inv c l → disk c' = disk c → basePath c' = basePath c → packages c' = packages c →
  currentSize c' = currentSize c → (∀ h, readers c' h = open_count h l') →
  (∀ tr, tr ∈ l' → tr_closed tr = false →
    valid_hash (tr_hash tr) = true ∧ disk c !! packagePath c (tr_hash tr) = Some (tr_file tr)) →
  Inv c' l'.
Proof.
  intros [Hsz Hct Hrw Hrd] Hd Hb Hp Hs Hcnt Hopen.
  assert (∀ h, packagePath c' h = packagePath c h) as Hpp by (intros; by apply packagePath_base).
  constructor; [by intros; unfold size_ok in *; rewrite Hs, Hp; auto| | |split; [done|]].
  - intros h x Hv. rewrite Hd, Hpp. by apply Hct.
  - intros h r. rewrite Hp. apply Hrw.
  - intros tr Hin Hop. rewrite Hd, Hpp. by apply Hopen.
Qed.

Lemma open_count_cons h tr l :
  open_count h (tr :: l) = (if open_on h tr then 1 else 0) + open_count h l.
Proof. unfold open_count. simpl. destruct (open_on h tr); simpl length; lia. Qed.

(** [Get] either adds an open reader on the file of [h], or leaves the counts
    as they were. *)
Lemma Get_inv_any io h c l :
  Inv c l →
  match Get io h c with
  | (Ok (tr, _), c') => Inv c' (tr :: l)
  | (Err _, c') => Inv c' l
  end.
Proof.
  intros Hi. pose proof Hi as [_ _ Hrows [Hcnt Hopen]]. unfold Get.
  destruct (disk c !! packagePath c h) as [x|] eqn:Hd; [|done].
  destruct (fs io _); [|done].
  set (c1 := recordAccess io h (incReader h c)).
  assert (∀ h', readers c1 h' = if decide (h = h') then readers c h + 1 else readers c h') as Hr1
    by (intros; apply readers_inc).
  destruct (getPackageInfo io c1 h) as [pkg|e] eqn:Hinfo.
  - assert (valid_hash h = true) as Hv.
    { unfold getPackageInfo in Hinfo. destruct (db io _); [|done].
      destruct (packages c1 !! h) as [row|] eqn:Hrow; [|done]. by apply (Hrows h row). }
    eapply readers_update_inv; [exact Hi|done..| |].
    + intros h'. rewrite Hr1, !Hcnt, open_count_cons. unfold open_on. simpl.
      destruct (String.eqb_spec h h') as [->|Hne].
      * rewrite decide_True by done. lia.
      * rewrite decide_False by done. lia.
    + intros tr [->|Hin]%elem_of_cons Hop; [done|by apply Hopen].
  - assert (0 <= readers c h) as Hnn by (rewrite Hcnt; unfold open_count; lia).
    assert (0 <= readers c1 h - 1) as Hge by (rewrite Hr1, decide_True by done; lia).
    eapply readers_update_inv; [exact Hi|try (unfold decReader; by destruct (_ <=? 0))..| |exact Hopen].
    intros h'. rewrite (readers_dec h c1 h' Hge), !Hr1, <- Hcnt.
    repeat case_decide; subst; try done; lia.
Qed.

Lemma Get_inv io h c l :
  valid_hash h = true → Inv c l →
  match Get io h c with
  | (Ok (tr, _), c') => Inv c' (tr :: l)
  | (Err _, c') => Inv c' l
  end.
Proof. intros _. apply Get_inv_any. Qed.

(** Closed readers do not count. *)
Lemma Inv_drop_closed c tr l : tr_closed tr = true → Inv c (tr :: l) → Inv c l.
Proof.
  intros Hcl [Hsz Hct Hrw [Hcnt Hopen]]. constructor; [done..|]. split.
  - intros h. rewrite Hcnt, open_count_cons. unfold open_on. by rewrite Hcl.
  - intros t Ht. apply Hopen. by right.
Qed.

Lemma open_count_close h l i tr :
  l !! i = Some tr → tr_closed tr = false →
  open_count h (<[i := mkReader (tr_file tr) (tr_hash tr) true]> l)
  = open_count h l - (if decide (tr_hash tr = h) then 1 else 0).
Proof.
  revert i. induction l as [|t l IH]; intros [|i]; simpl; try done.
  - intros [= ->] Hop. rewrite !open_count_cons. unfold open_on. simpl. rewrite Hop. simpl.
    destruct (String.eqb_spec (tr_hash tr) h) as [He|Hne].
    + rewrite decide_True by done. lia.
    + rewrite decide_False by done. lia.
  - intros Hl Hop. rewrite !open_count_cons, (IH i Hl Hop). lia.
Qed.

Lemma Close_inv i tr c l :
  l !! i = Some tr → Inv c l → let '(tr', c') := Close tr c in Inv c' (<[i := tr']> l).
Proof.
  intros Hl Hi. pose proof Hi as [_ _ _ [Hcnt Hopen]]. unfold Close.
  destruct (tr_closed tr) eqn:Hcl; [by rewrite list_insert_id|].
  assert (tr ∈ l) as Hin by by apply (list_elem_of_lookup_2 _ i).
  pose proof (open_count_pos tr l Hin Hcl) as Hpos.
  eapply readers_update_inv; [exact Hi|try (unfold decReader; by destruct (_ <=? 0))..| |].
  - intros h. rewrite readers_dec by (rewrite Hcnt; lia). rewrite open_count_close, !Hcnt by done.
    case_decide; [subst; lia|lia].
  - intros t Ht Hop. apply list_elem_of_lookup in Ht as [j Hj].
    rewrite list_lookup_insert in Hj. case_decide as Hcase; [simplify_eq/=; done|].
    apply Hopen; [by apply (list_elem_of_lookup_2 _ j)|done].
Qed.
End invariant.

(** The whole invariant, and the part that no failing statement endangers. *)
Abbreviation Inv := (Held True).
Abbreviation Core := (Held False).

Lemma Held_Core `{Sha256} {P} c l : Held P c l → Core c l.
Proof. intros [_ Hct Hrw Hrd]. by constructor. Qed.

End CacheFacts.
