(* ===== verification/CacheSys.v ===== *)
(** * The package cache as a system: theorems

    [step] is one operation of a running cache with any environment; the
    reachability theorem says what holds of every state a cache can get into.
    The remaining theorems are about single operations. *)

From S2P Require Import Prelude GoStd HashUtil DebName Sql Cache CacheFacts.
From Stdlib Require Import Ascii.
Open Scope Z_scope.
Open Scope go_scope.

Module CacheSys.
Import Cache CacheFacts.

Section system.
Context `{SqlOrder} `{GoUnicode} `{Sha256}.

(** One operation, in surroundings where any system call and SQL statement may fail;
    under [sized], all but the statement that reads the old size of a row in a
    commit (when it fails on an existing row the size is counted twice).
    [PutFile]'s caller has verified the file, as its contract says. *)
Inductive step (sized : Prop) : Cache * list trackedReader → Cache * list trackedReader → Prop :=
| step_get_ok io h c l tr pkg c' :
    valid_hash h = true → Get io h c = (Ok (tr, pkg), c') → step sized (c, l) (c', tr :: l)
| step_get_err io h c l e c' :
    valid_hash h = true → Get io h c = (Err e, c') → step sized (c, l) (c', l)
| step_close i tr tr' c c' l :
    l !! i = Some tr → Close tr c = (tr', c') → step sized (c, l) (c', <[i := tr']> l)
| step_put io pd h f c l :
    (sized → db io (DbSelectSize h) = true) → step sized (c, l) ((Put io pd h f c).2, l)
| step_putfile io fp h f x c l :
    (sized → db io (DbSelectSize h) = true) → outside c fp → disk c !! fp = Some x → HashBytes x = h →
    step sized (c, l) ((PutFile io fp h f (Z.of_nat (String.length x)) c).2, l)
| step_delete io h c l : valid_hash h = true → step sized (c, l) ((Delete io h c).2, l)
| step_flush io c l : step sized (c, l) (flushAccess io c, l)
| step_announced io h c l : step sized (c, l) ((MarkAnnounced io h c).2, l)
| step_pin io h c l : step sized (c, l) ((Pin io h c).2, l)
| step_unpin io h c l : step sized (c, l) ((Unpin io h c).2, l)
| step_populate io c l : step sized (c, l) ((PopulateMissingMetadata io c).2, l)
| step_list io c l : step sized (c, l) ((List io c).2, l)
| step_stats io c l : step sized (c, l) ((Stats io c).2, l).

Lemma update_pin_inv {P} io p h c l : Held P c l → Held P (update_pin io p h c).2 l.
Proof.
  intros Hi. unfold update_pin. destruct (negb _); [done|].
  assert (Held P (set_packages (alter (set_pinned p) h (packages c)) c) l) as Hi'
    by by apply rows_update_inv.
  destruct (negb _); [done|]. destruct (packages c !! h); [|done]. by destruct (_ <? 16)%nat.
Qed.

Lemma apply_updates_inv {P} io ups n c l : Held P c l → Held P (apply_updates io ups n c).2 l.
Proof.
  revert n c. induction ups as [|[h [[nm v] a]] ups IH]; intros n c Hi; simpl; [done|].
  destruct (db io _); [apply IH; by apply rows_update_inv|].
  destruct (_ <? 16)%nat; [done|by apply IH].
Qed.

Lemma step_inv {P} c l c' l' : step P (c, l) (c', l') → Held P c l → Held P c' l'.
Proof.
  intros Hst Hi. inversion Hst; subst; clear Hst.
  - lazymatch goal with Hv : valid_hash _ = true, Hg : Get ?io _ _ = _ |- _ =>
      pose proof (Get_inv io _ _ _ Hv Hi) as Hget; rewrite Hg in Hget; exact Hget end.
  - lazymatch goal with Hv : valid_hash _ = true, Hg : Get ?io _ _ = _ |- _ =>
      pose proof (Get_inv io _ _ _ Hv Hi) as Hget; rewrite Hg in Hget; exact Hget end.
  - lazymatch goal with Hl : _ !! _ = Some _, Hc : Close _ _ = _ |- _ =>
      pose proof (Close_inv _ _ _ _ Hl Hi) as Hcl; rewrite Hc in Hcl; exact Hcl end.
  - by apply Put_inv.
  - lazymatch goal with Hd : disk _ !! _ = Some ?x |- _ =>
      apply (commit_inv _ _ _ _ _ _ _ x); try done; [apply HashBytes_valid|lia] end.
  - by apply Delete_inv.
  - by apply flushAccess_inv.
  - unfold MarkAnnounced. destruct (db _ _); [by apply rows_update_inv|done].
  - by apply update_pin_inv.
  - by apply update_pin_inv.
  - unfold PopulateMissingMetadata. destruct (negb _); [done|]. destruct (negb _); [done|].
    by apply apply_updates_inv.
  - unfold List. destruct (db _ _); by apply flushAccess_inv.
  - unfold Stats. destruct (db _ _); by apply flushAccess_inv.
Qed.

(** A run from the state a cache is opened in. *)
Lemma run_inv {P} c0 c l : Held P c0 [] → rtc (step P) (c0, []) (c, l) → Held P c l.
Proof.
  intros Hi0 Hrtc. remember (c0, []) as s0 eqn:Hs0. remember (c, l) as s eqn:Hs.
  assert (Held P s0.1 s0.2) as Hi by by subst s0. clear Hs0 Hi0.
  revert c l Hs. induction Hrtc as [s|s1 [c2 l2] s3 Hst Hrtc IH]; intros c l ->; [done|].
  apply IH; [|done]. destruct s1. by eapply step_inv.
Qed.

(** C3: start from a directory whose files are what their names say and a database
    whose rows have well-formed hashes and non-negative sizes, open the cache and
    let it go through any sequence of operations, with any system call and any SQL
    statement failing, the one that sums up the sizes at the opening included:
    every file below packages/sha256 has the SHA-256 it is stored under, every row
    has a well-formed hash and a non-negative size, the reader counts are the
    numbers of open readers and the file of an open reader is still in place with
    the same bytes.  When two statements do not fail, the sum at the opening and
    the reading of a row's old size in a commit, the tracked size is the sum of
    the row sizes too (as an int64). *)
Theorem cache_invariant io base maxSz minFree rows files c l :
  let c0 := NewWithMinFreeSpace io base maxSz minFree rows files in
  content_ok c0 → rows_ok c0 →
  (rtc (step False) (c0, []) (c, l) → content_ok c ∧ rows_ok c ∧ readers_ok l c) ∧
  (rtc (step True) (c0, []) (c, l) → db io DbQuery = true → currentSize c = wrap64 (sum_map size (packages c))).
Proof.
  intros c0 Hct Hrw.
  assert (∀ P : Prop, (P → db io DbQuery = true) → Held P c0 []) as Hi0.
  { intros P Hdb. constructor; [|done|done|].
    - intros Hp. unfold c0, NewWithMinFreeSpace, calculateSize, size_ok. by rewrite (Hdb Hp).
    - split; [|by intros tr ?%elem_of_nil].
      intros h. unfold c0, NewWithMinFreeSpace, calculateSize. by destruct (db io DbQuery). }
  split.
  - intros Hrun. by destruct (run_inv c0 c l (Hi0 False ltac:(done)) Hrun).
  - intros Hrun Hdb. by destruct (run_inv c0 c l (Hi0 True ltac:(done)) Hrun) as [Hs _ _ _]; apply Hs.
Qed.
End system.

(** ** Eviction *)
Section eviction.
Context `{SqlOrder}.

Definition protected (io : IO) (c : Cache) (h : string) (r : Row) : Prop :=
  pinned r ≠ 0 ∨ now io - evictWindow <= last_accessed r ∨ 0 < readers c h.

(** C18: making room never costs a package that is pinned, was accessed within
    the last seven days, or is being read: its row keeps its size and pin
    state and its file is untouched. *)
Theorem eviction_spares_protected io needed c h r :
  rows_ok c → packages c !! h = Some r → protected io c h r →
  (∃ r', packages (ensureSpace io needed c).2 !! h = Some r' ∧
         size r' = size r ∧ pinned r' = pinned r) ∧
  disk (ensureSpace io needed c).2 !! packagePath c h = disk c !! packagePath c h.
Proof.
  intros Hrw Hh Hp. destruct (ensureSpace_removes io needed c) as [_ _ _ _ Hrows Hdisk].
  destruct (flushAccess_frame io c) as (Hb & _ & _ & Hd & Hr & _ & _).
  set (c1 := flushAccess io c) in *.
  destruct (flushAccess_lookup io c h) as (f & Hlk & Hf). fold c1 in Hlk.
  rewrite Hh in Hlk. simpl in Hlk. destruct (Hf r) as (Hsz & Hpin & Hla).
  assert (readers c1 h = readers c h) as Hrd by (unfold readers; by rewrite Hr).
  assert (¬ unread c1 (candidates io c1) h) as Hno.
  { intros [Hin Hz]. apply list_elem_of_fmap in Hin as ([h' r'] & -> & Hin). simpl in *.
    unfold candidates in Hin. rewrite elem_of_select in Hin. destruct Hin as [Hin Hev].
    rewrite Hlk in Hin. simplify_eq. unfold evictable in Hev.
    apply andb_prop in Hev as [Hev1 Hev2]. apply Z.ltb_lt in Hev1. apply Z.eqb_eq in Hev2.
    destruct Hp as [Hp|[Hp|Hp]]; [congruence|lia|lia]. }
  split.
  - destruct (Hrows h) as [->|[? _]]; [|done]. eauto.
  - destruct (Hdisk (packagePath c h)) as [->|(_ & h' & Hu & Heq)]; [by rewrite Hd|].
    exfalso. apply Hno. assert (valid_hash h' = true) as Hv'.
    { destruct Hu as [Hin _]. apply list_elem_of_fmap in Hin as ([h2 r2] & -> & Hin). simpl.
      unfold candidates in Hin. rewrite elem_of_select in Hin. destruct Hin as [Hin _].
      destruct (flushAccess_lookup io c h2) as (f2 & Hlk2 & _). fold c1 in Hlk2.
      rewrite Hin in Hlk2. destruct (packages c !! h2) as [r0|] eqn:Hh2; [|done].
      by apply (Hrw h2 r0). }
    rewrite (packagePath_base c1 c h' Hb) in Heq. apply packagePath_inj in Heq; [by subst| |done].
    by apply (Hrw h r).
Qed.

(** Every statement and system call of evicting [h] succeeds. *)
Definition evict_ok (io : IO) (c : Cache) (h : string) : Prop :=
  (16 <= String.length h)%nat ∧ db io (DbScan h) = true ∧ db io (DbDelete h) = true ∧
  fs io (FsRemove (packagePath c h)) = true ∧ readers c h <= 0.

Lemma evict_ok_frame io c c' h :
  basePath c' = basePath c → activeReaders c' = activeReaders c →
  evict_ok io c h → evict_ok io c' h.
Proof.
  unfold evict_ok, readers. intros Hb ->. by rewrite (packagePath_base c' c h Hb).
Qed.

Lemma deleteUnlocked_ok io h sh c :
  evict_ok io c h → 0 <= sh →
  ∃ c', deleteUnlocked io h sh c = (Ok tt, c') ∧ packages c' = delete h (packages c).
Proof.
  intros (_ & _ & Hdb & Hfs & Hr) Hsh. unfold deleteUnlocked, os_Remove.
  destruct (0 <? readers c h) eqn:Hr'; [blia|].
  destruct (sh <? 0) eqn:Hsh'; [blia|]. simpl.
  destruct (disk c !! packagePath c h); [rewrite Hfs|]; simpl; rewrite Hdb; eauto.
Qed.

(** If the loop removes a candidate, it has removed every candidate before it
    that could be removed. *)
Lemma evictLoop_order io needed l1 h2 r2 l2 h1 r1 c :
  fresh (l1 ++ (h2, r2) :: l2) c → (h1, r1) ∈ l2 → evict_ok io c h2 → 0 <= size r2 →
  packages (evictLoop io needed (l1 ++ (h2, r2) :: l2) c).2 !! h1 = None →
  packages (evictLoop io needed (l1 ++ (h2, r2) :: l2) c).2 !! h2 = None.
Proof.
  intros Hf Hin Hok Hsz. revert c Hf Hok.
  assert (∀ c, fresh (l1 ++ (h2, r2) :: l2) c → packages c !! h1 = Some r1) as Hh1.
  { intros c [_ Hfr]. apply Hfr. apply elem_of_app. right. by right. }
  induction l1 as [|[h0 r0] l1 IH]; intros c Hf Hok; simpl app in *; cbn [evictLoop].
  - destruct (maxSize c <? _); [|simpl; rewrite (Hh1 c Hf); done].
    pose proof Hok as (Hlen & Hscan & _). rewrite Hscan. simpl negb. cbv iota.
    destruct (_ <? 16)%nat eqn:Hl; [apply Nat.ltb_lt in Hl; lia|].
    destruct (deleteUnlocked_ok io h2 (size r2) c Hok Hsz) as (c' & -> & Hpk). intros _.
    destruct (rm_rows _ _ _ (evictLoop_removes io needed l2 (count_eviction c')) h2)
      as [->|[_ ->]]; [|done]. simpl. rewrite Hpk. apply lookup_delete_eq.
  - apply fresh_cons in Hf as Hf'. destruct Hf' as (_ & Hf' & Hnin).
    assert (∀ c', fresh (l1 ++ (h2, r2) :: l2) c' → packages c' !! h1 = Some r1) as Hh1'.
    { intros c' [_ Hfr]. apply Hfr. apply elem_of_app. right. by right. }
    destruct (maxSize c <? _); [|simpl; rewrite (Hh1 c Hf); done].
    destruct (negb _); [by apply IH|].
    destruct (_ <? 16)%nat; [simpl; rewrite (Hh1 c Hf); done|].
    pose proof (fresh_delete io h0 _ (size r0) c Hf' Hnin) as Hf2.
    pose proof (delete_removes io h0 (size r0) c) as Hrm.
    destruct (deleteUnlocked io h0 (size r0) c) as [[u|e] c']; simpl in *;
      apply IH; try done; (eapply evict_ok_frame; [| |exact Hok]); apply Hrm.
Qed.

Lemma score_le_total x y : score_le x y = true ∨ score_le y x = true.
Proof. unfold score_le. rewrite !Z.leb_le. lia. Qed.

Lemma score_le_trans x y z : score_le x y = true → score_le y z = true → score_le x z = true.
Proof. unfold score_le. rewrite !Z.leb_le. lia. Qed.

(** A candidate with a smaller score comes first. *)
Lemma candidates_before io c h1 r1 h2 r2 :
  (h1, r1) ∈ candidates io c → (h2, r2) ∈ candidates io c → evictScore r2 < evictScore r1 →
  ∃ l1 l2, candidates io c = l1 ++ (h2, r2) :: l2 ∧ (h1, r1) ∈ l2.
Proof.
  intros H1 H2 Hlt.
  pose proof (sql_order_sorted score_le (List.filter (λ kv, evictable io kv.2) (map_to_list (packages c)))
    score_le_total score_le_trans) as Hsort.
  change (sql_order score_le _) with (candidates io c) in Hsort.
  apply list_elem_of_split in H2 as (l1 & l2 & Heq). exists l1, l2. split; [done|].
  rewrite Heq in H1, Hsort. apply elem_of_app in H1 as [H1|[H1|H1]%elem_of_cons].
  - exfalso.
    assert (score_le (h1, r1) (h2, r2) = true) as Hle
      by (apply (StronglySorted_app_1_elem_of (λ x y, score_le x y = true) l1 _ _ _ Hsort); [done|by left]).
    unfold score_le in Hle. simpl in Hle. blia.
  - simplify_eq. lia.
  - done.
Qed.

(** Eviction goes by score (last access plus one day per access): when a
    package is evicted, every candidate with a smaller score that nobody is
    reading (and whose removal the system does not refuse) is evicted too. *)
Theorem eviction_by_score io needed c h1 r1 h2 r2 :
  rows_ok c →
  let c1 := flushAccess io c in
  (h1, r1) ∈ candidates io c1 → (h2, r2) ∈ candidates io c1 →
  evictScore r2 < evictScore r1 → evict_ok io c1 h2 →
  packages (ensureSpace io needed c).2 !! h1 = None →
  packages (ensureSpace io needed c).2 !! h2 = None.
Proof.
  intros Hrw c1 H1 H2 Hlt Hok. unfold ensureSpace. fold c1.
  assert (packages c1 !! h1 = Some r1) as Hh1.
  { unfold candidates in H1. rewrite elem_of_select in H1. tauto. }
  destruct (match freeSpace io with Some _ => _ | None => _ end); [simpl; by rewrite Hh1|].
  destruct (_ <=? _); [simpl; by rewrite Hh1|]. destruct (negb _); [simpl; by rewrite Hh1|].
  destruct (candidates_before io c1 h1 r1 h2 r2 H1 H2 Hlt) as (l1 & l2 & Heq & Hin).
  assert (0 <= size r2) as Hsz.
  { unfold candidates in H2. rewrite elem_of_select in H2. destruct H2 as [H2 _].
    destruct (flushAccess_lookup io c h2) as (f & Hlk & Hf). fold c1 in Hlk. rewrite H2 in Hlk.
    destruct (packages c !! h2) as [r0|] eqn:Hh2; [|done]. simpl in Hlk. simplify_eq.
    destruct (Hf r0) as [-> _]. by apply (Hrw h2 r0). }
  pose proof (candidates_fresh io c1) as Hfr. rewrite Heq in Hfr.
  pose proof (evictLoop_order io needed l1 h2 r2 l2 h1 r1 c1 Hfr Hin Hok Hsz) as Hord.
  rewrite <- Heq in Hord.
  destruct (evictLoop _ _ _ _) as [[u|e] c']; simpl in *; [|done].
  destruct (negb _); [done|]. destruct (_ <? _); done.
Qed.

Lemma flushAccess_evictions io c : evictions (flushAccess io c) = evictions c.
Proof. destruct (flushAccess_cases io c) as [->|[->| ->]]; done. Qed.

(** Either the loop evicts nothing, or the last package it evicts was needed. *)
Lemma evictLoop_minimal io needed cands c :
  fresh cands c →
  let c' := (evictLoop io needed cands c).2 in
  (evictions c' = evictions c ∧ currentSize c' = currentSize c) ∨
  ((evictions c < evictions c')%nat ∧ ∃ h r, (h, r) ∈ cands ∧ packages c' !! h = None ∧
    maxSize c' < wrap64 (currentSize c' + size r + needed)).
Proof.
  revert c. induction cands as [|[h r] rest IH]; intros c Hf; cbv zeta; cbn [evictLoop]; [by left|].
  apply fresh_cons in Hf as (Hh & Hf & Hnin).
  assert (∀ c2, evictions c2 = evictions c → currentSize c2 = currentSize c → fresh rest c2 →
    (evictions (evictLoop io needed rest c2).2 = evictions c ∧
     currentSize (evictLoop io needed rest c2).2 = currentSize c) ∨
    ((evictions c < evictions (evictLoop io needed rest c2).2)%nat ∧
     ∃ h' r', (h', r') ∈ (h, r) :: rest ∧ packages (evictLoop io needed rest c2).2 !! h' = None ∧
     maxSize (evictLoop io needed rest c2).2 <
       wrap64 (currentSize (evictLoop io needed rest c2).2 + size r' + needed))) as Hskip.
  { intros c2 He Hs Hf2. destruct (IH c2 Hf2) as [[-> ->]|(Hlt & h' & r' & Hin & Hg & Hb)]; [by left|].
    right. split; [lia|]. exists h', r'. split_and!; [by right|done..]. }
  destruct (maxSize c <? _) eqn:Hover; [|by left].
  destruct (negb _); [by apply Hskip|]. destruct (_ <? 16)%nat; [by left|].
  pose proof (fresh_delete io h rest (size r) c Hf Hnin) as Hf2.
  pose proof (deleteUnlocked_cases io h (size r) c) as Hd.
  destruct (deleteUnlocked io h (size r) c) as [[u|e] c2]; simpl in Hf2.
  2: { destruct Hd as [(? & _ & ->)|[(_ & _ & ->)|(? & _)]]; [by apply Hskip..|done]. }
  destruct Hd as [(? & ? & _)|[(? & _)|(_ & _ & _ & Hc2)]]; [done|done|]. right.
  assert (currentSize c2 = wrap64 (currentSize c - size r)) as Hcur.
  { rewrite Hc2. simpl. rewrite Hh. simpl. by destruct (size r <? 0). }
  assert (packages c2 !! h = None ∧ maxSize c2 = maxSize c ∧ evictions c2 = evictions c) as (Hg & Hm & He).
  { rewrite Hc2. simpl. split; [apply lookup_delete_eq|done]. }
  pose proof (evictLoop_removes io needed rest (count_eviction c2)) as Hrm.
  destruct (IH (count_eviction c2) Hf2) as [[He' Hs']|(Hlt & h' & r' & Hin & Hg' & Hb)].
  - split; [rewrite He'; simpl; lia|]. exists h, r. split_and!; [by left| |].
    + destruct (rm_rows _ _ _ Hrm h) as [->|[_ ->]]; done.
    + rewrite Hs', (rm_max _ _ _ Hrm). simpl. rewrite Hcur, Hm, <- Z.add_assoc, wrap64_add_l.
      replace (currentSize c - size r + (size r + needed)) with (currentSize c + needed) by lia. blia.
  - simpl in Hlt. split; [lia|]. exists h', r'. split_and!; [by right|done..].
Qed.

(** Eviction stops as soon as the new package fits: if anything was
    evicted, then with the last evicted package still counted the cache would
    be over its budget. *)
Theorem eviction_is_minimal io needed c :
  let c1 := flushAccess io c in
  let c' := (ensureSpace io needed c).2 in
  (evictions c < evictions c')%nat →
  ∃ h r, (h, r) ∈ candidates io c1 ∧ packages c' !! h = None ∧
    maxSize c' < wrap64 (currentSize c' + size r + needed).
Proof.
  cbv zeta. unfold ensureSpace. rewrite <- (flushAccess_evictions io c).
  set (c1 := flushAccess io c).
  destruct (match freeSpace io with Some _ => _ | None => _ end); [simpl; lia|].
  destruct (_ <=? _); [simpl; lia|]. destruct (negb _); [simpl; lia|].
  pose proof (evictLoop_minimal io needed (candidates io c1) c1 (candidates_fresh io c1)) as Hmin.
  cbv zeta in Hmin. destruct (evictLoop _ _ _ _) as [[u|e] c']; simpl in *.
  - destruct (negb _); [|destruct (_ <? _)]; simpl; intros Hlt;
      (destruct Hmin as [[? _]|[_ ?]]; [lia|done]).
  - intros Hlt. destruct Hmin as [[? _]|[_ ?]]; [lia|done].
Qed.
End eviction.

(** ** Storing and retrieving *)
Section storing.
Context `{SqlOrder} `{GoUnicode} `{Sha256}.

(** A successful commit leaves the cache within its budget, as long as the
    sizes involved do not overflow an int64. *)
Theorem commit_within_budget io fp hash f sz c c' :
  size_ok c → rows_ok c → db io (DbSelectSize hash) = true →
  0 <= sz → sum_map size (packages c) + sz < 2 ^ 63 →
  commitVerifiedFile io fp hash f sz c = (Ok tt, c') →
  currentSize c' <= maxSize c' ∧ maxSize c' = maxSize c.
Proof.
  intros Hs Hrw Hdb Hsz Hsum Hcm.
  pose proof (commit_cases io fp hash f sz c) as Hcc. rewrite Hcm in Hcc.
  pose proof (ensureSpace_fits io sz c) as Hfit.
  pose proof (ensureSpace_size io sz c Hs) as Hs1.
  pose proof (ensureSpace_removes io sz c) as Hrm.
  destruct (ensureSpace io sz c) as [r1 c1]. simpl in *.
  destruct Hcc as [(e & ? & _)|(-> & d & _ & [(? & _)|(_ & ->)])]; [done|done|].
  specialize (Hfit c1 eq_refl). simpl.
  destruct (flushAccess_frame io c) as (_ & Hmax & _ & _ & _ & _ & Hsumf).
  set (cf := flushAccess io c) in *.
  assert (rows_ok cf) as Hrwf.
  { intros h r. destruct (flushAccess_lookup io c h) as (g & Hlk & Hg). fold cf in Hlk. rewrite Hlk.
    destruct (packages c !! h) as [r0|] eqn:Hh; simpl; [|done]. intros [= <-].
    destruct (Hg r0) as [-> _]. by apply Hrw. }
  assert (packages c1 ⊆ packages cf) as Hsub.
  { apply map_subseteq_spec. intros h r Hh. destruct (rm_rows _ _ _ Hrm h) as [<-|[_ ?]]; congruence. }
  assert (0 <= sum_map size (packages c1) <= sum_map size (packages c)) as Hb.
  { rewrite <- Hsumf. split; [|apply sum_map_subseteq; [done|]; intros h r Hh; by apply (Hrwf h r)].
    apply sum_map_nonneg. intros h r Hh. apply (Hrwf h r). by eapply lookup_weaken. }
  split; [|by rewrite (rm_max _ _ _ Hrm)].
  rewrite Hs1 in Hfit |- *. rewrite wrap64_add_l in Hfit |- *.
  rewrite wrap64_id in Hfit by (unfold int64_range; lia).
  rewrite Hdb. destruct (packages c1 !! hash) as [r0|] eqn:Hh.
  - rewrite wrap64_add_r. assert (0 <= size r0).
    { apply (Hrwf hash r0). by eapply lookup_weaken. }
    assert (size r0 <= sum_map size (packages c1)) as Hle.
    { rewrite (sum_map_delete size _ _ _ Hh).
      assert (0 <= sum_map size (delete hash (packages c1))); [|lia].
      apply sum_map_nonneg. intros h r [_ Hh']%lookup_delete_Some.
      apply (Hrwf h r). by eapply lookup_weaken. }
    rewrite wrap64_id by (unfold int64_range; lia). lia.
  - rewrite wrap64_id by (unfold int64_range; lia). lia.
Qed.

(** What a successful commit leaves under the hash. *)
Lemma commit_ok_file {P} io fp h f sz c l c' :
  Held P c l → outside c fp → valid_hash h = true →
  commitVerifiedFile io fp h f sz c = (Ok tt, c') →
  ∃ c2 d x, c' = committed io h f sz d c2 ∧ basePath c' = basePath c ∧
    d !! packagePath c h = Some x ∧
    (disk c !! packagePath c h = None → disk c !! fp = Some x).
Proof.
  intros Hi Hop Hv Hcm. pose proof (commit_cases io fp h f sz c) as Hcc. rewrite Hcm in Hcc.
  destruct (ensureSpace_outside io sz c l fp Hi Hop) as [Hb2 Hd2].
  pose proof (rm_disk _ _ _ (ensureSpace_removes io sz c) (packagePath c h)) as Hrm.
  destruct (flushAccess_frame io c) as (_ & _ & _ & Hdf & _). rewrite Hdf in Hrm.
  destruct (ensureSpace io sz c) as [r1 c2]. simpl in *.
  destruct Hcc as [(e & ? & _)|(-> & d & Hmv & [(? & _)|(_ & ->)])]; [done|done|].
  rewrite (packagePath_base c2 c h Hb2) in Hmv.
  apply moveIntoPlace_spec in Hmv as (_ & Hfin & [x Hx] & _); [|by apply Hop].
  exists c2, d, x. split_and!; [done|done|done|].
  intros Hnone. rewrite Hnone in Hrm.
  assert (disk c2 !! packagePath c h = None) as Hn2 by (destruct Hrm as [->|[-> _]]; done).
  rewrite Hn2, Hd2 in Hfin. congruence.
Qed.

(** What a successful [Put] did. *)
Lemma Put_ok {P} io pd h f c l c' :
  Held P c l → Put io pd h f c = (Ok tt, c') →
  HashBytes (Join (pd_chunks pd) "") = h ∧ basePath c' = basePath c ∧
  ∃ c2 d x, c' = committed io h f (Z.of_nat (String.length (Join (pd_chunks pd) ""))) d c2 ∧
    d !! packagePath c h = Some x ∧
    (disk c !! packagePath c h = None → x = Join (pd_chunks pd) "").
Proof.
  intros Hi. unfold Put. destruct (negb (createTemp io h)); [done|].
  set (p := pendingPath c h (pd_rand pd)).
  pose proof (io_Copy_inv (pd_sink pd) (pd_chunks pd) (pd_ok pd) NewHashingWriter 0 eq_refl) as Hcp.
  pose proof (io_Copy_ok (pd_sink pd) (pd_chunks pd) (pd_ok pd) NewHashingWriter 0) as Hok.
  destruct (io_Copy _ _ _ _ _) as [[hw sz] ok]. destruct ok; [|done]. simpl negb. cbv iota.
  destruct (Hok eq_refl) as [Hout Hsz]. simpl in Hout, Hsz. clear Hok.
  set (c1 := set_disk (<[p := hw_out hw]> (disk c)) c).
  destruct (negb (fs io FsClose)); [done|].
  destruct (String.eqb_spec (hw_Sum hw) h) as [Heq|]; [|done]. simpl negb. cbv iota.
  assert (HashBytes (hw_out hw) = h) as Hh by by rewrite Hcp.
  assert (valid_hash h = true) as Hv by (rewrite <- Hh; apply HashBytes_valid).
  assert (outside c1 p) as Hop.
  { intros h' Hv'. apply not_eq_sym. by apply (packagePath_not_pending c). }
  assert (Held P c1 l) as Hi1.
  { apply disk_outside_inv; [done|]. intros h' Hv'. rewrite lookup_insert_ne; [done|]. by apply Hop. }
  destruct (commitVerifiedFile io p h f sz c1) as [[[]|e] c3] eqn:Hcm; [|done]. intros [= <-].
  apply (commit_ok_file io p h f sz c1 l c3 Hi1 Hop Hv) in Hcm as (c2 & d & x & Heq3 & Hb & Hx & Hn).
  rewrite <- Hout. split_and!; [done|done|]. exists c2, d, x.
  rewrite Z.add_0_l in Hsz. rewrite Hout, <- Hsz.
  split_and!; [done|done|]. intros Hnone. rewrite <- Hout.
  simpl in Hn. rewrite lookup_insert_eq, lookup_insert_ne in Hn by by apply Hop.
  specialize (Hn Hnone). congruence.
Qed.

(** C4: what was stored can be read back: in a cache whose files and rows are in
    order (as in every state reached), after a [Put] that reported success, in
    whatever pieces the bytes came and whichever statements and evictions failed on
    the way, the next [Get] of the hash, when the file can be opened and its row
    read, returns a reader on bytes with that SHA-256, the very bytes put if
    no file was there before, with the size and file name of the [Put]. *)
Theorem Put_then_Get io pd h f c l c' io' :
  Core c l → Put io pd h f c = (Ok tt, c') →
  fs io' (FsOpen (packagePath c' h)) = true → db io' (DbSelectInfo h) = true →
  ∃ tr pkg c'', Get io' h c' = (Ok (tr, pkg), c'') ∧
    HashBytes (tr_file tr) = h ∧ HashBytes (Join (pd_chunks pd) "") = h ∧
    Size pkg = Z.of_nat (String.length (Join (pd_chunks pd) "")) ∧ Filename pkg = f ∧
    (disk c !! packagePath c h = None → tr_file tr = Join (pd_chunks pd) "").
Proof.
  intros Hi Hput Hfs Hdb'.
  pose proof (Put_inv io pd h f c l Hi ltac:(done)) as Hi'. rewrite Hput in Hi'. simpl in Hi'.
  destruct (Put_ok io pd h f c l c' Hi Hput) as (Hh & Hb & c2 & d & x & Heq & Hx & Hn).
  pose proof (packagePath_base c' c h Hb) as Hpp.
  assert (disk c' !! packagePath c' h = Some x) as Hd by by rewrite Hpp, Heq.
  assert (packages c' !! h = Some (upsert_row io (Z.of_nat (String.length (Join (pd_chunks pd) "")))
    f (packages c2 !! h))) as Hrow by (rewrite Heq; apply lookup_insert_eq).
  unfold Get. rewrite Hd, Hfs. unfold getPackageInfo. rewrite Hdb'. simpl. rewrite Hrow.
  eexists _, _, _. split; [reflexivity|]. simpl. rewrite upsert_row_size.
  split_and!; try done.
  - apply (inv_content _ _ _ Hi'); [|done]. rewrite <- Hh. apply HashBytes_valid.
  - unfold upsert_row. destruct (ParseDebFilename f) as [[[? ?] ?] ?]. by destruct (packages c2 !! h).
Qed.

(** Bytes that do not hash to the expected value are refused with
    [ErrHashMismatch] and leave no trace: the state is the one before the call
    (the pending file is removed, unless the system refuses). *)
Theorem Put_rejects_mismatch io pd h f c :
  createTemp io h = true → fs io FsClose = true → pd_ok pd = true → (∀ p, pd_sink pd p = None) →
  let p := pendingPath c h (pd_rand pd) in
  disk c !! p = None → fs io (FsRemove p) = true →
  HashBytes (Join (pd_chunks pd) "") ≠ h →
  Put io pd h f c = (Err ErrHashMismatch, c).
Proof.
  intros Hct Hcl Hok Hsink p Hfresh Hrm Hne. unfold Put. rewrite Hct. simpl negb. cbv iota.
  pose proof (io_Copy_inv (pd_sink pd) (pd_chunks pd) (pd_ok pd) NewHashingWriter 0 eq_refl) as Hcp.
  pose proof (io_Copy_ok (pd_sink pd) (pd_chunks pd) (pd_ok pd) NewHashingWriter 0) as Hcok.
  assert ((io_Copy (pd_sink pd) (pd_chunks pd) (pd_ok pd) NewHashingWriter 0).2 = true) as Htrue.
  { rewrite Hok. clear - Hsink. generalize NewHashingWriter 0. 
    induction (pd_chunks pd) as [|q l IH]; intros hw n; [done|]. cbn [io_Copy].
    unfold hw_Write, sink_write. rewrite Hsink. cbv iota beta zeta.
    rewrite Nat.eqb_refl. apply IH. }
  destruct (io_Copy _ _ _ _ _) as [[hw sz] ok]. simpl in Htrue. subst ok.
  destruct (Hcok eq_refl) as [Hout _]. simpl in Hout. simpl negb. cbv iota.
  rewrite Hcl. simpl negb. cbv iota. fold p.
  destruct (String.eqb_spec (hw_Sum hw) h) as [Heq|_].
  - exfalso. apply Hne. unfold HashBytes. rewrite <- Hout, Hcp. exact Heq.
  - simpl negb. cbv iota. f_equal. unfold remove_pending, os_Remove. simpl.
    rewrite lookup_insert_eq, Hrm. simpl. rewrite delete_insert_id by done.
    by destruct c.
Qed.

(** A failed [PutFile] with a working database leaves its source. *)
Lemma PutFile_keeps_source {P} io fp h f sz c l e c' :
  Held P c l → outside c fp → db io (DbUpsert h) = true → (16 <= String.length h)%nat →
  PutFile io fp h f sz c = (Err e, c') → disk c' !! fp = disk c !! fp.
Proof.
  intros Hi Hop Hdb Hlen Hput. pose proof (commit_cases io fp h f sz c) as Hcc.
  unfold PutFile in Hput. rewrite Hput in Hcc.
  destruct (ensureSpace_outside io sz c l fp Hi Hop) as [_ Hd2].
  destruct (ensureSpace io sz c) as [r1 c2]. simpl in *.
  destruct Hcc as [(e' & _ & -> & _)|(_ & d & _ & [(_ & ? & _)|([?|[_ ?]] & _)])];
    [done|congruence|done|lia].
Qed.

(** [PutFile]'s promise that the source file is left in place on failure
    holds for every failure before the row is written: no space, no
    directory, a failed rename. *)
Theorem PutFile_failure_keeps_source {P} io fp h f sz c l e c' :
  Held P c l → outside c fp → db io (DbUpsert h) = true → (16 <= String.length h)%nat →
  PutFile io fp h f sz c = (Err e, c') → disk c' !! fp = disk c !! fp.
Proof. apply PutFile_keeps_source. Qed.
End storing.

(** ** Concrete caches

    A cache of ten bytes holding the five-byte package "alpha", last used long
    ago, at a time when everything succeeds. *)
Section examples.
#[local] Existing Instance isort_order.
#[local] Existing Instance ascii_only.
#[local] Existing Instance toy_sha.

Definition io_at (t : Z) : IO := mkIO t (Some 1000000) (λ _, true) (λ _, true).

Definition ex_data : string := "alpha".
Definition ex_hash : string := HashBytes ex_data.
Definition ex_row : Row := mkRow 5 "a_1_amd64.deb" 100 100 1 0 "a" "1" "amd64" 0.
Definition ex_empty : Cache := mkCache "/c" 10 0 0 ∅ ∅ ∅ ∅ 0.
Definition ex_cache : Cache :=
  mkCache "/c" 10 0 5 {[ex_hash := ex_row]} {[packagePath ex_empty ex_hash := ex_data]} ∅ ∅ 0.
Definition ex_put (s : string) : PutData := mkPutData [s] true (λ _, None) "1".
Definition ex_now : Z := 10000000.

(** A cache with one old and one older package of four bytes each. *)
Definition ex_old : Row := mkRow 4 "o_1_amd64.deb" 50 50 1 0 "o" "1" "amd64" 0.
Definition ex_two : Cache :=
  mkCache "/c" 10 0 9 {[ex_hash := ex_row; HashBytes "beta" := ex_old]}
    {[packagePath ex_empty ex_hash := ex_data; packagePath ex_empty (HashBytes "beta") := "beta"]} ∅ ∅ 0.

Lemma ex_cache_inv : Inv ex_cache [].
Proof.
  constructor.
  - vm_compute. done.
  - intros h x Hv. simpl. rewrite lookup_singleton_Some. intros [Hp <-].
    apply (packagePath_inj ex_empty) in Hp; [by subst|by apply HashBytes_valid|done].
  - intros h r. simpl. rewrite lookup_singleton_Some. intros [<- <-].
    split; [apply HashBytes_valid|done].
  - split; [done|]. by intros tr ?%elem_of_nil.
Qed.

(** After a [Put] in surroundings where sizes cannot be read, the files are still in
    order; where they can, so is the size. *)
Lemma cache_invariant_witness :
  let c0 := NewWithMinFreeSpace (io_at 0) "/c" 10 0 ∅ ∅ in
  let blind := mkIO 1 None (λ _, true) (λ q, match q with DbSelectSize _ => false | _ => true end) in
  let put io := (Put io (ex_put "alpha") ex_hash "a_1_amd64.deb" c0).2 in
  content_ok (put blind) ∧ currentSize (put (io_at 1)) = 5.
Proof.
  intros c0 blind put.
  assert (content_ok c0) as Hct by (intros h x _ Hx; simpl in Hx; by rewrite lookup_empty in Hx).
  assert (rows_ok c0) as Hrw by (intros h r Hh; simpl in Hh; by rewrite lookup_empty in Hh).
  split.
  - apply (cache_invariant (io_at 0) "/c" 10 0 ∅ ∅ (put blind) [] Hct Hrw). eapply rtc_once. by apply step_put.
  - destruct (cache_invariant (io_at 0) "/c" 10 0 ∅ ∅ (put (io_at 1)) [] Hct Hrw) as [_ Hs].
    rewrite Hs; [vm_compute; reflexivity| |reflexivity]. eapply rtc_once. by apply step_put.
Defined.

Lemma ex_two_rows : rows_ok ex_two.
Proof.
  intros h r Hr. simpl in Hr. apply lookup_insert_Some in Hr as [[<- <-]|[_ Hr]].
  - split; [apply HashBytes_valid|done].
  - apply lookup_singleton_Some in Hr as [<- <-]. split; [apply HashBytes_valid|done].
Qed.

(** The package being read survives an [ensureSpace] for eight bytes. *)
Lemma eviction_spares_witness :
  let c := set_readers {[ex_hash := 1]} ex_two in
  (∃ r', packages (ensureSpace (io_at ex_now) 8 c).2 !! ex_hash = Some r' ∧
         size r' = size ex_row ∧ pinned r' = pinned ex_row) ∧
  disk (ensureSpace (io_at ex_now) 8 c).2 !! packagePath c ex_hash = disk c !! packagePath c ex_hash.
Proof.
  cbv zeta. apply (eviction_spares_protected (io_at ex_now) 8 (set_readers {[ex_hash := 1]} ex_two)
    ex_hash ex_row).
  - exact ex_two_rows.
  - vm_compute. reflexivity.
  - right. right. vm_compute. reflexivity.
Defined.

(** Room for seven bytes takes "alpha" too only after "beta", whose score is lower. *)
Lemma eviction_by_score_witness :
  packages (ensureSpace (io_at ex_now) 7 ex_two).2 !! HashBytes "beta" = None.
Proof.
  apply (eviction_by_score (io_at ex_now) 7 ex_two ex_hash ex_row (HashBytes "beta") ex_old).
  - exact ex_two_rows.
  - apply elem_of_select. split; vm_compute; reflexivity.
  - apply elem_of_select. split; vm_compute; reflexivity.
  - vm_compute. reflexivity.
  - unfold evict_ok. split_and!; try (vm_compute; reflexivity); vm_compute; try lia; discriminate.
  - vm_compute. reflexivity.
Defined.

Lemma eviction_is_minimal_witness :
  ∃ h r, (h, r) ∈ candidates (io_at ex_now) (flushAccess (io_at ex_now) ex_two) ∧
    packages (ensureSpace (io_at ex_now) 2 ex_two).2 !! h = None ∧
    maxSize (ensureSpace (io_at ex_now) 2 ex_two).2 <
      wrap64 (currentSize (ensureSpace (io_at ex_now) 2 ex_two).2 + size r + 2).
Proof. apply (eviction_is_minimal (io_at ex_now) 2 ex_two). vm_compute. lia. Defined.

Lemma commit_within_budget_witness :
  let c := set_disk (<["/s" := "betabeta"]> (disk ex_cache)) ex_cache in
  let c' := (commitVerifiedFile (io_at ex_now) "/s" (HashBytes "betabeta") "b_1_all.deb" 8 c).2 in
  currentSize c' <= maxSize c' ∧ maxSize c' = maxSize c.
Proof.
  cbv zeta.
  apply (commit_within_budget (io_at ex_now) "/s" (HashBytes "betabeta") "b_1_all.deb" 8
    (set_disk (<["/s" := "betabeta"]> (disk ex_cache)) ex_cache)).
  - vm_compute. reflexivity.
  - apply ex_cache_inv.
  - reflexivity.
  - lia.
  - vm_compute. reflexivity.
  - vm_compute. reflexivity.
Defined.

Lemma Put_then_Get_witness :
  let c' := (Put (io_at ex_now) (ex_put "beta") (HashBytes "beta") "b_1_all.deb" ex_cache).2 in
  ∃ tr pkg c'', Get (io_at ex_now) (HashBytes "beta") c' = (Ok (tr, pkg), c'') ∧
    HashBytes (tr_file tr) = HashBytes "beta" ∧ HashBytes (Join ["beta"] "") = HashBytes "beta" ∧
    Size pkg = Z.of_nat (String.length (Join ["beta"] "")) ∧ Filename pkg = "b_1_all.deb" ∧
    (disk ex_cache !! packagePath ex_cache (HashBytes "beta") = None → tr_file tr = Join ["beta"] "").
Proof.
  cbv zeta.
  apply (Put_then_Get (io_at ex_now) (ex_put "beta") (HashBytes "beta") "b_1_all.deb" ex_cache []).
  - exact (Held_Core _ _ ex_cache_inv).
  - vm_compute. reflexivity.
  - reflexivity.
  - reflexivity.
Defined.

Lemma Put_rejects_mismatch_witness :
  Put (io_at ex_now) (ex_put "gamma") ex_hash "g_1_all.deb" ex_cache = (Err ErrHashMismatch, ex_cache).
Proof.
  apply Put_rejects_mismatch; try (vm_compute; reflexivity).
  vm_compute. discriminate.
Defined.

(** The environment of a database that refuses the insert. *)
Definition io_no_upsert : IO :=
  mkIO ex_now (Some 1000000) (λ _, true) (λ q, match q with DbUpsert _ => false | _ => true end).

(** A source file below /s is no package file. *)
Lemma outside_s d : outside (set_disk d ex_cache) "/s".
Proof.
  intros h Hv Heq. rewrite packagePath_valid in Heq by done.
  apply (f_equal String.length) in Heq. simpl in Heq. discriminate.
Qed.

Lemma PutFile_failure_witness :
  let c := set_disk (<["/s" := "betabetabeta"]> (disk ex_cache)) ex_cache in
  disk (PutFile (io_at ex_now) "/s" (HashBytes "betabetabeta") "b_1_all.deb" 12 c).2 !! "/s" = disk c !! "/s".
Proof.
  cbv zeta. eapply (PutFile_failure_keeps_source (io_at ex_now) "/s" (HashBytes "betabetabeta")
    "b_1_all.deb" 12 _ []).
  - apply disk_outside_inv; [exact ex_cache_inv|]. intros h Hv. rewrite lookup_insert_ne; [done|].
    by apply (outside_s (disk ex_cache)).
  - apply outside_s.
  - reflexivity.
  - vm_compute. lia.
  - vm_compute. reflexivity.
Defined.

(** The exception: when the row cannot be written, [PutFile] fails after
    the file has been moved, so the source is gone although the documentation
    says that it is left in place; the file stays in the cache without a row
    and without being counted. *)
Theorem PutFile_db_failure_loses_source :
  let c := set_disk (<["/s" := "beta"]> (disk ex_cache)) ex_cache in
  let '(r, c') := PutFile io_no_upsert "/s" (HashBytes "beta") "b_1_all.deb" 4 c in
  r = Err EDb ∧ disk c !! "/s" = Some "beta" ∧ disk c' !! "/s" = None ∧
  Has c' (HashBytes "beta") = true ∧ packages c' !! HashBytes "beta" = None ∧
  currentSize c' = currentSize c.
Proof. vm_compute. repeat split; reflexivity. Qed.
End examples.

End CacheSys.
