(* ===== verification/MetaCache.v ===== *)
(** * internal/cache/metadata.go: the repository-metadata cache

    Metadata files are addressed by URL, kept in the [indices] table and below
    indices/, under a size budget of their own.  The state is the part of the
    [Cache] struct these operations use; the environment is the one of
    Cache.v. *)

From S2P Require Import Prelude GoStd HashUtil Sql Cache.
From Stdlib Require Import Ascii.
Open Scope Z_scope.
Open Scope go_scope.

Module MetaCache.
Import Cache.

(** ** Data *)

(** A row of the [indices] table; its primary key [url] is the map key. *)
Record IRow := mkIRow {
  i_etag : string;
  i_last_modified : string;
  i_fetched_at : Z;
  i_path : string;
  i_size : Z;
  i_content_type : string;
  i_last_accessed : Z;
  i_access_count : Z;
  i_last_validated : Z;
}.

Record MetadataEntry := mkEntry {
  m_URL : string; m_ETag : string; m_LastModified : string; m_Size : Z;
  m_ContentType : string; m_FetchedAt : Z; m_LastValidated : Z;
}.

Record Meta := mkMeta {
  m_base : string;
  metadataMaxSize : Z;
  metadataSize : Z;
  indices : gmap string IRow;
  files : gmap string string;
  m_evictions : nat;    (* calls of the onMetadataEvict callback *)
}.

Definition set_indices (t : gmap string IRow) (m : Meta) : Meta :=
  mkMeta (m_base m) (metadataMaxSize m) (metadataSize m) t (files m) (m_evictions m).
Definition set_files (f : gmap string string) (m : Meta) : Meta :=
  mkMeta (m_base m) (metadataMaxSize m) (metadataSize m) (indices m) f (m_evictions m).
Definition set_msize (n : Z) (m : Meta) : Meta :=
  mkMeta (m_base m) (metadataMaxSize m) n (indices m) (files m) (m_evictions m).
Definition count_mevict (m : Meta) : Meta :=
  mkMeta (m_base m) (metadataMaxSize m) (metadataSize m) (indices m) (files m) (S (m_evictions m)).

Definition SetMetadataMaxSize (n : Z) (m : Meta) : Meta :=
  mkMeta (m_base m) n (metadataSize m) (indices m) (files m) (m_evictions m).

Definition MetadataEnabled (m : Meta) : bool := 0 <? metadataMaxSize m.

(** ** By-hash URLs *)
Section by_hash.
Context `{GoUnicode}.

Definition marker : string := "/by-hash/sha256/".

(** The position in the lower-cased URL is used to slice the URL itself, which
    panics when lower-casing has made a non-ASCII URL longer than that. *)
Definition byHashSHA256 (rawURL : string) : res CacheErr (option string) :=
  match Index (ToLower rawURL) marker with
  | None => Ok None
  | Some i =>
      if (String.length rawURL <? i + String.length marker)%nat then Err EPanic
      else
      let rest := str_drop (i + String.length marker) rawURL in
      let rest := until_any (λ a, Ascii.eqb a "/" || Ascii.eqb a "?" || Ascii.eqb a "#") rest in
      if (String.length rest =? 64)%nat then
        let rest := ToLower rest in
        Ok (if str_forallb is_lower_hex rest then Some rest else None)
      else Ok None
  end.

Definition IsImmutableMetadataURL (rawURL : string) : res CacheErr bool :=
  match byHashSHA256 rawURL with Ok (Some _) => Ok true | Ok None => Ok false | Err e => Err e end.

(** The hash a writer expects: empty for a URL that is not a by-hash one. *)
Definition expectedHash (url : string) : string :=
  match byHashSHA256 url with Ok (Some h) => h | _ => "" end.
End by_hash.

(** ** Lookups *)
Section lookups.
Context `{Sha256}.

Definition metadataPath (m : Meta) (url : string) : string :=
  let key := HashBytes url in
  filepath_Join [m_base m; "indices"; str_take 2 key; key].

Definition MetadataValidators (io : IO) (m : Meta) (url : string) : option (string * string) :=
  if metadataMaxSize m <=? 0 then None
  else if db io (DbSelectInfo url) then
    match indices m !! url with
    | Some r => Some (i_etag r, i_last_modified r)
    | None => None
    end
  else None.

Definition HasMetadata (m : Meta) (url : string) : bool :=
  if metadataMaxSize m <=? 0 then false
  else match files m !! metadataPath m url with Some _ => true | None => false end.

(** [UPDATE indices SET last_accessed = ?, access_count = access_count + 1]. *)
Definition touch_row (t : Z) (r : IRow) : IRow :=
  mkIRow (i_etag r) (i_last_modified r) (i_fetched_at r) (i_path r) (i_size r) (i_content_type r)
         t (i_access_count r + 1) (i_last_validated r).

Definition touchMetadata (io : IO) (url : string) (m : Meta) : Meta :=
  if db io (DbUpdate url) then set_indices (alter (touch_row (now io)) url (indices m)) m else m.

(** [c.metadataSize -= size; if c.metadataSize < 0 { c.metadataSize = 0 }]. *)
Definition sub_size (n : Z) (m : Meta) : Meta :=
  let s := metadataSize m -₆₄ n in
  set_msize (if s <? 0 then 0 else s) m.

Definition dropMetadataRow (io : IO) (url : string) (m : Meta) : Meta :=
  if db io (DbSelectSize url) then
    match indices m !! url with
    | Some r =>
        if db io (DbDelete url)
        then sub_size (i_size r) (set_indices (delete url (indices m)) m)
        else m
    | None => m
    end
  else m.

Definition GetMetadata (io : IO) (url : string) (m : Meta)
  : res CacheErr (MetadataEntry * string) * Meta :=
  if metadataMaxSize m <=? 0 then (Err ErrNotFound, m)
  else if negb (db io (DbSelectInfo url)) then (Err ErrNotFound, m)
  else
    match indices m !! url with
    | None => (Err ErrNotFound, m)
    | Some r =>
        let path := metadataPath m url in
        match files m !! path with
        | Some body =>
            if fs io (FsOpen path) then
              (Ok (mkEntry url (i_etag r) (i_last_modified r) (i_size r) (i_content_type r)
                           (i_fetched_at r) (i_last_validated r), body), touchMetadata io url m)
            else (Err ErrNotFound, dropMetadataRow io url m)
        | None => (Err ErrNotFound, dropMetadataRow io url m)
        end
    end.

(** The upstream answered 304: empty validators keep the stored ones. *)
Definition revalidate_row (t : Z) (etag lastModified : string) (r : IRow) : IRow :=
  mkIRow (if String.eqb etag "" then i_etag r else etag)
         (if String.eqb lastModified "" then i_last_modified r else lastModified)
         (i_fetched_at r) (i_path r) (i_size r) (i_content_type r) t (i_access_count r) t.

Definition RevalidateMetadata (io : IO) (url etag lastModified : string) (m : Meta) : Meta :=
  if metadataMaxSize m <=? 0 then m
  else if db io (DbUpdate url)
       then set_indices (alter (revalidate_row (now io) etag lastModified) url (indices m)) m
       else m.

(** ** Making room *)

Definition deleteMetadataUnlocked (io : IO) (url : string) (sz : Z) (m : Meta)
  : res CacheErr unit * Meta :=
  let '(f, ok) := os_Remove io (metadataPath m url) (files m) in
  if ok then
    let m := set_files f m in
    if db io (DbDelete url)
    then (Ok tt, sub_size sz (set_indices (delete url (indices m)) m))
    else (Err EDb, m)
  else (Err EFs, m).

Fixpoint mevictLoop (io : IO) (needed : Z) (victims : list (string * Z)) (m : Meta) : Meta :=
  match victims with
  | [] => m
  | (url, sz) :: rest =>
      if metadataSize m +₆₄ needed <=? metadataMaxSize m then m
      else
        match deleteMetadataUnlocked io url sz m with
        | (Ok _, m') => mevictLoop io needed rest (count_mevict m')
        | (Err _, m') => mevictLoop io needed rest m'
        end
  end.

(** [ORDER BY last_accessed ASC, access_count ASC]. *)
Definition lru_le (a b : string * IRow) : bool :=
  (i_last_accessed a.2 <? i_last_accessed b.2)
  || ((i_last_accessed a.2 =? i_last_accessed b.2) && (i_access_count a.2 <=? i_access_count b.2)).

Context `{SqlOrder}.

Definition victims (io : IO) (m : Meta) : list (string * Z) :=
  (λ kv, (kv.1, i_size kv.2)) <$>
    List.filter (λ kv, db io (DbScan kv.1)) (select_order (λ _, true) lru_le (indices m)).

Definition ensureMetadataSpace (io : IO) (needed : Z) (m : Meta) : res CacheErr unit * Meta :=
  if metadataSize m +₆₄ needed <=? metadataMaxSize m then (Ok tt, m)
  else if negb (db io DbQuery && db io DbRowsErr) then (Err EDb, m)
  else
    let m := mevictLoop io needed (victims io m) m in
    if metadataMaxSize m <? metadataSize m +₆₄ needed then (Err ErrCacheFull, m) else (Ok tt, m).

Definition ListMetadataURLs (io : IO) (m : Meta) : res CacheErr (list string) :=
  if metadataMaxSize m <=? 0 then Ok []
  else if db io DbQuery then Ok (select_order (λ _, true) (λ _ _, true) (indices m)).*1 else Err EDb.

(** ** Writing *)

Context `{GoUnicode}.

Record MetadataWriter := mkWriter {
  w_url : string; w_etag : string; w_lastModified : string; w_contentType : string;
  w_expectedHash : string;    (* from a by-hash URL; empty otherwise *)
  w_tmpPath : string;
  w_hw : HashingWriter;       (* the pending file and the running hash *)
  w_size : Z;
  w_done : bool;
}.

(** The pending file exists from the start, empty. *)
Definition NewMetadataWriter (io : IO) (rand url etag lastModified contentType : string) (m : Meta)
  : res CacheErr MetadataWriter * Meta :=
  if fs io FsCreateTemp then
    let tmp := filepath_Join [m_base m; "indices"; "pending"] +:+ "/meta." +:+ rand in
    (match byHashSHA256 url with
     | Ok h => Ok (mkWriter url etag lastModified contentType (default "" h) tmp NewHashingWriter 0 false)
     | Err e => Err e
     end, set_files (<[tmp := ""]> (files m)) m)
  else (Err EFs, m).

Definition mw_Write (w : Sink) (p : string) (mw : MetadataWriter) (m : Meta)
  : MetadataWriter * Meta * nat * bool :=
  let '(hw, n, ok) := hw_Write w (w_hw mw) p in
  (mkWriter (w_url mw) (w_etag mw) (w_lastModified mw) (w_contentType mw) (w_expectedHash mw)
            (w_tmpPath mw) hw (w_size mw + Z.of_nat n) (w_done mw),
   set_files (<[w_tmpPath mw := hw_out hw]> (files m)) m, n, ok).

Definition finish (mw : MetadataWriter) : MetadataWriter :=
  mkWriter (w_url mw) (w_etag mw) (w_lastModified mw) (w_contentType mw) (w_expectedHash mw)
           (w_tmpPath mw) (w_hw mw) (w_size mw) true.

Definition remove_tmp (io : IO) (p : string) (m : Meta) : Meta :=
  set_files (os_Remove io p (files m)).1 m.

Definition Abort (io : IO) (mw : MetadataWriter) (m : Meta) : MetadataWriter * Meta :=
  if w_done mw then (mw, m) else (finish mw, remove_tmp io (w_tmpPath mw) m).

Definition oldSizeIf (have : bool) (n : Z) : Z := if have then n else 0.

(** [INSERT ... ON CONFLICT(url) DO UPDATE SET ...]. *)
Definition upsert_index (io : IO) (path : string) (mw : MetadataWriter) (old : option IRow) : IRow :=
  mkIRow (w_etag mw) (w_lastModified mw) (now io) path (w_size mw) (w_contentType mw) (now io)
         (match old with Some r => i_access_count r + 1 | None => 1 end) (now io).

Inductive CommitErr := CErr (e : CacheErr) | EFinished.

Definition Commit (io : IO) (mw : MetadataWriter) (m0 : Meta)
  : res CommitErr unit * MetadataWriter * Meta :=
  if w_done mw then (Err EFinished, mw, m0)
  else
    let mw := finish mw in
    let fail e m := (Err (CErr e), mw, remove_tmp io (w_tmpPath mw) m) in
    if negb (fs io FsClose) then fail EFs m0
    else if negb (String.eqb (w_expectedHash mw) "")
            && negb (String.eqb (hw_Sum (w_hw mw)) (w_expectedHash mw))
    then fail ErrHashMismatch m0
    else if metadataMaxSize m0 <=? 0 then (Ok tt, mw, remove_tmp io (w_tmpPath mw) m0)
    else if metadataMaxSize m0 <? w_size mw then fail ErrCacheFull m0
    else
      let old := if db io (DbSelectSize (w_url mw)) then indices m0 !! w_url mw else None in
      let oldSize := from_option i_size 0 old in
      let haveOld := match old with Some _ => true | None => false end in
      match ensureMetadataSpace io (w_size mw -₆₄ oldSizeIf haveOld oldSize) m0 with
      | (Err e, m) => fail e m
      | (Ok _, m) =>
          let finalPath := metadataPath m (w_url mw) in
          if negb (fs io (FsMkdirAll finalPath)) then fail EFs m
          else
            let '(f, ok) := os_Remove io finalPath (files m) in
            if negb ok then fail EFs m
            else
              let m := set_files f m in
              match files m !! w_tmpPath mw with
              | None => fail EFs m
              | Some body =>
                  if negb (fs io (FsRename (w_tmpPath mw) finalPath)) then fail EFs m
                  else
                    let m := set_files (<[finalPath := body]> (delete (w_tmpPath mw) (files m))) m in
                    if negb (db io (DbUpsert (w_url mw)))
                    then (Err (CErr EDb), mw, remove_tmp io finalPath m)
                    else
                      let m := set_indices (<[w_url mw := upsert_index io finalPath mw (indices m !! w_url mw)]>
                                              (indices m)) m in
                      let s := if haveOld then metadataSize m -₆₄ oldSize else metadataSize m in
                      let s := s +₆₄ w_size mw in
                      (Ok tt, mw, set_msize (if s <? 0 then 0 else s) m)
              end
      end.
End lookups.

End MetaCache.
