(* ===== verification/MetaSys.v ===== *)
(** * Properties of the metadata cache

    Size accounting of the metadata budget, integrity of by-hash entries, and
    what a committed entry serves afterwards. *)

From S2P Require Import Prelude GoStd HashUtil DebName Sql Cache CacheFacts MetaCache.
From Stdlib Require Import Ascii.
Open Scope Z_scope.
Open Scope go_scope.

Module MetaSys.
Import Cache MetaCache.

(** ** Paths *)
Section paths.
Context `{Sha256}.

Lemma metadataPath_eq m url :
  metadataPath m url
  = dir_prefix (m_base m) +:+ "indices/" +:+ (str_take 2 (HashBytes url) +:+ String slash (HashBytes url)).
Proof.
  unfold metadataPath. pose proof (HashBytes_valid url) as Hv.
  apply CacheFacts.valid_hash_inv in Hv as [Hl Hx].
  assert (str_take 2 (HashBytes url) ≠ "" ∧ HashBytes url ≠ "") as [Ht Hh].
  { destruct (HashBytes url) as [|a [|b h]]; try (simpl in Hl; lia). done. }
  rewrite filepath_Join_plain; [done|done|].
  repeat constructor; apply CacheFacts.plain_hex; try done. by apply str_forallb_take.
Qed.

Definition pendingName (m : Meta) (rand : string) : string :=
  filepath_Join [m_base m; "indices"; "pending"] +:+ "/meta." +:+ rand.

(** A pending file is never an installed one. *)
Lemma metadataPath_not_pending m m' url rand :
  m_base m = m_base m' → metadataPath m url ≠ pendingName m' rand.
Proof.
  intros Hb. rewrite metadataPath_eq. unfold pendingName.
  rewrite filepath_Join_plain; [|done|by repeat constructor].
  rewrite Hb, str_app_assoc. intros Heq. apply str_app_inj_l in Heq.
  pose proof (HashBytes_valid url) as Hv. apply CacheFacts.valid_hash_inv in Hv as [Hl _].
  destruct (HashBytes url) as [|a [|b h]]; try (simpl in Hl; lia).
  simpl in Heq. congruence.
Qed.
End paths.

(** ** Size accounting *)

(** [metadataSize] is the sum of the rows, and that sum does not wrap. *)
Record meta_ok (m : Meta) : Prop := {
  mo_size : metadataSize m = sum_map i_size (indices m);
  mo_rows : ∀ u r, indices m !! u = Some r → 0 <= i_size r;
  mo_fits : sum_map i_size (indices m) < 2^63;
}.

(** What making room may do: only remove rows. *)
Definition shrinks (m m' : Meta) : Prop :=
  m_base m' = m_base m ∧ metadataMaxSize m' = metadataMaxSize m ∧ indices m' ⊆ indices m.

Lemma shrinks_refl m : shrinks m m.
Proof. done. Qed.

Lemma shrinks_trans a b c : shrinks a b → shrinks b c → shrinks a c.
Proof. unfold shrinks. intros (?&?&?) (?&?&?). split_and!; [congruence..|]. by etrans. Qed.

Section size.
Context `{Sha256}.

Lemma meta_ok_range m : meta_ok m → 0 <= metadataSize m < 2^63.
Proof. intros [-> Hr Hf]. split; [|done]. by apply sum_map_nonneg. Qed.

Lemma drop_row_ok m u r :
  meta_ok m → indices m !! u = Some r →
  meta_ok (sub_size (i_size r) (set_indices (delete u (indices m)) m)).
Proof.
  intros Hm Hu. pose proof (meta_ok_range _ Hm) as Hrange. destruct Hm as [Hs Hr Hf].
  pose proof (sum_map_delete i_size _ _ _ Hu) as Hsum.
  pose proof (Hr _ _ Hu) as Hpos.
  assert (0 <= sum_map i_size (delete u (indices m))) as Hd.
  { apply sum_map_nonneg. intros k v [_ Hk]%lookup_delete_Some. eauto. }
  assert (metadataSize m -₆₄ i_size r = sum_map i_size (delete u (indices m))) as Hw.
  { rewrite wrap64_id; [lia|]. unfold int64_range. lia. }
  constructor; unfold sub_size; simpl; rewrite ?Hw.
  - destruct (_ <? 0) eqn:?; blia.
  - intros k v [_ Hk]%lookup_delete_Some. eauto.
  - lia.
Qed.

Lemma dropMetadataRow_ok io u m : meta_ok m → meta_ok (dropMetadataRow io u m).
Proof.
  intros Hm. unfold dropMetadataRow. destruct (db io _); [|done].
  destruct (indices m !! u) eqn:Hu; [|done]. destruct (db io _); [|done]. by apply drop_row_ok.
Qed.

Lemma alter_ok f u m : (∀ r, i_size (f r) = i_size r) → meta_ok m → meta_ok (set_indices (alter f u (indices m)) m).
Proof.
  intros Hf [Hs Hr Hlt]. constructor; simpl; rewrite ?sum_map_alter by done; try done.
  intros k r Hk. rewrite lookup_alter in Hk. case_decide; subst; [|eauto].
  destruct (indices m !! k) eqn:Hk'; simplify_eq/=. rewrite Hf. eauto.
Qed.

Lemma meta_ok_files f m : meta_ok m → meta_ok (set_files f m).
Proof. intros [? ? ?]. by constructor. Qed.

Lemma deleteMetadata_spec io u sz m r :
  meta_ok m → indices m !! u = Some r → i_size r = sz →
  let '(x, m') := deleteMetadataUnlocked io u sz m in
  meta_ok m' ∧ shrinks m m' ∧ (∀ u', u' ≠ u → indices m' !! u' = indices m !! u').
Proof.
  intros Hm Hu <-. unfold deleteMetadataUnlocked.
  destruct (os_Remove io (metadataPath m u) (files m)) as [f ok]. destruct ok; [|done].
  destruct (db io (DbDelete u)); simpl.
  - split_and!.
    + apply (drop_row_ok (set_files f m)); [by apply meta_ok_files|done].
    + split_and!; [done..|]. simpl. apply delete_subseteq.
    + intros u' Hne. by rewrite lookup_delete_ne.
  - split_and!; [by apply meta_ok_files|done..].
Qed.

(** The victims not yet visited still have the rows the query saw. *)
Definition vfresh (vs : list (string * Z)) (m : Meta) : Prop :=
  NoDup vs.*1 ∧ ∀ u sz, (u, sz) ∈ vs → ∃ r, indices m !! u = Some r ∧ i_size r = sz.

Lemma mevictLoop_spec io needed vs m :
  vfresh vs m → meta_ok m →
  meta_ok (mevictLoop io needed vs m) ∧ shrinks m (mevictLoop io needed vs m).
Proof.
  revert m. induction vs as [|[u sz] vs IH]; intros m [Hnd Hf] Hm; simpl; [done|].
  destruct (_ <=? _); [done|]. apply NoDup_cons in Hnd as [Hu Hnd]. simpl in Hu.
  destruct (Hf u sz) as (r & Hr & Hsz); [by left|].
  pose proof (deleteMetadata_spec io u sz m r Hm Hr Hsz) as Hdel.
  destruct (deleteMetadataUnlocked io u sz m) as [x m'].
  destruct Hdel as (Hm' & Hsh & Hother).
  assert (vfresh vs m') as Hfr.
  { split; [done|]. intros u' sz' Hin. destruct (Hf u' sz') as (r' & ? & ?); [by right|].
    exists r'. rewrite Hother; [done|]. intros ->. apply Hu. by apply (list_elem_of_fmap_2 fst _ (u, sz')). }
  destruct x.
  - destruct (IH (count_mevict m')) as [IH1 IH2]; [done|by destruct Hm'; constructor|].
    split; [done|]. by eapply shrinks_trans.
  - destruct (IH m') as [IH1 IH2]; [done..|]. split; [done|]. by eapply shrinks_trans.
Qed.

Context `{SqlOrder}.

Lemma victims_fresh io m : vfresh (victims io m) m.
Proof.
  split.
  - unfold victims. rewrite <- list_fmap_compose. simpl. apply NoDup_fst_filter, select_NoDup.
  - intros u sz. unfold victims. rewrite list_elem_of_fmap. intros ([u' r] & [= -> ->] & Hin).
    rewrite list_elem_of_In, filter_In, <- list_elem_of_In, elem_of_select in Hin.
    naive_solver.
Qed.

Lemma ensureMetadataSpace_spec io needed m :
  meta_ok m →
  let '(x, m') := ensureMetadataSpace io needed m in
  meta_ok m' ∧ shrinks m m' ∧ (x = Ok tt → metadataSize m' +₆₄ needed <= metadataMaxSize m').
Proof.
  intros Hm. unfold ensureMetadataSpace.
  destruct (_ <=? _) eqn:Hle; [split_and!; [done..|blia]|].
  destruct (negb _); [done|].
  destruct (mevictLoop_spec io needed (victims io m) m (victims_fresh io m) Hm) as [H1 H2].
  destruct (_ <? _) eqn:Hlt; split_and!; try done. intros _. blia.
Qed.
End size.

(** ** The budget invariant *)

(** The accounting is right and within a budget that leaves headroom in an
    [int64] (the default is 2 GiB). *)
Record meta_inv (m : Meta) : Prop := {
  mi_ok : meta_ok m;
  mi_budget : 0 < metadataMaxSize m < 2^62;
  mi_within : metadataSize m <= metadataMaxSize m;
}.

Section commit.
Context `{Sha256, SqlOrder, GoUnicode}.

(** The replaced row is read, and survives the eviction that makes room. *)
Definition accounted (io : IO) (mw : MetadataWriter) (m : Meta) : Prop :=
  db io (DbSelectSize (w_url mw)) = true ∧
  indices (ensureMetadataSpace io (w_size mw -₆₄ from_option i_size 0 (indices m !! w_url mw)) m).2
    !! w_url mw = indices m !! w_url mw.

Lemma meta_inv_shrinks m m' : meta_inv m → meta_ok m' → shrinks m m' → meta_inv m'.
Proof.
  intros [Hok Hb Hw] Hok' (_ & Hmax & Hsub). constructor; rewrite ?Hmax; try done.
  destruct Hok as [Hs Hr _], Hok' as [Hs' _ _]. rewrite Hs'.
  pose proof (sum_map_subseteq i_size _ _ Hsub Hr). lia.
Qed.

Lemma meta_inv_files f m : meta_inv m → meta_inv (set_files f m).
Proof. intros [? ? ?]. constructor; simpl; try done. by apply meta_ok_files. Qed.

Lemma upsert_inv m u r :
  meta_inv m → 0 <= i_size r →
  metadataSize m - from_option i_size 0 (indices m !! u) + i_size r <= metadataMaxSize m →
  let s := metadataSize m - from_option i_size 0 (indices m !! u) + i_size r in
  meta_inv (set_msize s (set_indices (<[u := r]> (indices m)) m)).
Proof.
  intros [[Hs Hr Hlt] Hb Hw] Hpos Hle s. constructor; [constructor|..]; simpl; try lia.
  - rewrite sum_map_insert. lia.
  - intros k v. rewrite lookup_insert. case_decide; [intros [= <-]; done|apply Hr].
  - rewrite sum_map_insert. lia.
Qed.

(** The arithmetic of [Commit] is exact within the budget. *)
Lemma commit_size_exact m s w :
  meta_inv m → 0 <= s <= metadataSize m → 0 <= w <= metadataMaxSize m →
  (metadataSize m -₆₄ s) +₆₄ w = metadataSize m - s + w ∧
  metadataSize m +₆₄ (w -₆₄ s) = metadataSize m - s + w.
Proof.
  intros [Hok Hb Hw] Hs Hle. pose proof (meta_ok_range _ Hok).
  autorewrite with wrap64. split; (rewrite wrap64_id; [lia|unfold int64_range; lia]).
Qed.

Lemma row_le_size m u : meta_ok m → 0 <= from_option i_size 0 (indices m !! u) <= metadataSize m.
Proof.
  intros Hm. pose proof (meta_ok_range _ Hm). destruct Hm as [Hs Hr _].
  destruct (indices m !! u) as [r|] eqn:Hu; simpl; [|lia].
  split; [eauto|]. rewrite Hs, (sum_map_delete i_size _ _ _ Hu).
  assert (0 <= sum_map i_size (delete u (indices m))); [|lia].
  apply sum_map_nonneg. intros k v [_ Hk]%lookup_delete_Some. eauto.
Qed.

Lemma remove_tmp_inv io p m : meta_inv m → meta_inv (remove_tmp io p m).
Proof. apply meta_inv_files. Qed.

Lemma oldSize_eq (o : option IRow) :
  oldSizeIf (match o with Some _ => true | None => false end) (from_option i_size 0 o)
  = from_option i_size 0 o.
Proof. by destruct o. Qed.

Lemma Commit_inv io mw m :
  meta_inv m → 0 <= w_size mw → accounted io mw m → meta_inv (Commit io mw m).2.
Proof.
  intros Hm Hw [Hsel Hsurv]. unfold Commit. cbv zeta. cbn [w_url w_size finish]. rewrite Hsel.
  destruct (w_done mw); [done|]. destruct (negb (fs io FsClose)); [by apply remove_tmp_inv|].
  destruct (_ && _); [by apply remove_tmp_inv|].
  destruct (metadataMaxSize m <=? 0); [by apply remove_tmp_inv|].
  destruct (metadataMaxSize m <? _) eqn:Hbig; [by apply remove_tmp_inv|].
  rewrite oldSize_eq.
  set (old := from_option i_size 0 (indices m !! w_url mw)) in *.
  pose proof (ensureMetadataSpace_spec io (w_size mw -₆₄ old) m (mi_ok _ Hm)) as Hens.
  destruct (ensureMetadataSpace io (w_size mw -₆₄ old) m) as [x m1].
  destruct Hens as (Hok1 & Hsh & Hfit). cbn [snd] in Hsurv.
  pose proof (meta_inv_shrinks _ _ Hm Hok1 Hsh) as Hm1.
  destruct x as [[]|e]; [|by apply remove_tmp_inv]. specialize (Hfit eq_refl).
  destruct (negb _); [by apply remove_tmp_inv|].
  destruct (os_Remove io _ (files m1)) as [f ok]. destruct (negb ok); [by apply remove_tmp_inv|].
  destruct (files (set_files f m1) !! _) as [body|];
    [|by apply remove_tmp_inv, meta_inv_files].
  destruct (negb _); [by apply remove_tmp_inv, meta_inv_files|].
  destruct (negb _); [by apply remove_tmp_inv, meta_inv_files, meta_inv_files|].
  assert (0 <= old <= metadataSize m1) as Hold.
  { unfold old. rewrite <- Hsurv. by apply row_le_size. }
  destruct Hsh as (_ & Hmax & _).
  destruct (commit_size_exact m1 old (w_size mw) Hm1) as [He1 He2]; [done|blia|].
  assert ((if match indices m !! w_url mw with Some _ => true | None => false end
           then metadataSize m1 -₆₄ old else metadataSize m1) +₆₄ w_size mw
          = metadataSize m1 - old + w_size mw) as Hsize.
  { destruct (indices m !! w_url mw) eqn:Hu; [done|].
    assert (old = 0) as -> by (unfold old; by rewrite ?Hu).
    rewrite <- He1, Z.sub_0_r. by rewrite wrap64_add_l. }
  simpl. rewrite Hsize. replace (_ <? 0) with false by (symmetry; apply Z.ltb_ge; lia).
  assert (old = from_option i_size 0 (indices m1 !! w_url mw)) as Ho by (unfold old; by rewrite Hsurv).
  rewrite Ho in *.
  apply (upsert_inv (set_files (<[metadataPath m1 (w_url mw) := body]> (delete (w_tmpPath mw) f))
                                (set_files f m1))); simpl; [by do 2 apply meta_inv_files|done|lia].
Qed.
End commit.
(** ** Operations as steps *)
Section steps.
Context `{Sha256, SqlOrder, GoUnicode}.

Inductive mstep : Meta → Meta → Prop :=
| MGet io url m : mstep m (GetMetadata io url m).2
| MRevalidate io url etag lm m : mstep m (RevalidateMetadata io url etag lm m)
| MNew io rand url etag lm ct m : mstep m (NewMetadataWriter io rand url etag lm ct m).2
| MWrite w p mw m : mstep m (mw_Write w p mw m).1.1.2
| MAbort io mw m : mstep m (Abort io mw m).2
| MCommit io mw m : 0 <= w_size mw → accounted io mw m → mstep m (Commit io mw m).2.

Lemma mstep_inv m m' : mstep m m' → meta_inv m → meta_inv m'.
Proof.
  assert (∀ f u m, (∀ r, i_size (f r) = i_size r) → meta_inv m →
            meta_inv (set_indices (alter f u (indices m)) m)) as Halter.
  { intros f u m0 Hf [? ? ?]. constructor; simpl; try done. by apply alter_ok. }
  assert (∀ io u m, meta_inv m → meta_inv (dropMetadataRow io u m)) as Hdrop.
  { intros io u m0 Hm. eapply meta_inv_shrinks; [done|by apply dropMetadataRow_ok, Hm|].
    unfold dropMetadataRow. destruct (db io _); [|done]. destruct (indices m0 !! u); [|done].
    destruct (db io _); [|done]. split_and!; [done..|]. apply delete_subseteq. }
  intros Hs Hm. destruct Hs.
  - unfold GetMetadata. repeat case_match; simpl; auto.
    unfold touchMetadata. case_match; [by apply Halter|done].
  - unfold RevalidateMetadata. repeat case_match; auto.
  - unfold NewMetadataWriter. case_match; [by apply meta_inv_files|done].
  - unfold mw_Write. destruct (hw_Write _ _ _) as [[hw n] ok]. by apply meta_inv_files.
  - unfold Abort. case_match; [done|by apply remove_tmp_inv].
  - by apply Commit_inv.
Qed.

(** In every run of metadata operations in which each commit reads the row
    it replaces and that row survives the eviction that makes room, the tracked
    [metadataSize] is exactly the sum of the sizes in the [indices] table and
    never exceeds the configured budget. *)
Theorem metadata_budget_invariant m m' :
  rtc mstep m m' → meta_inv m →
  metadataSize m' = sum_map i_size (indices m') ∧ metadataSize m' <= metadataMaxSize m'.
Proof.
  intros Hrun Hm. assert (meta_inv m') as [[Hs _ _] _ Hw]; [|done].
  induction Hrun; [done|]. eauto using mstep_inv.
Qed.

(** ** Streaming a body into the cache *)

Fixpoint writeAll (ws : list (Sink * string)) (mw : MetadataWriter) (m : Meta) : MetadataWriter * Meta :=
  match ws with
  | [] => (mw, m)
  | (w, p) :: rest => let '(mw', m', _, _) := mw_Write w p mw m in writeAll rest mw' m'
  end.

(** The bytes the pending file has taken. *)
Definition accepted (ws : list (Sink * string)) : string :=
  foldr (λ wp acc, (sink_write wp.1 wp.2).1 +:+ acc) "" ws.

Record writing (rand url etag lm ct body : string) (m0 : Meta) (mw : MetadataWriter) (m : Meta) : Prop := {
  wr_meta : w_url mw = url ∧ w_etag mw = etag ∧ w_lastModified mw = lm ∧ w_contentType mw = ct ∧
            w_expectedHash mw = expectedHash url ∧ w_tmpPath mw = pendingName m0 rand ∧
            w_done mw = false;
  wr_out : hw_out (w_hw mw) = body;
  wr_hash : hw_hasher (w_hw mw) = body;
  wr_size : w_size mw = Z.of_nat (String.length body);
  wr_file : files m !! pendingName m0 rand = Some body;
  wr_frame : m_base m = m_base m0 ∧ metadataMaxSize m = metadataMaxSize m0 ∧ indices m = indices m0 ∧
             (∀ p, p ≠ pendingName m0 rand → files m !! p = files m0 !! p);
}.

Lemma writeAll_writing ws rand url etag lm ct body m0 mw m :
  writing rand url etag lm ct body m0 mw m →
  writing rand url etag lm ct (body +:+ accepted ws) m0 (writeAll ws mw m).1 (writeAll ws mw m).2.
Proof.
  revert body mw m. induction ws as [|[w p] ws IH]; intros body mw m Hw; simpl.
  { by rewrite str_app_nil_r. }
  destruct Hw as [Hmeta Hout Hhash Hsz Hfile (Hb & Hmax & Hidx & Hfs)].
  unfold mw_Write. pose proof (hw_Write_inv w (w_hw mw) p) as Hinv. unfold hw_Write in *.
  destruct (sink_write w p) as [taken ok] eqn:Hs. cbn [fst] in *. rewrite <- str_app_assoc.
  rewrite Hout, Hhash in Hinv. specialize (Hinv eq_refl). simpl in Hinv.
  apply IH. destruct Hmeta as (? & ? & ? & ? & ? & Htmp & ?). constructor; simpl.
  - done.
  - by rewrite Hout.
  - by rewrite Hhash.
  - rewrite Hsz, str_length_app. lia.
  - by rewrite Htmp, lookup_insert_eq, Hout.
  - split_and!; [done..|]. intros q Hq. rewrite Htmp, lookup_insert_ne by done. auto.
Qed.

Lemma New_writing io rand url etag lm ct m mw m1 :
  NewMetadataWriter io rand url etag lm ct m = (Ok mw, m1) →
  writing rand url etag lm ct "" m mw m1.
Proof.
  unfold NewMetadataWriter. case_match; [|done].
  destruct (byHashSHA256 url) as [h|] eqn:Hbh; [|done]. intros [= <- <-].
  constructor; simpl; try done.
  - unfold expectedHash. rewrite Hbh. split_and!; by try destruct h.
  - by rewrite lookup_insert_eq.
  - split_and!; [done..|]. intros p Hp. by rewrite lookup_insert_ne.
Qed.

Lemma os_Remove_subseteq io p d : (os_Remove io p d).1 ⊆ d.
Proof. unfold os_Remove. repeat case_match; simpl; [apply delete_subseteq|done..]. Qed.

Lemma deleteMetadata_files io u sz m : files (deleteMetadataUnlocked io u sz m).2 ⊆ files m.
Proof.
  unfold deleteMetadataUnlocked. pose proof (os_Remove_subseteq io (metadataPath m u) (files m)) as Hs.
  destruct (os_Remove _ _ _) as [f ok]. destruct ok; [|done]. by destruct (db io _).
Qed.

(** Making room only removes files. *)
Lemma ensureMetadataSpace_files io needed m : files (ensureMetadataSpace io needed m).2 ⊆ files m.
Proof.
  unfold ensureMetadataSpace. destruct (_ <=? _); [done|]. destruct (negb _); [done|].
  assert (∀ vs m, files (mevictLoop io needed vs m) ⊆ files m) as Hloop.
  { clear m. induction vs as [|[u sz] vs IH]; intros m; simpl; [done|]. destruct (_ <=? _); [done|].
    pose proof (deleteMetadata_files io u sz m) as Hd.
    destruct (deleteMetadataUnlocked io u sz m) as [[] m']; (etrans; [apply IH|done]). }
  by destruct (_ <? _); simpl.
Qed.

Lemma byHash_nonempty url h : byHashSHA256 url = Ok (Some h) → h ≠ "".
Proof.
  unfold byHashSHA256. destruct (Index _ _) as [i|]; [|done]. destruct (_ <? _)%nat; [done|].
  generalize (until_any (λ a, Ascii.eqb a "/" || Ascii.eqb a "?" || Ascii.eqb a "#")
                        (str_drop (i + String.length marker) url)). intros rest. cbv zeta.
  destruct (_ =? 64)%nat eqn:Hl; [|done]. destruct (str_forallb _ _); [|done].
  intros [= <-] ->%ToLower_nil. done.
Qed.

(** What a successful commit leaves. *)
Lemma Commit_ok io rand url etag lm ct body m0 mw m mw' m' :
  meta_ok m → 0 < metadataMaxSize m →
  writing rand url etag lm ct body m0 mw m →
  Commit io mw m = (Ok tt, mw', m') →
  m_base m' = m_base m ∧ metadataMaxSize m' = metadataMaxSize m ∧
  files m' !! metadataPath m' url = Some body ∧
  (∀ h, byHashSHA256 url = Ok (Some h) → HashBytes body = h) ∧
  ∃ n, indices m' !! url = Some (mkIRow etag lm (now io) (metadataPath m' url)
         (Z.of_nat (String.length body)) ct (now io) n (now io)).
Proof.
  intros Hm Hmax [(Hu & He & Hl & Hc & Hh & Ht & Hd) Hout Hhash Hsz Hfile (Hb & _ & _ & _)].
  unfold Commit. cbv zeta. cbn [w_url w_size w_expectedHash w_hw w_tmpPath finish].
  rewrite Hd, Hsz, Hu, Hh, Ht. destruct (negb (fs io FsClose)); [done|].
  destruct (negb _ && negb _) eqn:Hcheck; [done|].
  replace (metadataMaxSize m <=? 0) with false by (symmetry; apply Z.leb_gt; lia).
  destruct (metadataMaxSize m <? _); [done|].
  set (old := if db io _ then _ else _).
  lazymatch goal with |- context [ensureMetadataSpace io ?n m] =>
    pose proof (ensureMetadataSpace_spec io n m Hm) as Hens;
    pose proof (ensureMetadataSpace_files io n m) as Hfs;
    destruct (ensureMetadataSpace io n m) as [x m1] end.
  destruct Hens as (_ & (Hb1 & Hmax1 & _) & _). cbn [snd] in Hfs.
  destruct x as [[]|]; [|done]. destruct (negb (fs io (FsMkdirAll _))); [done|].
  pose proof (os_Remove_subseteq io (metadataPath m1 url) (files m1)) as Hrm.
  destruct (os_Remove io _ (files m1)) as [f ok]. destruct (negb ok); [done|].
  destruct (files (set_files f m1) !! _) as [b|] eqn:Hb'; [|done].
  destruct (negb (fs io (FsRename _ _))); [done|]. destruct (negb (db io (DbUpsert _))); [done|].
  intros [= <- <-]. assert (b = body) as ->.
  { pose proof (lookup_weaken _ _ _ _ (lookup_weaken _ _ _ _ Hb' Hrm) Hfs). congruence. }
  simpl. unfold metadataPath in *. simpl. split_and!.
  - done.
  - done.
  - by rewrite lookup_insert_eq.
  - intros h Hh'. unfold expectedHash in Hcheck. rewrite Hh' in Hcheck. simpl in Hcheck.
    rewrite andb_false_iff, !negb_false_iff, !String.eqb_eq in Hcheck.
    destruct Hcheck as [->|Hs]; [by apply byHash_nonempty in Hh'|]. unfold hw_Sum in Hs. by rewrite Hhash in Hs.
  - eexists. rewrite lookup_insert_eq. unfold upsert_index. simpl. rewrite He, Hl, Hc, Hsz. done.
Qed.


Lemma writing_ok rand url etag lm ct body m0 mw m :
  writing rand url etag lm ct body m0 mw m → metadataSize m = metadataSize m0 → meta_ok m0 → meta_ok m.
Proof.
  intros Hw Hs [Ha Hb Hc]. destruct Hw as [_ _ _ _ _ (_ & _ & Hi & _)].
  constructor; rewrite ?Hi; [congruence|done..].
Qed.

Lemma writeAll_size ws mw m : metadataSize (writeAll ws mw m).2 = metadataSize m.
Proof.
  revert mw m. induction ws as [|[w p] ws IH]; intros mw m; simpl; [done|].
  unfold mw_Write. destruct (hw_Write _ _ _) as [[hw n] ok]. by rewrite IH.
Qed.

Lemma New_size io rand url etag lm ct m :
  metadataSize (NewMetadataWriter io rand url etag lm ct m).2 = metadataSize m.
Proof. unfold NewMetadataWriter. by case_match. Qed.

(** C25: streaming a body through a [MetadataWriter] and committing it makes the
    next [GetMetadata] of that URL serve exactly the bytes the pending file
    took, with the validators and content type of the write and the body's
    length as the size; when the URL is a by-hash one, the SHA-256 of the served
    bytes is the hash in the URL. *)
Theorem metadata_commit_then_get io io' rand url etag lm ct ws m0 mw0 m1 mw' m3 :
  meta_ok m0 → 0 < metadataMaxSize m0 →
  NewMetadataWriter io rand url etag lm ct m0 = (Ok mw0, m1) →
  Commit io (writeAll ws mw0 m1).1 (writeAll ws mw0 m1).2 = (Ok tt, mw', m3) →
  db io' (DbSelectInfo url) = true → fs io' (FsOpen (metadataPath m0 url)) = true →
  (GetMetadata io' url m3).1
    = Ok (mkEntry url etag lm (Z.of_nat (String.length (accepted ws))) ct (now io) (now io), accepted ws) ∧
  ∀ h, byHashSHA256 url = Ok (Some h) → HashBytes (accepted ws) = h.
Proof.
  intros Hm Hmax Hnew Hcommit Hdb Hfs. pose proof (New_writing _ _ _ _ _ _ _ _ _ Hnew) as Hw.
  apply (writeAll_writing ws) in Hw. simpl in Hw.
  assert (metadataSize (writeAll ws mw0 m1).2 = metadataSize m0) as Hsz.
  { rewrite writeAll_size. pose proof (New_size io rand url etag lm ct m0) as Hs.
    by rewrite Hnew in Hs. }
  pose proof (wr_frame _ _ _ _ _ _ _ _ _ Hw) as (Hb & Hmx & _).
  destruct (Commit_ok _ _ _ _ _ _ _ _ _ _ _ _ (writing_ok _ _ _ _ _ _ _ _ _ Hw Hsz Hm)
              ltac:(lia) Hw Hcommit) as (Hb3 & Hm3 & Hf & Hh & n & Hi).
  split; [|exact Hh]. unfold GetMetadata.
  replace (metadataMaxSize m3 <=? 0) with false by (symmetry; apply Z.leb_gt; lia).
  rewrite Hdb, Hi. cbn [negb]. rewrite Hf.
  assert (metadataPath m3 url = metadataPath m0 url) as ->; [|by rewrite Hfs].
  unfold metadataPath. by rewrite Hb3, Hb.
Qed.

(** A by-hash body whose SHA-256 is not the hash in the URL is never
    installed: [Commit] fails and every row and every file other than the
    pending one is what it was before the write began. *)
Theorem metadata_by_hash_rejects io rand url etag lm ct ws m0 mw0 m1 h :
  NewMetadataWriter io rand url etag lm ct m0 = (Ok mw0, m1) →
  byHashSHA256 url = Ok (Some h) → HashBytes (accepted ws) ≠ h →
  let '(r, _, m3) := Commit io (writeAll ws mw0 m1).1 (writeAll ws mw0 m1).2 in
  is_ok r = false ∧ indices m3 = indices m0 ∧
  ∀ p, p ≠ pendingName m0 rand → files m3 !! p = files m0 !! p.
Proof.
  intros Hnew Hh Hne. pose proof (New_writing _ _ _ _ _ _ _ _ _ Hnew) as Hw.
  apply (writeAll_writing ws) in Hw. simpl in Hw.
  destruct (writeAll ws mw0 m1) as [mw m]. cbn [fst snd] in *.
  destruct Hw as [(_ & _ & _ & _ & He & Ht & Hd) _ Hhash _ _ (_ & _ & Hi & Hfs)].
  assert (∀ p, p ≠ pendingName m0 rand → files (remove_tmp io (w_tmpPath mw) m) !! p = files m0 !! p) as Hrm.
  { intros p Hp. rewrite <- Hfs by done. unfold remove_tmp, os_Remove. simpl. rewrite Ht.
    repeat case_match; simpl; try done. by rewrite lookup_delete_ne. }
  assert (expectedHash url = h) as Hexp by (unfold expectedHash; by rewrite Hh).
  unfold Commit. cbv zeta. cbn [w_expectedHash w_hw w_tmpPath finish]. rewrite Hd, He, Hexp. simpl.
  destruct (negb (fs io FsClose)); [done|].
  assert (negb (String.eqb h "") && negb (String.eqb (hw_Sum (w_hw mw)) h) = true) as ->; [|done].
  apply byHash_nonempty in Hh. unfold hw_Sum, HashBytes in *. rewrite Hhash.
  by rewrite andb_true_iff, !negb_true_iff, !String.eqb_neq.
Qed.

Lemma prefix_length p s : String.prefix p s = true → (String.length p <= String.length s)%nat.
Proof.
  revert s. induction p as [|a p IH]; intros [|b s]; cbn; try done; [lia|].
  destruct (ascii_dec a b); [|done]. intros Hp. apply IH in Hp. lia.
Qed.

Lemma Index_length s p i : Index s p = Some i → (i + String.length p <= String.length s)%nat.
Proof.
  revert i. induction s as [|a s IH]; intros i; cbn [Index].
  - destruct (HasPrefix _ _) eqn:Hp; [|done]. intros [= <-]. apply prefix_length in Hp. cbn in *. lia.
  - destruct (HasPrefix _ _) eqn:Hp; [intros [= <-]; by apply prefix_length in Hp|].
    destruct (Index s p) as [j|]; [|done]. intros [= <-]. specialize (IH j eq_refl). cbn. lia.
Qed.

(** On an ASCII URL the slice of [byHashSHA256] is always in range. *)
Lemma byHash_ascii url : isASCII url = true → is_ok (byHashSHA256 url) = true.
Proof.
  intros Ha. unfold byHashSHA256, ToLower. rewrite Ha.
  destruct (Index _ _) as [i|] eqn:Hi; [|done]. apply Index_length in Hi. rewrite str_length_map in Hi.
  replace (_ <? _)%nat with false by (symmetry; apply Nat.ltb_ge; lia). cbv zeta. by repeat case_match.
Qed.

(** GetMetadata of a row whose file is gone drops the row, and only that row. *)
Lemma GetMetadata_heals io url m r :
  0 < metadataMaxSize m → indices m !! url = Some r → files m !! metadataPath m url = None →
  (∀ o, db io o = true) →
  (GetMetadata io url m).1 = Err ErrNotFound ∧ indices (GetMetadata io url m).2 = delete url (indices m).
Proof.
  intros Hmax Hr Hf Hdb. unfold GetMetadata, dropMetadataRow. rewrite !Hdb, Hr, Hf.
  replace (metadataMaxSize m <=? 0) with false by (symmetry; apply Z.leb_gt; lia). done.
Qed.
End steps.

(** ** Evaluations *)
Section examples.
#[local] Existing Instance toy_sha.
#[local] Existing Instance isort_order.
#[local] Existing Instance ascii_only.

Definition io_at (t : Z) : IO := mkIO t None (λ _, true) (λ _, true).

(** Stores a body of the given content under [url]. *)
Definition begun (t : Z) (url : string) (m : Meta) : Meta :=
  (NewMetadataWriter (io_at t) "1" url "etag" "lm" "text/plain" m).2.

Definition written (t : Z) (url body : string) (m : Meta) : MetadataWriter * Meta :=
  writeAll [((λ _, None) : Sink, body)]
    (mkWriter url "etag" "lm" "text/plain" (expectedHash url) (pendingName m "1")
              NewHashingWriter 0 false) (begun t url m).

Definition store (t : Z) (url body : string) (m : Meta) : res CommitErr unit * Meta :=
  let '(r, _, m3) := Commit (io_at t) (written t url body m).1 (written t url body m).2 in (r, m3).

Lemma store_steps t url body m :
  accounted (io_at t) (written t url body m).1 (written t url body m).2 →
  rtc mstep m (store t url body m).2.
Proof.
  intros Hacc. transitivity (written t url body m).2.
  - eapply rtc_l; [apply (MNew (io_at t) "1" url "etag" "lm" "text/plain")|].
    eapply rtc_l; [|apply rtc_refl]. apply (MWrite (λ _, None) body).
  - eapply rtc_l; [apply (MCommit (io_at t) (written t url body m).1)|].
    + simpl. lia.
    + exact Hacc.
    + unfold store. destruct (Commit _ _ _) as [[r w] m3]. apply rtc_refl.
Qed.

Definition empty_meta (max : Z) : Meta := mkMeta "/c" max 0 ∅ ∅ 0.

Definition two_entries : Meta := (store 2 "http://b" "4444" (store 1 "http://a" "666666" (empty_meta 10)).2).2.

Definition good_url : string := "http://x/by-hash/SHA256/" +:+ HashBytes "abc" +:+ "?x".

Lemma empty_meta_ok max : meta_ok (empty_meta max).
Proof. by constructor. Qed.

Lemma metadata_budget_witness :
  metadataSize two_entries = sum_map i_size (indices two_entries) ∧ metadataSize two_entries <= 10.
Proof.
  apply (metadata_budget_invariant (empty_meta 10) two_entries).
  - etrans; [apply (store_steps 1 "http://a" "666666")|apply (store_steps 2 "http://b" "4444")];
      vm_compute; split; reflexivity.
  - constructor; [apply empty_meta_ok|done..].
Defined.

Lemma metadata_commit_then_get_witness :
  (GetMetadata (io_at 9) good_url (store 5 good_url "abc" (empty_meta 100)).2).1
    = Ok (mkEntry good_url "etag" "lm" 3 "text/plain" 5 5, "abc").
Proof.
  refine (proj1 (metadata_commit_then_get (io_at 5) (io_at 9) "1" good_url "etag" "lm" "text/plain"
     [((λ _, None) : Sink, "abc")] (empty_meta 100) _ _ _ _ (empty_meta_ok 100) eq_refl eq_refl _ eq_refl eq_refl)).
  vm_compute. reflexivity.
Defined.

Lemma metadata_by_hash_rejects_witness :
  let '(r, _, m3) := Commit (io_at 5) (written 5 good_url "abd" (empty_meta 100)).1
                            (written 5 good_url "abd" (empty_meta 100)).2 in
  is_ok r = false ∧ indices m3 = ∅ ∧
  ∀ p, p ≠ pendingName (empty_meta 100) "1" → files m3 !! p = (∅ : gmap string string) !! p.
Proof.
  apply (metadata_by_hash_rejects (io_at 5) "1" good_url "etag" "lm" "text/plain"
     [((λ _, None) : Sink, "abd")] (empty_meta 100) _ _ (HashBytes "abc") eq_refl).
  - vm_compute. reflexivity.
  - vm_compute. discriminate.
Defined.

(** Replacing an entry that is itself evicted to make room breaks the
    budget.  With a budget of 10 bytes, an older entry of 6 and a newer one of
    4, committing a new 8-byte body for the older URL evicts that URL's own row
    (freeing 6) and then subtracts its old size again: the commit succeeds with
    a tracked size of 6 while the table holds 12 bytes. *)
Theorem metadata_replace_evicted_overcommits :
  let m := (store 3 "http://a" "88888888" two_entries).2 in
  is_ok (store 3 "http://a" "88888888" two_entries).1 = true ∧
  metadataSize two_entries = sum_map i_size (indices two_entries) ∧
  metadataSize m = 6 ∧ sum_map i_size (indices m) = 12 ∧ metadataMaxSize m = 10.
Proof. vm_compute. split_and!; reflexivity. Qed.
End examples.

(** U+023A, two bytes in UTF-8, has a lower case of three bytes (U+2C65). *)
Fixpoint lower_023A (s : string) : string :=
  match s with
  | EmptyString => EmptyString
  | String a rest =>
      match rest with
      | String b rest' =>
          if (code a =? 200) && (code b =? 186)
          then String (byte_of 226) (String (byte_of 177) (String (byte_of 165) (lower_023A rest')))
          else String (ascii_lower a) (lower_023A rest)
      | EmptyString => String (ascii_lower a) EmptyString
      end
  end.

Lemma lower_023A_nil s : lower_023A s = "" → s = "".
Proof. destruct s as [|a [|b s]]; cbn; [done..|]. by destruct (_ && _). Qed.

Definition with_023A : GoUnicode :=
  {| unicode_ToLower := lower_023A; unicode_TrimSpace := id; unicode_Fields s := [s];
     unicode_ToLower_nil := lower_023A_nil |}.

(** A URL with that character right before a by-hash path with nothing after it
    makes [byHashSHA256] slice out of range. *)
Lemma byHash_panics :
  byHashSHA256 (H := with_023A) (String (byte_of 200) (String (byte_of 186) "/by-hash/SHA256/")) = Err EPanic.
Proof. vm_compute. reflexivity. Qed.
End MetaSys.
