(* ===== verification/FleetMsg.v ===== *)
(** * internal/fleet/messages.go: the wire format of the fleet protocol

    [encoding/binary]'s big-endian reads and writes at fixed widths, [Encode]
    and [Decode] of a [Message], and the decode loop of [handleStream]
    (protocol.go). *)

From S2P Require Import Prelude GoStd HashUtil.
From Stdlib Require Import Ascii.
Open Scope Z_scope.

(** ** encoding/binary, big endian *)

(** The [n] low-order bytes of [z], most significant first. *)
Fixpoint be (n : nat) (z : Z) : string :=
  match n with
  | O => ""
  | S k => String (byte_of (z / 256 ^ Z.of_nat k)) (be k z)
  end.

Fixpoint unbe_from (acc : Z) (s : string) : Z :=
  match s with EmptyString => acc | String a s => unbe_from (acc * 256 + code a) s end.

Definition unbe (s : string) : Z := unbe_from 0 s.

Section be.
Lemma be_length n z : String.length (be n z) = n.
Proof. induction n as [|n IH]; simpl; [done|]. by rewrite IH. Qed.

Lemma unbe_from_be n z acc : unbe_from acc (be n z) = acc * 256 ^ Z.of_nat n + z mod 256 ^ Z.of_nat n.
Proof.
  revert acc. induction n as [|n IH]; intros acc.
  - simpl. rewrite Z.mod_1_r. lia.
  - cbn [be unbe_from]. rewrite IH, code_byte_of.
    rewrite Nat2Z.inj_succ, Z.pow_succ_r by lia. set (B := 256 ^ Z.of_nat n).
    assert (0 < B) by (apply Z.pow_pos_nonneg; lia).
    replace (256 * B) with (B * 256) by lia.
    rewrite (Z.rem_mul_r z B 256) by lia. lia.
Qed.

Lemma unbe_be n z : unbe (be n z) = z mod 256 ^ Z.of_nat n.
Proof. unfold unbe. rewrite unbe_from_be. lia. Qed.

Lemma unbe_range s : 0 <= unbe s < 256 ^ Z.of_nat (String.length s).
Proof.
  assert (∀ acc, 0 <= acc → acc * 256 ^ Z.of_nat (String.length s) <= unbe_from acc s
                 < (acc + 1) * 256 ^ Z.of_nat (String.length s)) as Hgen.
  { induction s as [|a s IH]; intros acc Hacc; [simpl; lia|].
    cbn [unbe_from String.length]. rewrite Nat2Z.inj_succ, Z.pow_succ_r by lia.
    pose proof (code_range a). specialize (IH (acc * 256 + code a) ltac:(lia)).
    assert (0 < 256 ^ Z.of_nat (String.length s)) by (apply Z.pow_pos_nonneg; lia). nia. }
  specialize (Hgen 0 ltac:(lia)). unfold unbe. lia.
Qed.

Lemma be_cong n a b : a mod 256 ^ Z.of_nat n = b mod 256 ^ Z.of_nat n → be n a = be n b.
Proof.
  revert a b. induction n as [|n IH]; intros a b Heq; [done|]. cbn [be].
  rewrite Nat2Z.inj_succ, Z.pow_succ_r in Heq by lia. set (B := 256 ^ Z.of_nat n) in *.
  assert (0 < B) by (apply Z.pow_pos_nonneg; lia).
  replace (256 * B) with (B * 256) in Heq by lia.
  rewrite !Z.rem_mul_r in Heq by lia.
  pose proof (Z.mod_pos_bound a B) as Ha. pose proof (Z.mod_pos_bound b B) as Hb.
  assert (a mod B = b mod B ∧ (a / B) mod 256 = (b / B) mod 256) as [Hlo Hhi].
  { destruct (Z.lt_trichotomy ((a / B) mod 256) ((b / B) mod 256)) as [Hx|[Hx|Hx]]; nia. }
  f_equal; [unfold byte_of; by rewrite Hhi|by apply IH].
Qed.

Lemma be_unbe s : be (String.length s) (unbe s) = s.
Proof.
  assert (∀ acc, be (String.length s) (unbe_from acc s) = s) as Hgen; [|by apply Hgen].
  induction s as [|a s IH]; intros acc; [done|]. cbn [unbe_from String.length be].
  f_equal; [|apply IH].
  set (B := 256 ^ Z.of_nat (String.length s)).
  assert (0 < B) by (apply Z.pow_pos_nonneg; lia).
  assert (unbe_from (acc * 256 + code a) s = (acc * 256 + code a) * B + unbe s) as ->.
  { clear. unfold unbe. generalize (acc * 256 + code a). intros x.
    assert (∀ x y, unbe_from (x + y) s = x * 256 ^ Z.of_nat (String.length s) + unbe_from y s) as Hl.
    { clear. induction s as [|b s IH]; intros x y; [simpl; lia|]. cbn [unbe_from String.length].
      replace ((x + y) * 256 + code b) with (x * 256 + (y * 256 + code b)) by lia.
      rewrite IH, Nat2Z.inj_succ, Z.pow_succ_r by lia. lia. }
    rewrite <- (Z.add_0_r x) at 1. by rewrite Hl. }
  rewrite Z.div_add_l by lia. pose proof (unbe_range s) as Hr. fold B in Hr.
  rewrite (Z.div_small (unbe s)) by done. rewrite <- (byte_of_code a) at 2. unfold byte_of. do 2 f_equal.
  replace (acc * 256 + code a + 0) with (code a + acc * 256) by lia.
  by rewrite Z.mod_add by lia.
Qed.
End be.

Module FleetMsg.

(** ** Messages *)

Definition MsgWantPackage : Z := 1.
Definition MsgHavePackage : Z := 2.
Definition MsgFetching : Z := 3.
Definition MsgFetchProgress : Z := 4.
Definition MsgFetched : Z := 5.
Definition MsgFetchFailed : Z := 6.
Definition MsgDontHave : Z := 7.

Record Message := mkMessage { Type_ : Z; Nonce : Z; Hash : string; Size : Z; Offset : Z }.

#[global] Instance Message_eq_dec : EqDecision Message.
Proof. solve_decision. Defined.

(** The widths of the fields: uint8, uint32, int64, int64. *)
Record wf_message (m : Message) : Prop := {
  wf_type : 0 <= Type_ m < 256;
  wf_nonce : 0 <= Nonce m < 2^32;
  wf_size : int64_range (Size m);
  wf_offset : int64_range (Offset m);
}.

(** ** Encode

    The writer may fail on any write: [w out p] is the fate of writing [p] when
    [out] has been written.  The result is all that reached the writer. *)
Inductive EncErr := EWrite | EHashTooLong (n : nat).

Definition wr (w : string → Sink) (p : string) (out : string) : string * bool :=
  let '(taken, ok) := sink_write (w out) p in (out +:+ taken, ok).

Fixpoint wr_all (w : string → Sink) (ps : list string) (out : string) : string * res EncErr unit :=
  match ps with
  | [] => (out, Ok tt)
  | p :: rest =>
      let '(out, ok) := wr w p out in
      if ok then wr_all w rest out else (out, Err EWrite)
  end.

Definition Encode (w : string → Sink) (m : Message) (out : string) : string * res EncErr unit :=
  match wr_all w [be 1 (Type_ m); be 4 (Nonce m)] out with
  | (out, Err e) => (out, Err e)
  | (out, Ok _) =>
      if 65535 <? Z.of_nat (String.length (Hash m)) then (out, Err (EHashTooLong (String.length (Hash m))))
      else wr_all w [be 2 (Z.of_nat (String.length (Hash m))); Hash m; be 8 (Size m); be 8 (Offset m)] out
  end.

(** ** Decode

    The reader is the bytes it still has before its end. *)
Inductive DecErr := EOF | ErrUnexpectedEOF | EHashLen.

(** [io.ReadFull]. *)
Definition readFull (n : nat) (r : string) : res DecErr (string * string) :=
  if (n =? 0)%nat then Ok ("", r)
  else if (String.length r =? 0)%nat then Err EOF
  else if (String.length r <? n)%nat then Err ErrUnexpectedEOF
  else Ok (str_take n r, str_drop n r).

Definition binaryRead (n : nat) (r : string) : res DecErr (Z * string) :=
  match readFull n r with Ok (b, r) => Ok (unbe b, r) | Err e => Err e end.

Definition bind {A B} (x : res DecErr A) (f : A → res DecErr B) : res DecErr B :=
  match x with Ok a => f a | Err e => Err e end.
#[local] Notation "'let?' x := a 'in' b" := (bind a (λ x, b)) (at level 10, x pattern, b at level 200).

Definition Decode (r : string) : res DecErr (Message * string) :=
  let? (ty, r) := binaryRead 1 r in
  let? (nonce, r) := binaryRead 4 r in
  let? (hashLen, r) := binaryRead 2 r in
  if 1024 <? hashLen then Err EHashLen
  else
    let? (hash, r) := readFull (Z.to_nat hashLen) r in
    let? (size, r) := binaryRead 8 r in
    let? (offset, r) := binaryRead 8 r in
    Ok (mkMessage ty nonce hash (wrap64 size) (wrap64 offset), r).

(** The loop of [handleStream]: messages handed to the coordinator until the
    first error.  Every message takes at least 23 bytes, so the length of the
    input is enough fuel. *)
Fixpoint handleStream (fuel : nat) (r : string) : list Message * DecErr :=
  match fuel with
  | O => ([], EOF)
  | S fuel =>
      match Decode r with
      | Ok (m, r) => let '(ms, e) := handleStream fuel r in (m :: ms, e)
      | Err e => ([], e)
      end
  end.

(** ** The encoding as a function *)
Definition wire (m : Message) : string :=
  be 1 (Type_ m) +:+ be 4 (Nonce m) +:+ be 2 (Z.of_nat (String.length (Hash m))) +:+
  Hash m +:+ be 8 (Size m) +:+ be 8 (Offset m).

Definition all_taken : string → Sink := λ _ _, None.

Section codec.
Lemma Encode_wire m out :
  Z.of_nat (String.length (Hash m)) <= 65535 → Encode all_taken m out = (out +:+ wire m, Ok tt).
Proof.
  intros Hl. unfold Encode. cbn [wr_all wr sink_write all_taken].
  replace (_ <? _) with false by (symmetry; apply Z.ltb_ge; done).
  unfold wr, sink_write, all_taken, wire. by rewrite !str_app_assoc.
Qed.

Lemma readFull_app a b : readFull (String.length a) (a +:+ b) = Ok (a, b).
Proof.
  unfold readFull. destruct a as [|c a]; [done|].
  rewrite str_length_app. cbn [String.length]. simpl (S _ =? 0)%nat. cbv iota.
  replace (_ <? _)%nat with false by (symmetry; apply Nat.ltb_ge; lia).
  change (S (String.length a)) with (String.length (String c a)).
  by rewrite str_take_app, str_drop_app.
Qed.

Lemma binaryRead_be n z b : binaryRead n (be n z +:+ b) = Ok (z mod 256 ^ Z.of_nat n, b).
Proof.
  unfold binaryRead. rewrite <- (be_length n z) at 1. by rewrite readFull_app, unbe_be.
Qed.

Lemma wrap64_mod64 z : int64_range z → wrap64 (z mod 256 ^ Z.of_nat 8) = z.
Proof.
  intros Hz. change (256 ^ Z.of_nat 8) with (2^64).
  rewrite (wrap64_cong _ z); [by apply wrap64_id|]. by rewrite Zmod_mod.
Qed.

Lemma Decode_wire m tail :
  wf_message m → (String.length (Hash m) <= 1024)%nat → Decode (wire m +:+ tail) = Ok (m, tail).
Proof.
  intros [Ht Hn Hs Ho] Hl. unfold Decode, wire. rewrite !str_app_assoc.
  do 3 (rewrite binaryRead_be; cbn [bind]). change (256 ^ Z.of_nat 2) with 65536. rewrite (Z.mod_small (Z.of_nat _)) by lia.
  replace (1024 <? _) with false by (symmetry; apply Z.ltb_ge; lia).
  rewrite Nat2Z.id, readFull_app. cbn [bind]. do 2 (rewrite binaryRead_be; cbn [bind]).
  rewrite !wrap64_mod64 by done.
  change (256 ^ Z.of_nat 1) with 256. change (256 ^ Z.of_nat 4) with (2^32).
  rewrite !Z.mod_small by done. by destruct m.
Qed.

(** Decoding only accepts encodings: the consumed bytes are the encoding of the
    message. *)
Lemma readFull_inv n r b r' : readFull n r = Ok (b, r') → r = b +:+ r' ∧ String.length b = n.
Proof.
  unfold readFull. destruct (n =? 0)%nat eqn:Hn.
  { intros [= <- <-]. apply Nat.eqb_eq in Hn as ->. split; reflexivity. }
  destruct (String.length r =? 0)%nat; [done|]. destruct (_ <? _)%nat eqn:Hlt; [done|]. intros [= <- <-].
  apply Nat.ltb_ge in Hlt. split; [by rewrite str_take_drop|by apply str_length_take].
Qed.

Lemma binaryRead_inv n r z r' :
  binaryRead n r = Ok (z, r') → r = be n z +:+ r' ∧ 0 <= z < 256 ^ Z.of_nat n.
Proof.
  unfold binaryRead. destruct (readFull n r) as [[b r0]|] eqn:Hr; [|done]. intros [= <- <-].
  apply readFull_inv in Hr as [-> <-]. split; [by rewrite be_unbe|apply unbe_range].
Qed.

Lemma bind_Ok {A B} (x : res DecErr A) (f : A → res DecErr B) b :
  bind x f = Ok b → ∃ a, x = Ok a ∧ f a = Ok b.
Proof. destruct x; simpl; [eauto|done]. Qed.

Lemma be8_wrap z : be 8 (wrap64 z) = be 8 z.
Proof. apply be_cong. change (256 ^ Z.of_nat 8) with (2^64). apply wrap64_mod. Qed.

Lemma Decode_inv r m tail :
  Decode r = Ok (m, tail) →
  r = wire m +:+ tail ∧ wf_message m ∧ (String.length (Hash m) <= 1024)%nat.
Proof.
  unfold Decode. intros ([ty r1] & H1 & H)%bind_Ok. apply bind_Ok in H as ([nonce r2] & H2 & H).
  apply bind_Ok in H as ([hl r3] & H3 & H). destruct (1024 <? hl) eqn:Hhl; [done|].
  apply bind_Ok in H as ([hash r4] & H4 & H). apply bind_Ok in H as ([size r5] & H5 & H).
  apply bind_Ok in H as ([off r6] & H6 & [= <- <-]).
  apply binaryRead_inv in H1 as [-> Ht], H2 as [-> Hn], H3 as [-> Hl], H5 as [-> _], H6 as [-> _].
  apply readFull_inv in H4 as [-> Hlen]. apply Z.ltb_ge in Hhl.
  unfold wire. cbn [Type_ Nonce Hash Size Offset]. rewrite !be8_wrap, Hlen, Z2Nat.id by lia.
  rewrite !str_app_assoc. split; [done|]. split; [|lia].
  constructor; cbn [Type_ Nonce Hash Size Offset]; auto using wrap64_range.
Qed.

Lemma wire_length m : String.length (wire m) = (23 + String.length (Hash m))%nat.
Proof. unfold wire. rewrite !str_length_app, !be_length. lia. Qed.

Definition sendable (m : Message) : Prop := wf_message m ∧ (String.length (Hash m) <= 1024)%nat.

(** A proper prefix of an encoding does not decode. *)
Lemma Decode_truncated m t q : sendable m → wire m = t +:+ q → q ≠ "" → ∃ e, Decode t = Err e.
Proof.
  intros [Hwf Hl] Heq Hq. destruct (Decode t) as [[m' t']|e] eqn:Hd; [|eauto].
  apply Decode_inv in Hd as (-> & Hwf' & Hl'). exfalso.
  pose proof (Decode_wire m "" Hwf Hl) as H1. rewrite str_app_nil_r, Heq, str_app_assoc in H1.
  rewrite Decode_wire in H1 by done. injection H1 as -> Ht.
  apply (f_equal String.length) in Ht. rewrite str_length_app in Ht.
  destruct q; [done|]. simpl in Ht. lia.
Qed.

Definition wires (ms : list Message) : string := foldr (λ m acc, wire m +:+ acc) "" ms.

Lemma handleStream_wires fuel ms t :
  Forall sendable ms → (String.length (wires ms +:+ t) < fuel)%nat → (∃ e, Decode t = Err e) →
  (handleStream fuel (wires ms +:+ t)).1 = ms.
Proof.
  revert fuel. induction ms as [|m ms IH]; intros [|fuel] Hms Hf [e He]; try lia.
  - simpl. by rewrite He.
  - apply Forall_cons in Hms as [[Hwf Hl] Hms].
    change (wires (m :: ms)) with (wire m +:+ wires ms) in *. cbn [handleStream].
    rewrite str_app_assoc, Decode_wire by done. rewrite str_app_assoc, str_length_app, wire_length in Hf.
    specialize (IH fuel Hms ltac:(lia) ltac:(eauto)).
    destruct (handleStream _ _) as [ms' e']. simpl in *. by subst.
Qed.

(** *** Properties *)

(** A message with fields in range and a hash of at most 1024 bytes
    survives the wire: decoding its encoding, followed by anything, returns the
    message and leaves exactly what followed. *)
Theorem message_roundtrip m tail :
  wf_message m → (String.length (Hash m) <= 1024)%nat →
  let '(bytes, r) := Encode all_taken m "" in
  r = Ok tt ∧ Decode (bytes +:+ tail) = Ok (m, tail).
Proof. intros Hwf Hl. rewrite Encode_wire by lia. split; [done|]. by apply Decode_wire. Qed.

(** What [Decode] accepts is always the encoding of the message it returns
    (so no two messages share an encoding and nothing is skipped), with every
    field in the range of its type and the hash within 1024 bytes. *)
Theorem decode_canonical r m tail :
  Decode r = Ok (m, tail) →
  wf_message m ∧ (String.length (Hash m) <= 1024)%nat ∧ r = (Encode all_taken m "").1 +:+ tail.
Proof.
  intros (-> & Hwf & Hl)%Decode_inv. rewrite Encode_wire by lia. done.
Qed.

(** Framing.  A stream that carries complete messages and is then cut
    anywhere inside one more message (or right before it) delivers exactly the
    complete ones, in order: no message is lost, invented or reordered. *)
Theorem stream_delivers_complete_messages ms m t q fuel :
  Forall sendable ms → sendable m → wire m = t +:+ q → q ≠ "" →
  (String.length (wires ms +:+ t) < fuel)%nat →
  (handleStream fuel (wires ms +:+ t)).1 = ms.
Proof. intros Hms Hm Heq Hq Hf. apply handleStream_wires; eauto using Decode_truncated. Qed.

(** [Encode] and [Decode] disagree on the longest hash: a 1025-byte hash is
    encoded without an error and refused on the other side. *)
Theorem encode_accepts_undecodable :
  let m := mkMessage MsgWantPackage 7 (String.concat "" (replicate 1025 "a")) 10 0 in
  (Encode all_taken m "").2 = Ok tt ∧ Decode (Encode all_taken m "").1 = Err EHashLen.
Proof. vm_compute. done. Qed.

(** *** Evaluations *)
Definition m1 : Message := mkMessage MsgWantPackage 4294967295 "abc" (-5) (2^40).
Definition m2 : Message := mkMessage MsgDontHave 1 "" 0 1.

Lemma m1_ok : sendable m1.
Proof. split; [constructor; unfold int64_range; simpl; unfold MsgWantPackage, MsgDontHave; lia|simpl; lia]. Qed.

Lemma m2_ok : sendable m2.
Proof. split; [constructor; unfold int64_range; simpl; unfold MsgWantPackage, MsgDontHave; lia|simpl; lia]. Qed.

Lemma message_roundtrip_witness : Decode ((Encode all_taken m1 "").1 +:+ "xyz") = Ok (m1, "xyz").
Proof. exact (proj2 (message_roundtrip m1 "xyz" (proj1 m1_ok) (proj2 m1_ok))). Defined.

Lemma decode_canonical_witness :
  wf_message m1 ∧ (String.length (Hash m1) <= 1024)%nat ∧ wire m1 +:+ "z" = (Encode all_taken m1 "").1 +:+ "z".
Proof. apply decode_canonical. vm_compute. reflexivity. Defined.

Lemma stream_witness : (handleStream 100 (wires [m1; m2] +:+ str_take 9 (wire m1))).1 = [m1; m2].
Proof.
  apply (stream_delivers_complete_messages [m1; m2] m1 _ (str_drop 9 (wire m1))).
  - repeat constructor; apply m1_ok || apply m2_ok.
  - apply m1_ok.
  - by rewrite str_take_drop.
  - vm_compute. discriminate.
  - vm_compute. lia.
Defined.
End codec.
End FleetMsg.
