(* ===== verification/Fleet.v ===== *)
(** * internal/fleet/coordinator.go and protocol.go: fleet coordination

    The [Coordinator] as a state machine.  Each critical section of the code
    (under [mu] or [pendingWantsMu]) and each channel operation is one
    definition; goroutines interleave between them.  A Go panic (a send on or a
    close of a closed channel) is the result [None].

    Wait channels have identities, since the same channel is held by a waiter
    list and by the caller waiting on it.  A [WantPackage] call that has reached
    its election is a [pendingWant] object with the call's local variables. *)

From S2P Require Import Prelude GoStd FleetMsg.
Open Scope Z_scope.

Module Fleet.
Import FleetMsg.

(** ** Configuration *)
Record Config := mkConfig {
  ClaimTimeout : Z; MaxWaitTime : Z; AllowConcurrent : Z; RefreshInterval : Z; StaleTimeout : Z;
}.

Definition second : Z := 10^9.
Definition defaultStaleTimeout : Z := 60 * second.

Definition DefaultConfig : Config := mkConfig (5 * second) (300 * second) 1 second defaultStaleTimeout.

(** The configuration [New] works with. *)
Definition New_config (cfg : option Config) : Config :=
  let cfg := default DefaultConfig cfg in
  if StaleTimeout cfg <=? 0
  then mkConfig (ClaimTimeout cfg) (MaxWaitTime cfg) (AllowConcurrent cfg) (RefreshInterval cfg) defaultStaleTimeout
  else cfg.

(** The reaper's ticker interval: [max(StaleTimeout/2, time.Second)]. *)
Definition reaper_interval (cfg : Config) : Z := Z.max (StaleTimeout cfg / 2) second.

(** ** Data *)

(** Errors delivered to waiters: the peer's failure, or the local download's. *)
Inductive FErr := ErrPeerFetchFailed | FetchErr (e : string).

Record FetchState := mkFetch {
  fs_Size : Z; fs_Offset : Z;
  fs_Fetcher : string;        (* a peer ID; "" is this node *)
  fs_Nonce : Z;
  fs_StartTime : Z; fs_LastUpdate : Z;
  fs_Waiters : list nat;      (* the wait channels *)
}.

Definition IsStale (timeout now : Z) (s : FetchState) : bool := timeout <? now - fs_LastUpdate s.

(** A [chan error] of capacity 1. *)
Record Chan := mkChan { ch_buf : list (option FErr); ch_closed : bool }.

Inductive WantAction := ActionFetchWAN | ActionWaitPeer | ActionFetchLAN.
Record WantResult := mkResult { Action : WantAction; Provider : string; WaitChan : option nat }.
Definition fetchWAN : WantResult := mkResult ActionFetchWAN "" None.

(** Where a [WantPackage] call with a registered want is: broadcasting, in its
    [select] loop, or leaving through the deferred function, which first closes
    [done] and then removes the registration. *)
Inductive status :=
| Registered | Waiting | Returning (r : WantResult) | Closed (r : WantResult) | Returned (r : WantResult).

Record pendingWant := mkWant {
  pw_hash : string; pw_size : Z; pw_nonce : Z;
  pw_cap : nat;                             (* len(fleetPeers) *)
  pw_have : list string;
  pw_fetching : list (string * Z);
  pw_want : list (string * Z);
  pw_dontHave : list (string * Z * bool);
  pw_done : bool;
  pw_awaiting : gset string;                (* awaiting *)
  pw_elected : option (string * Z);         (* electedPeer, electedNonce, haveElected *)
  pw_status : status;
}.

(** The message handler blocked in a [select] that sends to a want or sees it done. *)
Inductive push :=
| PushHave (id : nat) (from : string)
| PushFetching (id : nat) (from : string) (nonce : Z)
| PushDontHave (id : nat) (from : string) (nonce : Z) (also : bool)
| PushWant (id : nat) (from : string) (nonce : Z) (ourNonce : Z) (hash : string).

Record Coordinator := mkCoord {
  inFlight : gmap string FetchState;
  pendingWants : gmap string nat;
  wants : gmap nat pendingWant;
  chans : gmap nat Chan;
  msgChan : list (string * Message);
  blocked : option push;
  sent : list (option string * Message);    (* messages handed to the sender; [None] is a broadcast *)
  next : nat;
}.

Definition init : Coordinator := mkCoord ∅ ∅ ∅ ∅ [] None [] 0.

Definition set_inFlight x (c : Coordinator) := mkCoord x (pendingWants c) (wants c) (chans c) (msgChan c) (blocked c) (sent c) (next c).
Definition set_pendingWants x (c : Coordinator) := mkCoord (inFlight c) x (wants c) (chans c) (msgChan c) (blocked c) (sent c) (next c).
Definition set_wants x (c : Coordinator) := mkCoord (inFlight c) (pendingWants c) x (chans c) (msgChan c) (blocked c) (sent c) (next c).
Definition set_chans x (c : Coordinator) := mkCoord (inFlight c) (pendingWants c) (wants c) x (msgChan c) (blocked c) (sent c) (next c).
Definition set_msgChan x (c : Coordinator) := mkCoord (inFlight c) (pendingWants c) (wants c) (chans c) x (blocked c) (sent c) (next c).
Definition set_blocked x (c : Coordinator) := mkCoord (inFlight c) (pendingWants c) (wants c) (chans c) (msgChan c) x (sent c) (next c).
Definition set_sent x (c : Coordinator) := mkCoord (inFlight c) (pendingWants c) (wants c) (chans c) (msgChan c) (blocked c) x (next c).
Definition set_next x (c : Coordinator) := mkCoord (inFlight c) (pendingWants c) (wants c) (chans c) (msgChan c) (blocked c) (sent c) x.

Definition send (to : option string) (m : Message) (c : Coordinator) : Coordinator := set_sent (sent c ++ [(to, m)]) c.

(** ** Wait channels *)

(** [make(chan error, 1)]. *)
Definition makeChan (c : Coordinator) : nat * Coordinator :=
  (next c, set_next (S (next c)) (set_chans (<[next c := mkChan [] false]> (chans c)) c)).

(** [close(ch)]. *)
Definition closeChan (w : nat) (chs : gmap nat Chan) : option (gmap nat Chan) :=
  match chs !! w with
  | Some ch => if ch_closed ch then None else Some (<[w := mkChan (ch_buf ch) true]> chs)
  | None => None
  end.

(** [select { case ch <- v: default: }]. *)
Definition trySend (v : option FErr) (w : nat) (chs : gmap nat Chan) : option (gmap nat Chan) :=
  match chs !! w with
  | Some ch =>
      if ch_closed ch then None
      else match ch_buf ch with
           | [] => Some (<[w := mkChan [v] false]> chs)
           | _ => Some chs
           end
  | None => None
  end.

(** The loop over [state.Waiters]. *)
Fixpoint release (v : option FErr) (ws : list nat) (chs : gmap nat Chan) : option (gmap nat Chan) :=
  match ws with
  | [] => Some chs
  | w :: ws => trySend v w chs ≫= λ chs, closeChan w chs ≫= release v ws
  end.

(** Releases the waiters of [hash] and removes its entry. *)
Definition finishEntry (v : option FErr) (hash : string) (c : Coordinator) : option Coordinator :=
  match inFlight c !! hash with
  | Some st =>
      release v (fs_Waiters st) (chans c) ≫= λ chs,
        Some (set_inFlight (delete hash (inFlight c)) (set_chans chs c))
  | None => Some c
  end.

(** Creates a wait channel and attaches it to the entry of [hash], which is
    created for [fetcher] when there is none. *)
Definition waitOn (hash : string) (size : Z) (fetcher : string) (nonce now : Z) (c : Coordinator)
  : nat * Coordinator :=
  let '(w, c) := makeChan c in
  match inFlight c !! hash with
  | Some st =>
      (w, set_inFlight (<[hash := mkFetch (fs_Size st) (fs_Offset st) (fs_Fetcher st) (fs_Nonce st)
            (fs_StartTime st) (fs_LastUpdate st) (fs_Waiters st ++ [w])]> (inFlight c)) c)
  | None => (w, set_inFlight (<[hash := mkFetch size 0 fetcher nonce now now [w]]> (inFlight c)) c)
  end.

(** ** WantPackage *)

(** Up to the first lock: cached, in flight (the fetcher seen), or neither. *)
Inductive begun := BDone (r : WantResult) | BInFlight (fetcher : string) | BElect.

Definition want_check (has : bool) (hash : string) (c : Coordinator) : begun :=
  if has then BDone fetchWAN
  else match inFlight c !! hash with Some st => BInFlight (fs_Fetcher st) | None => BElect end.

(** The second critical section of the in-flight case, for an entry seen with
    [fetcher]; it looks the entry up again. *)
Definition want_join (hash fetcher : string) (c : Coordinator) : option (WantResult * Coordinator) :=
  let '(w, c) := makeChan c in
  match inFlight c !! hash with
  | Some st =>
      Some (mkResult ActionWaitPeer fetcher (Some w),
            set_inFlight (<[hash := mkFetch (fs_Size st) (fs_Offset st) (fs_Fetcher st) (fs_Nonce st)
              (fs_StartTime st) (fs_LastUpdate st) (fs_Waiters st ++ [w])]> (inFlight c)) c)
  | None => closeChan w (chans c) ≫= λ chs, Some (fetchWAN, set_chans chs c)
  end.

(** With no fleet peers the call returns at once; otherwise its want is
    registered under a fresh identity, replacing any other for the hash. *)
Definition want_register (hash : string) (size nonce : Z) (peers : nat) (c : Coordinator)
  : option nat * Coordinator :=
  if (peers =? 0)%nat then (None, c)
  else
    let id := next c in
    let pw := mkWant hash size nonce peers [] [] [] [] false ∅ None Registered in
    (Some id, set_next (S id) (set_pendingWants (<[hash := id]> (pendingWants c))
                                (set_wants (<[id := pw]> (wants c)) c))).

Definition upd_want (id : nat) (f : pendingWant → pendingWant) (c : Coordinator) : Coordinator :=
  set_wants (alter f id (wants c)) c.

Definition with_status (s : status) (pw : pendingWant) : pendingWant :=
  mkWant (pw_hash pw) (pw_size pw) (pw_nonce pw) (pw_cap pw) (pw_have pw) (pw_fetching pw) (pw_want pw)
         (pw_dontHave pw) (pw_done pw) (pw_awaiting pw) (pw_elected pw) s.

(** The broadcast reached [sentTo] (nobody when there is no sender). *)
Definition want_broadcast (sender : bool) (sentTo : list string) (id : nat) (c : Coordinator) : option Coordinator :=
  match wants c !! id with
  | Some pw =>
      match pw_status pw with
      | Registered =>
          let awaiting : gset string := if sender then list_to_set sentTo else ∅ in
          let c := if sender then send None (mkMessage MsgWantPackage (pw_nonce pw) (pw_hash pw) (pw_size pw) 0) c else c in
          Some (upd_want id (λ pw,
            mkWant (pw_hash pw) (pw_size pw) (pw_nonce pw) (pw_cap pw) (pw_have pw) (pw_fetching pw)
              (pw_want pw) (pw_dontHave pw) (pw_done pw) awaiting (pw_elected pw)
              (if decide (awaiting = ∅) then Returning fetchWAN else Waiting)) c)
      | _ => None
      end
  | None => None
  end.

(** [nonce < ours && (!haveElected || nonce < electedNonce)]. *)
Definition consider (ours : Z) (elected : option (string * Z)) (r : string * Z) : option (string * Z) :=
  if (r.2 <? ours) && match elected with None => true | Some e => r.2 <? e.2 end then Some r else elected.

(** The closure [decide]. *)
Definition decide_want (now : Z) (id : nat) (pw : pendingWant) (c : Coordinator) : Coordinator :=
  match pw_elected pw with
  | Some (p, n) =>
      let '(w, c) := waitOn (pw_hash pw) (pw_size pw) p n now c in
      upd_want id (with_status (Returning (mkResult ActionWaitPeer p (Some w)))) c
  | None =>
      upd_want id (with_status (Returning fetchWAN))
        (set_inFlight (<[pw_hash pw := mkFetch (pw_size pw) 0 "" (pw_nonce pw) now now []]> (inFlight c)) c)
  end.

(** The cases of the [select] loop.  Each is enabled in the loop when its
    channel has a value; [None] when it is not enabled. *)
Definition in_loop (id : nat) (c : Coordinator) (k : pendingWant → option Coordinator) : option Coordinator :=
  match wants c !! id with
  | Some pw => match pw_status pw with Waiting => k pw | _ => None end
  | None => None
  end.

Definition on_have (id : nat) (c : Coordinator) : option Coordinator :=
  in_loop id c (λ pw, match pw_have pw with
    | p :: rest => Some (upd_want id (λ pw,
        mkWant (pw_hash pw) (pw_size pw) (pw_nonce pw) (pw_cap pw) rest (pw_fetching pw) (pw_want pw)
          (pw_dontHave pw) (pw_done pw) (pw_awaiting pw) (pw_elected pw)
          (Returning (mkResult ActionFetchLAN p None))) c)
    | [] => None
    end).

Definition on_want (id : nat) (c : Coordinator) : option Coordinator :=
  in_loop id c (λ pw, match pw_want pw with
    | r :: rest => Some (upd_want id (λ pw,
        mkWant (pw_hash pw) (pw_size pw) (pw_nonce pw) (pw_cap pw) (pw_have pw) (pw_fetching pw) rest
          (pw_dontHave pw) (pw_done pw) (pw_awaiting pw) (consider (pw_nonce pw) (pw_elected pw) r) Waiting) c)
    | [] => None
    end).

Definition on_fetching (now : Z) (id : nat) (c : Coordinator) : option Coordinator :=
  in_loop id c (λ pw, match pw_fetching pw with
    | (p, n) :: rest =>
        let pop s pw :=
          mkWant (pw_hash pw) (pw_size pw) (pw_nonce pw) (pw_cap pw) (pw_have pw) rest (pw_want pw)
            (pw_dontHave pw) (pw_done pw) (pw_awaiting pw) (pw_elected pw) s in
        if n <? pw_nonce pw then
          let '(w, c) := waitOn (pw_hash pw) (pw_size pw) p n now c in
          Some (upd_want id (pop (Returning (mkResult ActionWaitPeer p (Some w)))) c)
        else Some (upd_want id (pop Waiting) c)
    | [] => None
    end).

Definition on_dontHave (now : Z) (id : nat) (c : Coordinator) : option Coordinator :=
  in_loop id c (λ pw, match pw_dontHave pw with
    | (p, n, also) :: rest =>
        let pw' := mkWant (pw_hash pw) (pw_size pw) (pw_nonce pw) (pw_cap pw) (pw_have pw) (pw_fetching pw)
            (pw_want pw) rest (pw_done pw) (pw_awaiting pw ∖ {[p]})
            (if also : bool then consider (pw_nonce pw) (pw_elected pw) (p, n) else pw_elected pw) Waiting in
        let c := upd_want id (λ _, pw') c in
        if decide (pw_awaiting pw' = ∅) then Some (decide_want now id pw' c) else Some c
    | [] => None
    end).

Definition on_timer (now : Z) (id : nat) (c : Coordinator) : option Coordinator :=
  in_loop id c (λ pw, Some (decide_want now id pw c)).

(** [ctx.Done()]: the result comes with the context's error. *)
Definition on_ctx (id : nat) (c : Coordinator) : option Coordinator :=
  in_loop id c (λ _, Some (upd_want id (with_status (Returning fetchWAN)) c)).

(** The deferred function: [close(pw.done)], then [delete(c.pendingWants, hash)]. *)
Definition want_close (id : nat) (c : Coordinator) : option Coordinator :=
  match wants c !! id with
  | Some pw =>
      match pw_status pw with
      | Returning r => if pw_done pw then None else
          Some (upd_want id (λ pw, mkWant (pw_hash pw) (pw_size pw) (pw_nonce pw) (pw_cap pw) (pw_have pw)
            (pw_fetching pw) (pw_want pw) (pw_dontHave pw) true (pw_awaiting pw) (pw_elected pw) (Closed r)) c)
      | _ => None
      end
  | None => None
  end.

Definition want_unregister (id : nat) (c : Coordinator) : option Coordinator :=
  match wants c !! id with
  | Some pw =>
      match pw_status pw with
      | Closed r => Some (upd_want id (with_status (Returned r))
                           (set_pendingWants (delete (pw_hash pw) (pendingWants c)) c))
      | _ => None
      end
  | None => None
  end.

(** ** The rest of the API *)

Definition NotifyFetching (sender : bool) (now nonce : Z) (hash : string) (size : Z) (c : Coordinator) : Coordinator :=
  let ws := match inFlight c !! hash with Some st => fs_Waiters st | None => [] end in
  let off := match inFlight c !! hash with Some st => fs_Offset st | None => 0 end in
  let c := set_inFlight (<[hash := mkFetch size off "" nonce now now ws]> (inFlight c)) c in
  if sender then send None (mkMessage MsgFetching nonce hash size 0) c else c.

Definition touch_progress (offset now : Z) (st : FetchState) : FetchState :=
  mkFetch (fs_Size st) offset (fs_Fetcher st) (fs_Nonce st) (fs_StartTime st) now (fs_Waiters st).

Definition NotifyProgress (now : Z) (hash : string) (offset : Z) (c : Coordinator) : Coordinator :=
  set_inFlight (alter (touch_progress offset now) hash (inFlight c)) c.

Definition NotifyComplete (sender : bool) (hash : string) (c : Coordinator) : option Coordinator :=
  let size := from_option fs_Size 0 (inFlight c !! hash) in
  finishEntry None hash c ≫= λ c,
    Some (if sender then send None (mkMessage MsgFetched 0 hash size 0) c else c).

Definition NotifyFailed (sender : bool) (hash : string) (e : string) (c : Coordinator) : option Coordinator :=
  finishEntry (Some (FetchErr e)) hash c ≫= λ c,
    Some (if sender then send None (mkMessage MsgFetchFailed 0 hash 0 0) c else c).

Definition GetInFlightCount (c : Coordinator) : nat := size (inFlight c).

(** [HandleMessage] drops the message when the queue of 100 is full. *)
Definition HandleMessage (from : string) (m : Message) (c : Coordinator) : Coordinator :=
  if (length (msgChan c) <? 100)%nat then set_msgChan (msgChan c ++ [(from, m)]) c else c.

(** [reapStale]: the entries a peer is fetching without progress. *)
Definition reapable (timeout now : Z) (st : FetchState) : bool :=
  negb (String.eqb (fs_Fetcher st) "") && IsStale timeout now st.

Definition reapStale (timeout now : Z) (c : Coordinator) : option Coordinator :=
  foldr (λ kv acc, acc ≫= λ c', if reapable timeout now kv.2
                                then finishEntry (Some ErrPeerFetchFailed) kv.1 c' else Some c')
        (Some c) (map_to_list (inFlight c)).

(** ** Message handlers

    Each runs up to its channel send, if it has one. *)
Definition handleWantPackage (sender has : bool) (from : string) (m : Message) (c : Coordinator) : Coordinator :=
  let reply r c := if sender then send (Some from) r c else c in
  if has then reply (mkMessage MsgHavePackage 0 (Hash m) 0 0) c
  else
    let self := match inFlight c !! Hash m with
                | Some st => if String.eqb (fs_Fetcher st) "" then Some st else None
                | None => None
                end in
    match self with
    | Some st => reply (mkMessage MsgFetching (fs_Nonce st) (Hash m) (fs_Size st) 0) c
    | None =>
        match pendingWants c !! Hash m with
        | Some id =>
            set_blocked (Some (PushWant id from (Nonce m) (from_option pw_nonce 0 (wants c !! id)) (Hash m))) c
        | None => reply (mkMessage MsgDontHave 0 (Hash m) 0 0) c
        end
    end.

Definition route (hash : string) (mk : nat → push) (c : Coordinator) : Coordinator :=
  match pendingWants c !! hash with Some id => set_blocked (Some (mk id)) c | None => c end.

Definition handleDontHave (from : string) (m : Message) (c : Coordinator) : Coordinator :=
  route (Hash m) (λ id, PushDontHave id from (Nonce m) (Offset m =? 1)) c.

Definition handleHavePackage (from : string) (m : Message) (c : Coordinator) : Coordinator :=
  route (Hash m) (λ id, PushHave id from) c.

Definition handleFetching (now : Z) (from : string) (m : Message) (c : Coordinator) : Coordinator :=
  let c := match inFlight c !! Hash m with
           | Some _ => c
           | None => set_inFlight (<[Hash m := mkFetch (Size m) 0 from (Nonce m) now now []]> (inFlight c)) c
           end in
  route (Hash m) (λ id, PushFetching id from (Nonce m)) c.

Definition handleFetchProgress (now : Z) (from : string) (m : Message) (c : Coordinator) : Coordinator :=
  match inFlight c !! Hash m with
  | Some st => if String.eqb (fs_Fetcher st) from
               then set_inFlight (<[Hash m := touch_progress (Offset m) now st]> (inFlight c)) c else c
  | None => c
  end.

Definition byFetcher (v : option FErr) (from : string) (m : Message) (c : Coordinator) : option Coordinator :=
  match inFlight c !! Hash m with
  | Some st => if String.eqb (fs_Fetcher st) from then finishEntry v (Hash m) c else Some c
  | None => Some c
  end.

Definition handleFetched (from : string) (m : Message) (c : Coordinator) : option Coordinator :=
  byFetcher None from m c.

Definition handleFetchFailed (from : string) (m : Message) (c : Coordinator) : option Coordinator :=
  byFetcher (Some ErrPeerFetchFailed) from m c.

Definition handleMessage (sender has : bool) (now : Z) (from : string) (m : Message) (c : Coordinator)
  : option Coordinator :=
  if Type_ m =? MsgWantPackage then Some (handleWantPackage sender has from m c)
  else if Type_ m =? MsgHavePackage then Some (handleHavePackage from m c)
  else if Type_ m =? MsgFetching then Some (handleFetching now from m c)
  else if Type_ m =? MsgFetchProgress then Some (handleFetchProgress now from m c)
  else if Type_ m =? MsgFetched then handleFetched from m c
  else if Type_ m =? MsgFetchFailed then handleFetchFailed from m c
  else if Type_ m =? MsgDontHave then Some (handleDontHave from m c)
  else Some c.

(** The send of a blocked handler: taken when the want is done (the value is
    dropped) or its channel has room; [None] while it blocks.  A send to a want
    that is done and has room is never read, so the two cases of the [select]
    are the same then. *)
Definition push_id (p : push) : nat :=
  match p with PushHave id _ | PushFetching id _ _ | PushDontHave id _ _ _ | PushWant id _ _ _ _ => id end.

Definition enqueue (p : push) (pw : pendingWant) : option pendingWant :=
  let room {A} (l : list A) : bool := (length l <? pw_cap pw)%nat in
  match p with
  | PushHave _ from =>
      if room (pw_have pw) then Some (mkWant (pw_hash pw) (pw_size pw) (pw_nonce pw) (pw_cap pw)
        (pw_have pw ++ [from]) (pw_fetching pw) (pw_want pw) (pw_dontHave pw) (pw_done pw) (pw_awaiting pw)
        (pw_elected pw) (pw_status pw)) else None
  | PushFetching _ from n =>
      if room (pw_fetching pw) then Some (mkWant (pw_hash pw) (pw_size pw) (pw_nonce pw) (pw_cap pw)
        (pw_have pw) (pw_fetching pw ++ [(from, n)]) (pw_want pw) (pw_dontHave pw) (pw_done pw) (pw_awaiting pw)
        (pw_elected pw) (pw_status pw)) else None
  | PushWant _ from n _ _ =>
      if room (pw_want pw) then Some (mkWant (pw_hash pw) (pw_size pw) (pw_nonce pw) (pw_cap pw)
        (pw_have pw) (pw_fetching pw) (pw_want pw ++ [(from, n)]) (pw_dontHave pw) (pw_done pw) (pw_awaiting pw)
        (pw_elected pw) (pw_status pw)) else None
  | PushDontHave _ from n also =>
      if room (pw_dontHave pw) then Some (mkWant (pw_hash pw) (pw_size pw) (pw_nonce pw) (pw_cap pw)
        (pw_have pw) (pw_fetching pw) (pw_want pw) (pw_dontHave pw ++ [(from, n, also)]) (pw_done pw)
        (pw_awaiting pw) (pw_elected pw) (pw_status pw)) else None
  end.

(** What the handler does after the send: [handleWantPackage] answers with a
    [DontHave] that carries our nonce. *)
Definition after_push (sender : bool) (p : push) (c : Coordinator) : Coordinator :=
  match p with
  | PushWant _ from _ ourNonce hash =>
      if sender then send (Some from) (mkMessage MsgDontHave ourNonce hash 0 1) c else c
  | _ => c
  end.

Definition unblock (sender : bool) (c : Coordinator) : option Coordinator :=
  blocked c ≫= λ p,
  wants c !! push_id p ≫= λ pw,
  (if pw_done pw then Some c else enqueue p pw ≫= λ pw', Some (set_wants (<[push_id p := pw']> (wants c)) c)) ≫= λ c,
  Some (after_push sender p (set_blocked None c)).

(** One iteration of [messageHandler]. *)
Definition takeMessage (sender has : bool) (now : Z) (c : Coordinator) : option (option Coordinator) :=
  match blocked c, msgChan c with
  | None, (from, m) :: rest => Some (handleMessage sender has now from m (set_msgChan rest c))
  | _, _ => None
  end.

(** The progress messages of [StartProgressBroadcaster]: one for each of our
    own downloads. *)
Definition progressMessages (c : Coordinator) : list Message :=
  (λ kv, mkMessage MsgFetchProgress 0 kv.1 (fs_Size kv.2) (fs_Offset kv.2)) <$>
    List.filter (λ kv, String.eqb (fs_Fetcher kv.2) "") (map_to_list (inFlight c)).

(** ** Steps

    [step c r]: one atomic action; [r = None] is a panic. *)
Inductive step (sender : bool) : Coordinator → option Coordinator → Prop :=
| SJoin hash fetcher c : step sender c (snd <$> want_join hash fetcher c)
| SRegister hash size nonce peers c : step sender c (Some (want_register hash size nonce peers c).2)
| SBroadcast sentTo id c c' : want_broadcast sender sentTo id c = Some c' → step sender c (Some c')
| SHave id c c' : on_have id c = Some c' → step sender c (Some c')
| SWant id c c' : on_want id c = Some c' → step sender c (Some c')
| SFetching now id c c' : on_fetching now id c = Some c' → step sender c (Some c')
| SDontHave now id c c' : on_dontHave now id c = Some c' → step sender c (Some c')
| STimer now id c c' : on_timer now id c = Some c' → step sender c (Some c')
| SCtx id c c' : on_ctx id c = Some c' → step sender c (Some c')
| SClose id c c' : want_close id c = Some c' → step sender c (Some c')
| SUnregister id c c' : want_unregister id c = Some c' → step sender c (Some c')
| SNotifyFetching now nonce hash size c : step sender c (Some (NotifyFetching sender now nonce hash size c))
| SNotifyProgress now hash offset c : step sender c (Some (NotifyProgress now hash offset c))
| SNotifyComplete hash c : step sender c (NotifyComplete sender hash c)
| SNotifyFailed hash e c : step sender c (NotifyFailed sender hash e c)
| SReap timeout now c : step sender c (reapStale timeout now c)
| SReceive from m c : step sender c (Some (HandleMessage from m c))
| STake has now c r : takeMessage sender has now c = Some r → step sender c r
| SUnblock c c' : unblock sender c = Some c' → step sender c (Some c').

Definition run (sender : bool) : Coordinator → Coordinator → Prop := rtc (λ c c', step sender c (Some c')).
End Fleet.
