(* ===== verification/FleetSys.v ===== *)
(** * Properties of fleet coordination

    Wait channels are closed at most once and nothing is ever sent on a closed
    one; a download's waiters are released by its fetcher and by nobody else;
    the lowest nonce wins the election; and two interleavings in which a local
    caller is left waiting. *)

From S2P Require Import Prelude GoStd FleetMsg Fleet.
Open Scope Z_scope.

Module FleetSys.
Import FleetMsg Fleet.

(** ** Wait channels *)

Definition fresh_chan : Chan := mkChan [] false.
Definition released (v : option FErr) : Chan := mkChan [v] true.

Lemma release_ok v ws chs :
  NoDup ws → (∀ w, w ∈ ws → chs !! w = Some fresh_chan) →
  ∃ chs', release v ws chs = Some chs' ∧
    ∀ w, chs' !! w = if decide (w ∈ ws) then Some (released v) else chs !! w.
Proof.
  revert chs. induction ws as [|w ws IH]; intros chs Hnd Hopen; cbn [release].
  - exists chs. split; [done|]. intros w. case_decide as Hw; [by apply not_elem_of_nil in Hw|done].
  - apply NoDup_cons in Hnd as [Hw Hnd]. unfold trySend, closeChan.
    rewrite (Hopen w) by by left. cbn. rewrite lookup_insert_eq. cbn. rewrite insert_insert_eq.
    destruct (IH (<[w := released v]> chs) Hnd) as (chs' & Hr & Hl).
    { intros w' Hin. rewrite lookup_insert_ne; [apply Hopen; by right|]. by intros ->. }
    exists chs'. split; [done|]. intros w'. rewrite Hl, lookup_insert.
    destruct (decide (w' ∈ ws)).
    + by rewrite decide_True by by right.
    + destruct (decide (w = w')) as [->|Hne]; [by rewrite decide_True by by left|].
      rewrite decide_False; [done|]. rewrite elem_of_cons. naive_solver.
Qed.

(** Every wait channel of an entry is open and empty, held once, and no
    identity is reused. *)
Record winv (c : Coordinator) : Prop := {
  wi_open : ∀ h st w, inFlight c !! h = Some st → w ∈ fs_Waiters st → chans c !! w = Some fresh_chan;
  wi_nodup : ∀ h st, inFlight c !! h = Some st → NoDup (fs_Waiters st);
  wi_disj : ∀ h1 h2 st1 st2 w, inFlight c !! h1 = Some st1 → inFlight c !! h2 = Some st2 →
            w ∈ fs_Waiters st1 → w ∈ fs_Waiters st2 → h1 = h2;
  wi_next : ∀ w ch, chans c !! w = Some ch → (w < next c)%nat;
  wi_chan : ∀ w ch, chans c !! w = Some ch → ch = fresh_chan ∨ (ch_closed ch = true ∧ (length (ch_buf ch) <= 1)%nat);
}.

Lemma winv_init : winv init.
Proof. constructor; intros; simplify_map_eq. Qed.

(** Changes that keep or drop waiter lists. *)
Lemma winv_frame c c' :
  winv c → chans c' = chans c → (next c <= next c')%nat →
  (∀ h st', inFlight c' !! h = Some st' →
     fs_Waiters st' = [] ∨ ∃ st, inFlight c !! h = Some st ∧ fs_Waiters st' = fs_Waiters st) →
  winv c'.
Proof.
  intros [Ho Hnd Hd Hn Hc] Hch Hnx Hfl.
  assert (∀ h st' w, inFlight c' !! h = Some st' → w ∈ fs_Waiters st' →
            ∃ st, inFlight c !! h = Some st ∧ w ∈ fs_Waiters st) as Hback.
  { intros h st' w Hst Hw. destruct (Hfl h st' Hst) as [Hnil|(st & ? & Heq)].
    - rewrite Hnil in Hw. by apply not_elem_of_nil in Hw.
    - rewrite Heq in Hw. eauto. }
  constructor; rewrite ?Hch; try done.
  - intros h st' w Hst Hw. destruct (Hback _ _ _ Hst Hw) as (st & ? & ?). eauto.
  - intros h st' Hst. destruct (Hfl _ _ Hst) as [->|(st & ? & ->)]; [constructor|eauto].
  - intros h1 h2 st1 st2 w H1 H2 Hw1 Hw2.
    destruct (Hback _ _ _ H1 Hw1) as (s1 & ? & ?), (Hback _ _ _ H2 Hw2) as (s2 & ? & ?). eauto.
  - intros w ch Hw. specialize (Hn w ch Hw). lia.
Qed.

Lemma winv_same c c' :
  winv c → inFlight c' = inFlight c → chans c' = chans c → (next c <= next c')%nat → winv c'.
Proof. intros Hc Hi Hch Hn. eapply winv_frame; [done..|]. rewrite Hi. eauto. Qed.

Lemma finishEntry_ok v h c :
  winv c →
  ∃ c', finishEntry v h c = Some c' ∧ winv c' ∧ inFlight c' = delete h (inFlight c) ∧
    (∀ w, chans c' !! w = if decide (w ∈ from_option fs_Waiters [] (inFlight c !! h))
                          then Some (released v) else chans c !! w).
Proof.
  intros Hc. pose proof Hc as [Ho Hnd Hd Hn Hch]. unfold finishEntry.
  destruct (inFlight c !! h) as [st|] eqn:Hst; cbn [from_option].
  - destruct (release_ok v (fs_Waiters st) (chans c)) as (chs & -> & Hl); [eauto..|].
    eexists. split; [done|]. split; [|done].
    constructor; cbn; try setoid_rewrite lookup_delete_Some.
    + intros h' st' w [Hne Hst'] Hw. rewrite Hl, decide_False; [eauto|].
      intros Hw'. apply Hne. eauto.
    + naive_solver.
    + naive_solver.
    + intros w ch. rewrite Hl. case_decide as Hw; [intros _|eauto].
      exact (Hn _ _ (Ho _ _ _ Hst Hw)).
    + intros w ch. rewrite Hl. case_decide; [|eauto]. intros [= <-]. by right.
  - exists c. split; [done|]. rewrite delete_id by done. split_and!; [done..|].
    intros w. case_decide as Hw; [by apply not_elem_of_nil in Hw|done].
Qed.

(** A fresh channel attached to an entry. *)
Lemma attach_ok c h st :
  winv c →
  (inFlight c !! h = Some (mkFetch (fs_Size st) (fs_Offset st) (fs_Fetcher st) (fs_Nonce st) (fs_StartTime st)
     (fs_LastUpdate st) (fs_Waiters st)) ∨ (inFlight c !! h = None ∧ fs_Waiters st = [])) →
  winv (set_inFlight (<[h := mkFetch (fs_Size st) (fs_Offset st) (fs_Fetcher st) (fs_Nonce st)
          (fs_StartTime st) (fs_LastUpdate st) (fs_Waiters st ++ [next c])]> (inFlight c)) (makeChan c).2).
Proof.
  intros [Ho Hnd Hd Hn Hch] Hst.
  assert (∀ h' st' w, inFlight c !! h' = Some st' → w ∈ fs_Waiters st' → (w < next c)%nat) as Hold by eauto.
  assert (∀ w, w ∈ fs_Waiters st → ∃ st0, inFlight c !! h = Some st0 ∧ w ∈ fs_Waiters st0) as Hin.
  { intros w Hw. destruct Hst as [Hst|[_ Hnil]]; [eauto|]. rewrite Hnil in Hw. by apply not_elem_of_nil in Hw. }
  constructor; cbn; intros h'.
  - intros st' w. rewrite !lookup_insert. destruct (decide (h = h')) as [->|Hne].
    + intros [= <-] Hw. cbn in Hw. apply elem_of_app in Hw as [Hw|Hw%list_elem_of_singleton].
      * destruct (Hin w Hw) as (st0 & Hs & Hw0). rewrite decide_False; [eauto|].
        specialize (Hold _ _ _ Hs Hw0). lia.
      * by rewrite decide_True.
    + intros Hs Hw. rewrite decide_False; [eauto|]. specialize (Hold _ _ _ Hs Hw). lia.
  - intros st'. rewrite lookup_insert. case_decide; [|eauto]. intros [= <-]. cbn.
    apply NoDup_app. split_and!.
    + destruct Hst as [Hs|[_ ->]]; [|constructor]. exact (Hnd _ _ Hs).
    + intros w Hw ->%list_elem_of_singleton. destruct (Hin _ Hw) as (st0 & Hs & Hw0).
      specialize (Hold _ _ _ Hs Hw0). lia.
    + apply NoDup_singleton.
  - intros h2 st1 st2 w. rewrite !lookup_insert.
    assert (∀ hh ss, inFlight c !! hh = Some ss → w ∈ fs_Waiters ss →
              w ∈ fs_Waiters st ++ [next c] → hh = h) as Hx.
    { intros hh ss Hs Hw Hw'. apply elem_of_app in Hw' as [Hw'|Hw'%list_elem_of_singleton].
      - destruct (Hin w Hw') as (st0 & Hs0 & Hw0). eauto.
      - subst. specialize (Hold _ _ _ Hs Hw). lia. }
    repeat case_decide; subst; try done; intros; simplify_eq/=; try (symmetry; by eauto); eauto.
  - intros ch. rewrite lookup_insert. case_decide; [lia|]. intros Hw. specialize (Hn _ _ Hw). lia.
  - intros ch. rewrite lookup_insert. case_decide; [|eauto]. intros [= <-]. by left.
Qed.

Lemma waitOn_ok h sz f n now c : winv c → winv (waitOn h sz f n now c).2.
Proof.
  intros Hc. unfold waitOn. cbn. destruct (inFlight c !! h) as [st|] eqn:Hst; cbn.
  - apply (attach_ok c h st Hc). left. by destruct st.
  - apply (attach_ok c h (mkFetch sz 0 f n now now []) Hc). by right.
Qed.

Lemma want_join_ok h f c : winv c → ∃ r c', want_join h f c = Some (r, c') ∧ winv c'.
Proof.
  intros Hc. unfold want_join. cbn. destruct (inFlight c !! h) as [st|] eqn:Hst.
  - do 2 eexists. split; [done|]. apply (attach_ok c h st Hc). left. by destruct st.
  - unfold closeChan. rewrite lookup_insert_eq. cbn. do 2 eexists. split; [done|].
    pose proof Hc as [Ho Hnd Hd Hn Hch]. constructor; cbn; try done.
    + intros h' st w Hst' Hw. specialize (Ho _ _ _ Hst' Hw). specialize (Hn _ _ Ho).
      by rewrite !lookup_insert_ne by lia.
    + intros w ch. rewrite !lookup_insert. repeat case_decide; subst; intros; simplify_eq; try lia.
      specialize (Hn w ch ltac:(done)). lia.
    + intros w ch. rewrite !lookup_insert. repeat case_decide; intros; simplify_eq; cbn; eauto.
Qed.

Lemma winv_upd_want id f c : winv c → winv (upd_want id f c).
Proof. intros Hc. by eapply winv_same. Qed.

Lemma winv_send to m c : winv c → winv (send to m c).
Proof. intros Hc. by eapply winv_same. Qed.

Lemma winv_route h mk c : winv c → winv (route h mk c).
Proof. intros Hc. unfold route. case_match; [|done]. by eapply winv_same. Qed.

(** A new entry without waiters. *)
Lemma winv_overwrite h st c : winv c → fs_Waiters st = [] → winv (set_inFlight (<[h := st]> (inFlight c)) c).
Proof.
  intros Hc Hst. eapply winv_frame; [done..|]. intros h' st'. cbn. rewrite lookup_insert.
  case_decide; [intros [= <-]; by left|eauto].
Qed.

(** An entry that keeps its waiters. *)
Lemma winv_keep h st st0 c :
  winv c → inFlight c !! h = Some st0 → fs_Waiters st = fs_Waiters st0 →
  winv (set_inFlight (<[h := st]> (inFlight c)) c).
Proof.
  intros Hc Hst Hw. eapply winv_frame; [done..|]. intros h' st'. cbn. rewrite lookup_insert.
  case_decide; [intros [= <-]; subst; eauto|eauto].
Qed.

Lemma winv_decide now id pw c : winv c → winv (decide_want now id pw c).
Proof.
  intros Hc. unfold decide_want. destruct (pw_elected pw) as [[p n]|].
  - pose proof (waitOn_ok (pw_hash pw) (pw_size pw) p n now c Hc) as Hw.
    destruct (waitOn _ _ _ _ _ _) as [w c']. by apply winv_upd_want.
  - by apply winv_upd_want, winv_overwrite.
Qed.

Lemma in_loop_inv id c k c' : in_loop id c k = Some c' → ∃ pw, wants c !! id = Some pw ∧ k pw = Some c'.
Proof. unfold in_loop. destruct (wants c !! id) as [pw|]; [|done]. case_match; try done. eauto. Qed.

Create HintDb fleet discriminated.
#[local] Hint Resolve winv_upd_want winv_send winv_route winv_overwrite winv_keep winv_decide waitOn_ok : fleet.

Lemma loop_ok now id c c' :
  winv c →
  on_have id c = Some c' ∨ on_want id c = Some c' ∨ on_fetching now id c = Some c' ∨
  on_dontHave now id c = Some c' ∨ on_timer now id c = Some c' ∨ on_ctx id c = Some c' →
  winv c'.
Proof.
  intros Hc [H|[H|[H|[H|[H|H]]]]]; apply in_loop_inv in H as (pw & Hpw & H).
  - destruct (pw_have pw); simplify_eq. auto with fleet.
  - destruct (pw_want pw); simplify_eq. auto with fleet.
  - destruct (pw_fetching pw) as [|[p n] rest]; simplify_eq. destruct (n <? _).
    + pose proof (waitOn_ok (pw_hash pw) (pw_size pw) p n now c Hc).
      destruct (waitOn _ _ _ _ _ _) as [w c1]. simplify_eq/=. auto with fleet.
    + simplify_eq/=. auto with fleet.
  - destruct (pw_dontHave pw) as [|[[p n] also] rest]; simplify_eq.
    cbn in H. case_decide; simplify_eq/=; auto with fleet.
  - simplify_eq. auto with fleet.
  - simplify_eq. auto with fleet.
Qed.

Lemma unblock_ok sender c c' : winv c → unblock sender c = Some c' → winv c'.
Proof.
  intros Hc. unfold unblock. destruct (blocked c) as [p|]; [|done]. cbn.
  destruct (wants c !! push_id p) as [pw|]; [|done]. cbn.
  assert (∀ c1, inFlight c1 = inFlight c → chans c1 = chans c → next c1 = next c →
            winv (after_push sender p (set_blocked None c1))) as Hpost.
  { intros c1 Hi Hch Hn. unfold after_push.
    assert (winv (set_blocked None c1)) by (eapply winv_same; [done..|cbn; lia]).
    destruct p; try done. destruct sender; auto with fleet. }
  destruct (pw_done pw); cbn; [intros [= <-]; auto|].
  destruct (enqueue p pw); [|done]. cbn. intros [= <-]. auto.
Qed.

Lemma reapStale_ok timeout now c : winv c → ∃ c', reapStale timeout now c = Some c' ∧ winv c'.
Proof.
  intros Hc. unfold reapStale. induction (map_to_list (inFlight c)) as [|[h st] l IH]; cbn; [eauto|].
  destruct IH as (c1 & -> & H1). cbn. case_match; [|eauto].
  destruct (finishEntry_ok (Some ErrPeerFetchFailed) h c1 H1) as (c2 & -> & ? & _). eauto.
Qed.

Lemma handleMessage_ok sender has now from m c :
  winv c → ∃ c', handleMessage sender has now from m c = Some c' ∧ winv c'.
Proof.
  intros Hc.
  assert (∀ v, ∃ c', byFetcher v from m c = Some c' ∧ winv c') as Hby.
  { intros v. unfold byFetcher. destruct (inFlight c !! Hash m); [|eauto]. case_match; [|eauto].
    destruct (finishEntry_ok v (Hash m) c Hc) as (c' & -> & ? & _). eauto. }
  unfold handleMessage. repeat case_match; try apply Hby; (eexists; split; [done|]); try done.
  - unfold handleWantPackage. repeat case_match; auto with fleet; try by eapply winv_same.
  - by apply winv_route.
  - unfold handleFetching. case_match; auto with fleet.
  - unfold handleFetchProgress. destruct (inFlight c !! Hash m) eqn:?; [|done].
    case_match; [|done]. eauto with fleet.
  - by apply winv_route.
Qed.

Lemma step_ok sender c r : step sender c r → winv c → ∃ c', r = Some c' ∧ winv c'.
Proof.
  intros Hs Hc. destruct Hs.
  - destruct (want_join_ok hash fetcher c Hc) as (r & c' & -> & ?). eauto.
  - eexists. split; [done|]. unfold want_register. case_match; [done|]. eapply winv_same; [done..|cbn; lia].
  - eexists. split; [done|]. unfold want_broadcast in *. repeat case_match; simplify_eq; auto with fleet.
  - eexists. split; [done|]. apply (loop_ok 0 id c c' Hc). tauto.
  - eexists. split; [done|]. apply (loop_ok 0 id c c' Hc). tauto.
  - eexists. split; [done|]. apply (loop_ok now id c c' Hc). tauto.
  - eexists. split; [done|]. apply (loop_ok now id c c' Hc). tauto.
  - eexists. split; [done|]. apply (loop_ok now id c c' Hc). tauto.
  - eexists. split; [done|]. apply (loop_ok 0 id c c' Hc). tauto.
  - eexists. split; [done|]. unfold want_close in *. repeat case_match; simplify_eq; auto with fleet.
  - eexists. split; [done|]. unfold want_unregister in *. repeat case_match; simplify_eq.
    apply winv_upd_want. by eapply winv_same.
  - eexists. split; [done|]. unfold NotifyFetching.
    assert (winv (set_inFlight (<[hash := mkFetch size
      (match inFlight c !! hash with Some st => fs_Offset st | None => 0 end) "" nonce now now
      (match inFlight c !! hash with Some st => fs_Waiters st | None => [] end)]> (inFlight c)) c)).
    { destruct (inFlight c !! hash) eqn:?; eauto with fleet. }
    destruct sender; auto with fleet.
  - eexists. split; [done|]. eapply winv_frame; [done..|]. cbn. intros h st'.
    rewrite lookup_alter. case_decide; [subst|eauto]. destruct (inFlight c !! h) eqn:?; [|done].
    intros [= <-]. right. eauto.
  - unfold NotifyComplete. destruct (finishEntry_ok None hash c Hc) as (c' & -> & ? & _). cbn.
    eexists. split; [done|]. destruct sender; auto with fleet.
  - unfold NotifyFailed. destruct (finishEntry_ok (Some (FetchErr e)) hash c Hc) as (c' & -> & ? & _). cbn.
    eexists. split; [done|]. destruct sender; auto with fleet.
  - by apply reapStale_ok.
  - eexists. split; [done|]. unfold HandleMessage. case_match; [|done]. by eapply winv_same.
  - unfold takeMessage in *. destruct (blocked c); [done|]. destruct (msgChan c) as [|[from m] rest]; [done|].
    simplify_eq. apply handleMessage_ok. by eapply winv_same.
  - eauto using unblock_ok.
Qed.

Lemma run_winv sender c : run sender init c → winv c.
Proof.
  unfold run. revert c. apply rtc_ind_r; [apply winv_init|].
  intros c1 c2 _ Hs H1. destruct (step_ok _ _ _ Hs H1) as (c' & [= <-] & ?). done.
Qed.

(** C16: no interleaving of calls, messages, timers and the reaper ever sends on
    or closes a closed wait channel: from the initial state every step of every
    run has a result, and every wait channel is either open and empty or closed
    after at most one value. *)
Theorem fleet_no_channel_panic sender c r :
  run sender init c → step sender c r →
  ∃ c', r = Some c' ∧
    ∀ w ch, chans c' !! w = Some ch →
      (ch_closed ch = false ∧ ch_buf ch = []) ∨ (ch_closed ch = true ∧ (length (ch_buf ch) <= 1)%nat).
Proof.
  intros Hrun%run_winv Hs. destruct (step_ok _ _ _ Hs Hrun) as (c' & -> & Hc).
  exists c'. split; [done|]. intros w ch Hw. destruct (wi_chan _ Hc _ _ Hw) as [->|?]; auto.
Qed.

(** A [Fetched] or [FetchFailed] message acts only when it comes from the
    peer recorded as fetching that package: from anyone else it changes nothing,
    and from the fetcher it removes the entry, hands every waiter exactly the
    outcome and closes its channel, leaving all other channels alone. *)
Theorem fetcher_alone_completes sender c m st from (ok : bool) :
  run sender init c → inFlight c !! Hash m = Some st →
  let v := if ok then None else Some ErrPeerFetchFailed in
  let handle := if ok then handleFetched else handleFetchFailed in
  (from ≠ fs_Fetcher st → handle from m c = Some c) ∧
  (from = fs_Fetcher st → ∃ c', handle from m c = Some c' ∧
     inFlight c' = delete (Hash m) (inFlight c) ∧
     (∀ w, w ∈ fs_Waiters st → chans c' !! w = Some (released v)) ∧
     (∀ w, w ∉ fs_Waiters st → chans c' !! w = chans c !! w)).
Proof.
  intros Hrun%run_winv Hst v handle.
  assert (handle from m c = byFetcher v from m c) as -> by (unfold handle, v; by destruct ok).
  unfold byFetcher. rewrite Hst. split.
  - intros Hne. by destruct (String.eqb_spec (fs_Fetcher st) from).
  - intros ->. rewrite String.eqb_refl.
    destruct (finishEntry_ok v (Hash m) c Hrun) as (c' & -> & _ & Hfl & Hch).
    exists c'. rewrite Hst in Hch. cbn in Hch. split_and!; [done..| |].
    + intros w Hw. by rewrite Hch, decide_True.
    + intros w Hw. by rewrite Hch, decide_False.
Qed.

(** ** The election *)

(** Receiving the NACKs of a claim window one after the other. *)
Fixpoint drain (k : nat) (now : Z) (id : nat) (c : Coordinator) : option Coordinator :=
  match k with O => Some c | S k => on_dontHave now id c ≫= drain k now id end.

(** [consider] keeps the lowest nonce below ours. *)
Lemma consider_fold ours l e :
  let r := foldl (consider ours) e l in
  match r with
  | Some x => (Some x = e ∨ (x ∈ l ∧ x.2 < ours)) ∧ (∀ y, y ∈ l → x.2 <= y.2 ∨ ours <= y.2) ∧
              (∀ y, e = Some y → x.2 <= y.2)
  | None => e = None ∧ ∀ y, y ∈ l → ours <= y.2
  end.
Proof.
  revert e. induction l as [|z l IH]; intros e; cbn [foldl].
  - destruct e; split_and!; auto; try (intros ? Hin; by apply not_elem_of_nil in Hin). naive_solver lia.
  - specialize (IH (consider ours e z)). cbn in IH.
    destruct (foldl _ _ l) as [x|].
    + destruct IH as (Hx & Hl & He). unfold consider in *.
      destruct ((z.2 <? ours) && _) eqn:Hz.
      * assert (z.2 < ours) by (apply andb_prop in Hz as [? _]; blia).
        specialize (He z eq_refl). split_and!.
        -- right. destruct Hx as [[= ->]|[? ?]]; (split; [|lia]); [by left|by right].
        -- intros y [->|Hy]%elem_of_cons; [lia|auto].
        -- intros y ->. apply andb_prop in Hz as [_ Hz]. blia.
      * split_and!.
        -- destruct Hx as [?|[? ?]]; [by left|right]. split; [by right|done].
        -- intros y [->|Hy]%elem_of_cons; [|auto]. apply andb_false_iff in Hz as [Hz|Hz]; [right; blia|].
           destruct e as [e|]; [|done]. specialize (He e eq_refl). left. blia.
        -- done.
    + destruct IH as [He Hl]. unfold consider in He.
      destruct ((z.2 <? ours) && _) eqn:Hz; [done|]. subst. split; [done|].
      intros y [->|Hy]%elem_of_cons; [|auto]. rewrite andb_true_r in Hz. blia.
Qed.

Lemma NoDup_all_same {A} (x : A) (l : list A) : NoDup l → (∀ y, y ∈ l → y = x) → (length l <= 1)%nat.
Proof.
  intros Hnd Hall. destruct l as [|a [|b l]]; simpl; try lia.
  apply NoDup_cons in Hnd as [Ha _]. exfalso. apply Ha.
  rewrite (Hall a), (Hall b) by set_solver. by left.
Qed.

Lemma NoDup_fst_sfilter {A B} (P : A * B → Prop) `{∀ x, Decision (P x)} (l : list (A * B)) :
  NoDup l.*1 → NoDup (filter P l).*1.
Proof.
  induction l as [|x l IH]; [done|]. cbn. intros [Hx Hl]%NoDup_cons. unfold filter in *. cbn.
  case_decide; [|by apply IH]. cbn. apply NoDup_cons. split; [|by apply IH].
  intros (y & Hy & Hin)%list_elem_of_fmap. apply Hx. rewrite Hy. apply list_elem_of_fmap_2.
  by apply (list_elem_of_filter P) in Hin as [_ ?].
Qed.

Definition racing (q : list (string * Z * bool)) : list (string * Z) :=
  (λ x, x.1) <$> List.filter (λ x, x.2) q.

Lemma drain_queue now id q c pw :
  wants c !! id = Some pw → pw_status pw = Waiting → pw_dontHave pw = q → q ≠ [] →
  NoDup (q.*1).*1 → pw_awaiting pw = list_to_set (q.*1).*1 →
  ∃ c0 pw0, drain (length q) now id c = Some (decide_want now id pw0 c0) ∧ wants c0 !! id = Some pw0 ∧
    pw_elected pw0 = foldl (consider (pw_nonce pw)) (pw_elected pw) (racing q).
Proof.
  revert c pw. induction q as [|[[p n] also] q IH]; intros c pw Hpw Hst Hq Hne Hnd Haw; [done|].
  cbn [length drain]. unfold on_dontHave, in_loop. rewrite Hpw, Hst, Hq. cbn zeta.
  cbn [pw_awaiting]. apply NoDup_cons in Hnd as [Hp Hnd].
  assert (pw_awaiting pw ∖ {[p]} = list_to_set (q.*1).*1) as Haw'.
  { rewrite Haw. cbn in *. apply set_eq. intros x. rewrite elem_of_difference, elem_of_union, elem_of_list_to_set,
      !elem_of_singleton. split; [tauto|]. intros Hx. split; [tauto|]. by intros ->. }
  set (pw' := mkWant _ _ _ _ _ _ _ _ _ _ _ _).
  set (c1 := upd_want id _ c).
  assert (wants c1 !! id = Some pw') as Hpw'.
  { unfold c1. cbn. rewrite lookup_alter, decide_True, Hpw by done. done. }
  assert (foldl (consider (pw_nonce pw)) (pw_elected pw) (racing ((p, n, also) :: q))
          = foldl (consider (pw_nonce pw')) (pw_elected pw') (racing q)) as -> by (by destruct also).
  destruct q as [|x q].
  - rewrite Haw'. cbn [fmap list_fmap list_to_set]. rewrite decide_True by done. cbn. eauto.
  - rewrite decide_False.
    { cbn [mbind option_bind]. apply (IH c1 pw'); done. }
    rewrite Haw'. destruct x as [[p' n'] also']. cbn. set_solver.
Qed.

Lemma decide_status now id pw c :
  wants c !! id = Some pw →
  ∃ pw', wants (decide_want now id pw c) !! id = Some pw' ∧
    match pw_elected pw with
    | None => pw_status pw' = Returning fetchWAN
    | Some (p, _) => ∃ w, pw_status pw' = Returning (mkResult ActionWaitPeer p (Some w))
    end.
Proof.
  intros Hpw. unfold decide_want. destruct (pw_elected pw) as [[p n]|].
  - unfold waitOn. cbn. destruct (inFlight c !! pw_hash pw); cbn;
      (rewrite lookup_alter, decide_True, Hpw by done; cbn; eexists; split; [done|]; eauto).
  - cbn. rewrite lookup_alter, decide_True, Hpw by done. cbn. eauto.
Qed.

(** A node [x] of a fleet in which every node wants the same cold package, when
    the NACK of every other node has reached it, in any order. *)
Record racer (nodes : list (string * Z)) (x : string * Z) (c : Coordinator) (id : nat) (pw : pendingWant) : Prop := {
  ra_want : wants c !! id = Some pw;
  ra_loop : pw_status pw = Waiting;
  ra_nonce : pw_nonce pw = x.2;
  ra_none : pw_elected pw = None;
  ra_queue : pw_dontHave pw ≡ₚ (λ y, (y, true)) <$> filter (λ y, y ≠ x) nodes;
  ra_awaiting : pw_awaiting pw = list_to_set (filter (λ y, y ≠ x) nodes).*1;
}.

Lemma racing_all (l : list (string * Z)) q : q ≡ₚ (λ y, (y, true)) <$> l → racing q ≡ₚ l.
Proof.
  intros Hq. unfold racing.
  assert (List.filter (λ x : string * Z * bool, x.2) q = q) as ->.
  { assert (Forall (λ x, x.2 = true) q) as Hall.
    { rewrite Hq. apply Forall_fmap. by apply Forall_true. }
    clear Hq. induction Hall as [|y q' Hy _ IH]; [done|]. cbn. by rewrite Hy, IH. }
  rewrite Hq, <- list_fmap_compose. cbn. by rewrite list_fmap_id.
Qed.

(** The election has exactly one winner.  When all the nodes of a fleet want
    the same cold package and every node has heard all the others, the node with
    the lowest nonce fetches from the WAN and every other node waits for exactly
    that node, in whatever order the answers arrived. *)
Theorem election_unique_winner nodes winner x c id pw now :
  NoDup nodes.*1 → winner ∈ nodes → x ∈ nodes → (2 <= length nodes)%nat →
  (∀ y, y ∈ nodes → y ≠ winner → winner.2 < y.2) →
  racer nodes x c id pw →
  ∃ c' pw', drain (length (pw_dontHave pw)) now id c = Some c' ∧ wants c' !! id = Some pw' ∧
    (x = winner → pw_status pw' = Returning fetchWAN) ∧
    (x ≠ winner → ∃ w, pw_status pw' = Returning (mkResult ActionWaitPeer winner.1 (Some w))).
Proof.
  intros Hnd Hwin Hx Hlen Hmin [Hpw Hst Hnonce Hel Hq Haw].
  set (others := filter (λ y, y ≠ x) nodes) in *.
  assert (∀ y, y ∈ others ↔ y ≠ x ∧ y ∈ nodes) as Hin by (intros y; unfold others; by rewrite list_elem_of_filter).
  assert (NoDup others.*1) as Hndo.
  { by apply NoDup_fst_sfilter. }
  assert ((pw_dontHave pw).*1 ≡ₚ others) as Hq1.
  { rewrite Hq, <- list_fmap_compose. cbn. by rewrite list_fmap_id. }
  assert (pw_dontHave pw ≠ []) as Hne.
  { intros Hnil. rewrite Hnil in Hq1. apply Permutation_nil_l in Hq1.
    assert (length nodes <= 1)%nat; [|lia].
    apply (NoDup_all_same x); [by eapply NoDup_fmap_1|].
    intros y Hy. destruct (decide (y = x)); [done|]. exfalso.
    assert (y ∈ others) as Hyo by by apply Hin. rewrite <- Hq1 in Hyo. by apply not_elem_of_nil in Hyo. }
  destruct (drain_queue now id _ c pw Hpw Hst eq_refl Hne) as (c0 & pw0 & -> & Hpw0 & Hel0).
  { by rewrite Hq1. }
  { rewrite Haw. apply set_eq. intros z. by rewrite !elem_of_list_to_set, Hq1. }
  destruct (decide_status now id pw0 c0 Hpw0) as (pw' & Hpw' & Hres).
  exists (decide_want now id pw0 c0), pw'. split_and!; [done..| |].
  - intros ->. rewrite Hel0, Hel, Hnonce in Hres. clear Hel0.
    pose proof (consider_fold winner.2 (racing (pw_dontHave pw)) None) as Hf. cbn in Hf.
    destruct (foldl _ _ _) as [y|]; [|done]. exfalso. destruct Hf as ([?|[Hy Hlt]] & _); [done|].
    rewrite (racing_all others), Hin in Hy by done. destruct Hy as [Hyw Hy]. specialize (Hmin y Hy Hyw). lia.
  - intros Hxw. rewrite Hel0, Hel, Hnonce in Hres. clear Hel0.
    pose proof (consider_fold x.2 (racing (pw_dontHave pw)) None) as Hf. cbn in Hf.
    assert (winner ∈ racing (pw_dontHave pw)) as Hw.
    { rewrite (racing_all others), Hin by done. by split; [apply not_eq_sym|]. }
    pose proof (Hmin x Hx Hxw) as Hlow.
    destruct (foldl _ _ _) as [y|].
    + destruct Hf as ([?|[Hy Hlt]] & Hl & _); [done|].
      assert (y = winner) as ->; [|by destruct winner].
      destruct (decide (y = winner)) as [|Hyw]; [done|]. exfalso.
      rewrite (racing_all others), Hin in Hy by done. destruct Hy as [_ Hy].
      pose proof (Hmin y Hy Hyw). destruct (Hl _ Hw); lia.
    + destruct Hf as [_ Hf]. specialize (Hf _ Hw). lia.
Qed.

(** ** Orphaned waiters

    A wait channel that no entry holds is never touched again. *)
Definition orphan (w : nat) (c : Coordinator) : Prop :=
  chans c !! w = Some fresh_chan ∧ (w < next c)%nat ∧
  ∀ h st, inFlight c !! h = Some st → w ∉ fs_Waiters st.

Section orphan.
Context (w : nat).

Lemma orphan_frame c c' :
  orphan w c → chans c' = chans c → (next c <= next c')%nat →
  (∀ h st', inFlight c' !! h = Some st' →
     fs_Waiters st' = [] ∨ ∃ st, inFlight c !! h = Some st ∧ fs_Waiters st' = fs_Waiters st) →
  orphan w c'.
Proof.
  intros (Hch & Hlt & Hno) Heq Hn Hfl. split_and!; [by rewrite Heq|lia|].
  intros h st' Hst. destruct (Hfl _ _ Hst) as [->|(st & ? & ->)]; [apply not_elem_of_nil|eauto].
Qed.

Lemma orphan_same c c' :
  orphan w c → inFlight c' = inFlight c → chans c' = chans c → (next c <= next c')%nat → orphan w c'.
Proof. intros Ho Hi Hch Hn. eapply orphan_frame; [done..|]. rewrite Hi. eauto. Qed.

Lemma orphan_attach c h st ws :
  orphan w c → fs_Waiters st = ws ++ [next c] → (ws = [] ∨ ∃ st0, inFlight c !! h = Some st0 ∧ ws = fs_Waiters st0) →
  orphan w (set_inFlight (<[h := st]> (inFlight c)) (makeChan c).2).
Proof.
  intros (Hch & Hlt & Hno) Hst Hws. split_and!; cbn; [by rewrite lookup_insert_ne by lia|lia|].
  intros h' st'. rewrite lookup_insert. case_decide; [|eauto]. intros [= <-].
  rewrite Hst, elem_of_app, list_elem_of_singleton. intros [Hw|?]; [|lia].
  destruct Hws as [->|(st0 & ? & ->)]; [by apply not_elem_of_nil in Hw|naive_solver].
Qed.

Lemma orphan_waitOn h sz f n now c : orphan w c → orphan w (waitOn h sz f n now c).2.
Proof.
  intros Hc. unfold waitOn. cbn. destruct (inFlight c !! h) as [st|] eqn:Hst; cbn.
  - eapply (orphan_attach c h); eauto.
  - apply (orphan_attach c h _ []); auto.
Qed.

Lemma release_others v ws chs chs' : release v ws chs = Some chs' → w ∉ ws → chs' !! w = chs !! w.
Proof.
  revert chs. induction ws as [|x ws IH]; intros chs; cbn; [naive_solver|].
  unfold trySend, closeChan. intros H Hnot. apply not_elem_of_cons in Hnot as [Hne Hnot].
  destruct (chs !! x) as [ch|]; [|done]. destruct (ch_closed ch); [done|].
  destruct (ch_buf ch); cbn in H; repeat case_match; simplify_eq; cbn in H;
    (rewrite (IH _ H Hnot); by rewrite ?lookup_insert_ne by done).
Qed.

Lemma orphan_finish v h c c' : orphan w c → finishEntry v h c = Some c' → orphan w c'.
Proof.
  intros (Hch & Hlt & Hno). unfold finishEntry. destruct (inFlight c !! h) as [st|] eqn:Hst; [|by intros [= <-]].
  destruct (release v _ _) as [chs|] eqn:Hr; [|done]. cbn. intros [= <-]. split_and!; cbn; [|done|].
  - rewrite (release_others _ _ _ _ Hr); eauto.
  - intros h' st' [_ ?]%lookup_delete_Some. eauto.
Qed.

Lemma orphan_overwrite h st c : orphan w c → fs_Waiters st = [] → orphan w (set_inFlight (<[h := st]> (inFlight c)) c).
Proof.
  intros Hc Hst. eapply orphan_frame; [done..|]. intros h' st'. cbn. rewrite lookup_insert.
  case_decide; [intros [= <-]; by left|eauto].
Qed.

Lemma orphan_keep h st st0 c :
  orphan w c → inFlight c !! h = Some st0 → fs_Waiters st = fs_Waiters st0 →
  orphan w (set_inFlight (<[h := st]> (inFlight c)) c).
Proof.
  intros Hc Hst Hw. eapply orphan_frame; [done..|]. intros h' st'. cbn. rewrite lookup_insert.
  case_decide; [intros [= <-]; subst; eauto|eauto].
Qed.

Lemma orphan_upd id f c : orphan w c → orphan w (upd_want id f c).
Proof. done. Qed.

Lemma orphan_send to m c : orphan w c → orphan w (send to m c).
Proof. done. Qed.

Lemma orphan_route h mk c : orphan w c → orphan w (route h mk c).
Proof. unfold route. by case_match. Qed.

Lemma orphan_decide now id pw c : orphan w c → orphan w (decide_want now id pw c).
Proof.
  intros Hc. unfold decide_want. destruct (pw_elected pw) as [[p n]|].
  - pose proof (orphan_waitOn (pw_hash pw) (pw_size pw) p n now c Hc) as Hw.
    by destruct (waitOn _ _ _ _ _ _) as [x c'].
  - by apply orphan_upd, orphan_overwrite.
Qed.
End orphan.

#[local] Hint Resolve orphan_upd orphan_send orphan_route orphan_overwrite orphan_keep orphan_decide
  orphan_waitOn orphan_finish : fleet.

Lemma orphan_loop w now id c c' :
  orphan w c →
  on_have id c = Some c' ∨ on_want id c = Some c' ∨ on_fetching now id c = Some c' ∨
  on_dontHave now id c = Some c' ∨ on_timer now id c = Some c' ∨ on_ctx id c = Some c' →
  orphan w c'.
Proof.
  intros Hc [H|[H|[H|[H|[H|H]]]]]; apply in_loop_inv in H as (pw & Hpw & H).
  - destruct (pw_have pw); simplify_eq. auto with fleet.
  - destruct (pw_want pw); simplify_eq. auto with fleet.
  - destruct (pw_fetching pw) as [|[p n] rest]; simplify_eq. destruct (n <? _).
    + pose proof (orphan_waitOn w (pw_hash pw) (pw_size pw) p n now c Hc).
      destruct (waitOn _ _ _ _ _ _) as [x c1]. simplify_eq/=. auto with fleet.
    + simplify_eq/=. auto with fleet.
  - destruct (pw_dontHave pw) as [|[[p n] also] rest]; simplify_eq.
    cbn in H. case_decide; simplify_eq/=; auto with fleet.
  - simplify_eq. auto with fleet.
  - simplify_eq. auto with fleet.
Qed.

Lemma orphan_handle w sender has now from m c c' :
  orphan w c → handleMessage sender has now from m c = Some c' → orphan w c'.
Proof.
  intros Hc. unfold handleMessage, handleFetched, handleFetchFailed, byFetcher.
  repeat case_match; try (intros [= <-]; done); try (by eauto with fleet); intros [= <-].
  - unfold handleWantPackage. repeat case_match; auto with fleet.
  - by apply orphan_route.
  - unfold handleFetching. case_match; auto with fleet.
  - unfold handleFetchProgress. destruct (inFlight c !! Hash m) eqn:?; [|done]. case_match; eauto with fleet.
  - by apply orphan_route.
Qed.

Lemma orphan_step w sender c c' : step sender c (Some c') → orphan w c → orphan w c'.
Proof.
  intros Hs Hc. inversion Hs; subst;
    try by (lazymatch goal with
            | H : on_fetching ?t _ _ = _ |- _ => apply (orphan_loop w t id c c' Hc); tauto
            | H : on_dontHave ?t _ _ = _ |- _ => apply (orphan_loop w t id c c' Hc); tauto
            | H : on_timer ?t _ _ = _ |- _ => apply (orphan_loop w t id c c' Hc); tauto
            | H : _ |- _ => apply (orphan_loop w 0 id c c' Hc); tauto
            end).
  - unfold want_join in *. cbn in *. destruct (inFlight c !! hash) eqn:Hst.
    + simplify_eq/=. eapply (orphan_attach w c hash); eauto.
    + unfold closeChan in *. rewrite lookup_insert_eq in *. simplify_eq/=.
      destruct Hc as (? & ? & ?). split_and!; cbn; [by rewrite !lookup_insert_ne by lia|lia|done].
  - unfold want_register. case_match; [done|]. eapply orphan_same; [done..|cbn; lia].
  - unfold want_broadcast in *. repeat case_match; simplify_eq; auto with fleet.
  - unfold want_close in *. repeat case_match; simplify_eq; auto with fleet.
  - unfold want_unregister in *. repeat case_match; simplify_eq. done.
  - unfold NotifyFetching. destruct (inFlight c !! hash) eqn:?; destruct sender; eauto with fleet.
  - eapply orphan_frame; [done..|]. cbn. intros h st'. rewrite lookup_alter. case_decide; [subst|eauto].
    destruct (inFlight c !! h) eqn:?; [|done]. intros [= <-]. right. eauto.
  - unfold NotifyComplete in *. destruct (finishEntry _ _ _) eqn:?; simplify_eq/=. destruct sender; eauto with fleet.
  - unfold NotifyFailed in *. destruct (finishEntry _ _ _) eqn:?; simplify_eq/=. destruct sender; eauto with fleet.
  - match goal with H : reapStale _ _ _ = _ |- _ => revert H end. unfold reapStale. clear Hs. revert c'.
    induction (map_to_list (inFlight c)) as [|[h st] l IH]; cbn; intros c'; [by intros [= <-]|].
    destruct (foldr _ _ l) as [c1|]; [|done]. cbn. case_match; [|intros [= <-]; auto]. eauto with fleet.
  - unfold HandleMessage. by case_match.
  - unfold takeMessage in *. destruct (blocked c); [done|]. destruct (msgChan c) as [|[from m] rest]; [done|].
    simplify_eq. eapply (orphan_handle w); [|eassumption]. done.
  - unfold unblock in *. destruct (blocked c) as [p|]; [|done]. cbn in *.
    destruct (wants c !! push_id p) as [pw|]; [|done]. cbn in *.
    destruct (pw_done pw), (enqueue p pw); simplify_eq/=; (destruct p, sender; exact Hc).
Qed.

Lemma orphan_run w sender c c' : orphan w c → run sender c c' → orphan w c'.
Proof. intros Hc Hr. induction Hr; eauto using orphan_step. Qed.

(** ** Concrete runs *)
Section runs.

(** Executes actions in sequence, stopping at the first that is not possible. *)
Fixpoint exec (acts : list (Coordinator → option Coordinator)) (c : Coordinator) : option Coordinator :=
  match acts with [] => Some c | a :: acts => a c ≫= exec acts end.

Definition is_step (a : Coordinator → option Coordinator) : Prop :=
  ∀ c c', a c = Some c' → step true c (Some c').

Lemma exec_run acts c c' : Forall is_step acts → exec acts c = Some c' → run true c c'.
Proof.
  intros Hall. revert c. induction Hall as [|a acts Ha _ IH]; intros c; cbn; [intros [= <-]; apply rtc_refl|].
  destruct (a c) as [c1|] eqn:Hc1; [|done]. cbn. intros Hx. eapply rtc_l; [by apply Ha|]. by apply IH.
Qed.

(** A local caller has its want for "h" in an election with nonce 5; the peer Q
    announces, with the higher nonce 9, that it is fetching "h"; a second local
    caller finds Q's entry and waits on it (channel 1); the first caller's
    election ends with us as the winner; our download completes. *)
Definition strand : list (Coordinator → option Coordinator) := [
  λ c, Some (want_register "h" 10 5 2 c).2;
  want_broadcast true ["P"; "Q"] 0;
  λ c, Some (HandleMessage "Q" (mkMessage MsgFetching 9 "h" 10 0) c);
  λ c, default None (takeMessage true false 1 c);
  unblock true;
  λ c, snd <$> want_join "h" "Q" c;
  on_fetching 2 0;
  on_timer 3 0;
  want_close 0;
  want_unregister 0;
  λ c, Some (NotifyFetching true 4 5 "h" 10 c);
  NotifyComplete true "h"
].

Lemma take_step has now c c' : default None (takeMessage true has now c) = Some c' → step true c (Some c').
Proof. destruct (takeMessage true has now c) eqn:Ht; [|done]. cbn. intros ->. by eapply STake. Qed.

Ltac solve_steps :=
  repeat (apply Forall_cons; split); [..|by apply Forall_nil];
  intros c c' Hc; first
    [ by eapply take_step
    | rewrite <- Hc; first [apply SRegister | apply SReceive | apply SNotifyFetching | apply SJoin | apply SNotifyComplete]
    | eapply SBroadcast; eassumption | eapply SFetching; eassumption | eapply STimer; eassumption
    | eapply SCtx; eassumption | eapply SClose; eassumption | eapply SUnregister; eassumption
    | eapply SUnblock; eassumption ].

Lemma strand_steps : Forall is_step strand.
Proof.
  solve_steps.
Qed.

(** The second caller's wait channel is lost when the first wins the
    election: [decide] replaces the entry that holds it.  After our download
    has completed, the channel is open, no entry holds it, and no later run
    ever sends to it or closes it. *)
Theorem election_winner_strands_waiter :
  ∃ c, exec strand init = Some c ∧ run true init c ∧
    (fst <$> (exec (take 5 strand) init ≫= want_join "h" "Q")) = Some (mkResult ActionWaitPeer "Q" (Some 1%nat)) ∧
    ∀ c', run true c c' → chans c' !! 1%nat = Some fresh_chan.
Proof.
  destruct (exec strand init) as [c|] eqn:Hx; [|vm_compute in Hx; discriminate].
  exists c. split_and!; [done|by eapply exec_run; [apply strand_steps|]|vm_compute; reflexivity|].
  intros c' Hr. assert (orphan 1 c) as Ho; [|by destruct (orphan_run _ _ _ _ Ho Hr)].
  vm_compute in Hx. injection Hx as <-. split_and!; [reflexivity|cbn; lia|].
  intros h st Hst. discriminate Hst || (exfalso; revert Hst; apply lookup_empty_Some).
Qed.

(** Two calls for the same hash, and P's answer to them. *)
Definition two_wants : list (Coordinator → option Coordinator) := [
  λ c, Some (want_register "h" 10 5 1 c).2;
  want_broadcast true ["P"] 0;
  λ c, Some (want_register "h" 10 6 1 c).2;
  want_broadcast true ["P"] 1;
  on_ctx 0;
  want_close 0;
  want_unregister 0;
  λ c, Some (HandleMessage "P" (mkMessage MsgDontHave 0 "h" 0 0) c);
  λ c, default None (takeMessage true false 1 c)
].

Lemma two_wants_steps : Forall is_step two_wants.
Proof.
  solve_steps.
Qed.

(** Two local callers that want the same cold package before either is in
    flight share one registration: the second replaces the first, and the first
    to return removes it.  The second call is then still in its loop, awaiting
    P's answer, but P's DontHave is dropped, so that call can only end by its
    timer. *)
Theorem concurrent_wants_lose_registration :
  ∃ c, exec two_wants init = Some c ∧ run true init c ∧
    (pw_status <$> wants c !! 1%nat) = Some Waiting ∧ (pw_awaiting <$> wants c !! 1%nat) = Some {["P"]} ∧
    pendingWants c !! "h" = None ∧ msgChan c = [] ∧ blocked c = None ∧
    (pw_dontHave <$> wants c !! 1%nat) = Some [].
Proof.
  destruct (exec two_wants init) as [c|] eqn:Hx; [|vm_compute in Hx; discriminate].
  exists c. split; [done|]. split; [by eapply exec_run; [apply two_wants_steps|]|].
  vm_compute in Hx. injection Hx as <-. vm_compute. split_and!; reflexivity.
Qed.

(** *** Witnesses *)

Definition waiting_state : Coordinator := default init (exec (take 6 strand) init).

Lemma waiting_run : run true init waiting_state.
Proof.
  apply (exec_run (take 6 strand)); [|vm_compute; reflexivity].
  apply Forall_take, strand_steps.
Qed.

Lemma fleet_no_channel_panic_witness :
  ∃ c', NotifyComplete true "h" waiting_state = Some c' ∧
    ∀ w ch, chans c' !! w = Some ch →
      (ch_closed ch = false ∧ ch_buf ch = []) ∨ (ch_closed ch = true ∧ (length (ch_buf ch) <= 1)%nat).
Proof. apply (fleet_no_channel_panic true waiting_state); [apply waiting_run|constructor]. Defined.

Lemma fetcher_alone_witness :
  handleFetched "P" (mkMessage MsgFetched 0 "h" 0 0) waiting_state = Some waiting_state.
Proof.
  destruct (inFlight waiting_state !! "h") as [st|] eqn:Hst; [|vm_compute in Hst; discriminate].
  apply (fetcher_alone_completes true waiting_state (mkMessage MsgFetched 0 "h" 0 0) st "P" true waiting_run Hst).
  vm_compute in Hst. injection Hst as <-. discriminate.
Defined.

Definition three : list (string * Z) := [("A", 7); ("B", 3); ("C", 5)].

Definition racer_A : pendingWant :=
  mkWant "h" 1 7 2 [] [] [] [("C", 5, true); ("B", 3, true)] false {["B"; "C"]} None Waiting.

Lemma election_witness :
  ∃ c' pw', drain 2 0 0 (set_wants {[0%nat := racer_A]} init) = Some c' ∧ wants c' !! 0%nat = Some pw' ∧
    ∃ w, pw_status pw' = Returning (mkResult ActionWaitPeer "B" (Some w)).
Proof.
  destruct (election_unique_winner three ("B", 3) ("A", 7) (set_wants {[0%nat := racer_A]} init) 0 racer_A 0)
    as (c' & pw' & H1 & H2 & _ & H4).
  - vm_compute. repeat constructor; set_solver.
  - right; left.
  - left.
  - cbn. lia.
  - intros y Hy Hne. repeat (apply elem_of_cons in Hy as [->|Hy]); try (cbn; lia); [done|].
    by apply not_elem_of_nil in Hy.
  - constructor; try reflexivity. apply Permutation_swap.
  - exists c', pw'. split_and!; [exact H1|exact H2|]. apply H4. discriminate.
Defined.
End runs.

End FleetSys.
