(* ===== verification/FleetProto.v ===== *)
(** * internal/fleet/protocol.go: the streams of the fleet protocol

    The cache of outgoing streams, compared by identity, and [SendMessage] as a
    sequence of atomic steps of one goroutine: the lookup under the read lock, the
    dial, the installation under the write lock, the write under the stream's own
    mutex, and the two halves of the eviction.  Any number of senders interleave;
    the decode loop at the other end is [handleStream] of FleetMsg.v.  What the
    network does (dials, deadlines, writes that fail part of the way) is given by
    the surroundings. *)

From S2P Require Import Prelude GoStd HashUtil FleetMsg Fleet.
Open Scope Z_scope.
Open Scope go_scope.

Module FleetProto.
Import FleetMsg.

(** ** State *)

(** A stream: the peer at the other end, the bytes that were written, and whether
    it was reset or closed here, after which writes fail; that the other side reset it
    shows in the writes that fail.  [s_msgs] and [s_torn] record, for
    the statements only, the messages that were written completely and whether a
    write has failed. *)
Record Stream := mkStream { s_peer : string; s_bytes : string; s_dead : bool; s_msgs : list Message; s_torn : bool }.

(** [streams] holds pointers; [opened] is what they point to. *)
Record Protocol := mkProtocol { registered : bool; streams : gmap string nat; opened : gmap nat Stream; next : nat }.

Definition NewProtocol : Protocol := mkProtocol true ∅ ∅ 0.

Definition set_streams (m : gmap string nat) (p : Protocol) : Protocol := mkProtocol (registered p) m (opened p) (next p).
Definition set_opened (o : gmap nat Stream) (p : Protocol) : Protocol := mkProtocol (registered p) (streams p) o (next p).

(** ** Critical sections *)

(** [host.NewStream]. *)
Definition newStream (peer : string) (p : Protocol) : nat * Protocol :=
  (next p, mkProtocol (registered p) (streams p) (<[next p := mkStream peer "" false [] false]> (opened p)) (S (next p))).

Definition kill (st : Stream) : Stream := mkStream (s_peer st) (s_bytes st) true (s_msgs st) (s_torn st).
Definition Reset (s : nat) (p : Protocol) : Protocol := set_opened (alter kill s (opened p)) p.

(** The end of [getOrCreateStream]: a stream that appeared meanwhile is kept and the
    new one is reset. *)
Definition install (peer : string) (s : nat) (p : Protocol) : nat * Protocol :=
  match streams p !! peer with
  | Some existing => (existing, Reset s p)
  | None => (s, set_streams (<[peer := s]> (streams p)) p)
  end.

(** [peerStream.send]: [w] is the fate of the writes, [None] that the deadline cannot
    be set.  A dead stream takes nothing. *)
Definition send (w : option (string → Sink)) (m : Message) (st : Stream) : bool * Stream :=
  let fail bytes := (false, mkStream (s_peer st) bytes (s_dead st) (s_msgs st) true) in
  if s_dead st then fail (s_bytes st)
  else
    match w with
    | None => fail (s_bytes st)
    | Some w =>
        match Encode w m (s_bytes st) with
        | (bytes, Ok _) => (true, mkStream (s_peer st) bytes (s_dead st) (s_msgs st ++ [m]) (s_torn st))
        | (bytes, Err _) => fail bytes
        end
    end.

Definition sendOn (w : option (string → Sink)) (m : Message) (s : nat) (p : Protocol) : bool * Protocol :=
  match opened p !! s with
  | Some st => let '(ok, st) := send w m st in (ok, set_opened (<[s := st]> (opened p)) p)
  | None => (false, p)
  end.

(** The first half of [evictStream]: only the very stream is dropped. *)
Definition evictStream (peer : string) (s : nat) (p : Protocol) : Protocol :=
  match streams p !! peer with
  | Some cur => if (cur =? s)%nat then set_streams (delete peer (streams p)) p else p
  | None => p
  end.

Definition Close (p : Protocol) : Protocol :=
  let cached := (map_to_list (streams p)).*2 in
  mkProtocol false ∅ (foldr (alter kill) (opened p) cached) (next p).

(** ** Senders *)

(** Where a call of [SendMessage] is. *)
Inductive PC :=
| Looking                (* before the lookup *)
| Dialling               (* not found: before [NewStream] returns *)
| Dialled (s : nat)      (* before the installation *)
| Holding (s : nat)      (* before the write *)
| Evicting (s : nat)     (* the write failed: before the map is changed *)
| Resetting (s : nat)    (* before the reset *)
| Sent                   (* returned nil *)
| NotSent.               (* returned an error *)

Record Thread := mkThread { t_peer : string; t_msg : Message; t_pc : PC }.
Record System := mkSystem { proto : Protocol; threads : gmap nat Thread }.

Definition goto (pc : PC) (t : Thread) : Thread := mkThread (t_peer t) (t_msg t) pc.

(** The next step of a sender; [dial] is whether the dial succeeds. *)
Definition advance (dial : bool) (w : option (string → Sink)) (t : Thread) (p : Protocol) : Thread * Protocol :=
  match t_pc t with
  | Looking => (goto (match streams p !! t_peer t with Some s => Holding s | None => Dialling end) t, p)
  | Dialling => if dial then let '(s, p) := newStream (t_peer t) p in (goto (Dialled s) t, p) else (goto NotSent t, p)
  | Dialled s => let '(s, p) := install (t_peer t) s p in (goto (Holding s) t, p)
  | Holding s => let '(ok, p) := sendOn w (t_msg t) s p in (goto (if ok then Sent else Evicting s) t, p)
  | Evicting s => (goto (Resetting s) t, evictStream (t_peer t) s p)
  | Resetting s => (goto NotSent t, Reset s p)
  | Sent | NotSent => (t, p)
  end.

(** Calls begin at any time and interleave with each other and with [Close]. *)
Inductive step : System → System → Prop :=
| SCall i peer m sys : threads sys !! i = None → step sys (mkSystem (proto sys) (<[i := mkThread peer m Looking]> (threads sys)))
| SAdvance i t dial w t' p' sys :
    threads sys !! i = Some t → advance dial w t (proto sys) = (t', p') → step sys (mkSystem p' (<[i := t']> (threads sys)))
| SClose sys : step sys (mkSystem (Close (proto sys)) (threads sys)).

Definition init : System := mkSystem NewProtocol ∅.

(** ** One call after the other *)

(** [SendMessage] without interruption: six steps are enough. *)
Fixpoint runThread (fuel : nat) (dial : bool) (w : option (string → Sink)) (t : Thread) (p : Protocol) : bool * Protocol :=
  match t_pc t, fuel with
  | Sent, _ => (true, p)
  | NotSent, _ => (false, p)
  | _, O => (false, p)
  | _, S fuel => let '(t, p) := advance dial w t p in runThread fuel dial w t p
  end.

Definition SendMessage (dial : bool) (w : option (string → Sink)) (peer : string) (m : Message) (p : Protocol) : bool * Protocol :=
  runThread 6 dial w (mkThread peer m Looking) p.

(** [BroadcastMessageTo]: the peers it was written to, and whether a send failed. *)
Fixpoint BroadcastMessageTo (dial : string → bool) (w : string → option (string → Sink)) (peers : list string) (m : Message) (p : Protocol)
  : list string * bool * Protocol :=
  match peers with
  | [] => ([], false, p)
  | q :: peers =>
      let '(ok, p) := SendMessage (dial q) (w q) q m p in
      let '(sent, failed, p) := BroadcastMessageTo dial w peers m p in
      ((if ok then q :: sent else sent), negb ok || failed, p)
  end.

(** The messages of the [Broadcast] methods, for the mDNS peers. *)
Definition wantMessage (hash : string) (size nonce : Z) : Message := mkMessage MsgWantPackage nonce hash size 0.
Definition haveMessage (hash : string) (size : Z) : Message := mkMessage MsgHavePackage 0 hash size 0.
Definition fetchingMessage (hash : string) (size nonce : Z) : Message := mkMessage MsgFetching nonce hash size 0.
Definition progressMessage (hash : string) (offset size : Z) : Message := mkMessage MsgFetchProgress 0 hash size offset.
Definition completeMessage (hash : string) (size : Z) : Message := mkMessage MsgFetched 0 hash size 0.
Definition failedMessage (hash : string) : Message := mkMessage MsgFetchFailed 0 hash 0 0.

Section broadcast.
Context (dial : string → bool) (w : string → option (string → Sink)) (mdnsPeers : list string).

Definition BroadcastMessage (m : Message) (p : Protocol) : bool * Protocol :=
  let '(_, failed, p) := BroadcastMessageTo dial w mdnsPeers m p in (negb failed, p).

Definition BroadcastWant (hash : string) (size nonce : Z) := BroadcastMessage (wantMessage hash size nonce).
Definition BroadcastHave (hash : string) (size : Z) := BroadcastMessage (haveMessage hash size).
Definition BroadcastFetching (hash : string) (size nonce : Z) := BroadcastMessage (fetchingMessage hash size nonce).
Definition BroadcastProgress (hash : string) (offset size : Z) := BroadcastMessage (progressMessage hash offset size).
Definition BroadcastComplete (hash : string) (size : Z) := BroadcastMessage (completeMessage hash size).
Definition BroadcastFailed (hash : string) := BroadcastMessage (failedMessage hash).

(** A tick of [StartProgressBroadcaster]. *)
Definition broadcastTick (c : Fleet.Coordinator) (p : Protocol) : Protocol :=
  foldl (λ p m, (BroadcastMessage m p).2) p (Fleet.progressMessages c).
End broadcast.
End FleetProto.
