(* ===== verification/FleetProtoSys.v ===== *)
(** * Properties of the streams of the fleet protocol

    In every interleaving of senders: what the cache holds for a peer is a stream to
    that peer that was not reset here; unless one of its senders is about to evict it, it carries
    exactly the complete messages written to it; a send that succeeded was written
    completely; and when all senders have returned, every stream that is not cached
    has been reset. *)

From S2P Require Import Prelude GoStd HashUtil FleetMsg Fleet FleetProto.
Open Scope Z_scope.
Open Scope go_scope.

Module FleetProtoSys.
Import FleetMsg FleetProto.

(** ** Writing *)

Lemma wr_all_ok w ps out out' : wr_all w ps out = (out', Ok tt) → out' = out +:+ foldr String.append "" ps.
Proof.
  revert out. induction ps as [|p ps IH]; intros out; cbn [wr_all foldr].
  - intros [= <-]. by rewrite str_app_nil_r.
  - unfold wr, sink_write. destruct (w out p); [done|]. intros ->%IH. by rewrite str_app_assoc.
Qed.

Lemma Encode_ok w m out out' u : Encode w m out = (out', Ok u) → out' = out +:+ wire m.
Proof.
  destruct u. unfold Encode. destruct (wr_all w _ out) as [o1 [[]|e]] eqn:H1; [|done]. apply wr_all_ok in H1 as ->.
  destruct (_ <? _); [done|]. intros ->%wr_all_ok. unfold wire. cbn [foldr]. by rewrite !str_app_nil_r, !str_app_assoc.
Qed.

Lemma wires_snoc ms m : wires (ms ++ [m]) = wires ms +:+ wire m.
Proof.
  induction ms as [|x ms IH]; [cbn; by rewrite str_app_nil_r|]. change (wires ((x :: ms) ++ [m])) with (wire x +:+ wires (ms ++ [m])).
  by rewrite IH, <- str_app_assoc.
Qed.

(** A send: to the same peer, never undone. *)
Lemma send_spec w m st :
  let '(ok, st') := send w m st in
  s_peer st' = s_peer st ∧ s_dead st' = s_dead st ∧
  (ok = true → s_msgs st' = s_msgs st ++ [m] ∧ s_torn st' = s_torn st ∧ s_bytes st' = s_bytes st +:+ wire m) ∧
  (ok = false → s_msgs st' = s_msgs st ∧ s_torn st' = true).
Proof.
  unfold send. destruct (s_dead st) eqn:Hd; [done|]. destruct w as [w|]; [|done].
  destruct (Encode w m (s_bytes st)) as [bytes [[]|e]] eqn:He; [|done]. apply Encode_ok in He as ->. done.
Qed.

(** ** The invariant *)

Definition refers (pc : PC) (s : nat) : Prop :=
  match pc with Dialled x | Holding x | Evicting x | Resetting x => x = s | _ => False end.

(** A sender about to evict or to reset a stream. *)
Definition ending (ts : gmap nat Thread) (s : nat) : Prop := ∃ i t, ts !! i = Some t ∧ (t_pc t = Evicting s ∨ t_pc t = Resetting s).

Record inv (sys : System) : Prop := {
  i_fresh : ∀ s, is_Some (opened (proto sys) !! s) → (s < next (proto sys))%nat;
  i_cached : ∀ q s, streams (proto sys) !! q = Some s →
    ∃ st, opened (proto sys) !! s = Some st ∧ s_peer st = q ∧ s_dead st = false ∧
      (s_torn st = true → ∃ i t, threads sys !! i = Some t ∧ t_pc t = Evicting s);
  i_clean : ∀ s st, opened (proto sys) !! s = Some st → s_torn st = false → s_bytes st = wires (s_msgs st);
  i_refs : ∀ i t s, threads sys !! i = Some t → refers (t_pc t) s → ∃ st, opened (proto sys) !! s = Some st ∧ s_peer st = t_peer t;
  i_dialled : ∀ i t s, threads sys !! i = Some t → t_pc t = Dialled s →
    (∃ st, opened (proto sys) !! s = Some st ∧ s_dead st = false ∧ s_torn st = false) ∧ (∀ q, streams (proto sys) !! q ≠ Some s) ∧
    ∀ j t', threads sys !! j = Some t' → refers (t_pc t') s → j = i;
  i_kept : ∀ s st, opened (proto sys) !! s = Some st → s_dead st = false →
    streams (proto sys) !! s_peer st = Some s ∨ (∃ i t, threads sys !! i = Some t ∧ t_pc t = Dialled s) ∨ ending (threads sys) s;
  i_sent : ∀ i t, threads sys !! i = Some t → t_pc t = Sent →
    ∃ s st, opened (proto sys) !! s = Some st ∧ s_peer st = t_peer t ∧ t_msg t ∈ s_msgs st;
  i_resetting : ∀ i t s q, threads sys !! i = Some t → t_pc t = Resetting s → streams (proto sys) !! q ≠ Some s;
}.

Lemma inv_init : inv init.
Proof. constructor; intros *; cbn [init proto threads NewProtocol opened streams]; rewrite lookup_empty; try done; by intros []. Qed.

(** A step of the thread [i], which becomes [t'], with the protocol becoming [p']:
    what follows for the other threads. *)
Section advance.
Context (sys : System) (Hinv : inv sys) (i : nat) (t' : Thread) (p' : Protocol).
Abbreviation p := (proto sys).
Abbreviation ts' := (<[i := t']> (threads sys)).

(** Streams are never replaced: they stay with their peer and keep their messages. *)
Definition evolves : Prop := ∀ s st, opened p !! s = Some st → ∃ st', opened p' !! s = Some st' ∧ s_peer st' = s_peer st ∧ ∀ m, m ∈ s_msgs st → m ∈ s_msgs st'.

Lemma other_thread j x : ts' !! j = Some x → (j = i ∧ x = t') ∨ (j ≠ i ∧ threads sys !! j = Some x).
Proof. rewrite lookup_insert_Some. intros [[<- <-]|[? ?]]; auto. Qed.

Lemma still j x t : threads sys !! i = Some t → threads sys !! j = Some x → t_pc x ≠ t_pc t → ts' !! j = Some x.
Proof. intros Ht Hj Hne. rewrite lookup_insert_ne; [done|]. intros ->. congruence. Qed.

Lemma advance_refs :
  evolves → (∀ s, refers (t_pc t') s → ∃ st, opened p' !! s = Some st ∧ s_peer st = t_peer t') →
  ∀ j x s, ts' !! j = Some x → refers (t_pc x) s → ∃ st, opened p' !! s = Some st ∧ s_peer st = t_peer x.
Proof using Hinv.
  intros Hev Hnew j x s [[-> ->]|[Hne Hj]]%other_thread Hr; [by apply Hnew|].
  destruct (i_refs _ Hinv j x s Hj Hr) as (st & Hs & Hp). destruct (Hev s st Hs) as (st' & Hs' & Hp' & _). exists st'. split; [done|congruence].
Qed.

Lemma advance_sent :
  evolves → (t_pc t' = Sent → ∃ s st, opened p' !! s = Some st ∧ s_peer st = t_peer t' ∧ t_msg t' ∈ s_msgs st) →
  ∀ j x, ts' !! j = Some x → t_pc x = Sent → ∃ s st, opened p' !! s = Some st ∧ s_peer st = t_peer x ∧ t_msg x ∈ s_msgs st.
Proof using Hinv.
  intros Hev Hnew j x [[-> ->]|[Hne Hj]]%other_thread Hs; [by apply Hnew|].
  destruct (i_sent _ Hinv j x Hj Hs) as (s & st & Ho & Hp & Hm). destruct (Hev s st Ho) as (st' & Hs' & Hp' & Hm'). exists s, st'. split_and!; [done|congruence|auto].
Qed.

Lemma advance_resetting :
  (∀ q y, streams p' !! q = Some y → streams p !! q = Some y ∨ ∀ j x, threads sys !! j = Some x → j ≠ i → ¬ refers (t_pc x) y) →
  (∀ s q, t_pc t' = Resetting s → streams p' !! q ≠ Some s) →
  ∀ j x s q, ts' !! j = Some x → t_pc x = Resetting s → streams p' !! q ≠ Some s.
Proof using Hinv.
  intros Hstr Hnew j x s q [[-> ->]|[Hne Hj]]%other_thread Hpc Hq; [by eapply Hnew|].
  apply Hstr in Hq as [Hq|Hq]; [by eapply (i_resetting _ Hinv)|]. eapply Hq; [exact Hj|done|by rewrite Hpc].
Qed.

(** The owner of a stream that was dialled stays alone, when [i] does not take up that
    stream and the stream is left as it is. *)
Lemma advance_dialled :
  (∀ j x s st, threads sys !! j = Some x → j ≠ i → t_pc x = Dialled s → opened p !! s = Some st → s_dead st = false → s_torn st = false →
     (∃ st', opened p' !! s = Some st' ∧ s_dead st' = false ∧ s_torn st' = false) ∧ (∀ q, streams p' !! q ≠ Some s) ∧ ¬ refers (t_pc t') s) →
  (∀ s, t_pc t' = Dialled s → (∃ st, opened p' !! s = Some st ∧ s_dead st = false ∧ s_torn st = false) ∧ (∀ q, streams p' !! q ≠ Some s) ∧
     ∀ j x, threads sys !! j = Some x → ¬ refers (t_pc x) s) →
  ∀ j x s, ts' !! j = Some x → t_pc x = Dialled s →
    (∃ st, opened p' !! s = Some st ∧ s_dead st = false ∧ s_torn st = false) ∧ (∀ q, streams p' !! q ≠ Some s) ∧
    ∀ k y, ts' !! k = Some y → refers (t_pc y) s → k = j.
Proof using Hinv.
  intros Hold Hnew j x s [[-> ->]|[Hne Hj]]%other_thread Hpc.
  - destruct (Hnew s Hpc) as (Ho & Hs & Hr). split_and!; try done. intros k y [[-> ->]|[Hk Hy]]%other_thread Href; [done|]. by destruct (Hr k y Hy).
  - destruct (i_dialled _ Hinv j x s Hj Hpc) as ((st & Ho & Hd & Ht) & _ & Hu).
    destruct (Hold j x s st Hj Hne Hpc Ho Hd Ht) as (Ho' & Hs' & Hr'). split_and!; try done.
    intros k y [[-> ->]|[Hk Hy]]%other_thread Href; [done|by eapply Hu].
Qed.
End advance.

Lemma evolves_refl sys p' : opened p' = opened (proto sys) → evolves sys p'.
Proof. intros Ho s st Hs. rewrite Ho. eauto. Qed.

(** Steps that leave the protocol alone: a call begins, looks up, or cannot dial. *)
Lemma inv_silent sys i t' :
  inv sys → (∀ t s, threads sys !! i = Some t → t_pc t ≠ Evicting s ∧ t_pc t ≠ Resetting s ∧ t_pc t ≠ Dialled s) →
  (∀ s, refers (t_pc t') s → t_pc t' = Holding s ∧ streams (proto sys) !! t_peer t' = Some s) → t_pc t' ≠ Sent →
  inv (mkSystem (proto sys) (<[i := t']> (threads sys))).
Proof.
  intros Hinv Hold Hnew Hns. pose proof Hinv as [Hfr Hca Hcl Hre Hdi Hke Hse Hrs].
  assert (∀ j x s, threads sys !! j = Some x → t_pc x = Evicting s ∨ t_pc x = Resetting s ∨ t_pc x = Dialled s → <[i := t']> (threads sys) !! j = Some x) as Hst.
  { intros j x s Hj Hpc. rewrite lookup_insert_ne; [done|]. intros ->. destruct (Hold x s Hj) as (? & ? & ?). naive_solver. }
  constructor; cbn [proto threads]; [done| |done|apply advance_refs|apply advance_dialled| |apply advance_sent|apply advance_resetting]; try done; try by apply evolves_refl.
  - intros q s Hq. destruct (Hca q s Hq) as (st & ? & ? & ? & Ht). exists st. split_and!; try done. intros (j & x & Hj & Hx)%Ht. eauto 10.
  - intros s [_ Hs]%Hnew. destruct (Hca _ _ Hs) as (st & ? & ? & _). eauto.
  - intros j x s st Hj Hne Hpc Ho Hd Ht. destruct (Hdi j x s Hj Hpc) as (_ & Hs & _). split; [eauto|]. split; [done|].
    intros [_ Hr]%Hnew. by destruct (Hs (t_peer t')).
  - intros s Hpc. destruct (Hnew s) as [? _]; [by rewrite Hpc|]. congruence.
  - intros s st Ho Hd. destruct (Hke s st Ho Hd) as [?|[(j & x & Hj & ?)|(j & x & Hj & Hx)]]; [auto|right; left; eauto 10|right; right; exists j, x; split; [|done]; eapply Hst; naive_solver].
  - auto.
  - intros s q Hpc. destruct (Hnew s) as [? _]; [by rewrite Hpc|]. congruence.
Qed.

(** What is true of the threads that are ending a stream, or own a new one, stays true
    when [i] was neither. *)
Lemma kept_by_others sys i t t' s :
  threads sys !! i = Some t → ¬ (t_pc t = Dialled s ∨ t_pc t = Evicting s ∨ t_pc t = Resetting s) →
  (∃ j x, threads sys !! j = Some x ∧ t_pc x = Dialled s) ∨ ending (threads sys) s →
  (∃ j x, <[i := t']> (threads sys) !! j = Some x ∧ t_pc x = Dialled s) ∨ ending (<[i := t']> (threads sys)) s.
Proof.
  intros Hi Hno [(j & x & Hj & Hx)|(j & x & Hj & Hx)]; [left|right]; exists j, x; (split; [|done]); (rewrite lookup_insert_ne; [done|]);
    intros ->; rewrite Hi in Hj; simplify_eq; naive_solver.
Qed.

Lemma evictor_kept sys i t t' s :
  threads sys !! i = Some t → t_pc t ≠ Evicting s → (∃ j x, threads sys !! j = Some x ∧ t_pc x = Evicting s) →
  ∃ j x, <[i := t']> (threads sys) !! j = Some x ∧ t_pc x = Evicting s.
Proof. intros Hi Hno (j & x & Hj & Hx). exists j, x. split; [|done]. eapply still; [done..|]. congruence. Qed.

Lemma inv_dial sys i t :
  inv sys → threads sys !! i = Some t → t_pc t = Dialling →
  let '(s, p') := newStream (t_peer t) (proto sys) in inv (mkSystem p' (<[i := goto (Dialled s) t]> (threads sys))).
Proof.
  intros Hinv Hi Hpc. pose proof Hinv as [Hfr Hca Hcl Hre Hdi Hke Hse Hrs]. cbn [newStream]. set (n := next (proto sys)).
  assert (opened (proto sys) !! n = None) as Hn by (apply eq_None_not_Some; intros Hs%Hfr; unfold n in Hs; lia).
  assert (∀ s st, opened (proto sys) !! s = Some st → n ≠ s) as Hold by (intros s st Hs ->; congruence).
  constructor; cbn [proto threads]; [| | |apply advance_refs|apply advance_dialled| |apply advance_sent|apply advance_resetting]; try done; cbn [opened streams next].
  - intros s. rewrite lookup_insert_is_Some. intros [<-|[_ Hs%Hfr]]; unfold n in *; lia.
  - intros q s Hq. destruct (Hca q s Hq) as (st & Ho & ? & ? & Ht). exists st. rewrite lookup_insert_ne by eauto. split_and!; try done.
    intros Htorn. eapply evictor_kept; [done|congruence|auto].
  - intros s st [[<- <-]|[_ Hs]]%lookup_insert_Some; [done|eauto].
  - intros s st Ho. exists st. cbn [opened]. rewrite lookup_insert_ne by eauto. done.
  - intros s Hr. cbn in Hr. subst s. rewrite lookup_insert_eq. eauto.
  - intros j x s st Hj Hne Hx Ho Hd Ht. rewrite lookup_insert_ne by eauto. destruct (Hdi j x s Hj Hx) as (_ & Hs & _). split; [eauto|]. split; [done|].
    cbn. by eapply Hold.
  - intros s [= <-]. rewrite lookup_insert_eq. split; [eauto|]. split.
    + intros q Hq. destruct (Hca q n Hq) as (st & Ho & _). congruence.
    + intros j x Hj Hr. destruct (Hre j x n Hj Hr) as (st & Ho & _). congruence.
  - intros s st [[<- <-]|[Hne Hs]]%lookup_insert_Some Hd.
    + right. left. exists i, (goto (Dialled n) t). by rewrite lookup_insert_eq.
    + destruct (Hke s st Hs Hd) as [?|Hk]; [auto|]. right. eapply kept_by_others; [done| |exact Hk]. rewrite Hpc. naive_solver.
  - intros s st Ho. exists st. cbn [opened]. rewrite lookup_insert_ne by eauto. done.
  - auto.
Qed.

Lemma evolves_alter sys s f :
  (∀ st, s_peer (f st) = s_peer st ∧ s_msgs (f st) = s_msgs st) → ∀ p', opened p' = alter f s (opened (proto sys)) → evolves sys p'.
Proof.
  intros Hf p' Hp x st Hx. rewrite Hp. destruct (decide (x = s)) as [->|Hne].
  - rewrite lookup_alter_eq, Hx. cbn. eexists. split; [done|]. destruct (Hf st) as [-> ->]. done.
  - rewrite lookup_alter_ne by done. eauto.
Qed.

Lemma kill_same st : s_peer (kill st) = s_peer st ∧ s_msgs (kill st) = s_msgs st.
Proof. done. Qed.

Lemma inv_install sys i t s :
  inv sys → threads sys !! i = Some t → t_pc t = Dialled s →
  let '(x, p') := install (t_peer t) s (proto sys) in inv (mkSystem p' (<[i := goto (Holding x) t]> (threads sys))).
Proof.
  intros Hinv Hi Hpc. pose proof Hinv as [Hfr Hca Hcl Hre Hdi Hke Hse Hrs]. destruct (Hdi i t s Hi Hpc) as ((st0 & Ho0 & Hd0 & Ht0) & Hnot & Honly).
  destruct (Hre i t s Hi ltac:(by rewrite Hpc)) as (st1 & Ho1 & Hp1). rewrite Ho0 in Ho1. injection Ho1 as <-.
  unfold install. destruct (streams (proto sys) !! t_peer t) as [x|] eqn:Hx.
  - (* another stream was installed meanwhile: the new one is reset *)
    assert (x ≠ s) as Hxs by (intros ->; by destruct (Hnot (t_peer t))).
    constructor; cbn [proto threads]; [| | |apply advance_refs|apply advance_dialled| |apply advance_sent|apply advance_resetting]; try done; cbn [Reset set_opened opened streams next];
      try (by apply (evolves_alter sys s kill kill_same)).
    + intros y Hy. apply Hfr. destruct (decide (y = s)) as [->|]; [done|]. by rewrite lookup_alter_ne in Hy.
    + intros q y Hq. destruct (Hca q y Hq) as (st & Ho & ? & ? & Ht). exists st. rewrite lookup_alter_ne by (intros ->; by destruct (Hnot q)). split_and!; try done.
      intros Htorn. eapply evictor_kept; [done|congruence|auto].
    + intros y st Hy. destruct (decide (y = s)) as [->|]; [|rewrite lookup_alter_ne in Hy by done; eauto].
      rewrite lookup_alter_eq, Ho0 in Hy. injection Hy as <-. cbn. eauto.
    + intros y Hy. cbn in Hy. subst y. rewrite lookup_alter_ne by done. destruct (Hca _ _ Hx) as (st & ? & ? & _). eauto.
    + intros j z y st Hj Hne Hz Ho Hd Ht. assert (y ≠ s) as Hys by (intros ->; apply Hne; eapply Honly; [done|by rewrite Hz]).
      rewrite lookup_alter_ne by done. destruct (Hdi j z y Hj Hz) as (_ & Hs & _). split; [eauto|]. split; [done|]. cbn. intros ->. by destruct (Hs (t_peer t)).
    + intros y st Hy Hd. destruct (decide (y = s)) as [->|Hys]; [rewrite lookup_alter_eq, Ho0 in Hy; by simplify_eq/=|].
      rewrite lookup_alter_ne in Hy by done. destruct (Hke y st Hy Hd) as [?|Hk]; [auto|]. right. eapply kept_by_others; [done| |exact Hk]. rewrite Hpc. naive_solver.
    + auto.
  - constructor; cbn [proto threads]; [| | |apply advance_refs|apply advance_dialled| |apply advance_sent|apply advance_resetting]; try done; cbn [set_streams opened streams next];
      try (by apply evolves_refl).
    + intros q y [[<- <-]|[Hne Hq]]%lookup_insert_Some; [exists st0; split_and!; [done..|]; congruence|].
      destruct (Hca q y Hq) as (st & Ho & ? & ? & Ht). exists st. split_and!; try done. intros Htorn. eapply evictor_kept; [done|congruence|auto].
    + intros y Hy. cbn in Hy. subst y. eauto.
    + intros j z y st Hj Hne Hz Ho Hd Ht. assert (y ≠ s) as Hys by (intros ->; apply Hne; eapply Honly; [done|by rewrite Hz]).
      destruct (Hdi j z y Hj Hz) as (_ & Hs & _). split; [eauto|]. split; [|cbn; congruence].
      intros q [[_ ?]|[_ Hq]]%lookup_insert_Some; [congruence|by eapply Hs].
    + intros y st Hy Hd. destruct (decide (y = s)) as [->|Hys]; [left; rewrite Ho0 in Hy; simplify_eq; by rewrite Hp1, lookup_insert_eq|].
      destruct (Hke y st Hy Hd) as [Hq|Hk].
      * left. rewrite lookup_insert_ne; [done|]. congruence.
      * right. eapply kept_by_others; [done| |exact Hk]. rewrite Hpc. naive_solver.
    + intros q y [[_ <-]|[_ Hq]]%lookup_insert_Some; [right|auto]. intros j z Hj Hne Hr. apply Hne. by eapply Honly.
Qed.

Lemma inv_send sys i t s w :
  inv sys → threads sys !! i = Some t → t_pc t = Holding s →
  let '(ok, p') := sendOn w (t_msg t) s (proto sys) in inv (mkSystem p' (<[i := goto (if ok then Sent else Evicting s) t]> (threads sys))).
Proof.
  intros Hinv Hi Hpc. pose proof Hinv as [Hfr Hca Hcl Hre Hdi Hke Hse Hrs]. destruct (Hre i t s Hi ltac:(by rewrite Hpc)) as (st0 & Ho0 & Hp0).
  unfold sendOn. rewrite Ho0. pose proof (send_spec w (t_msg t) st0) as Hsend. destruct (send w (t_msg t) st0) as [ok st']. destruct Hsend as (Hpeer & Hdead & Hyes & Hno).
  assert (evolves sys (set_opened (<[s := st']> (opened (proto sys))) (proto sys))) as Hev.
  { intros y st Hy. cbn [set_opened opened]. destruct (decide (y = s)) as [->|]; [|rewrite lookup_insert_ne by done; eauto].
    rewrite lookup_insert_eq. exists st'. split; [done|]. rewrite Ho0 in Hy. injection Hy as <-. split; [done|]. intros m Hm.
    destruct ok; [destruct (Hyes eq_refl) as [-> _]; by apply elem_of_app; left|by destruct (Hno eq_refl) as [-> _]]. }
  constructor; cbn [proto threads]; [| | |apply advance_refs|apply advance_dialled| |apply advance_sent|apply advance_resetting]; try done; cbn [set_opened opened streams next].
  - intros y. rewrite lookup_insert_is_Some. intros [<-|[_ Hy]]; eauto.
  - intros q y Hq. destruct (Hca q y Hq) as (st & Ho & Hq' & Hd & Ht). destruct (decide (y = s)) as [->|Hne].
    + rewrite Ho0 in Ho. injection Ho as <-. exists st'. rewrite lookup_insert_eq. split_and!; [done|congruence..|]. intros Htorn. destruct ok.
      * destruct (Hyes eq_refl) as (_ & Heq & _). eapply evictor_kept; [done|congruence|]. apply Ht. congruence.
      * exists i, (goto (Evicting s) t). by rewrite lookup_insert_eq.
    + exists st. rewrite lookup_insert_ne by done. split_and!; try done. intros Htorn. eapply evictor_kept; [done|congruence|auto].
  - intros y st [[<- <-]|[_ Hy]]%lookup_insert_Some Htorn; [|eauto]. destruct ok; [|by destruct (Hno eq_refl); congruence].
    destruct (Hyes eq_refl) as (-> & Heq & ->). rewrite wires_snoc. f_equal. apply (Hcl s); [done|congruence].
  - intros y Hy. destruct ok; cbn in Hy; [done|]. subst y. rewrite lookup_insert_eq. exists st'. cbn. split; [done|congruence].
  - intros j z y st Hj Hne Hz Ho Hd Ht. destruct (Hdi j z y Hj Hz) as (_ & Hs & Hu).
    assert (y ≠ s) as Hys by (intros ->; apply Hne; symmetry; eapply Hu; [exact Hi|by rewrite Hpc]).
    rewrite lookup_insert_ne by done. split; [eauto|]. split; [done|]. destruct ok; cbn; [auto|congruence].
  - by destruct ok.
  - intros y st [[<- <-]|[Hne Hy]]%lookup_insert_Some Hd.
    + destruct (Hke s st0 Ho0 ltac:(congruence)) as [Hq|Hk]; [left; by rewrite Hpeer|]. right. eapply kept_by_others; [done| |exact Hk]. rewrite Hpc. naive_solver.
    + destruct (Hke y st Hy Hd) as [?|Hk]; [auto|]. right. eapply kept_by_others; [done| |exact Hk]. rewrite Hpc. naive_solver.
  - destruct ok; [|done]. intros _. exists s, st'. cbn [goto t_peer t_msg]. rewrite lookup_insert_eq. destruct (Hyes eq_refl) as [-> _].
    split_and!; [done|congruence|]. apply elem_of_app. right. by left.
  - auto.
  - by destruct ok.
Qed.

Lemma inv_evict sys i t s :
  inv sys → threads sys !! i = Some t → t_pc t = Evicting s →
  inv (mkSystem (evictStream (t_peer t) s (proto sys)) (<[i := goto (Resetting s) t]> (threads sys))).
Proof.
  intros Hinv Hi Hpc. pose proof Hinv as [Hfr Hca Hcl Hre Hdi Hke Hse Hrs]. destruct (Hre i t s Hi ltac:(by rewrite Hpc)) as (st0 & Ho0 & Hp0).
  set (p' := evictStream (t_peer t) s (proto sys)).
  assert (opened p' = opened (proto sys) ∧ next p' = next (proto sys)) as [Hop Hnx] by (unfold p', evictStream; repeat case_match; done).
  assert (∀ q y, streams p' !! q = Some y → streams (proto sys) !! q = Some y ∧ y ≠ s) as Hsub.
  { intros q y Hq. assert (streams (proto sys) !! q = Some y) as Hq0.
    { unfold p', evictStream in Hq. repeat case_match; try done. cbn in Hq. by apply lookup_delete_Some in Hq as [_ Hq]. }
    split; [done|]. intros ->. destruct (Hca q s Hq0) as (st & Ho & Hpq & _). assert (q = t_peer t) as -> by congruence.
    unfold p', evictStream in Hq. rewrite Hq0, Nat.eqb_refl in Hq. cbn in Hq. by rewrite lookup_delete_eq in Hq. }
  assert (∀ q y, streams (proto sys) !! q = Some y → y ≠ s → streams p' !! q = Some y) as Hsup.
  { intros q y Hq Hne. unfold p', evictStream. destruct (streams (proto sys) !! t_peer t) as [cur|] eqn:Hcur; [|done].
    destruct (Nat.eqb_spec cur s) as [->|]; [|done]. cbn. rewrite lookup_delete_ne; [done|]. congruence. }
  constructor; cbn [proto threads]; [| | |apply advance_refs|apply advance_dialled| |apply advance_sent|apply advance_resetting]; try done; rewrite ?Hop, ?Hnx; try done; try (by apply evolves_refl).
  - intros q y [Hq Hne]%Hsub. destruct (Hca q y Hq) as (st & Ho & ? & ? & Ht). exists st. split_and!; try done.
    intros Htorn. eapply evictor_kept; [done|congruence|auto].
  - intros y Hy. cbn in Hy. subst y. eauto.
  - intros j z y st Hj Hne Hz Ho Hd Ht. destruct (Hdi j z y Hj Hz) as (_ & Hs & Hu). split; [eauto|]. split; [by intros q [Hq _]%Hsub; eapply Hs|].
    cbn. intros ->. apply Hne. symmetry. eapply Hu; [exact Hi|by rewrite Hpc].
  - intros y st Hy Hd. destruct (decide (y = s)) as [->|Hne]; [right; right; exists i, (goto (Resetting s) t); rewrite lookup_insert_eq; auto|].
    destruct (Hke y st Hy Hd) as [?|Hk]; [auto|]. right. eapply kept_by_others; [done| |exact Hk]. rewrite Hpc. naive_solver.
  - intros q y [Hq _]%Hsub. auto.
  - intros y q [= <-] [_ Hne]%Hsub. done.
Qed.

Lemma inv_reset sys i t s :
  inv sys → threads sys !! i = Some t → t_pc t = Resetting s → (∀ q, streams (proto sys) !! q ≠ Some s) →
  inv (mkSystem (Reset s (proto sys)) (<[i := goto NotSent t]> (threads sys))).
Proof.
  intros Hinv Hi Hpc Hnot. pose proof Hinv as [Hfr Hca Hcl Hre Hdi Hke Hse Hrs]. destruct (Hre i t s Hi ltac:(by rewrite Hpc)) as (st0 & Ho0 & Hp0).
  constructor; cbn [proto threads]; [| | |apply advance_refs|apply advance_dialled| |apply advance_sent|apply advance_resetting]; try done; cbn [Reset set_opened opened streams next];
    try (by apply (evolves_alter sys s kill kill_same)).
  - intros y Hy. apply Hfr. destruct (decide (y = s)) as [->|]; [done|]. by rewrite lookup_alter_ne in Hy.
  - intros q y Hq. destruct (Hca q y Hq) as (st & Ho & ? & ? & Ht). exists st. rewrite lookup_alter_ne by (intros ->; by destruct (Hnot q)). split_and!; try done.
    intros Htorn. eapply evictor_kept; [done|congruence|auto].
  - intros y st Hy. destruct (decide (y = s)) as [->|]; [|rewrite lookup_alter_ne in Hy by done; eauto].
    rewrite lookup_alter_eq, Ho0 in Hy. injection Hy as <-. cbn. eauto.
  - intros j z y st Hj Hne Hz Ho Hd Ht. destruct (Hdi j z y Hj Hz) as (_ & Hs & Hu).
    assert (y ≠ s) as Hys by (intros ->; apply Hne; symmetry; eapply Hu; [exact Hi|by rewrite Hpc]).
    rewrite lookup_alter_ne by done. split; [eauto|]. split; [done|]. cbn. auto.
  - intros y st Hy Hd. destruct (decide (y = s)) as [->|Hys]; [rewrite lookup_alter_eq, Ho0 in Hy; by simplify_eq/=|].
    rewrite lookup_alter_ne in Hy by done. destruct (Hke y st Hy Hd) as [?|Hk]; [auto|]. right. eapply kept_by_others; [done| |exact Hk]. rewrite Hpc. naive_solver.
  - auto.
Qed.

Lemma close_lookup (l : list nat) (o : gmap nat Stream) s :
  foldr (alter kill) o l !! s = (if decide (s ∈ l) then kill else id) <$> o !! s.
Proof.
  induction l as [|x l IH]; cbn [foldr]; [rewrite decide_False by apply not_elem_of_nil; by rewrite option_fmap_id|].
  destruct (decide (s = x)) as [->|Hne].
  - rewrite lookup_alter_eq, IH, (decide_True (P := x ∈ x :: l)) by by left. destruct (o !! x); [|done]. cbn. by case_decide.
  - rewrite lookup_alter_ne, IH by done. repeat case_decide; try done; set_solver.
Qed.

Lemma inv_close sys : inv sys → inv (mkSystem (Close (proto sys)) (threads sys)).
Proof.
  intros [Hfr Hca Hcl Hre Hdi Hke Hse Hrs]. set (l := (map_to_list (streams (proto sys))).*2).
  assert (∀ s, s ∈ l ↔ ∃ q, streams (proto sys) !! q = Some s) as Hl.
  { intros s. unfold l. rewrite list_elem_of_fmap. split.
    - intros ([q x] & -> & Hq%elem_of_map_to_list). eauto.
    - intros [q Hq]. exists (q, s). split; [done|]. by apply elem_of_map_to_list. }
  assert (∀ s st', opened (Close (proto sys)) !! s = Some st' → ∃ st, opened (proto sys) !! s = Some st ∧ (st' = st ∧ s ∉ l ∨ st' = kill st)) as Hback.
  { intros s st'. cbn [Close opened]. fold l. rewrite close_lookup. intros (st & -> & Hst)%fmap_Some. exists st. split; [done|]. case_decide; auto. }
  assert (∀ s st, opened (proto sys) !! s = Some st → ∃ st', opened (Close (proto sys)) !! s = Some st' ∧ s_peer st' = s_peer st ∧ s_msgs st' = s_msgs st) as Hfwd.
  { intros s st Hs. cbn [Close opened]. rewrite close_lookup, Hs. eexists. split; [done|]. by case_decide. }
  constructor; cbn [proto threads]; try (intros *; cbn [Close streams]; rewrite lookup_empty; done).
  - intros s [st (x & Hx & _)%Hback]. apply Hfr. eauto.
  - intros s st (x & Hx & [[-> _]| ->])%Hback; cbn; eauto.
  - intros i t s Hi Hr. destruct (Hre i t s Hi Hr) as (st & Hs & Hp). destruct (Hfwd s st Hs) as (st' & Hs' & Hp' & _). exists st'. split; [done|congruence].
  - intros i t s Hi Hpc. destruct (Hdi i t s Hi Hpc) as ((st & Hs & Hd & Ht) & Hn & Hu). split_and!; [|intros q; cbn [Close streams]; by rewrite lookup_empty|done].
    exists st. split; [|done]. cbn [Close opened]. fold l. rewrite close_lookup, decide_False, Hs; [done|]. intros [q Hq]%Hl. by eapply Hn.
  - intros s st (x & Hx & [[-> Hnl]| ->])%Hback Hd; [|done]. right. destruct (Hke s x Hx Hd) as [Hq|?]; [|done]. destruct Hnl. apply Hl. eauto.
  - intros i t Hi Hpc. destruct (Hse i t Hi Hpc) as (s & st & Hs & Hp & Hm). destruct (Hfwd s st Hs) as (st' & Hs' & Hp' & Hm'). exists s, st'.
    split_and!; [done|congruence|by rewrite Hm'].
Qed.

Lemma streams_step_inv sys sys' : step sys sys' → inv sys → inv sys'.
Proof.
  intros Hstep Hinv. destruct Hstep as [i q m sys Hi|i t dial w t' p' sys Hi Hadv|sys]; [| |by apply inv_close].
  - apply inv_silent; try done. intros t s. by rewrite Hi.
  - unfold advance in Hadv. destruct (t_pc t) as [| |s|s|s|s| |] eqn:Hpc.
    + injection Hadv as <- <-. destruct (streams (proto sys) !! t_peer t) as [s|] eqn:Hs; apply inv_silent; try done; try (intros x y; rewrite Hi; intros [= <-]; by rewrite Hpc).
      intros y <-. done.
    + destruct dial; [|injection Hadv as <- <-; apply inv_silent; try done; intros x y; rewrite Hi; intros [= <-]; by rewrite Hpc].
      pose proof (inv_dial sys i t Hinv Hi Hpc) as Hd. destruct (newStream _ _) as [s p1]. by injection Hadv as <- <-.
    + pose proof (inv_install sys i t s Hinv Hi Hpc) as Hd. destruct (install _ _ _) as [x p1]. by injection Hadv as <- <-.
    + pose proof (inv_send sys i t s w Hinv Hi Hpc) as Hd. destruct (sendOn _ _ _ _) as [ok p1]. by injection Hadv as <- <-.
    + injection Hadv as <- <-. by apply inv_evict.
    + injection Hadv as <- <-. apply inv_reset; try done. intros q. by eapply (i_resetting _ Hinv).
    + injection Hadv as <- <-. rewrite insert_id by done. by destruct sys.
    + injection Hadv as <- <-. rewrite insert_id by done. by destruct sys.
Qed.

Lemma streams_reachable_inv sys : rtc step init sys → inv sys.
Proof. apply (rtc_ind_r inv init inv_init). intros x y _ Hs Hi. by eapply streams_step_inv. Qed.

(** C38: in every interleaving of any number of sends, evictions and closings, with any
    dial and any write failing: the stream cached for a peer leads to that peer and was
    not reset or closed by this side (the other side may have reset it, which shows as
    the failure of the next write); unless one of its senders is about to evict it, it
    carries exactly the messages that were written to it, and the decode loop, when it
    reads all of it, gives these messages and nothing else, provided they are
    well-formed and their hashes have at most 1024 bytes, the most that is decoded; a
    stream whose write failed is out of the cache before it is reset; a send that
    returned without error has written its message completely to a stream to its peer;
    and once every call has returned, a stream is either cached, and every write to it
    was whole, or was reset or closed. *)
Theorem fleet_streams sys :
  rtc step init sys →
  (∀ q s, streams (proto sys) !! q = Some s → ∃ st, opened (proto sys) !! s = Some st ∧ s_peer st = q ∧ s_dead st = false ∧
     ((∀ i t, threads sys !! i = Some t → t_pc t ≠ Evicting s) →
        s_bytes st = wires (s_msgs st) ∧
        (Forall (λ m, wf_message m ∧ (String.length (Hash m) <= 1024)%nat) (s_msgs st) → (handleStream (S (String.length (s_bytes st))) (s_bytes st)).1 = s_msgs st))) ∧
  (∀ i t s q, threads sys !! i = Some t → t_pc t = Resetting s → streams (proto sys) !! q ≠ Some s) ∧
  (∀ i t, threads sys !! i = Some t → t_pc t = Sent →
     ∃ s st, opened (proto sys) !! s = Some st ∧ s_peer st = t_peer t ∧ t_msg t ∈ s_msgs st) ∧
  ((∀ i t, threads sys !! i = Some t → t_pc t = Sent ∨ t_pc t = NotSent) →
     ∀ s st, opened (proto sys) !! s = Some st → s_dead st = true ∨ (streams (proto sys) !! s_peer st = Some s ∧ s_torn st = false)).
Proof.
  intros Hr%streams_reachable_inv. pose proof Hr as [Hfr Hca Hcl Hre Hdi Hke Hse Hrs]. split_and!; [|done|done|].
  - intros q s Hq. destruct (Hca q s Hq) as (st & Ho & Hp & Hd & Ht). exists st. split_and!; try done. intros Hno.
    assert (s_torn st = false) as Htorn.
    { destruct (s_torn st); [|done]. destruct (Ht eq_refl) as (i & t & Hi & Hpc). by destruct (Hno i t Hi). }
    pose proof (Hcl s st Ho Htorn) as Hb. split; [done|]. intros Hs. rewrite Hb at 2. rewrite <- (str_app_nil_r (wires (s_msgs st))) at 1.
    apply handleStream_wires; [done|rewrite str_app_nil_r, Hb; lia|by eexists].
  - intros Hquiet s st Ho. destruct (s_dead st) eqn:Hd; [auto|]. right.
    destruct (Hke s st Ho Hd) as [Hq|[(i & t & Hi & Hpc)|(i & t & Hi & Hpc)]]; [|destruct (Hquiet i t Hi); naive_solver congruence..].
    split; [done|]. destruct (Hca _ _ Hq) as (st' & Ho' & _ & _ & Ht). assert (st' = st) as -> by congruence.
    destruct (s_torn st); [|done]. destruct (Ht eq_refl) as (i & t & Hi & Hpc). destruct (Hquiet i t Hi); congruence.
Qed.

(** ** Calls one after the other *)

(** The steps a call has left at most. *)
Definition left_ (pc : PC) : nat :=
  match pc with Looking => 6 | Dialling => 5 | Dialled _ => 4 | Holding _ => 3 | Evicting _ => 2 | Resetting _ => 1 | Sent | NotSent => 0 end.

Lemma advance_left dial w t p : left_ (t_pc t) ≠ 0%nat →
  let '(t', p') := advance dial w t p in (left_ (t_pc t') < left_ (t_pc t))%nat ∧ t_peer t' = t_peer t ∧ t_msg t' = t_msg t.
Proof.
  intros Hl. unfold advance, newStream, install, sendOn, send. destruct (t_pc t) eqn:Hpc; cbn [left_] in *; try done; repeat case_match; simplify_eq; cbn; lia || (split; [lia|done]).
Qed.

(** A call that is not interrupted is a run of the system, and ends. *)
Lemma runThread_steps fuel dial w i t sys :
  threads sys !! i = Some t → (left_ (t_pc t) <= fuel)%nat →
  let '(ok, p') := runThread fuel dial w t (proto sys) in
  ∃ t', rtc step sys (mkSystem p' (<[i := t']> (threads sys))) ∧ t_pc t' = (if ok then Sent else NotSent) ∧ t_peer t' = t_peer t ∧ t_msg t' = t_msg t.
Proof.
  assert (∀ sys t, threads sys !! i = Some t → rtc step sys (mkSystem (proto sys) (<[i := t]> (threads sys)))) as Hstay.
  { intros [p ts] x Hx. cbn in *. by rewrite insert_id. }
  revert t sys. induction fuel as [|fuel IH]; intros t sys Hi Hl.
  { destruct (t_pc t) eqn:Hpc; cbn [left_] in Hl; try lia; cbn [runThread]; rewrite Hpc; exists t; auto. }
  cbn [runThread]. destruct (decide (left_ (t_pc t) = 0)%nat) as [Hz|Hz].
  { destruct (t_pc t) eqn:Hpc; cbn [left_] in Hz; try done; exists t; auto. }
  pose proof (advance_left dial w t (proto sys) Hz) as Hadv. destruct (advance dial w t (proto sys)) as [t1 p1] eqn:Ha. destruct Hadv as (Hlt & Hp & Hm).
  specialize (IH t1 (mkSystem p1 (<[i := t1]> (threads sys)))). cbn [proto threads] in IH. rewrite lookup_insert_eq in IH. specialize (IH eq_refl ltac:(lia)).
  assert (step sys (mkSystem p1 (<[i := t1]> (threads sys)))) as Hs by by eapply SAdvance.
  destruct (t_pc t) eqn:Hpc; cbn [left_] in Hz; try done; destruct (runThread fuel dial w t1 p1) as [ok p']; destruct IH as (t' & Hrun & Hok & Hp' & Hm');
    rewrite insert_insert_eq in Hrun; exists t'; (split; [by eapply rtc_l|]); split_and!; congruence.
Qed.

Lemma SendMessage_steps dial w q m sys :
  let '(ok, p') := SendMessage dial w q m (proto sys) in
  ∃ ts, rtc step sys (mkSystem p' ts) ∧ (∀ i t, threads sys !! i = Some t → ts !! i = Some t) ∧
    ∃ i t, ts !! i = Some t ∧ t_pc t = (if ok then Sent else NotSent) ∧ t_peer t = q ∧ t_msg t = m.
Proof.
  set (i := fresh (dom (threads sys))). assert (threads sys !! i = None) as Hi by (apply not_elem_of_dom, is_fresh).
  pose proof (runThread_steps 6 dial w i (mkThread q m Looking) (mkSystem (proto sys) (<[i := mkThread q m Looking]> (threads sys)))) as Hrun.
  cbn [proto threads] in Hrun. rewrite lookup_insert_eq in Hrun. specialize (Hrun eq_refl ltac:(cbn; lia)). unfold SendMessage.
  destruct (runThread 6 dial w _ (proto sys)) as [ok p']. destruct Hrun as (t' & Hr & Hok & Hp & Hm). rewrite insert_insert_eq in Hr.
  exists (<[i := t']> (threads sys)). split; [eapply rtc_l; [by apply SCall|exact Hr]|]. split.
  - intros j t Hj. rewrite lookup_insert_ne; [done|congruence].
  - exists i, t'. by rewrite lookup_insert_eq.
Qed.

(** The peers that [BroadcastMessageTo] returns have the whole message on a stream to
    them, and it reports an error exactly when one is missing. *)
Lemma broadcast_sent dial w peers m sys :
  rtc step init sys →
  let '(sent, failed, p') := BroadcastMessageTo dial w peers m (proto sys) in
  (failed = false ↔ sent = peers) ∧ (length sent <= length peers)%nat ∧
  ∃ ts, rtc step sys (mkSystem p' ts) ∧ (∀ i t, threads sys !! i = Some t → ts !! i = Some t) ∧
    ∀ q, q ∈ sent → ∃ s st, opened p' !! s = Some st ∧ s_peer st = q ∧ m ∈ s_msgs st.
Proof.
  revert sys. induction peers as [|q peers IH]; intros sys Hreach; cbn [BroadcastMessageTo].
  { split; [done|]. split; [done|]. exists (threads sys). split; [by destruct sys|]. split; [done|]. intros q Hq. by apply elem_of_nil in Hq. }
  pose proof (SendMessage_steps (dial q) (w q) q m sys) as Hs. destruct (SendMessage (dial q) (w q) q m (proto sys)) as [ok p1].
  destruct Hs as (ts1 & Hr1 & Hk1 & i & t & Hi & Hpc & Hp & Hm).
  specialize (IH (mkSystem p1 ts1) ltac:(by etrans)). cbn [proto threads] in IH. destruct (BroadcastMessageTo dial w peers m p1) as [[sent failed] p2].
  destruct IH as (Hiff & Hlen & ts2 & Hr2 & Hk2 & Hall). split; [|split; [destruct ok; cbn; lia|]].
  - destruct ok; cbn [negb orb]; [rewrite Hiff; naive_solver|]. split; [done|]. intros ->. cbn in Hlen. lia.
  - exists ts2. split; [by etrans|]. split; [auto|]. intros x Hx. destruct ok; [|by apply Hall]. apply elem_of_cons in Hx as [->|Hx]; [|by apply Hall].
    assert (rtc step init (mkSystem p2 ts2)) as Hreach2 by (etrans; [exact Hreach|]; by etrans).
    destruct (i_sent _ (streams_reachable_inv _ Hreach2) i t (Hk2 i t Hi) Hpc) as (s & st & Ho & Hp' & Hm'). exists s, st. split_and!; [done|congruence..].
Qed.

(** ** Evaluations *)

(** Runs the given calls step by step. *)
Fixpoint schedule (l : list (nat * option (string → Sink))) (sys : System) : System :=
  match l with
  | [] => sys
  | (i, w) :: l =>
      match threads sys !! i with
      | Some t => let '(t, p) := advance true w t (proto sys) in schedule l (mkSystem p (<[i := t]> (threads sys)))
      | None => schedule l sys
      end
  end.

Definition want : Message := wantMessage "aaaa" 100 7.
Definition have : Message := haveMessage "bbbb" 100.
Definition taken : option (string → Sink) := Some all_taken.
(** The deadline passes while the hash is written. *)
Definition stalls : option (string → Sink) := Some (λ _ b, if String.eqb b "aaaa" then Some 2%nat else None).
Definition two_calls : System := mkSystem NewProtocol {[ 1%nat := mkThread "B" want Looking; 2%nat := mkThread "B" have Looking ]}.

(** The second sender has the stream in its hands when the write of the first stops
    half way; it writes its message behind the torn one before the stream is
    evicted, its send succeeds, and the other end decodes one message that nobody
    sent. *)
Example torn_then_used :
  let sys := schedule [(1, taken); (1, taken); (1, taken); (2, taken); (1, stalls); (2, taken)]%nat two_calls in
  (t_pc <$> threads sys !! 1%nat, t_pc <$> threads sys !! 2%nat,
   (λ st, let ms := (handleStream 100 (s_bytes st)).1 in (length ms, bool_decide (have ∈ ms), bool_decide (want ∈ ms))) <$> opened (proto sys) !! 0%nat)
  = (Some (Evicting 0), Some Sent, Some (1%nat, false, false)).
Proof. vm_compute. reflexivity. Qed.

(** After the failure the next call dials a new stream. *)
Example next_call_dials :
  let '(_, p) := SendMessage true stalls "B" want NewProtocol in
  let '(ok, p) := SendMessage true taken "B" have p in
  (ok, streams p !! "B", s_dead <$> opened p !! 0%nat, s_msgs <$> opened p !! 1%nat) = (true, Some 1%nat, Some true, Some [have]).
Proof. vm_compute. reflexivity. Qed.

Lemma fleet_streams_witness :
  ∃ sys s st, rtc step init sys ∧ streams (proto sys) !! "B" = Some s ∧ opened (proto sys) !! s = Some st ∧ s_peer st = "B".
Proof.
  pose proof (SendMessage_steps true taken "B" want init) as Hs. destruct (SendMessage true taken "B" want (proto init)) as [ok p'] eqn:Hrun.
  destruct Hs as (ts & Hr & _). vm_compute in Hrun. injection Hrun as <- <-.
  exists (mkSystem (mkProtocol true {[ "B" := 0%nat ]} {[ 0%nat := mkStream "B" (wire want) false [want] false ]} 1) ts), 0%nat.
  destruct (fleet_streams _ Hr) as (Hc & _). destruct (Hc "B" 0%nat eq_refl) as (st & Ho & Hp & _). exists st. split; [exact Hr|]. split; [reflexivity|]. split; [exact Ho|exact Hp].
Defined.
End FleetProtoSys.
