(* ===== verification/DlState.v ===== *)
(** * internal/downloader/state.go: resumable download state

    The [downloads] and [download_chunks] tables of the state database and the
    operations of [StateManager] on them.  A statement may fail ([db]); a failed
    statement inside a transaction rolls the whole transaction back.  Whether
    SQLite enforces foreign keys on the connection ([fk]) is a parameter: the
    schema declares ON DELETE CASCADE, which acts only when enforcement is on. *)

From S2P Require Import Prelude GoStd Sql.
Open Scope Z_scope.
Open Scope go_scope.

Module DlState.

(** ** The chunk grid *)

(** [int((size + chunkSize - 1) / chunkSize)], in int64 arithmetic. *)
Definition totalChunks (size chunkSize : Z) : Z := Z.quot ((size +₆₄ chunkSize) -₆₄ 1) chunkSize.

Definition chunkStart (chunkSize i : Z) : Z := wrap64 (i * chunkSize).

Definition chunkEnd (size chunkSize i : Z) : Z :=
  let e := chunkStart chunkSize i +₆₄ chunkSize in
  if size <? e then size else e.

(** The indices of [for i := 0; i < n; i++]. *)
Definition indices (n : Z) : list Z := seqZ 0 n.

(** ** Tables *)

Record DRow := mkDRow {
  d_url : string; d_expected_size : Z;
  d_completed_size : option Z;      (* a SUM over no rows is NULL *)
  d_chunk_size : Z; d_total_chunks : Z; d_status : string;
  d_created_at : Z; d_updated_at : Z; d_error : option string; d_retry_count : Z;
}.

Record CRow := mkCRow {
  c_start : Z; c_end : Z; c_status : string; c_completed_at : option Z;
}.

Record SM := mkSM {
  downloads : gmap string DRow;
  download_chunks : gmap (string * Z) CRow;    (* PRIMARY KEY (download_id, chunk_index) *)
}.

Record ChunkState := mkChunkState { cs_Index : Z; cs_Start : Z; cs_End : Z; cs_Status : string; cs_CompletedAt : option Z }.

Record DownloadState := mkDownloadState {
  s_ID : string; s_URL : string; s_ExpectedSize : Z; s_CompletedSize : Z; s_ChunkSize : Z; s_TotalChunks : Z;
  s_Status : string; s_CreatedAt : Z; s_UpdatedAt : Z; s_Error : string; s_RetryCount : Z;
  s_Chunks : list ChunkState;
}.

Inductive SmErr := EDb | EConstraint | EScan | ENotFailed.

Inductive stmt := StBegin | StInsert | StPrepare | StInsertChunk (i : Z) | StCommit | StSelect | StQuery
| StScan (i : Z) | StRowsErr | StUpdate | StUpdateChunk | StUpdateSize | StDelete | StDeleteChunks.

Record Env := mkEnv { nowNano : Z; db : stmt → bool }.

(** [time.Now().Unix()] and [time.Now().Add(-maxAge).Unix()]. *)
Definition now (ev : Env) : Z := nowNano ev / 10^9.
Definition cutoff (ev : Env) (maxAge : Z) : Z := (nowNano ev - maxAge) / 10^9.

Section state.
Context `{SqlOrder}.

(** ** Operations *)

Definition set_downloads d (sm : SM) : SM := mkSM d (download_chunks sm).
Definition set_chunks c (sm : SM) : SM := mkSM (downloads sm) c.

(** The chunk inserts of [CreateDownload]; a duplicate key is a constraint
    violation. *)
Fixpoint insertChunks (ev : Env) (hash : string) (size cs : Z) (ixs : list Z) (t : gmap (string * Z) CRow)
  : res SmErr (gmap (string * Z) CRow) :=
  match ixs with
  | [] => Ok t
  | i :: rest =>
      if negb (db ev (StInsertChunk i)) then Err EDb
      else match t !! (hash, i) with
           | Some _ => Err EConstraint
           | None => insertChunks ev hash size cs rest
                       (<[(hash, i) := mkCRow (chunkStart cs i) (chunkEnd size cs i) "pending" None]> t)
           end
  end.

Definition CreateDownload (ev : Env) (hash url : string) (size cs : Z) (sm : SM) : res SmErr unit * SM :=
  if negb (db ev StBegin) then (Err EDb, sm)
  else if negb (db ev StInsert) then (Err EDb, sm)
  else match downloads sm !! hash with
  | Some _ => (Err EConstraint, sm)
  | None =>
      if negb (db ev StPrepare) then (Err EDb, sm)
      else match insertChunks ev hash size cs (indices (totalChunks size cs)) (download_chunks sm) with
      | Err e => (Err e, sm)
      | Ok t =>
          if db ev StCommit
          then (Ok tt, mkSM (<[hash := mkDRow url size (Some 0) cs (totalChunks size cs) "pending"
                                         (now ev) (now ev) None 0]> (downloads sm)) t)
          else (Err EDb, sm)
      end
  end.

(** [WHERE download_id = hash ORDER BY chunk_index]. *)
Definition index_le (a b : (string * Z) * CRow) : bool := a.1.2 <=? b.1.2.

Definition chunks_of (hash : string) (sm : SM) : list ((string * Z) * CRow) :=
  sql_order index_le (List.filter (λ kv, String.eqb kv.1.1 hash) (map_to_list (download_chunks sm))).

Definition scanChunk (kv : (string * Z) * CRow) : ChunkState :=
  mkChunkState kv.1.2 (c_start kv.2) (c_end kv.2) (c_status kv.2) (c_completed_at kv.2).

Definition GetDownload (ev : Env) (hash : string) (sm : SM) : res SmErr (option DownloadState) :=
  if negb (db ev StSelect) then Err EDb
  else match downloads sm !! hash with
  | None => Ok None
  | Some r =>
      match d_completed_size r with
      | None => Err EScan
      | Some n =>
          if negb (db ev StQuery) then Err EDb
          else
            let rows := chunks_of hash sm in
            if negb (forallb (λ kv, db ev (StScan kv.1.2)) rows) then Err EScan
            else if negb (db ev StRowsErr) then Err EDb
            else Ok (Some (mkDownloadState hash (d_url r) (d_expected_size r) n (d_chunk_size r) (d_total_chunks r)
                       (d_status r) (d_created_at r) (d_updated_at r) (default "" (d_error r)) (d_retry_count r)
                       (scanChunk <$> rows)))
      end
  end.

(** The loop that loads each selected download. *)
Fixpoint loadAll (ev : Env) (hashes : list string) (sm : SM) : res SmErr (list DownloadState) :=
  match hashes with
  | [] => Ok []
  | h :: rest =>
      match GetDownload ev h sm with
      | Err e => Err e
      | Ok o =>
          match loadAll ev rest sm with
          | Err e => Err e
          | Ok l => Ok (match o with Some s => s :: l | None => l end)
          end
      end
  end.

Definition GetPendingDownloads (ev : Env) (sm : SM) : res SmErr (list DownloadState) :=
  if negb (db ev StQuery) then Err EDb
  else loadAll ev (select_order (λ r, String.eqb (d_status r) "pending" || String.eqb (d_status r) "in_progress")
                     (λ a b, d_created_at b.2 <=? d_created_at a.2) (downloads sm)).*1 sm.

Definition with_status (st : string) (t : Z) (r : DRow) : DRow :=
  mkDRow (d_url r) (d_expected_size r) (d_completed_size r) (d_chunk_size r) (d_total_chunks r) st
         (d_created_at r) t (d_error r) (d_retry_count r).

Definition UpdateDownloadStatus (ev : Env) (hash st : string) (sm : SM) : res SmErr unit * SM :=
  if db ev StUpdate then (Ok tt, set_downloads (alter (with_status st (now ev)) hash (downloads sm)) sm)
  else (Err EDb, sm).

(** [SELECT SUM(end_offset - start_offset) ... status = 'completed']. *)
Definition completedRows (hash : string) (t : gmap (string * Z) CRow) : gmap (string * Z) CRow :=
  filter (λ kv, kv.1.1 = hash ∧ c_status kv.2 = "completed") t.

Definition sumCompleted (hash : string) (t : gmap (string * Z) CRow) : option Z :=
  if decide (completedRows hash t = ∅) then None
  else Some (sum_map (λ r, c_end r - c_start r) (completedRows hash t)).

Definition with_completed (n : option Z) (t : Z) (r : DRow) : DRow :=
  mkDRow (d_url r) (d_expected_size r) n (d_chunk_size r) (d_total_chunks r) (d_status r)
         (d_created_at r) t (d_error r) (d_retry_count r).

Definition UpdateChunk (ev : Env) (hash : string) (index : Z) (st : string) (sm : SM) : res SmErr unit * SM :=
  if negb (db ev StBegin) then (Err EDb, sm)
  else if negb (db ev StUpdateChunk) then (Err EDb, sm)
  else
    let completed := String.eqb st "completed" in
    let t := alter (λ r, mkCRow (c_start r) (c_end r) st (if completed then Some (now ev) else None))
                   (hash, index) (download_chunks sm) in
    if completed then
      if negb (db ev StUpdateSize) then (Err EDb, sm)
      else if db ev StCommit
           then (Ok tt, mkSM (alter (with_completed (sumCompleted hash t) (now ev)) hash (downloads sm)) t)
           else (Err EDb, sm)
    else if db ev StCommit then (Ok tt, set_chunks t sm) else (Err EDb, sm).

Definition CompleteDownload (ev : Env) (hash : string) (sm : SM) : res SmErr unit * SM :=
  UpdateDownloadStatus ev hash "completed" sm.

Definition FailDownload (ev : Env) (hash errMsg : string) (sm : SM) : res SmErr unit * SM :=
  if db ev StUpdate
  then (Ok tt, set_downloads (alter (λ r,
          mkDRow (d_url r) (d_expected_size r) (d_completed_size r) (d_chunk_size r) (d_total_chunks r) "failed"
                 (d_created_at r) (now ev) (Some errMsg) (d_retry_count r)) hash (downloads sm)) sm)
  else (Err EDb, sm).

Definition deleteChunks (hash : string) (t : gmap (string * Z) CRow) : gmap (string * Z) CRow :=
  filter (λ kv, kv.1.1 ≠ hash) t.

Definition DeleteDownload (ev : Env) (hash : string) (sm : SM) : res SmErr unit * SM :=
  if db ev StBegin && db ev StDeleteChunks && db ev StDelete && db ev StCommit
  then (Ok tt, mkSM (delete hash (downloads sm)) (deleteChunks hash (download_chunks sm)))
  else (Err EDb, sm).

Definition isStale (cutoff : Z) (r : DRow) : bool :=
  (String.eqb (d_status r) "pending" || String.eqb (d_status r) "in_progress" || String.eqb (d_status r) "failed")
  && (d_updated_at r <? cutoff).

(** The rows a cascade removes are the chunks of the deleted downloads. *)
Definition CleanupStale (fk : bool) (ev : Env) (maxAge : Z) (sm : SM) : res SmErr Z * SM :=
  let cutoff := cutoff ev maxAge in
  if db ev StDelete then
    let stale := filter (λ kv, isStale cutoff kv.2 = true) (downloads sm) in
    (Ok (Z.of_nat (size stale)),
     mkSM (filter (λ kv, isStale cutoff kv.2 = false) (downloads sm))
          (if fk then filter (λ kv, stale !! kv.1.1 = None) (download_chunks sm) else download_chunks sm))
  else (Err EDb, sm).

Definition GetPendingChunks (ev : Env) (hash : string) (sm : SM) : res SmErr (list ChunkState) :=
  if negb (db ev StQuery) then Err EDb
  else
    let rows := List.filter (λ kv, negb (String.eqb (c_status kv.2) "completed")) (chunks_of hash sm) in
    if negb (forallb (λ kv, db ev (StScan kv.1.2)) rows) then Err EScan
    else if negb (db ev StRowsErr) then Err EDb
    else Ok ((λ kv, mkChunkState kv.1.2 (c_start kv.2) (c_end kv.2) (c_status kv.2) None) <$> rows).

Definition GetRetryableDownloads (ev : Env) (maxRetries maxAge : Z) (sm : SM) : res SmErr (list DownloadState) :=
  if negb (db ev StQuery) then Err EDb
  else loadAll ev (select_order
         (λ r, String.eqb (d_status r) "failed" && (d_retry_count r <? maxRetries) && (cutoff ev maxAge <? d_updated_at r))
         (λ a b, d_updated_at a.2 <=? d_updated_at b.2) (downloads sm)).*1 sm.

Definition MarkForRetry (ev : Env) (hash : string) (sm : SM) : res SmErr unit * SM :=
  if negb (db ev StBegin) then (Err EDb, sm)
  else if negb (db ev StUpdate) then (Err EDb, sm)
  else match downloads sm !! hash with
  | Some r =>
      if String.eqb (d_status r) "failed" then
        if db ev StUpdateChunk && db ev StCommit then
          (Ok tt,
           mkSM (<[hash := mkDRow (d_url r) (d_expected_size r) (d_completed_size r) (d_chunk_size r)
                    (d_total_chunks r) "pending" (d_created_at r) (now ev) None (d_retry_count r + 1)]> (downloads sm))
                (map_imap (λ k c, Some (if String.eqb k.1 hash && negb (String.eqb (c_status c) "completed")
                                        then mkCRow (c_start c) (c_end c) "pending" None else c))
                          (download_chunks sm)))
        else (Err EDb, sm)
      else (Err ENotFailed, sm)
  | None => (Err ENotFailed, sm)
  end.

Definition IncrementRetryCount (ev : Env) (hash : string) (sm : SM) : res SmErr unit * SM :=
  if db ev StUpdate
  then (Ok tt, set_downloads (alter (λ r,
          mkDRow (d_url r) (d_expected_size r) (d_completed_size r) (d_chunk_size r) (d_total_chunks r) (d_status r)
                 (d_created_at r) (now ev) (d_error r) (d_retry_count r + 1)) hash (downloads sm)) sm)
  else (Err EDb, sm).
End state.
End DlState.
