(* ===== verification/DlStateSys.v ===== *)
(** * Properties of the download state

    The chunk grid partitions the file; a created download reads back as it was
    created; each download has the rows of its grid and counts the completed ones,
    foreign keys or not; and what depends on SQLite enforcing them. *)

From S2P Require Import Prelude GoStd Sql DlState.
Open Scope Z_scope.
Open Scope go_scope.

Module DlStateSys.
Import DlState.

(** ** The grid *)

Section grid.
Context (size cs : Z).

(** A positive size and chunk size whose sum is an int64. *)
Definition grid_ok : Prop := 0 < size ∧ 0 < cs ∧ size + cs < 2^63.

Context (Hok : grid_ok).

Lemma totalChunks_eq : totalChunks size cs = (size + cs - 1) / cs.
Proof.
  destruct Hok as (? & ? & ?). unfold totalChunks.
  rewrite wrap64_sub_l, wrap64_id by (unfold int64_range; lia). by rewrite Z.quot_div_nonneg by lia.
Qed.

Lemma totalChunks_bounds :
  1 <= totalChunks size cs ∧ (totalChunks size cs - 1) * cs < size <= totalChunks size cs * cs.
Proof.
  destruct Hok as (? & ? & ?). rewrite totalChunks_eq.
  pose proof (Z.div_mod (size + cs - 1) cs). pose proof (Z.mod_pos_bound (size + cs - 1) cs). nia.
Qed.

Lemma chunkStart_eq i : 0 <= i < totalChunks size cs → chunkStart cs i = i * cs.
Proof.
  intros Hi. destruct Hok as (? & ? & ?). destruct totalChunks_bounds.
  unfold chunkStart. apply wrap64_id. unfold int64_range. nia.
Qed.

Lemma chunkEnd_eq i : 0 <= i < totalChunks size cs → chunkEnd size cs i = Z.min size ((i + 1) * cs).
Proof.
  intros Hi. destruct Hok as (? & ? & ?). destruct totalChunks_bounds.
  unfold chunkEnd. rewrite chunkStart_eq by done.
  rewrite wrap64_id by (unfold int64_range; nia). destruct (_ <? _) eqn:?; blia.
Qed.

Lemma chunk_bounds i :
  0 <= i < totalChunks size cs →
  0 <= chunkStart cs i < chunkEnd size cs i ∧ chunkEnd size cs i <= size ∧
  chunkEnd size cs i - chunkStart cs i <= cs.
Proof.
  intros Hi. rewrite chunkStart_eq, chunkEnd_eq by done.
  destruct Hok as (? & ? & ?). destruct totalChunks_bounds. nia.
Qed.

Lemma elem_of_indices n i : i ∈ indices n ↔ 0 <= i < n.
Proof. unfold indices. rewrite elem_of_seqZ. lia. Qed.
End grid.

(** The chunk grid partitions the file: for every positive size and chunk
    size that do not overflow together, each byte offset lies in exactly one
    chunk of the [totalChunks] the code creates, and every chunk is non-empty,
    within the file and at most [chunkSize] long. *)
Theorem chunk_grid_partitions size cs x :
  grid_ok size cs → 0 <= x < size →
  (∃ i, i ∈ indices (totalChunks size cs) ∧ chunkStart cs i <= x < chunkEnd size cs i ∧
     (∀ j, j ∈ indices (totalChunks size cs) → chunkStart cs j <= x < chunkEnd size cs j → j = i)) ∧
  ∀ i, i ∈ indices (totalChunks size cs) →
    0 <= chunkStart cs i < chunkEnd size cs i ∧ chunkEnd size cs i <= size ∧
    chunkEnd size cs i - chunkStart cs i <= cs.
Proof.
  intros Hok Hx. pose proof Hok as (? & ? & ?). pose proof (totalChunks_bounds size cs Hok).
  pose proof (Z.div_mod x cs). pose proof (Z.mod_pos_bound x cs).
  assert (0 <= x / cs < totalChunks size cs) as Hi by nia.
  split; [|intros i Hi'%elem_of_indices; by apply chunk_bounds].
  exists (x / cs). rewrite elem_of_indices, chunkStart_eq with (size := size), chunkEnd_eq by done.
  split_and!; [lia..|]. intros j Hj%elem_of_indices.
  rewrite chunkStart_eq with (size := size), chunkEnd_eq by done. intros Hxj. nia.
Qed.

Lemma chunk_grid_witness :
  ∃ i, i ∈ indices (totalChunks 10 4) ∧ chunkStart 4 i <= 9 < chunkEnd 10 4 i ∧
     (∀ j, j ∈ indices (totalChunks 10 4) → chunkStart 4 j <= 9 < chunkEnd 10 4 j → j = i).
Proof.
  refine (proj1 (chunk_grid_partitions 10 4 9 _ _)); unfold grid_ok; lia.
Defined.

(** ** Creating and reading back *)
Section create.
Context `{SqlOrder}.

Lemma insertChunks_ok ev hash size cs ixs t :
  (∀ o, db ev o = true) → NoDup ixs → (∀ i, i ∈ ixs → t !! (hash, i) = None) →
  ∃ t', insertChunks ev hash size cs ixs t = Ok t' ∧
    ∀ h i, t' !! (h, i) = if decide (h = hash ∧ i ∈ ixs)
                          then Some (mkCRow (chunkStart cs i) (chunkEnd size cs i) "pending" None) else t !! (h, i).
Proof.
  intros Hdb. revert t. induction ixs as [|i ixs IH]; intros t Hnd Hfree; cbn [insertChunks].
  - exists t. split; [done|]. intros h j. rewrite decide_False; [done|].
    intros [_ Hin]. by apply not_elem_of_nil in Hin.
  - apply NoDup_cons in Hnd as [Hi Hnd]. rewrite Hdb, (Hfree i) by by left. cbn [negb].
    destruct (IH (<[(hash, i) := mkCRow (chunkStart cs i) (chunkEnd size cs i) "pending" None]> t) Hnd)
      as (t' & -> & Hl).
    { intros j Hj. rewrite lookup_insert_ne; [apply Hfree; by right|]. congruence. }
    exists t'. split; [done|]. intros h j. rewrite Hl, lookup_insert.
    destruct (decide (h = hash ∧ j ∈ ixs)) as [[-> Hj]|Hno].
    + rewrite decide_True; [done|]. split; [done|by right].
    + destruct (decide ((hash, i) = (h, j))) as [[= -> ->]|Hne].
      * rewrite decide_True; [done|]. split; [done|by left].
      * rewrite decide_False; [done|]. rewrite elem_of_cons. naive_solver.
Qed.

(** What [chunks_of] lists. *)
Lemma elem_of_chunks_of hash sm k r :
  (k, r) ∈ chunks_of hash sm ↔ k.1 = hash ∧ download_chunks sm !! k = Some r.
Proof.
  unfold chunks_of. rewrite sql_order_perm, list_elem_of_In, filter_In, <- list_elem_of_In.
  rewrite elem_of_map_to_list. cbn. rewrite String.eqb_eq. tauto.
Qed.

Lemma chunks_of_sorted hash sm : StronglySorted Z.le ((λ kv, kv.1.2) <$> chunks_of hash sm).
Proof.
  unfold chunks_of. assert (StronglySorted (λ x y, index_le x y = true)
    (sql_order index_le (List.filter (λ kv, String.eqb kv.1.1 hash) (map_to_list (download_chunks sm))))) as Hs'.
  { apply sql_order_sorted; unfold index_le; intros; rewrite ?Z.leb_le in *; lia. }
  induction Hs' as [|x l _ IH Hall]; cbn; constructor; [done|].
  apply Forall_fmap. eapply Forall_impl; [exact Hall|]. unfold index_le. cbn. intros y Hy. blia.
Qed.

Lemma chunks_of_NoDup hash sm : NoDup ((λ kv, kv.1.2) <$> chunks_of hash sm).
Proof.
  apply NoDup_fmap_2_strong.
  - intros [[h1 i1] r1] [[h2 i2] r2] [Heq1 Hl1]%elem_of_chunks_of [Heq2 Hl2]%elem_of_chunks_of Heq.
    cbn in *. subst. rewrite Hl1 in Hl2. congruence.
  - unfold chunks_of. rewrite sql_order_perm. apply NoDup_ListNoDup, List.NoDup_filter, NoDup_ListNoDup.
    apply NoDup_map_to_list.
Qed.

Lemma seqZ_sorted a n : StronglySorted Z.le (seqZ a n).
Proof.
  unfold seqZ. generalize (Z.to_nat n) as k. generalize 0%nat as b. intros b k. revert b.
  induction k as [|k IH]; intros b; cbn; constructor; [apply IH|].
  apply Forall_fmap, Forall_forall. intros x Hx%elem_of_seq. cbn. lia.
Qed.

(** The indices of a download's chunks, when they are [0 .. n-1]. *)
Lemma chunks_of_indices hash sm n :
  (∀ i, is_Some (download_chunks sm !! (hash, i)) ↔ 0 <= i < n) →
  ((λ kv, kv.1.2) <$> chunks_of hash sm) = indices n.
Proof.
  intros Hdom. apply (StronglySorted_unique Z.le).
  - apply chunks_of_sorted.
  - apply seqZ_sorted.
  - apply NoDup_Permutation; [apply chunks_of_NoDup|apply NoDup_seqZ|].
    intros i. rewrite elem_of_indices, <- Hdom, list_elem_of_fmap. split.
    + intros ([[h j] r] & -> & [Heq Hl]%elem_of_chunks_of). cbn in *. subst. eauto.
    + intros [r Hr]. exists ((hash, i), r). split; [done|]. by apply elem_of_chunks_of.
Qed.

(** No row of [hash] is left in either table. *)
Definition absent (hash : string) (sm : SM) : Prop :=
  downloads sm !! hash = None ∧ ∀ i, download_chunks sm !! (hash, i) = None.

Lemma CreateDownload_ok ev hash url size cs sm :
  (∀ o, db ev o = true) → absent hash sm →
  ∃ t, CreateDownload ev hash url size cs sm
       = (Ok tt, mkSM (<[hash := mkDRow url size (Some 0) cs (totalChunks size cs) "pending" (now ev) (now ev) None 0]>
                         (downloads sm)) t) ∧
    ∀ h i, t !! (h, i) = if decide (h = hash ∧ i ∈ indices (totalChunks size cs))
                         then Some (mkCRow (chunkStart cs i) (chunkEnd size cs i) "pending" None)
                         else download_chunks sm !! (h, i).
Proof.
  intros Hdb [Hd Hc]. unfold CreateDownload. rewrite !Hdb, Hd. cbn [negb].
  destruct (insertChunks_ok ev hash size cs (indices (totalChunks size cs)) (download_chunks sm) Hdb)
    as (t & -> & Hl); [apply NoDup_seqZ|by intros|]. eauto.
Qed.

Lemma scanned_chunks hash sm (f : Z → ChunkState) n :
  (∀ i, is_Some (download_chunks sm !! (hash, i)) ↔ 0 <= i < n) →
  (∀ i r, download_chunks sm !! (hash, i) = Some r → scanChunk ((hash, i), r) = f i) →
  scanChunk <$> chunks_of hash sm = f <$> indices n.
Proof.
  intros Hdom Hf. rewrite <- (chunks_of_indices hash sm n Hdom), <- list_fmap_compose.
  apply list_fmap_ext. intros j [[h i] r] Hj%list_elem_of_lookup_2.
  apply elem_of_chunks_of in Hj as [Heq Hl]. cbn in *. subst. by apply Hf.
Qed.

(** A created download reads back exactly as created: pending, nothing
    completed, and its chunks in index order with the bounds of the grid, all
    pending. *)
Theorem create_then_get ev ev' hash url size cs sm :
  (∀ o, db ev o = true) → (∀ o, db ev' o = true) → absent hash sm →
  let '(r, sm') := CreateDownload ev hash url size cs sm in
  r = Ok tt ∧
  GetDownload ev' hash sm' = Ok (Some (mkDownloadState hash url size 0 cs (totalChunks size cs) "pending"
    (now ev) (now ev) "" 0
    ((λ i, mkChunkState i (chunkStart cs i) (chunkEnd size cs i) "pending" None) <$>
       indices (totalChunks size cs)))).
Proof.
  intros Hdb Hdb' Habs. destruct (CreateDownload_ok ev hash url size cs sm Hdb Habs) as (t & -> & Hl).
  split; [done|]. unfold GetDownload. rewrite !Hdb'. cbn [downloads negb]. rewrite lookup_insert_eq. cbn.
  assert (∀ l : list ((string * Z) * CRow), forallb (λ kv, db ev' (StScan kv.1.2)) l = true) as ->.
  { intros l. apply forallb_forall. intros. apply Hdb'. }
  cbn [negb]. do 3 f_equal. apply scanned_chunks; cbn.
  - intros i. rewrite Hl, <- elem_of_indices. destruct Habs as [_ Hno].
    case_decide as Hx; [split; [naive_solver|eauto]|]. rewrite Hno. split; [intros []; done|naive_solver].
  - intros i r. rewrite Hl. case_decide; [|destruct Habs as [_ ->]; done]. by intros [= <-].
Qed.

(** ** Accounting of completed bytes *)

Definition rowLen (r : CRow) : Z := c_end r - c_start r.

(** The bounds of a chunk row. *)
Definition shape (t : gmap (string * Z) CRow) (k : string * Z) : option (Z * Z) := (λ c, (c_start c, c_end c)) <$> t !! k.

(** The recorded size against the completed chunks; [exact] claims the equality, which
    needs completed chunks to stay completed. *)
Definition counted (exact : Prop) (h : string) (r : DRow) (t : gmap (string * Z) CRow) : Prop :=
  let n := sum_map rowLen (completedRows h t) in n <= default 0 (d_completed_size r) ∧ (exact → default 0 (d_completed_size r) = n).

(** What cannot change in a row. *)
Definition same_file (r r' : DRow) : Prop :=
  d_expected_size r' = d_expected_size r ∧ d_chunk_size r' = d_chunk_size r ∧ d_total_chunks r' = d_total_chunks r.

(** Each download has the rows of its grid, and counts them; rows that are left without
    a download begin with chunk 0. *)
Record sm_inv (exact : Prop) (sm : SM) : Prop := {
  si_grid : ∀ h r, downloads sm !! h = Some r →
    grid_ok (d_expected_size r) (d_chunk_size r) ∧ d_total_chunks r = totalChunks (d_expected_size r) (d_chunk_size r) ∧
    ∀ i, shape (download_chunks sm) (h, i) = if decide (0 <= i < d_total_chunks r)
      then Some (chunkStart (d_chunk_size r) i, chunkEnd (d_expected_size r) (d_chunk_size r) i) else None;
  si_rows : ∀ h i c, download_chunks sm !! (h, i) = Some c → 0 <= rowLen c ∧ is_Some (shape (download_chunks sm) (h, 0));
  si_done : ∀ h r, downloads sm !! h = Some r → counted exact h r (download_chunks sm);
}.

Lemma completedRows_lookup h t k r :
  completedRows h t !! k = Some r ↔ t !! k = Some r ∧ k.1 = h ∧ c_status r = "completed".
Proof. unfold completedRows. rewrite map_lookup_filter_Some. done. Qed.

(** Only the completed rows of [h] matter. *)
Lemma completedRows_ext h t t' :
  (∀ i r, c_status r = "completed" → t !! (h, i) = Some r ↔ t' !! (h, i) = Some r) →
  completedRows h t = completedRows h t'.
Proof.
  intros Heq. apply map_eq. intros [h' i]. apply option_eq. intros r.
  rewrite !completedRows_lookup. cbn. split; intros (Hl & -> & Hs); (split_and!; [by apply Heq|done|done]).
Qed.

Lemma sumCompleted_default h t : default 0 (sumCompleted h t) = sum_map rowLen (completedRows h t).
Proof. unfold sumCompleted. case_decide as Hx; [|done]. rewrite Hx. cbn. by rewrite sum_map_empty. Qed.

(** An operation that keeps the rows' bounds and the files of the downloads. *)
Lemma update_inv exact sm d t :
  sm_inv exact sm → (∀ k, shape t k = shape (download_chunks sm) k) →
  (∀ h r', d !! h = Some r' → ∃ r, downloads sm !! h = Some r ∧ same_file r r' ∧ counted exact h r' t) →
  sm_inv exact (mkSM d t).
Proof.
  intros [Hg Hr Hd] Hsh Hup. constructor; cbn.
  - intros h r' Hr'. destruct (Hup h r' Hr') as (r & Hrow & (-> & -> & ->) & _). destruct (Hg h r Hrow) as (? & ? & Hrows).
    split_and!; [done..|]. intros i. by rewrite Hsh.
  - intros h i c Hc. rewrite Hsh. assert (shape t (h, i) = Some (c_start c, c_end c)) as Hs by (unfold shape; by rewrite Hc).
    rewrite Hsh in Hs. unfold shape at 1 in Hs. destruct (download_chunks sm !! (h, i)) as [c'|] eqn:Hc'; [|done].
    destruct (Hr _ _ _ Hc') as [Hlen Hz]. cbn in Hs. split; [|done]. unfold rowLen in *. simplify_eq. congruence.
  - intros h r' Hr'. destruct (Hup h r' Hr') as (r & _ & _ & Hc). exact Hc.
Qed.

(** Updates of a row that keep its completed size. *)
Lemma alter_downloads_inv exact f h sm :
  (∀ r, same_file r (f r) ∧ d_completed_size (f r) = d_completed_size r) → sm_inv exact sm →
  sm_inv exact (set_downloads (alter f h (downloads sm)) sm).
Proof.
  intros Hf Hi. apply (update_inv exact sm); [done|done|]. intros h' r'. rewrite lookup_alter. pose proof (si_done _ _ Hi h') as Hd.
  case_decide; [subst|intros Hr; exists r'; by split_and!; [|done|apply Hd]].
  destruct (downloads sm !! h') as [r|]; [|done]. intros [= <-]. exists r. destruct (Hf r) as [? Hc]. split_and!; [done..|].
  unfold counted. rewrite Hc. by apply Hd.
Qed.

Lemma alter_shape f k0 t : (∀ c, c_start (f c) = c_start c ∧ c_end (f c) = c_end c) → ∀ k, shape (alter f k0 t) k = shape t k.
Proof.
  intros Hf k. unfold shape. rewrite lookup_alter. case_decide; [subst|done]. destruct (t !! k) as [c|]; [|done]. cbn.
  by destruct (Hf c) as [-> ->].
Qed.

(** Setting a chunk back takes its bytes from the completed ones. *)
Lemma counted_set_back exact h r t k f :
  (∀ c, c_status (f c) ≠ "completed") → (∀ k' c, t !! k' = Some c → 0 <= rowLen c) →
  counted exact h r t → (exact → False) → counted exact h r (alter f k t).
Proof.
  intros Hf Hlen [Hle _] Hno. split; [|done]. etrans; [|exact Hle]. apply sum_map_subseteq.
  - apply map_subseteq_spec. intros k' c (Hc & Hk & Hs)%completedRows_lookup. apply completedRows_lookup. rewrite lookup_alter in Hc.
    case_decide; [subst|done]. destruct (t !! k') as [c0|]; [|done]. injection Hc as <-. by destruct (Hf c0).
  - intros k' c (Hc & _)%completedRows_lookup. eauto.
Qed.

Lemma UpdateChunk_inv exact ev h i st sm : (exact → st = "completed") → sm_inv exact sm → sm_inv exact (UpdateChunk ev h i st sm).2.
Proof.
  intros Hst Hi. unfold UpdateChunk. destruct (negb _); [done|]. destruct (negb _); [done|].
  set (f := λ r, mkCRow (c_start r) (c_end r) st _). pose proof (si_done _ _ Hi) as Hd. pose proof (si_rows _ _ Hi) as Hr.
  destruct (String.eqb_spec st "completed") as [->|Hne].
  - destruct (negb _); [done|]. destruct (db ev StCommit); [|done]. cbn [snd]. apply (update_inv exact sm); [done|by apply alter_shape|].
    intros h' r'. rewrite lookup_alter. case_decide as Hh.
    + subst. destruct (downloads sm !! h') as [r|]; [|done]. intros [= <-]. exists r. split_and!; [done..|].
      unfold counted. cbn. rewrite sumCompleted_default. done.
    + intros Hr'. exists r'. split_and!; [done..|]. unfold counted.
      rewrite (completedRows_ext h' _ (download_chunks sm)); [by apply Hd|].
      intros j q _. rewrite lookup_alter_ne; [done|congruence].
  - destruct (db ev StCommit); [|done]. cbn [snd]. apply (update_inv exact sm); [done|by apply alter_shape|]. intros h' r' Hr'.
    exists r'. split_and!; [done..|]. apply counted_set_back; [done| |by apply Hd|tauto]. intros [h1 i1] c Hc. by eapply Hr.
Qed.

Lemma MarkForRetry_inv exact ev h sm : sm_inv exact sm → sm_inv exact (MarkForRetry ev h sm).2.
Proof.
  intros Hi. unfold MarkForRetry. destruct (negb _); [done|]. destruct (negb _); [done|].
  destruct (downloads sm !! h) as [d|] eqn:Hrow; [|done]. destruct (String.eqb _ _); [|done].
  destruct (_ && _); [|done]. cbn [snd]. apply (update_inv exact sm); [done| |].
  - intros [h' i]. unfold shape. rewrite map_lookup_imap. destruct (download_chunks sm !! (h', i)); [|done]. cbn. by destruct (_ && _).
  - intros h' r' Hr'. assert (∃ r, downloads sm !! h' = Some r ∧ same_file r r' ∧ d_completed_size r' = d_completed_size r) as (r & Hr & Hsame & Hc).
    { rewrite lookup_insert in Hr'. case_decide; [subst; injection Hr' as <-; by exists d|by exists r']. }
    exists r. split_and!; [done..|]. unfold counted. rewrite Hc, (completedRows_ext h' _ (download_chunks sm)); [by apply (si_done _ _ Hi)|].
    intros i q Hq. rewrite map_lookup_imap. destruct (download_chunks sm !! (h', i)) as [c|]; [|done]. cbn.
    destruct (String.eqb_spec (c_status c) "completed") as [Hcc|Hcc]; [by rewrite andb_false_r|].
    rewrite andb_true_r. destruct (String.eqb h' h); (split; intros [= <-]); try done.
Qed.

Lemma insertChunks_inv ev hash size cs ixs t t' :
  insertChunks ev hash size cs ixs t = Ok t' →
  ∀ h i, t' !! (h, i) = if decide (h = hash ∧ i ∈ ixs)
                        then Some (mkCRow (chunkStart cs i) (chunkEnd size cs i) "pending" None) else t !! (h, i).
Proof.
  revert t. induction ixs as [|i ixs IH]; intros t; cbn [insertChunks].
  - intros [= <-] h j. rewrite decide_False; [done|]. intros [_ Hin]. by apply not_elem_of_nil in Hin.
  - destruct (negb _); [done|]. destruct (t !! (hash, i)); [done|]. intros Hins h j.
    rewrite (IH _ Hins), lookup_insert. destruct (decide (h = hash ∧ j ∈ ixs)) as [[-> Hj]|Hno].
    + rewrite decide_True; [done|]. split; [done|by right].
    + destruct (decide ((hash, i) = (h, j))) as [[= -> ->]|Hne].
      * rewrite decide_True; [done|]. split; [done|by left].
      * rewrite decide_False; [done|]. intros [-> [->|Hin]%elem_of_cons]; [by apply Hne|tauto].
Qed.

Lemma insertChunks_fresh ev hash size cs ixs t t' i : insertChunks ev hash size cs ixs t = Ok t' → i ∈ ixs → t !! (hash, i) = None.
Proof.
  revert t. induction ixs as [|j ixs IH]; intros t; cbn [insertChunks]; [by intros _ ?%not_elem_of_nil|].
  destruct (negb _); [done|]. destruct (t !! (hash, j)) eqn:Hj; [done|]. intros Hins [->|Hi]%elem_of_cons; [done|].
  specialize (IH _ Hins Hi). rewrite lookup_insert in IH. by case_decide.
Qed.

(** Rows left from a download of the same hash make the creation fail, at chunk 0. *)
Lemma Create_inv exact ev h url size cs sm :
  grid_ok size cs → sm_inv exact sm → sm_inv exact (CreateDownload ev h url size cs sm).2.
Proof.
  intros Hok [Hg Hr Hd]. unfold CreateDownload. destruct (negb _); [done|]. destruct (negb _); [done|].
  destruct (downloads sm !! h) eqn:Hrow; [done|]. destruct (negb _); [done|].
  destruct (insertChunks _ _ _ _ _ _) as [t|e] eqn:Hins; [|done]. destruct (db ev StCommit); [|done]. cbn [snd].
  pose proof (totalChunks_bounds size cs Hok) as [Hpos _].
  assert (∀ i, download_chunks sm !! (h, i) = None) as Hfree.
  { intros i. destruct (download_chunks sm !! (h, i)) as [c|] eqn:Hc; [|done]. exfalso.
    destruct (Hr _ _ _ Hc) as [_ [x Hx]]. apply (insertChunks_fresh _ _ _ _ _ _ _ 0) in Hins; [|apply elem_of_indices; lia].
    unfold shape in Hx. by rewrite Hins in Hx. }
  pose proof (insertChunks_inv _ _ _ _ _ _ _ Hins) as Hl.
  assert (∀ h' i, h' ≠ h → t !! (h', i) = download_chunks sm !! (h', i)) as Hother by (intros; rewrite Hl, decide_False; naive_solver).
  assert (∀ i, shape t (h, i) = if decide (0 <= i < totalChunks size cs) then Some (chunkStart cs i, chunkEnd size cs i) else None) as Hown.
  { intros i. unfold shape. rewrite Hl, Hfree. pose proof (elem_of_indices (totalChunks size cs) i). repeat case_decide; naive_solver. }
  constructor; cbn [downloads download_chunks].
  - intros h' r. rewrite lookup_insert. case_decide; [subst; by intros [= <-]|]. intros Hr'.
    destruct (Hg h' r Hr') as (? & ? & Hrows). split_and!; [done..|]. intros i. unfold shape. rewrite Hother by done. apply Hrows.
  - intros h' i c Hc. destruct (decide (h' = h)) as [->|Hne].
    + assert (shape t (h, i) = Some (c_start c, c_end c)) as Hs by (unfold shape; by rewrite Hc). rewrite Hown in Hs. rewrite Hown.
      rewrite (decide_True (P := 0 <= 0 < _)) by lia. case_decide as Hi; [|done]. injection Hs as Hs1 Hs2.
      destruct (chunk_bounds size cs Hok i Hi). split; [unfold rowLen; lia|by eexists].
    + rewrite Hother in Hc by done. unfold shape. rewrite Hother by done. by apply (Hr h' i).
  - intros h' r. rewrite lookup_insert. case_decide.
    + subst. intros [= <-]. unfold counted. cbn. assert (completedRows h' t = ∅) as ->; [|by rewrite sum_map_empty].
      apply map_eq. intros k. rewrite lookup_empty. apply eq_None_not_Some. intros [q Hq].
      apply completedRows_lookup in Hq as (Hq & Hk & Hs). destruct k as [h1 i]. cbn in Hk. subst.
      rewrite Hl, Hfree in Hq. case_decide; [|done]. by injection Hq as <-.
    + intros Hr'. unfold counted. rewrite (completedRows_ext h' t (download_chunks sm)); [by apply Hd|]. intros i q _. by rewrite Hother.
Qed.

(** What keeps the other downloads' rows keeps them as they are. *)
Lemma shrink_inv exact sm d t :
  sm_inv exact sm → (∀ h r, d !! h = Some r → downloads sm !! h = Some r ∧ ∀ i, t !! (h, i) = download_chunks sm !! (h, i)) →
  (∀ h, (∀ i, t !! (h, i) = download_chunks sm !! (h, i)) ∨ ∀ i, t !! (h, i) = None) → sm_inv exact (mkSM d t).
Proof.
  intros [Hg Hr Hd] Hkeep Hrows. constructor; cbn.
  - intros h r [Hrow Hsame]%Hkeep. destruct (Hg h r Hrow) as (? & ? & Hsh). split_and!; [done..|]. intros i. unfold shape. rewrite Hsame. apply Hsh.
  - intros h i c Hc. destruct (Hrows h) as [Hsame|Hnone]; [|by rewrite Hnone in Hc]. unfold shape. rewrite Hsame in *. by apply (Hr h i).
  - intros h r [Hrow Hsame]%Hkeep. unfold counted. rewrite (completedRows_ext h t (download_chunks sm)); [by apply Hd|]. intros i q _. by rewrite Hsame.
Qed.

Lemma DeleteDownload_inv exact ev h sm : sm_inv exact sm → sm_inv exact (DeleteDownload ev h sm).2.
Proof.
  intros Hi. unfold DeleteDownload. case_match; [|done].
  assert (∀ h' i, deleteChunks h (download_chunks sm) !! (h', i) = if decide (h' = h) then None else download_chunks sm !! (h', i)) as Hl.
  { intros h' i. unfold deleteChunks. rewrite map_lookup_filter. destruct (download_chunks sm !! (h', i)); cbn; repeat case_decide; done. }
  apply (shrink_inv exact sm); [done| |].
  - intros h' r [Hne Hr]%lookup_delete_Some. split; [done|]. intros i. by rewrite Hl, decide_False.
  - intros h'. destruct (decide (h' = h)); [right|left]; intros i; rewrite Hl; by case_decide.
Qed.

Lemma Cleanup_inv exact fk ev maxAge sm : sm_inv exact sm → sm_inv exact (CleanupStale fk ev maxAge sm).2.
Proof.
  intros Hi. unfold CleanupStale. case_match; [|done]. set (cut := cutoff ev maxAge). set (stale := filter _ (downloads sm)).
  assert (∀ h i, (if fk then filter (λ kv : (string * Z) * CRow, stale !! kv.1.1 = None) (download_chunks sm) else download_chunks sm) !! (h, i)
    = if fk && bool_decide (is_Some (stale !! h)) then None else download_chunks sm !! (h, i)) as Hl.
  { intros h i. destruct fk; [|done]. cbn [andb]. rewrite map_lookup_filter. destruct (download_chunks sm !! (h, i)); cbn; [|by case_match].
    destruct (stale !! h); [rewrite bool_decide_true by eauto|rewrite bool_decide_false by (by intros [])]; by case_guard. }
  apply (shrink_inv exact sm); [done| |].
  - intros h r [Hr Hs]%map_lookup_filter_Some. split; [done|]. intros i. rewrite Hl. rewrite bool_decide_false; [by rewrite andb_false_r|].
    intros [r' [Hr' Hs']%map_lookup_filter_Some]. cbn in *. simplify_eq. congruence.
  - intros h. destruct (fk && bool_decide (is_Some (stale !! h))) eqn:Hx; [right|left]; intros i; by rewrite Hl, Hx.
Qed.

(** Operations as steps, with foreign keys enforced or not: [exact] runs complete
    chunks and do not set them back. *)
Inductive smstep (exact : Prop) : SM → SM → Prop :=
| SmCreate ev h url size cs sm : grid_ok size cs → smstep exact sm (CreateDownload ev h url size cs sm).2
| SmStatus ev h st sm : smstep exact sm (UpdateDownloadStatus ev h st sm).2
| SmChunk ev h i st sm : (exact → st = "completed") → smstep exact sm (UpdateChunk ev h i st sm).2
| SmComplete ev h sm : smstep exact sm (CompleteDownload ev h sm).2
| SmFail ev h e sm : smstep exact sm (FailDownload ev h e sm).2
| SmDelete ev h sm : smstep exact sm (DeleteDownload ev h sm).2
| SmCleanup fk ev maxAge sm : smstep exact sm (CleanupStale fk ev maxAge sm).2
| SmRetry ev h sm : smstep exact sm (MarkForRetry ev h sm).2
| SmIncrement ev h sm : smstep exact sm (IncrementRetryCount ev h sm).2.

Lemma smstep_inv exact sm sm' : smstep exact sm sm' → sm_inv exact sm → sm_inv exact sm'.
Proof.
  intros Hs Hsm. destruct Hs; auto using Create_inv, UpdateChunk_inv, DeleteDownload_inv, Cleanup_inv, MarkForRetry_inv;
    unfold CompleteDownload, UpdateDownloadStatus, FailDownload, IncrementRetryCount;
    (case_match; [by apply alter_downloads_inv|done]).
Qed.

(** C26: in every state the operations of the download state reach, with any statement
    failing, with foreign keys enforced or not (they are not on the program's connection,
    so rows of cleaned-up downloads stay behind), and chunks set to any status: each
    download has exactly the chunk rows of its grid, chunk i spanning the bytes from
    i times the chunk size to the next multiple or the end of the file, and its recorded
    [completed_size] is at least the total length of its completed chunks.  It is exactly
    that total when chunks are only ever set to completed, as the downloader does.
    Downloads are created with a positive size and chunk size whose sum is an int64. *)
Theorem download_state_accounting exact sm h r :
  rtc (smstep exact) (mkSM ∅ ∅) sm → downloads sm !! h = Some r →
  let size := d_expected_size r in let cs := d_chunk_size r in let n := d_total_chunks r in
  let done := sum_map (λ c, c_end c - c_start c) (completedRows h (download_chunks sm)) in
  (n - 1) * cs < size <= n * cs ∧
  (∀ i, match download_chunks sm !! (h, i) with
        | Some c => 0 <= i < n ∧ c_start c = i * cs ∧ c_end c = Z.min size ((i + 1) * cs)
        | None => ¬ 0 <= i < n
        end) ∧
  done <= default 0 (d_completed_size r) ∧ (exact → default 0 (d_completed_size r) = done).
Proof.
  intros Hrun Hr size cs n done. assert (sm_inv exact sm) as [Hg _ Hd].
  { revert sm Hrun Hr n size cs done. intros sm Hrun _ _ _ _ _. revert sm Hrun. apply rtc_ind_r; [|eauto using smstep_inv].
    constructor; cbn; intros *; rewrite lookup_empty; done. }
  destruct (Hg h r Hr) as (Hok & Hn & Hrows). fold size cs n in Hok, Hn, Hrows. split; [rewrite Hn; apply (totalChunks_bounds size cs Hok)|].
  split; [|exact (Hd h r Hr)].
  intros i. specialize (Hrows i). unfold shape in Hrows. destruct (download_chunks sm !! (h, i)) as [c|]; cbn in Hrows.
  - case_decide as Hi; [|done]. rewrite Hn in Hi. rewrite (chunkStart_eq size cs Hok i Hi), (chunkEnd_eq size cs Hok i Hi) in Hrows.
    rewrite Hn. by injection Hrows.
  - by case_decide.
Qed.
End create.

(** ** Evaluations *)
Section examples.
#[local] Existing Instance isort_order.

Definition ok_env (t : Z) : Env := mkEnv (t * 10^9) (λ _, true).

Definition created : SM := (CreateDownload (ok_env 100) "h" "http://m" 10 4 (mkSM ∅ ∅)).2.
Definition progressed : SM := (UpdateChunk (ok_env 101) "h" 2 "completed" created).2.

Lemma create_then_get_witness :
  GetDownload (ok_env 200) "h" created
  = Ok (Some (mkDownloadState "h" "http://m" 10 0 4 3 "pending" 100 100 "" 0
      [mkChunkState 0 0 4 "pending" None; mkChunkState 1 4 8 "pending" None; mkChunkState 2 8 10 "pending" None])).
Proof.
  exact (proj2 (create_then_get (ok_env 100) (ok_env 200) "h" "http://m" 10 4 (mkSM ∅ ∅)
    (λ _, eq_refl) (λ _, eq_refl) (conj eq_refl (λ _, eq_refl)))).
Defined.

Lemma download_state_accounting_witness :
  ∃ r, downloads progressed !! "h" = Some r ∧
    default 0 (d_completed_size r) = sum_map (λ c, c_end c - c_start c) (completedRows "h" (download_chunks progressed)).
Proof.
  destruct (downloads progressed !! "h") as [r|] eqn:Hr; [|discriminate]. exists r. split; [reflexivity|].
  refine (proj2 (proj2 (proj2 (download_state_accounting True progressed "h" r _ Hr))) I).
  eapply rtc_l; [apply (SmCreate True (ok_env 100) "h" "http://m" 10 4); unfold grid_ok; lia|].
  eapply rtc_l; [apply (SmChunk True (ok_env 101) "h" 2 "completed"); reflexivity|]. apply rtc_refl.
Defined.

(** The state survives [CleanupStale] only through the cascade.  A download
    created, then removed as stale: without foreign-key enforcement (SQLite's
    default, which the database's connection parameters leave in place) its
    chunk rows stay, so creating the download again fails on their primary key
    and goes on failing until they are deleted; with enforcement it succeeds. *)
Theorem cleanup_without_cascade_blocks_download :
  let week := 7 * 86400 * 10^9 in
  let again fk := CreateDownload (ok_env 2000000) "h" "http://m" 10 4
                    (CleanupStale fk (ok_env 1999999) week created).2 in
  (CleanupStale false (ok_env 1999999) week created).1 = Ok 1 ∧
  (again false).1 = Err EConstraint ∧ (again true).1 = Ok tt ∧
  downloads (again false).2 = ∅ ∧ size (download_chunks (again false).2) = 3%nat.
Proof. vm_compute. split_and!; reflexivity. Qed.
End examples.

End DlStateSys.
