(* ===== verification/Downloader.v ===== *)
(** * internal/downloader/downloader.go: racing and chunked downloads

    [Download] chooses between racing whole-file downloads and a chunked
    download whose workers deliver chunks in any order into one assembly file.
    The network, the clock, the file system's failures and the order in which
    concurrent results arrive are inputs. *)

From S2P Require Import Prelude GoStd GoNum HashUtil Sql DlState.
From Stdlib Require Import Ascii SpecFloat.
Open Scope Z_scope.
Open Scope go_scope.

Module Downloader.
Import DlState.

(** ** Configuration *)

Definition DefaultChunkSize : Z := 4 * 1024 * 1024.
Definition MinChunkedSize : Z := 10 * 1024 * 1024.
Definition MaxConcurrentChunks : Z := 8.
Definition MaxChunkRetries : nat := 3.
Definition ReferenceThroughput : Z := 10 * 1024 * 1024.

Record Downloader := mkDownloader { chunkSize : Z; maxConc : Z; minChunkedSize : Z }.

(** [New], for the numeric fields of the optional [Config]. *)
Definition New (cfg : option (Z * Z * Z)) : Downloader :=
  match cfg with
  | None => mkDownloader DefaultChunkSize MaxConcurrentChunks MinChunkedSize
  | Some (cs, mc, ms) =>
      mkDownloader (if 0 <? cs then cs else DefaultChunkSize)
                   (if 0 <? mc then mc else MaxConcurrentChunks)
                   (if 0 <? ms then ms else MinChunkedSize)
  end.

(** ** Sources *)

Inductive SourceType := SourceTypePeer | SourceTypeMirror.

(** A source: its ID (a peer ID or the mirror's URL) and type. *)
Record Source := mkSource { src_ID : string; src_Type : SourceType }.

Definition is_peer (s : Source) : bool :=
  match src_Type s with SourceTypePeer => true | SourceTypeMirror => false end.

(** ** Adaptive source selection *)

Record sourceStats := mkStats {
  successCount : Z; failureCount : Z; totalBytes : Z; totalTime : Z;
  lastFailure : option Z;    (* nanoseconds; [None] is the zero Time *)
}.

Definition tracker : Type := gmap string sourceStats.

Definition recentFailure (now : Z) (st : sourceStats) : bool :=
  match lastFailure st with Some t => now - t <? 10 * 10^9 | None => false end.

Definition score (now : Z) (t : tracker) (s : Source) : float64 :=
  match t !! src_ID s with
  | None => if is_peer s then f_dec 55 100 else f_dec 5 10
  | Some st =>
      let total := successCount st + failureCount st in
      if total =? 0 then f_dec 5 10
      else
        let reliability := fdiv (f_of_Z (successCount st)) (f_of_Z total) in
        let throughput := if 0 <? totalTime st then fdiv (f_of_Z (totalBytes st)) (Seconds (totalTime st))
                          else f_of_Z 0 in
        let throughputScore := fdiv throughput (fadd throughput (f_of_Z ReferenceThroughput)) in
        let sc := fadd (fmul (f_dec 6 10) reliability) (fmul (f_dec 4 10) throughputScore) in
        if recentFailure now st then fmul sc (f_dec 5 10) else sc
  end.

Section selection.
Context `{GoSort}.

(** The first of the scored sources; indexing an empty slice panics ([None]). *)
Definition selectBest (now : Z) (t : tracker) (sources : list Source) : option Source :=
  head (fst <$> sort_Slice (λ a b, SFltb b.2 a.2) ((λ s, (s, score now t s)) <$> sources)).
End selection.

Definition zeroStats : sourceStats := mkStats 0 0 0 0 None.

Definition recordSuccess (id : string) (bytes duration : Z) (t : tracker) : tracker :=
  let s := default zeroStats (t !! id) in
  <[id := mkStats (successCount s + 1) (failureCount s) (totalBytes s +₆₄ bytes) (totalTime s +₆₄ duration)
                  (lastFailure s)]> t.

Definition recordFailure (now : Z) (id : string) (t : tracker) : tracker :=
  let s := default zeroStats (t !! id) in
  <[id := mkStats (successCount s) (failureCount s + 1) (totalBytes s) (totalTime s) (Some now)]> t.

(** ** Chunks *)

Record Chunk := mkChunk { Index : Z; Start : Z; End_ : Z }.

(** The outcome of a chunk: its bytes and where they came from, or an error. *)
Record ChunkResult := mkChunkResult { cr_chunk : Chunk; cr_out : option (string * Source) }.

(** The network, as one worker sees it while it retries one chunk: what a source
    answers on the given attempt ([None] is an error), and the tracker (shared
    with the other workers) and the time at each selection. *)
Record ChunkNet := mkChunkNet {
  cn_download : nat → Source → Z → Z → option string;
  cn_tracker : nat → tracker;
  cn_now : nat → Z;
}.

Section worker.
Context `{GoSort}.

(** [lastErr == nil && len(data) == chunk.End-chunk.Start]. *)
Definition complete (c : Chunk) (d : option string) : bool :=
  match d with Some data => Z.of_nat (String.length data) =? End_ c - Start c | None => false end.

(** The retry loop from attempt [n] on, with [more] attempts left and [source]
    selected; returns the last data and the source that is current then. *)
Fixpoint tryChunk (net : ChunkNet) (sources : list Source) (c : Chunk) (n more : nat) (source : Source)
    (last : option string) : option (option string * Source) :=
  match more with
  | O => Some (last, source)
  | S more =>
      let d := cn_download net n source (Start c) (End_ c) in
      if complete c d then Some (d, source)
      else match selectBest (cn_now net (S n)) (cn_tracker net (S n)) sources with
           | Some source' => tryChunk net sources c (S n) more source' d
           | None => None
           end
  end.

(** One iteration of [chunkWorker]; [cancelled] is the state of the context when
    the chunk is taken.  [None] is the panic on an empty source list. *)
Definition workChunk (net : ChunkNet) (sources : list Source) (cancelled : bool) (c : Chunk) : option ChunkResult :=
  if cancelled then Some (mkChunkResult c None)
  else match selectBest (cn_now net 0) (cn_tracker net 0) sources with
  | None => None
  | Some source =>
      match tryChunk net sources c 0 MaxChunkRetries source None with
      | None => None
      | Some (d, source) =>
          Some (mkChunkResult c (if complete c d then (λ data, (data, source)) <$> d else None))
      end
  end.
End worker.

(** ** The assembly file *)

Fixpoint zeros (n : nat) : string := match n with O => "" | S n => String (byte_of 0) (zeros n) end.

(** [f.Truncate(n)]. *)
Definition truncate (n : nat) (f : string) : string := str_take n f +:+ zeros (n - String.length f).

(** [f.WriteAt(data, off)]. *)
Definition writeAt (off : nat) (data f : string) : string :=
  let f := if (String.length f <? off)%nat then truncate off f else f in
  str_take off f +:+ data +:+ str_drop (off + String.length data) f.

(** ** Chunked download *)

Inductive DlErr :=
| ErrNoSources | ErrHashMismatch | ErrAllSourcesFailed | ErrCtx
| EChunkFailed (i : Z) | EChunkWrite (i : Z) | EChunkMissing (i : Z) | EFile.

Inductive SourceKind := KPeer | KMirror | KMixed | KResumed.

Record DownloadResult := mkResult {
  r_Data : option string; r_FilePath : string; r_Hash : string; r_Size : Z; r_Source : SourceKind;
  r_PeerBytes : Z; r_MirrorBytes : Z; r_ChunksTotal : Z; r_ChunksFromP2P : Z;
}.

(** The state database and the files a download works on. *)
Record World := mkWorld { w_sm : SM; w_files : gmap string string }.

Definition set_sm sm (w : World) : World := mkWorld sm (w_files w).
Definition set_files f (w : World) : World := mkWorld (w_sm w) f.

(** Outcomes of the calls of one [downloadChunked]. *)
Record DlEnv := mkDlEnv {
  e_get : Env; e_create : Env; e_status : Env; e_fail : Env; e_complete : Env; e_delete : Env;
  e_chunk : Z → Env;
  e_ensureDir : bool;               (* EnsurePartialDir *)
  e_mkdirTemp : option string;      (* the temporary directory's path *)
  e_open : bool; e_truncate : bool; e_seek : bool; e_read : bool;
  e_write : Z → option nat;         (* [Some k]: the write of a chunk fails after k bytes *)
}.

(** [os.RemoveAll(dir)]. *)
Definition removeAll (dir : string) (fs : gmap string string) : gmap string string :=
  filter (λ kv, HasPrefix kv.1 (dir +:+ "/") = false) fs.

Definition assembled (dir : string) : string := filepath_Join [dir; "assembled"].

(** The loop over the results. *)
Record Collect := mkCollect {
  co_file : string; co_sm : SM; co_received : gset Z; co_firstError : option DlErr;
  co_peerBytes : Z; co_mirrorBytes : Z; co_p2p : Z;
}.

Definition collect1 (ev : DlEnv) (resume : bool) (hash : string) (co : Collect) (r : ChunkResult) : Collect :=
  let c := cr_chunk r in
  let fail e file :=
    mkCollect file (co_sm co) (co_received co)
      (match co_firstError co with None => Some e | x => x end)
      (co_peerBytes co) (co_mirrorBytes co) (co_p2p co) in
  match cr_out r with
  | None => fail (EChunkFailed (Index c)) (co_file co)
  | Some (data, source) =>
      match e_write ev (Index c) with
      | Some k => fail (EChunkWrite (Index c)) (writeAt (Z.to_nat (Start c)) (str_take k data) (co_file co))
      | None =>
          let n := Z.of_nat (String.length data) in
          mkCollect (writeAt (Z.to_nat (Start c)) data (co_file co))
            (if resume then (UpdateChunk (e_chunk ev (Index c)) hash (Index c) "completed" (co_sm co)).2 else co_sm co)
            ({[Index c]} ∪ co_received co) (co_firstError co)
            (if is_peer source then co_peerBytes co +₆₄ n else co_peerBytes co)
            (if is_peer source then co_mirrorBytes co else co_mirrorBytes co +₆₄ n)
            (if is_peer source then co_p2p co + 1 else co_p2p co)
      end
  end.

Definition collect (ev : DlEnv) (resume : bool) (hash : string) (rs : list ChunkResult) (co : Collect) : Collect :=
  foldl (collect1 ev resume hash) co rs.

(** The indices recorded as completed, when the assembly file can be trusted. *)
Definition recovered (resume : bool) (existing : option DownloadState) (cs size : Z) (file : option string) : gset Z :=
  match resume, existing, file with
  | true, Some st, Some f =>
      if (s_ChunkSize st =? cs) && (Z.of_nat (String.length f) =? size)
      then list_to_set (cs_Index <$> List.filter (λ c, String.eqb (cs_Status c) "completed"
                                                        && (cs_Index c <? totalChunks size cs)) (s_Chunks st))
      else ∅
  | _, _, _ => ∅
  end.

(** The chunks still to download. *)
Definition pendingChunks (cs size : Z) (done : gset Z) : list Chunk :=
  (λ i, mkChunk i (chunkStart cs i) (chunkEnd size cs i)) <$>
    List.filter (λ i, negb (bool_decide (i ∈ done))) (indices (totalChunks size cs)).

Definition chunkFile (dir : string) (i : Z) : string := filepath_Join [dir; "chunk_" +:+ Itoa i].

Section chunked.
Context `{Sha256, SqlOrder}.

(** The start of [downloadChunked]: whether resume stays enabled, the state read,
    and the directory ("" without state manager and cache). *)
Definition prepare (ev : DlEnv) (d : Downloader) (hasState : bool) (partialDir mirrorURL hash : string) (size : Z)
    (w : World) : bool * option DownloadState * string * World :=
  if hasState then
    let got := GetDownload (e_get ev) hash (w_sm w) in
    let existing := match got with Ok o => o | Err _ => None end in
    let resume := match got with Ok _ => true | Err _ => false end in
    let '(resume, w) :=
      match existing with
      | Some _ => (resume, w)
      | None =>
          let '(r, sm) := CreateDownload (e_create ev) hash mirrorURL size (chunkSize d) (w_sm w) in
          (resume && is_ok r, set_sm sm w)
      end in
    (resume && e_ensureDir ev, existing, partialDir, w)
  else (false, None, "", w).

(** From the assembly file on.  [sources] is false when there is neither a peer
    nor a mirror; [results] are the chunk results in the order they arrive, for
    the given pending chunks.  The error text stored with a failed download is
    not modelled. *)
Definition assemble (ev : DlEnv) (d : Downloader) (sources resume : bool) (existing : option DownloadState)
    (dir : string) (temp : option string) (hash : string) (size : Z) (results : list Chunk → list ChunkResult) (w : World)
  : res DlErr DownloadResult * World :=
  let n := totalChunks size (chunkSize d) in
  let file := assembled dir in
  let cleanup w := match temp with Some t => set_files (removeAll t (w_files w)) w | None => w end in
  let done := recovered resume existing (chunkSize d) size (w_files w !! file) in
  if negb (e_open ev) then (Err EFile, cleanup w)
  else
    let opened := default "" (w_files w !! file) in
    if negb (e_truncate ev) then (Err EFile, cleanup (set_files (<[file := opened]> (w_files w)) w))
    else
      let allocated := truncate (Z.to_nat size) opened in
      let chunks := pendingChunks (chunkSize d) size done in
      if negb (bool_decide (chunks = [])) && negb sources
      then (Err ErrNoSources, cleanup (set_files (<[file := allocated]> (w_files w)) w))
      else
        let co :=
          if bool_decide (chunks = []) then mkCollect allocated (w_sm w) ∅ None 0 0 0
          else collect ev resume hash (results chunks)
                 (mkCollect allocated
                    (if resume then (UpdateDownloadStatus (e_status ev) hash "in_progress" (w_sm w)).2 else w_sm w)
                    ∅ None 0 0 0) in
        let w := mkWorld (co_sm co) (<[file := co_file co]> (w_files w)) in
        match co_firstError co with
        | Some e =>
            (Err e, cleanup (if resume then set_sm (FailDownload (e_fail ev) hash "chunk failed" (w_sm w)).2 w else w))
        | None =>
            let missing := List.filter (λ i, negb (bool_decide (i ∈ co_received co ∪ done))) (indices n) in
            match (if bool_decide (chunks = []) then None else head missing) with
            | Some i => (Err (EChunkMissing i), cleanup w)
            | None =>
                if negb (e_seek ev && e_read ev) then (Err EFile, cleanup w)
                else
                  let actual := HashBytes (co_file co) in
                  if negb (String.eqb actual hash) then
                    let w := if resume then
                               mkWorld (FailDownload (e_fail ev) hash "hash mismatch" (w_sm w)).2
                                       (removeAll dir (w_files w))
                             else w in
                    (Err ErrHashMismatch,
                     match temp with
                     | Some t => set_files (removeAll t (w_files w)) w
                     | None => set_files (delete file (w_files w)) w
                     end)
                  else
                    let w := if resume then
                               mkWorld (DeleteDownload (e_delete ev) hash
                                          (CompleteDownload (e_complete ev) hash (w_sm w)).2).2
                                       (foldr (λ i fs, delete (chunkFile dir i) fs) (w_files w) (indices n))
                             else w in
                    let kind := if bool_decide (chunks = []) then KResumed
                                else if (co_peerBytes co =? 0) && bool_decide (done = ∅) then KMirror
                                else if co_mirrorBytes co =? 0 then KPeer else KMixed in
                    (Ok (mkResult None file actual size kind (co_peerBytes co) (co_mirrorBytes co) n (co_p2p co)), w)
            end
        end.

Definition downloadChunked (ev : DlEnv) (d : Downloader) (hasState sources : bool)
    (partialDir mirrorURL hash : string) (size : Z) (results : list Chunk → list ChunkResult) (w : World)
  : res DlErr DownloadResult * World :=
  let '(resume, existing, dir, w) := prepare ev d hasState partialDir mirrorURL hash size w in
  if String.eqb dir "" then
    match e_mkdirTemp ev with
    | Some t => assemble ev d sources resume existing t (Some t) hash size results w
    | None => (Err EFile, w)
    end
  else assemble ev d sources resume existing dir None hash size results w.

(** ** Racing download

    The events of the collecting loop: a source's result, or the end of the
    context. *)
Inductive RaceEvent := RDone (s : Source) (data : option string) | RCancel.

(** Returns the result and the peers blacklisted. *)
Fixpoint race (hash : string) (racers received : nat) (evs : list RaceEvent) (blacklist : list string)
  : option (res DlErr DownloadResult * list string) :=
  match evs with
  | [] => None      (* still waiting *)
  | RCancel :: _ => Some (Err ErrCtx, blacklist)
  | RDone s data :: rest =>
      let received := S received in
      match data with
      | None =>
          if (racers <=? received)%nat then Some (Err ErrAllSourcesFailed, blacklist)
          else race hash racers received rest blacklist
      | Some data =>
          let actual := HashBytes data in
          if negb (String.eqb actual hash) then
            let blacklist := if is_peer s then blacklist ++ [src_ID s] else blacklist in
            if (racers <=? received)%nat then Some (Err ErrAllSourcesFailed, blacklist)
            else race hash racers received rest blacklist
          else
            let n := Z.of_nat (String.length data) in
            Some (Ok (mkResult (Some data) "" actual n (if is_peer s then KPeer else KMirror)
                        (if is_peer s then n else 0) (if is_peer s then 0 else n) 1 (if is_peer s then 1 else 0)),
                  blacklist)
      end
  end.

Definition downloadRacing (hash : string) (peers : nat) (mirror : bool) (evs : list RaceEvent)
  : option (res DlErr DownloadResult * list string) :=
  let racers := (peers + if mirror then 1 else 0)%nat in
  if (racers =? 0)%nat then Some (Err ErrNoSources, []) else race hash racers 0 evs [].

(** [Download]'s choice of strategy: true for chunked. *)
Definition useChunked (d : Downloader) (expectedSize : Z) (peers : nat) : bool :=
  (0 <? expectedSize) && (minChunkedSize d <=? expectedSize) && (0 <? peers)%nat.
End chunked.
End Downloader.
