(* ===== verification/DownloaderSys.v ===== *)
(** * Properties of the downloader

    A download that succeeds delivers bytes with the expected hash; chunks that
    arrive in any order assemble to the file; an interrupted download leaves a
    state the next attempt can trust; racing succeeds when some source is right;
    and one way a retried download loses that trust. *)

From S2P Require Import Prelude GoStd GoNum HashUtil Sql DlState DlStateSys Downloader.
From Stdlib Require Import Ascii.
Open Scope Z_scope.
Open Scope go_scope.

Module DownloaderSys.
Import DlState DlStateSys Downloader.

(** ** Bytes of strings *)
Section bytes.

Lemma get_app x a b :
  String.get x (a +:+ b) = if (x <? String.length a)%nat then String.get x a else String.get (x - String.length a) b.
Proof.
  revert x. induction a as [|c a IH]; intros x; cbn -[Nat.ltb]; [by rewrite Nat.sub_0_r|].
  destruct x as [|x]; cbn -[Nat.ltb]; [done|]. rewrite IH. done.
Qed.

Lemma get_take x n s : String.get x (str_take n s) = if (x <? n)%nat then String.get x s else None.
Proof.
  revert x n. induction s as [|c s IH]; intros x n; destruct n as [|n]; cbn -[Nat.ltb]; try (by destruct (_ <? _)%nat).
  - by destruct x.
  - destruct x as [|x]; [done|]. rewrite IH. done.
Qed.

Lemma get_drop x n s : String.get x (str_drop n s) = String.get (n + x) s.
Proof.
  revert x n. induction s as [|c s IH]; intros x n; destruct n as [|n]; cbn; try done.
Qed.

Lemma get_ge x s : (String.length s <= x)%nat → String.get x s = None.
Proof.
  revert x. induction s as [|c s IH]; intros x Hx; cbn in *; [done|].
  destruct x as [|x]; [lia|]. apply IH. lia.
Qed.

Lemma get_lt x s : (x < String.length s)%nat → ∃ c, String.get x s = Some c.
Proof.
  revert x. induction s as [|c s IH]; intros x Hx; cbn in *; [lia|].
  destruct x as [|x]; [eauto|]. apply IH. lia.
Qed.

Lemma get_ext a b : (∀ x, String.get x a = String.get x b) → a = b.
Proof.
  revert b. induction a as [|c a IH]; intros [|d b] Heq; [done|by specialize (Heq 0%nat)..|].
  f_equal; [specialize (Heq 0%nat); cbn in Heq; congruence|]. apply IH. intros x. apply (Heq (S x)).
Qed.

Lemma zeros_length n : String.length (zeros n) = n.
Proof. induction n as [|n IH]; cbn; congruence. Qed.

Lemma truncate_length n f : String.length (truncate n f) = n.
Proof. unfold truncate. rewrite str_length_app, str_length_take_le, zeros_length. lia. Qed.

Lemma truncate_id n f : String.length f = n → truncate n f = f.
Proof. intros <-. unfold truncate. rewrite Nat.sub_diag, str_take_all. apply str_app_nil_r. Qed.

(** A write inside the file. *)
Lemma writeAt_length off d f :
  (off + String.length d <= String.length f)%nat → String.length (writeAt off d f) = String.length f.
Proof.
  intros Hle. unfold writeAt. replace (_ <? off)%nat with false by (symmetry; apply Nat.ltb_ge; lia).
  rewrite !str_length_app, str_length_take_le, str_length_drop. lia.
Qed.

Lemma writeAt_get off d f x :
  (off + String.length d <= String.length f)%nat →
  String.get x (writeAt off d f)
  = if ((off <=? x) && (x <? off + String.length d))%nat then String.get (x - off) d else String.get x f.
Proof.
  intros Hle. unfold writeAt. replace (_ <? off)%nat with false by (symmetry; apply Nat.ltb_ge; lia).
  rewrite get_app, str_length_take_le, Nat.min_l by lia. rewrite get_take.
  destruct (x <? off)%nat eqn:Hx.
  - apply Nat.ltb_lt in Hx. replace (off <=? x)%nat with false by (symmetry; apply Nat.leb_gt; lia). done.
  - apply Nat.ltb_ge in Hx. replace (off <=? x)%nat with true by (symmetry; apply Nat.leb_le; lia). cbn [andb].
    rewrite get_app, get_drop.
    destruct (x <? off + String.length d)%nat eqn:Hx2.
    + apply Nat.ltb_lt in Hx2. by replace (x - off <? String.length d)%nat with true by (symmetry; apply Nat.ltb_lt; lia).
    + apply Nat.ltb_ge in Hx2. replace (x - off <? String.length d)%nat with false by (symmetry; apply Nat.ltb_ge; lia).
      f_equal. lia.
Qed.
End bytes.

(** ** The true file *)
Section file.
Context (F : string).

(** The bytes of chunk [c] in the file. *)
Definition slice (c : Chunk) : string := str_take (Z.to_nat (End_ c - Start c)) (str_drop (Z.to_nat (Start c)) F).

(** [f] has the file's byte at [x]. *)
Definition right_at (f : string) (x : nat) : Prop := String.get x f = String.get x F.

Definition right_on (f : string) (c : Chunk) : Prop :=
  ∀ x, (Z.to_nat (Start c) <= x < Z.to_nat (End_ c))%nat → right_at f x.

(** A chunk inside the file. *)
Definition inside (c : Chunk) : Prop := 0 <= Start c <= End_ c ∧ End_ c <= Z.of_nat (String.length F).

Lemma slice_length c : inside c → String.length (slice c) = Z.to_nat (End_ c - Start c).
Proof. intros [? ?]. unfold slice. rewrite str_length_take_le, str_length_drop. lia. Qed.

(** Writing (a prefix of) the right bytes keeps what is right and makes the
    written range right. *)
Lemma write_slice f c k :
  inside c → String.length f = String.length F →
  let f' := writeAt (Z.to_nat (Start c)) (str_take k (slice c)) f in
  String.length f' = String.length F ∧ (∀ x, right_at f x → right_at f' x) ∧
  (∀ x, (Z.to_nat (Start c) <= x < Z.to_nat (Start c) + String.length (str_take k (slice c)))%nat → right_at f' x).
Proof.
  intros Hin Hlen f'. pose proof (slice_length c Hin) as Hs. pose proof Hin as [Hse Hf].
  assert (Z.to_nat (Start c) + String.length (str_take k (slice c)) <= String.length f)%nat as Hfit.
  { rewrite str_length_take_le, Hs, Hlen. lia. }
  assert (∀ x, (Z.to_nat (Start c) <= x < Z.to_nat (Start c) + String.length (str_take k (slice c)))%nat →
            right_at f' x) as Hnew.
  { intros x Hx. unfold right_at, f'. rewrite writeAt_get by done.
    replace ((_ <=? x) && _)%nat with true by (symmetry; rewrite andb_true_iff, Nat.leb_le, Nat.ltb_lt; lia).
    rewrite str_length_take_le in Hx. rewrite get_take.
    replace (_ <? k)%nat with true by (symmetry; apply Nat.ltb_lt; lia).
    unfold slice. rewrite get_take. replace (_ <? _)%nat with true by (symmetry; apply Nat.ltb_lt; lia).
    rewrite get_drop. f_equal. lia. }
  split_and!; [unfold f'; by rewrite writeAt_length|  |done].
  intros x Hx. destruct (decide (Z.to_nat (Start c) <= x < Z.to_nat (Start c) + String.length (str_take k (slice c)))%nat);
    [by apply Hnew|].
  unfold right_at, f'. rewrite writeAt_get by done.
  replace ((_ <=? x) && _)%nat with false; [done|]. symmetry. rewrite andb_false_iff, Nat.leb_gt, Nat.ltb_ge. lia.
Qed.
End file.

(** ** Collecting results *)

(** Without failures every chunk is received and there is no error. *)
Lemma collect_all ev resume hash rs co :
  (∀ i, e_write ev i = None) → Forall (λ r, is_Some (cr_out r)) rs →
  co_firstError (collect ev resume hash rs co) = co_firstError co ∧
  ∀ r, r ∈ rs → Index (cr_chunk r) ∈ co_received (collect ev resume hash rs co).
Proof.
  intros Hw Hrs.
  assert (∀ rs co i, i ∈ co_received co → i ∈ co_received (collect ev resume hash rs co)) as Hmono.
  { clear. intros rs. unfold collect. induction rs as [|r rs IH]; intros co i Hi; cbn; [done|]. apply IH.
    unfold collect1. repeat case_match; cbn; try done; set_solver. }
  revert co. induction Hrs as [|r rs Hr _ IH]; intros co.
  - split; [done|]. intros r Hr. by apply not_elem_of_nil in Hr.
  - destruct Hr as [[data s] Hr]. destruct (IH (collect1 ev resume hash co r)) as [H1 H2].
    unfold collect in *. cbn. rewrite H1. split.
    + unfold collect1. by rewrite Hr, Hw.
    + intros r' [->|Hr']%elem_of_cons; [|by apply H2].
      apply Hmono. unfold collect1. rewrite Hr, Hw. cbn. set_solver.
Qed.

Section collecting.
Context (F : string) (size cs : Z).
Context (Hgrid : grid_ok size cs) (HF : Z.of_nat (String.length F) = size).

Definition gchunk (i : Z) : Chunk := mkChunk i (chunkStart cs i) (chunkEnd size cs i).

Lemma gchunk_inside i : i ∈ indices (totalChunks size cs) → inside F (gchunk i).
Proof.
  intros Hi%elem_of_indices. destruct (chunk_bounds size cs Hgrid i Hi) as (? & ? & ?).
  unfold inside. cbn. lia.
Qed.

(** A result for a chunk of the grid whose data, if any, is right. *)
Definition honest (r : ChunkResult) : Prop :=
  (∃ i, i ∈ indices (totalChunks size cs) ∧ cr_chunk r = gchunk i) ∧
  ∀ data s, cr_out r = Some (data, s) → data = slice F (cr_chunk r).

(** The received chunks are right in the file. *)
Definition right_co (co : Collect) : Prop :=
  String.length (co_file co) = String.length F ∧
  ∀ i, i ∈ co_received co → right_on F (co_file co) (gchunk i).

Lemma collect1_right ev resume hash co r :
  honest r → right_co co →
  right_co (collect1 ev resume hash co r) ∧
  ∀ x, right_at F (co_file co) x → right_at F (co_file (collect1 ev resume hash co r)) x.
Proof.
  intros [(i & Hi & Hc) Hd] [Hlen Hrec]. unfold collect1.
  destruct (cr_out r) as [[data s]|] eqn:Hout; [|done].
  rewrite (Hd data s eq_refl), Hc. pose proof (gchunk_inside i Hi) as Hin.
  destruct (e_write ev _) as [k|].
  - destruct (write_slice F (co_file co) (gchunk i) k Hin Hlen) as (Hl & Hkeep & _).
    split; [|exact Hkeep]. split; [exact Hl|]. cbn. intros j Hj x Hx. apply Hkeep. by apply (Hrec j Hj).
  - destruct (write_slice F (co_file co) (gchunk i) (String.length (slice F (gchunk i))) Hin Hlen) as (Hl & Hkeep & Hnew).
    rewrite str_take_all in *. cbn in *. split; [|exact Hkeep]. split; [exact Hl|]. cbn. intros j Hj x Hx.
    apply elem_of_union in Hj as [Hj%elem_of_singleton|Hj]; [|apply Hkeep; by apply (Hrec j Hj)].
    subst. apply Hnew. rewrite slice_length by done. cbn in *. lia.
Qed.

Lemma collect_right ev resume hash rs co :
  Forall honest rs → right_co co →
  right_co (collect ev resume hash rs co) ∧
  ∀ x, right_at F (co_file co) x → right_at F (co_file (collect ev resume hash rs co)) x.
Proof.
  unfold collect. intros Hrs. revert co. induction Hrs as [|r rs Hr _ IH]; intros co Hco; cbn; [done|].
  destruct (collect1_right ev resume hash co r Hr Hco) as [H1 H2].
  destruct (IH _ H1) as [H3 H4]. split; [done|]. auto.
Qed.

(** A file that is right on every chunk is the file. *)
Lemma right_everywhere f :
  String.length f = String.length F →
  (∀ i, i ∈ indices (totalChunks size cs) → right_on F f (gchunk i)) → f = F.
Proof.
  intros Hlen Hall. apply get_ext. intros x.
  destruct (decide (x < String.length F)%nat) as [Hx|Hx]; [|by rewrite !get_ge by lia].
  pose proof Hgrid as (? & ? & ?). pose proof (totalChunks_bounds size cs Hgrid).
  pose proof (Z.div_mod (Z.of_nat x) cs). pose proof (Z.mod_pos_bound (Z.of_nat x) cs).
  assert (0 <= Z.of_nat x / cs < totalChunks size cs) as Hi by nia.
  apply (Hall (Z.of_nat x / cs)); [by apply elem_of_indices|].
  cbn. rewrite chunkStart_eq with (size := size), chunkEnd_eq by done. nia.
Qed.
End collecting.

(** ** Whole downloads *)

Lemma chunkFile_ne dir i : 0 <= i → chunkFile dir i ≠ assembled dir.
Proof.
  intros Hi. unfold chunkFile, assembled.
  assert (str_no slash (Itoa i) = true) as Hno.
  { unfold Itoa. replace (i <? 0) with false by (symmetry; apply Z.ltb_ge; lia).
    eapply str_forallb_impl; [|apply (itoa_go_digits 20 i ""); done].
    intros a Ha. cbn in Ha. apply negb_true_iff, Ascii.eqb_neq. intros ->. done. }
  assert (plain ("chunk_" +:+ Itoa i) = true) as Hp.
  { unfold plain. rewrite !andb_true_iff, !negb_true_iff. split_and!; done. }
  rewrite (filepath_Join_plain dir ["chunk_" +:+ Itoa i]) by (done || by repeat constructor).
  rewrite (filepath_Join_plain dir ["assembled"]) by (done || by repeat constructor).
  intros Heq%str_app_inj_l. done.
Qed.

Lemma delete_chunkFiles dir (l : list Z) (fs : gmap string string) :
  Forall (λ i, 0 <= i) l → foldr (λ i fs, delete (chunkFile dir i) fs) fs l !! assembled dir = fs !! assembled dir.
Proof.
  intros Hl. induction Hl as [|i l Hi _ IH]; cbn; [done|].
  rewrite lookup_delete_ne; [done|]. by apply chunkFile_ne.
Qed.

Lemma indices_nonneg n : Forall (λ i, 0 <= i) (indices n).
Proof. apply Forall_forall. intros i Hi%elem_of_indices. lia. Qed.

Lemma list_nil_filter {A} (f : A → bool) (l : list A) : (∀ x, x ∈ l → f x = false) → List.filter f l = [].
Proof.
  induction l as [|x l IH]; intros Hf; cbn; [done|]. rewrite (Hf x) by by left.
  apply IH. intros y Hy. apply Hf. by right.
Qed.

Section downloads.
Context `{Sha256, SqlOrder}.

Lemma assemble_verified ev d sources resume existing dir temp hash size results w r w' :
  assemble ev d sources resume existing dir temp hash size results w = (Ok r, w') →
  r_FilePath r = assembled dir ∧ r_Hash r = hash ∧ r_Size r = size ∧
  ∃ content, w_files w' !! assembled dir = Some content ∧ HashBytes content = hash.
Proof.
  unfold assemble. destruct (negb (e_open ev)); [done|]. destruct (negb (e_truncate ev)); [done|].
  destruct (_ && negb sources); [done|].
  lazymatch goal with |- context [co_firstError ?c] => generalize c; intros co end.
  destruct (co_firstError co); [done|].
  destruct (if bool_decide _ then None else _); [done|].
  destruct (negb (e_seek ev && e_read ev)); [done|].
  destruct (String.eqb_spec (HashBytes (co_file co)) hash) as [Heq|]; [|done]. cbn [negb].
  intros [= <- <-]. cbn. split_and!; try done. exists (co_file co). split; [|done].
  destruct resume; cbn.
  - rewrite delete_chunkFiles by apply indices_nonneg. apply lookup_insert_eq.
  - apply lookup_insert_eq.
Qed.

(** The result of a chunked download is verified. *)
Lemma downloadChunked_verified ev d hasState sources partialDir mirrorURL hash size results w r w' :
  downloadChunked ev d hasState sources partialDir mirrorURL hash size results w = (Ok r, w') →
  r_Hash r = hash ∧ r_Size r = size ∧
  ∃ content, w_files w' !! r_FilePath r = Some content ∧ HashBytes content = hash.
Proof.
  unfold downloadChunked. destruct (prepare _ _ _ _ _ _ _ _) as [[[resume existing] dir] w1].
  destruct (String.eqb dir ""); [destruct (e_mkdirTemp ev); [|done]|];
    intros (Hp & ? & ? & ?)%assemble_verified; rewrite Hp; eauto.
Qed.

(** C6: whatever peers and mirrors send, a chunked download that returns a
    result has left, at the path it returns, a file whose SHA-256 is the
    expected hash. *)
Theorem chunked_result_verified ev d hasState sources partialDir mirrorURL hash size results w r w' :
  downloadChunked ev d hasState sources partialDir mirrorURL hash size results w = (Ok r, w') →
  r_Hash r = hash ∧ r_Size r = size ∧
  ∃ content, w_files w' !! r_FilePath r = Some content ∧ HashBytes content = hash.
Proof. apply downloadChunked_verified. Qed.

(** *** Completeness *)

Lemma recovered_elem resume existing cs size file i :
  i ∈ recovered resume existing cs size file →
  ∃ st f c, resume = true ∧ existing = Some st ∧ file = Some f ∧ s_ChunkSize st = cs ∧
    Z.of_nat (String.length f) = size ∧ c ∈ s_Chunks st ∧ cs_Status c = "completed" ∧ cs_Index c = i.
Proof.
  unfold recovered. destruct resume; [|set_solver]. destruct existing as [st|]; [|set_solver].
  destruct file as [f|]; [|set_solver]. destruct (_ && _) eqn:Hc; [|set_solver].
  apply andb_true_iff in Hc as [Hcs Hlen]. apply Z.eqb_eq in Hcs, Hlen.
  rewrite elem_of_list_to_set, list_elem_of_fmap. intros (c & -> & Hin).
  rewrite list_elem_of_In, filter_In, <- list_elem_of_In, andb_true_iff, String.eqb_eq in Hin.
  exists st, f, c. naive_solver.
Qed.

Section honest.
Context (F hash : string) (size : Z) (d : Downloader).
Context (Hgrid : grid_ok size (chunkSize d)) (HF : Z.of_nat (String.length F) = size).
Context (src : Chunk → Source).

#[local] Abbreviation chunk_i := (gchunk size (chunkSize d)).

(** The chunks the state records as completed are right in the assembly file,
    if that has the right size. *)
Definition trusted (existing : option DownloadState) (file : option string) : Prop :=
  ∀ st f c, existing = Some st → file = Some f → s_ChunkSize st = chunkSize d →
    Z.of_nat (String.length f) = size → c ∈ s_Chunks st → cs_Status c = "completed" →
    cs_Index c ∈ indices (totalChunks size (chunkSize d)) → right_on F f (chunk_i (cs_Index c)).

(** Every pending chunk is answered, with its bytes of the file, in any order. *)
Definition answers (results : list Chunk → list ChunkResult) : Prop :=
  ∀ cs, results cs ≡ₚ (λ c, mkChunkResult c (Some (slice F c, src c))) <$> cs.

Record io_ok (ev : DlEnv) : Prop := {
  io_open : e_open ev = true; io_trunc : e_truncate ev = true;
  io_seek : e_seek ev = true; io_read : e_read ev = true; io_write : ∀ i, e_write ev i = None;
}.

Lemma pending_grid done c :
  c ∈ pendingChunks (chunkSize d) size done ↔
  ∃ i, c = chunk_i i ∧ i ∈ indices (totalChunks size (chunkSize d)) ∧ i ∉ done.
Proof.
  unfold pendingChunks. rewrite list_elem_of_fmap. setoid_rewrite list_elem_of_In. setoid_rewrite filter_In.
  setoid_rewrite negb_true_iff. setoid_rewrite bool_decide_eq_false. done.
Qed.

Lemma start_right existing resume file i :
  trusted existing file → i ∈ recovered resume existing (chunkSize d) size file →
  i ∈ indices (totalChunks size (chunkSize d)) →
  right_on F (truncate (Z.to_nat size) (default "" file)) (chunk_i i).
Proof.
  intros Ht (st & f & c & -> & -> & -> & Hcs & Hlen & Hc & Hs & <-)%recovered_elem. cbn.
  rewrite truncate_id by lia. by eapply Ht.
Qed.

(** What the collector ends with. *)
Lemma assemble_collects ev existing resume file results :
  trusted existing file → answers results → io_ok ev →
  let done := recovered resume existing (chunkSize d) size file in
  let chunks := pendingChunks (chunkSize d) size done in
  ∀ sm, let co := collect ev resume hash (results chunks)
                    (mkCollect (truncate (Z.to_nat size) (default "" file)) sm ∅ None 0 0 0) in
  co_file co = F ∧ co_firstError co = None ∧
  ∀ i, i ∈ indices (totalChunks size (chunkSize d)) → i ∈ co_received co ∪ done.
Proof.
  intros Ht Hans Hio done chunks sm co.
  assert (∀ r, r ∈ results chunks ↔ ∃ c, r = mkChunkResult c (Some (slice F c, src c)) ∧ c ∈ chunks) as Hin.
  { intros r. rewrite (Hans chunks). by rewrite list_elem_of_fmap. }
  assert (Forall (honest F size (chunkSize d)) (results chunks)) as Hhon.
  { apply Forall_forall. intros r (c & -> & (i & -> & Hi & _)%pending_grid)%Hin.
    split; [eauto|]. cbn. by intros data s [= <- <-]. }
  destruct (collect_right F size (chunkSize d) Hgrid HF ev resume hash (results chunks)
    (mkCollect (truncate (Z.to_nat size) (default "" file)) sm ∅ None 0 0 0) Hhon) as [[Hlen Hrec] Hkeep].
  { split; cbn; [rewrite truncate_length; lia|]. set_solver. }
  destruct (collect_all ev resume hash (results chunks)
    (mkCollect (truncate (Z.to_nat size) (default "" file)) sm ∅ None 0 0 0) (io_write _ Hio)) as [He Hall].
  { apply Forall_forall. intros r (c & -> & _)%Hin. by eexists. }
  fold co in Hlen, Hrec, Hkeep, He, Hall. cbn in He.
  assert (∀ i, i ∈ indices (totalChunks size (chunkSize d)) → i ∈ co_received co ∪ done) as Hcov.
  { intros i Hi. destruct (decide (i ∈ done)) as [|Hno]; [set_solver|]. apply elem_of_union_l.
    apply (Hall (mkChunkResult (chunk_i i) (Some (slice F (chunk_i i), src (chunk_i i))))), Hin.
    eexists. split; [done|]. apply pending_grid. eauto. }
  split_and!; [|done|done].
  apply (right_everywhere F size (chunkSize d) Hgrid HF); [done|]. intros i Hi.
  pose proof (Hcov i Hi) as [Hi'|Hi']%elem_of_union; [by apply Hrec|].
  intros x Hx. apply Hkeep. cbn. by eapply start_right.
Qed.

(** Every chunk recorded as completed is in the assembly file, which has the
    right size; the recorded grid is the one in use. *)
Definition recorded (sm : SM) (file : option string) : Prop :=
  (∀ row, downloads sm !! hash = Some row → d_chunk_size row = chunkSize d) ∧
  (∀ i r, download_chunks sm !! (hash, i) = Some r → c_status r = "completed" →
     i ∈ indices (totalChunks size (chunkSize d)) →
     ∃ f, file = Some f ∧ Z.of_nat (String.length f) = size ∧ right_on F f (chunk_i i)).

Definition resumable (dir : string) (w : World) : Prop := recorded (w_sm w) (w_files w !! assembled dir).

Lemma GetDownload_chunks ev sm st c :
  GetDownload ev hash sm = Ok (Some st) → c ∈ s_Chunks st →
  ∃ r, download_chunks sm !! (hash, cs_Index c) = Some r ∧ c_status r = cs_Status c.
Proof.
  unfold GetDownload. repeat case_match; try done. intros [= <-]. cbn.
  rewrite list_elem_of_fmap. intros ([[h i] r] & -> & [Heq Hl]%elem_of_chunks_of). cbn in *. subst. eauto.
Qed.

Lemma resumable_trusted dir w existing :
  resumable dir w → (∀ st, existing = Some st → ∃ ev, GetDownload ev hash (w_sm w) = Ok (Some st)) →
  trusted existing (w_files w !! assembled dir).
Proof.
  intros [_ Hres] Hget st f c -> Hf _ Hlen Hc Hs Hi. destruct (Hget st eq_refl) as [ev Hev].
  destruct (GetDownload_chunks _ _ _ _ Hev Hc) as (r & Hr & Hst). rewrite Hs in Hst.
  destruct (Hres _ _ Hr Hst Hi) as (f' & Hf' & _ & Hright).
  rewrite Hf in Hf'. by injection Hf' as <-.
Qed.

Lemma prepare_spec ev hasState partialDir url w resume existing dir w1 :
  prepare ev d hasState partialDir url hash size w = (resume, existing, dir, w1) →
  w_files w1 = w_files w ∧ dir = (if hasState then partialDir else "") ∧
  (hasState = false → existing = None) ∧
  (∀ st, existing = Some st → w1 = w ∧ GetDownload (e_get ev) hash (w_sm w) = Ok (Some st)) ∧
  (w_sm w1 = w_sm w ∨ w_sm w1 = (CreateDownload (e_create ev) hash url size (chunkSize d) (w_sm w)).2).
Proof.
  unfold prepare. destruct hasState; [|intros [= <- <- <- <-]; split_and!; by eauto].
  destruct (GetDownload _ _ _) as [[st|]|e] eqn:Hg.
  - intros [= <- <- <- <-]. split_and!; auto; [done|]. by intros st' [= <-].
  - destruct (CreateDownload _ _ _ _ _ _) as [r sm] eqn:Hc. intros [= <- <- <- <-]. cbn. split_and!; by eauto.
  - destruct (CreateDownload _ _ _ _ _ _) as [r sm] eqn:Hc. intros [= <- <- <- <-]. cbn. split_and!; by eauto.
Qed.

(** C7: an attempt in which every pending chunk is answered with its bytes, in
    whatever order, and the file operations succeed, returns the file: its
    content at the returned path is exactly [F].  The attempt may resume any
    earlier one that left a [resumable] state, whatever part of the state
    database fails. *)
Theorem chunked_download_completes ev (hasState : bool) partialDir url results w :
  HashBytes F = hash → answers results → io_ok ev →
  (if hasState then partialDir ≠ "" else is_Some (e_mkdirTemp ev)) →
  (hasState = true → resumable partialDir w) →
  ∃ r w', downloadChunked ev d hasState true partialDir url hash size results w = (Ok r, w') ∧
    w_files w' !! r_FilePath r = Some F.
Proof.
  intros Hhash Hans Hio Hdir Hres. unfold downloadChunked.
  destruct (prepare _ _ _ _ _ _ _ _) as [[[resume existing] dir] w1] eqn:Hprep.
  apply prepare_spec in Hprep as (Hfs & -> & Hnone & Hex & _).
  assert (∀ dir temp, trusted existing (w_files w1 !! assembled dir) →
    ∃ r w', assemble ev d true resume existing dir temp hash size results w1 = (Ok r, w') ∧
      w_files w' !! r_FilePath r = Some F) as Hasm.
  { intros dir temp Ht. unfold assemble. pose proof Hio as [-> -> -> -> Hwr]. cbn [negb andb].
    rewrite andb_false_r.
    pose proof (assemble_collects ev existing resume (w_files w1 !! assembled dir) results Ht Hans Hio) as Hco.
    cbv zeta in Hco.
    set (done := recovered _ _ _ _ _) in *. set (chunks := pendingChunks _ _ _) in *.
    destruct (bool_decide (chunks = [])) eqn:Hnil.
    - apply bool_decide_eq_true in Hnil. specialize (Hco (w_sm w1)).
      assert (results chunks = []) as Hr.
      { specialize (Hans chunks). rewrite Hnil in Hans. cbn in Hans. rewrite Hnil.
        by apply Permutation_nil_r in Hans. }
      rewrite Hr in Hco. cbn in Hco. destruct Hco as (HcF & _ & _). cbn [co_firstError co_file co_sm].
      rewrite HcF, Hhash, String.eqb_refl. cbn [negb]. do 2 eexists. split; [done|]. cbn.
      destruct resume; cbn; [rewrite delete_chunkFiles by apply indices_nonneg|]; apply lookup_insert_eq.
    - match goal with |- context [mkCollect _ ?sm ∅ None 0 0 0] => specialize (Hco sm) end.
      destruct Hco as (HcF & HcE & Hcov). rewrite HcE, HcF.
      lazymatch goal with |- context [head ?l] => assert (l = []) as -> end.
      { apply list_nil_filter. intros i Hi. rewrite negb_false_iff. apply bool_decide_eq_true. by apply Hcov. }
      cbn [head]. rewrite Hhash, String.eqb_refl. cbn [negb]. do 2 eexists. split; [done|]. cbn.
      destruct resume; cbn; [rewrite delete_chunkFiles by apply indices_nonneg|]; apply lookup_insert_eq. }
  destruct hasState.
  - replace (String.eqb partialDir "") with false by (symmetry; by apply String.eqb_neq).
    apply Hasm. rewrite Hfs. apply resumable_trusted; [by apply Hres|]. intros st Hst.
    destruct (Hex st Hst). eauto.
  - destruct Hdir as [t Ht]. cbn. rewrite Ht. apply Hasm. rewrite Hnone by done. by intros st f c Hst.
Qed.

(** *** Interrupted attempts *)

Lemma recorded_alter f sm file :
  (∀ r, d_chunk_size (f r) = d_chunk_size r) → recorded sm file →
  recorded (set_downloads (alter f hash (downloads sm)) sm) file.
Proof.
  intros Hf [Hcs Hdone]. split; [|done]. cbn. intros row. rewrite lookup_alter, decide_True by done.
  destruct (downloads sm !! hash); [|done]. cbn. intros [= <-]. rewrite Hf. by apply Hcs.
Qed.

Lemma recorded_fail ev e sm file : recorded sm file → recorded (FailDownload ev hash e sm).2 file.
Proof. intros Hr. unfold FailDownload. case_match; [by apply recorded_alter|done]. Qed.

Lemma recorded_status ev st sm file : recorded sm file → recorded (UpdateDownloadStatus ev hash st sm).2 file.
Proof. intros Hr. unfold UpdateDownloadStatus. case_match; [by apply recorded_alter|done]. Qed.

Lemma recorded_delete ev sm file : recorded sm file → recorded (DeleteDownload ev hash sm).2 file.
Proof.
  intros Hr. unfold DeleteDownload. case_match; [|done]. destruct Hr as [Hcs Hdone]. split; cbn.
  - intros row [? ?]%lookup_delete_Some. done.
  - intros i r. unfold deleteChunks. rewrite map_lookup_filter_Some. cbn. intros [_ ?]. done.
Qed.

Lemma recorded_create ev url sm file :
  recorded sm file → recorded (CreateDownload ev hash url size (chunkSize d) sm).2 file.
Proof.
  intros Hr. unfold CreateDownload. destruct (negb _); [done|]. destruct (negb _); [done|].
  destruct (downloads sm !! hash); [done|]. destruct (negb _); [done|].
  destruct (insertChunks _ _ _ _ _ _) as [t|] eqn:Hins; [|done]. destruct (db ev StCommit); [|done].
  pose proof (insertChunks_inv _ _ _ _ _ _ _ Hins) as Hl. destruct Hr as [Hcs Hdone]. split; cbn.
  - intros row. rewrite lookup_insert_eq. by intros [= <-].
  - intros i r. rewrite Hl. case_decide; [by intros [= <-]|]. apply Hdone.
Qed.

Lemma recorded_allocate sm file :
  recorded sm file → recorded sm (Some (truncate (Z.to_nat size) (default "" file))).
Proof.
  intros [Hcs Hdone]. split; [done|]. intros i r Hr Hs Hi.
  destruct (Hdone i r Hr Hs Hi) as (f & -> & Hlen & Hright). cbn. rewrite truncate_id by lia. eauto.
Qed.

Lemma recorded_open sm file : recorded sm file → recorded sm (Some (default "" file)).
Proof.
  intros [Hcs Hdone]. split; [done|]. intros i r Hr Hs Hi.
  destruct (Hdone i r Hr Hs Hi) as (f & -> & Hlen & Hright). eauto.
Qed.

(** Marking a chunk whose bytes are in place. *)
Lemma recorded_mark ev sm f i :
  recorded sm (Some f) → Z.of_nat (String.length f) = size → right_on F f (chunk_i i) →
  recorded (UpdateChunk ev hash i "completed" sm).2 (Some f).
Proof.
  intros [Hcs Hdone] Hlen Hright. unfold UpdateChunk. destruct (negb _); [done|]. destruct (negb _); [done|].
  cbn. destruct (negb _); [done|]. destruct (db ev StCommit); [|done]. split; cbn.
  - intros row. rewrite lookup_alter, decide_True by done.
    destruct (downloads sm !! hash); [|done]. cbn. intros [= <-]. exact (Hcs _ eq_refl).
  - intros j r. rewrite lookup_alter. case_decide as Hj; [|apply Hdone].
    injection Hj as <-. intros _ _ _. eauto.
Qed.

(** Replacing the file by one that is right wherever the old one is. *)
Lemma recorded_file sm f f' :
  recorded sm (Some f) → String.length f' = String.length f → (∀ x, right_at F f x → right_at F f' x) →
  recorded sm (Some f').
Proof.
  intros [Hcs Hdone] Hlen Hkeep. split; [done|]. intros i r Hr Hs Hi.
  destruct (Hdone i r Hr Hs Hi) as (g & [= <-] & Hg & Hright). exists f'. split_and!; [done|congruence|].
  intros x Hx. apply Hkeep. by apply Hright.
Qed.

Lemma collect_recorded ev resume rs co :
  Forall (honest F size (chunkSize d)) rs → right_co F size (chunkSize d) co →
  recorded (co_sm co) (Some (co_file co)) →
  let co' := collect ev resume hash rs co in recorded (co_sm co') (Some (co_file co')).
Proof.
  unfold collect. intros Hrs. revert co. induction Hrs as [|r rs Hr _ IH]; intros co Hco Hrec; cbn; [done|].
  destruct (collect1_right F size (chunkSize d) Hgrid HF ev resume hash co r Hr Hco) as [Hco' Hkeep].
  apply IH; [done|]. destruct Hco as [Hl _]. pose proof Hco' as [Hl' Hrec'].
  apply (recorded_file _ _ _ Hrec) in Hkeep as Hfile; [|congruence].
  destruct Hr as [(i & Hi & Hc) _]. revert Hco' Hkeep Hfile Hl' Hrec'. unfold collect1. rewrite Hc.
  destruct (cr_out r) as [[data src']|]; [|done]. destruct (e_write ev _) as [k|]; [done|].
  cbn. intros _ _ Hfile Hl' Hrec'. destruct resume; [|done].
  apply recorded_mark; [done|congruence|]. apply Hrec'. set_solver.
Qed.

(** What the collector of an honest attempt ends with: a recorded state, and
    the file itself when nothing is missing. *)
Lemma attempt_co ev resume existing file results :
  let done := recovered resume existing (chunkSize d) size file in
  let chunks := pendingChunks (chunkSize d) size done in
  trusted existing file → Forall (honest F size (chunkSize d)) (results chunks) → HashBytes F = hash →
  ∀ sm, recorded sm file →
  let allocated := truncate (Z.to_nat size) (default "" file) in
  let co := if bool_decide (chunks = []) then mkCollect allocated sm ∅ None 0 0 0
            else collect ev resume hash (results chunks)
                   (mkCollect allocated
                      (if resume then (UpdateDownloadStatus (e_status ev) hash "in_progress" sm).2 else sm)
                      ∅ None 0 0 0) in
  recorded (co_sm co) (Some (co_file co)) ∧
  (co_firstError co = None → (bool_decide (chunks = []) = true ∨
     List.filter (λ i, negb (bool_decide (i ∈ co_received co ∪ done))) (indices (totalChunks size (chunkSize d))) = []) →
   HashBytes (co_file co) = hash).
Proof.
  intros done chunks Ht Hhon Hhash sm Hrec allocated.
  assert (∀ sm', right_co F size (chunkSize d) (mkCollect allocated sm' ∅ None 0 0 0)) as Hstart.
  { intros sm'. split; cbn; [unfold allocated; rewrite truncate_length; lia|set_solver]. }
  destruct (bool_decide (chunks = [])) eqn:Hnil.
  - intros co. split; [by apply recorded_allocate|]. intros _ _. cbn. rewrite <- Hhash. f_equal.
    apply (right_everywhere F size (chunkSize d) Hgrid HF); [apply (Hstart sm)|].
    intros i Hi. destruct (decide (i ∈ done)) as [Hd|Hd]; [by apply (start_right existing resume)|].
    apply bool_decide_eq_true in Hnil. exfalso.
    assert (chunk_i i ∈ chunks) as Hin by (apply pending_grid; eauto). rewrite Hnil in Hin.
    by apply not_elem_of_nil in Hin.
  - set (sm' := if resume then _ else _). intros co.
    assert (recorded sm' (Some allocated)) as Hrec'.
    { unfold sm'. destruct resume; [apply recorded_status|]; by apply recorded_allocate. }
    split; [by apply (collect_recorded ev resume (results chunks) _ Hhon (Hstart sm'))|].
    intros _ [?|Hmiss]; [done|]. rewrite <- Hhash. f_equal.
    destruct (collect_right F size (chunkSize d) Hgrid HF ev resume hash (results chunks) _ Hhon (Hstart sm'))
      as [[Hlen Hright] Hkeep].
    apply (right_everywhere F size (chunkSize d) Hgrid HF); [done|]. intros i Hi.
    destruct (decide (i ∈ co_received co)) as [Hr|Hr]; [by apply Hright|].
    destruct (decide (i ∈ done)) as [Hd|Hd].
    + intros x Hx. apply Hkeep. cbn. by eapply (start_right existing resume).
    + exfalso. assert (i ∈ List.filter (λ i, negb (bool_decide (i ∈ co_received co ∪ done)))
                             (indices (totalChunks size (chunkSize d)))) as Hin.
      { rewrite list_elem_of_In, filter_In, <- list_elem_of_In. split; [done|].
        rewrite negb_true_iff, bool_decide_eq_false. set_solver. }
      rewrite Hmiss in Hin. by apply not_elem_of_nil in Hin.
Qed.

(** An attempt whose sources answer wrongly for no chunk leaves a state the
    next attempt can trust, however it ends: chunks may fail or never be
    answered, writes may stop half-way, any statement of the state database may
    fail, in any order.  Every chunk recorded as completed is then still in the
    assembly file, which has the expected size. *)
Theorem interrupted_download_resumable ev partialDir url results w :
  HashBytes F = hash → partialDir ≠ "" →
  (∀ chunks, (∀ c, c ∈ chunks → ∃ i, i ∈ indices (totalChunks size (chunkSize d)) ∧ c = chunk_i i) →
     Forall (honest F size (chunkSize d)) (results chunks)) →
  resumable partialDir w →
  resumable partialDir (downloadChunked ev d true true partialDir url hash size results w).2.
Proof.
  intros Hhash Hdir Hhon Hres. unfold downloadChunked.
  destruct (prepare _ _ _ _ _ _ _ _) as [[[resume existing] dir] w1] eqn:Hprep.
  apply prepare_spec in Hprep as (Hfs & -> & _ & Hex & Hsm).
  replace (String.eqb partialDir "") with false by (symmetry; by apply String.eqb_neq).
  assert (recorded (w_sm w1) (w_files w1 !! assembled partialDir)) as Hrec.
  { rewrite Hfs. destruct Hsm as [->| ->]; [done|by apply recorded_create]. }
  assert (trusted existing (w_files w1 !! assembled partialDir)) as Ht.
  { rewrite Hfs. apply (resumable_trusted _ w); [done|]. intros st Hst. destruct (Hex st Hst). eauto. }
  clear Hres Hfs Hex Hsm w. unfold assemble, resumable.
  destruct (negb (e_open ev)); [done|]. destruct (negb (e_truncate ev)).
  { cbn. rewrite lookup_insert_eq. by apply recorded_open. }
  set (done := recovered _ _ _ _ _) in *. set (chunks := pendingChunks _ _ _) in *. rewrite andb_false_r.
  lazymatch goal with |- context [co_firstError ?c] => set (co := c) end.
  assert (recorded (co_sm co) (Some (co_file co)) ∧
          (co_firstError co = None → (bool_decide (chunks = []) = true ∨
             List.filter (λ i, negb (bool_decide (i ∈ co_received co ∪ done))) (indices (totalChunks size (chunkSize d))) = []) →
           HashBytes (co_file co) = hash)) as [Hco Hfull].
  { apply (attempt_co ev resume existing _ results Ht); [|done..].
    apply Hhon. intros c (i & -> & Hi & _)%pending_grid. eauto. }
  destruct (co_firstError co) as [e|] eqn:He.
  { destruct resume; cbn; rewrite lookup_insert_eq; [by apply recorded_fail|done]. }
  destruct (if bool_decide _ then None else _) as [i|] eqn:Hmiss; [cbn; by rewrite lookup_insert_eq|].
  destruct (negb (e_seek ev && e_read ev)); [cbn; by rewrite lookup_insert_eq|].
  rewrite Hfull, String.eqb_refl; [|done|].
  - cbn. destruct resume; cbn; [rewrite delete_chunkFiles by apply indices_nonneg|];
      rewrite lookup_insert_eq; [|done]. by apply recorded_delete, recorded_status.
  - destruct (bool_decide (chunks = [])); [by left|right]. by destruct (List.filter _ _).
Qed.
End honest.

(** ** Workers *)
Section workers.
Context `{GoSort}.

Lemma selectBest_elem now t sources s : selectBest now t sources = Some s → s ∈ sources.
Proof.
  unfold selectBest. intros Hs. apply head_Some_elem_of in Hs.
  rewrite sort_Slice_perm, <- list_fmap_compose in Hs. cbn in Hs.
  by rewrite list_fmap_id in Hs.
Qed.

Lemma selectBest_total now t sources : sources ≠ [] → is_Some (selectBest now t sources).
Proof.
  intros Hne. unfold selectBest. destruct (sort_Slice _ _) as [|x l] eqn:Hs; [|by eexists].
  exfalso. apply Hne.
  lazymatch type of Hs with sort_Slice ?f ?x = _ => pose proof (sort_Slice_perm f x) as Hp end. rewrite Hs in Hp.
  apply Permutation_nil_l, eq_sym, fmap_nil_inv in Hp. done.
Qed.

Lemma tryChunk_spec net sources c more n source last :
  sources ≠ [] → source ∈ sources →
  (last = None ∨ complete c last = false) →
  ∃ d s, tryChunk net sources c n more source last = Some (d, s) ∧
    (complete c d = true →
     s ∈ sources ∧ ∃ k, (n <= k < n + more)%nat ∧ cn_download net k s (Start c) (End_ c) = d).
Proof.
  intros Hne. revert n source last. induction more as [|more IH]; intros n source last Hs Hlast; cbn.
  - exists last, source. split; [done|]. intros Hc. destruct Hlast as [->|Hl]; [done|congruence].
  - destruct (complete c (cn_download net n source (Start c) (End_ c))) eqn:Hc.
    + do 2 eexists. split; [done|]. intros _. split; [done|]. exists n. split; [lia|done].
    + destruct (selectBest_total (cn_now net (S n)) (cn_tracker net (S n)) sources Hne) as [s' Hs'].
      rewrite Hs'. destruct (IH (S n) s' (cn_download net n source (Start c) (End_ c))) as (d & s2 & Heq & Hd).
      { by eapply selectBest_elem. }
      { by right. }
      exists d, s2. split; [done|]. intros Hd'. destruct (Hd Hd') as (? & k & ? & ?).
      split; [done|]. exists k. split; [lia|done].
Qed.

(** A worker with at least one source always produces a result for the
    chunk it takes, after at most three attempts; data it reports has exactly
    the chunk's length and is what the source it names answered to a request
    for exactly the chunk's range. *)
Theorem worker_result_sound net sources cancelled c :
  sources ≠ [] →
  ∃ r, workChunk net sources cancelled c = Some r ∧ cr_chunk r = c ∧
    ∀ data s, cr_out r = Some (data, s) →
      Z.of_nat (String.length data) = End_ c - Start c ∧ s ∈ sources ∧
      ∃ k, (k < 3)%nat ∧ cn_download net k s (Start c) (End_ c) = Some data.
Proof.
  intros Hne. unfold workChunk. destruct cancelled; [by eexists|].
  destruct (selectBest_total (cn_now net 0) (cn_tracker net 0) sources Hne) as [s0 Hs0]. rewrite Hs0.
  destruct (tryChunk_spec net sources c MaxChunkRetries 0 s0 None Hne) as (d & s & -> & Hd);
    [by eapply selectBest_elem|by left|].
  eexists. split; [done|]. split; [done|]. cbn. intros data s' Hout.
  destruct (complete c d) eqn:Hc; [|done]. destruct (Hd eq_refl) as (Hs & k & Hk & Hdl).
  destruct d as [x|]; [|done]. cbn in Hout. simplify_eq. cbn in Hc. apply Z.eqb_eq in Hc.
  split_and!; [done..|]. exists k. split; [unfold MaxChunkRetries in Hk; lia|done].
Qed.
End workers.

(** ** Racing *)
Lemma race_verified hash racers received evs bl r bl' :
  race hash racers received evs bl = Some (Ok r, bl') → ∃ data, r_Data r = Some data ∧ HashBytes data = hash.
Proof.
  revert received bl. induction evs as [|[s [data|]|] evs IH]; intros received bl; cbn [race]; try done.
  - destruct (String.eqb_spec (HashBytes data) hash) as [Hh|]; cbn [negb].
    + intros [= <- _]. by exists data.
    + destruct (_ <=? _)%nat; [done|apply IH].
  - destruct (_ <=? _)%nat; [done|apply IH].
Qed.

Lemma race_spec hash racers received evs bl :
  Forall (λ e, e ≠ RCancel) evs → (received + length evs = racers)%nat → (received < racers)%nat →
  ∃ out bl', race hash racers received evs bl = Some (out, bl') ∧
    match out with
    | Ok r => ∃ s data, RDone s (Some data) ∈ evs ∧ HashBytes data = hash ∧ r_Data r = Some data ∧ r_Hash r = hash ∧
                        r_Size r = Z.of_nat (String.length data)
    | Err e => e = ErrAllSourcesFailed ∧ ∀ s data, RDone s (Some data) ∈ evs → HashBytes data ≠ hash
    end ∧
    ∀ id, id ∈ bl' → id ∈ bl ∨ ∃ s data, RDone s (Some data) ∈ evs ∧ is_peer s = true ∧ src_ID s = id ∧ HashBytes data ≠ hash.
Proof.
  revert received bl. induction evs as [|ev evs IH]; intros received bl Hall Hlen Hlt; cbn in Hlen; [lia|].
  apply Forall_cons in Hall as [Hev Hall]. destruct ev as [s data|]; [|done]. cbn [race].
  assert (∀ bl1, (∀ id, id ∈ bl1 → id ∈ bl ∨ ∃ s' data', RDone s' (Some data') ∈ RDone s data :: evs ∧
                    is_peer s' = true ∧ src_ID s' = id ∧ HashBytes data' ≠ hash) →
    (∀ s' data', RDone s' (Some data') = RDone s data → HashBytes data' ≠ hash) →
    ∃ out bl', (if (racers <=? S received)%nat then Some (Err ErrAllSourcesFailed, bl1)
                else race hash racers (S received) evs bl1) = Some (out, bl') ∧
    match out with
    | Ok r => ∃ s' data', RDone s' (Some data') ∈ RDone s data :: evs ∧ HashBytes data' = hash ∧ r_Data r = Some data' ∧
                r_Hash r = hash ∧ r_Size r = Z.of_nat (String.length data')
    | Err e => e = ErrAllSourcesFailed ∧ ∀ s' data', RDone s' (Some data') ∈ RDone s data :: evs → HashBytes data' ≠ hash
    end ∧
    ∀ id, id ∈ bl' → id ∈ bl ∨ ∃ s' data', RDone s' (Some data') ∈ RDone s data :: evs ∧ is_peer s' = true ∧
                src_ID s' = id ∧ HashBytes data' ≠ hash) as Hrest.
  { intros bl1 Hbl1 Hhere. destruct (Nat.leb_spec racers (S received)).
    - assert (evs = []) as -> by (destruct evs; [done|cbn in Hlen; lia]).
      exists (Err ErrAllSourcesFailed), bl1. split_and!; [done|done| |done].
      intros s' data' [Heq|Hin]%elem_of_cons; [eauto|by apply not_elem_of_nil in Hin].
    - destruct (IH (S received) bl1 Hall ltac:(lia) ltac:(lia)) as (out & bl' & -> & Hout & Hbl').
      exists out, bl'. split_and!; [done| |].
      + destruct out as [r|e].
        * destruct Hout as (s' & data' & ? & ?). exists s', data'. split; [by right|done].
        * destruct Hout as [-> Hno]. split; [done|]. intros s' data' [Heq|Hin]%elem_of_cons; eauto.
      + intros id [Hin|(s' & data' & ? & ?)]%Hbl'; [by apply Hbl1|]. right. exists s', data'. split; [by right|done]. }
  destruct data as [data|].
  - destruct (String.eqb_spec (HashBytes data) hash) as [Heq|Hne]; cbn [negb].
    + do 2 eexists. split; [done|]. split; [|by left].
      exists s, data. cbn. split_and!; try done. by left.
    + apply Hrest; [|intros s' data' [= -> ->]; done].
      intros id. destruct (is_peer s) eqn:Hp; [|by left].
      intros [?|Hid%list_elem_of_singleton]%elem_of_app; [by left|]. subst. right. exists s, data. split_and!; try done. by left.
  - apply Hrest; [by left|done].
Qed.

(** Racing returns verified bytes, and succeeds whenever any source
    answers correctly: when every racer reports, the result is either data whose
    SHA-256 is the expected hash, or the failure of all sources, and that only
    if no source delivered the right bytes.  Only peers that delivered wrong
    bytes are blacklisted. *)
Theorem racing_succeeds_if_any hash peers (mirror : bool) evs :
  let racers := (peers + if mirror then 1 else 0)%nat in
  (0 < racers)%nat → length evs = racers → Forall (λ e, e ≠ RCancel) evs →
  ∃ out bl, downloadRacing hash peers mirror evs = Some (out, bl) ∧
    match out with
    | Ok r => ∃ s data, RDone s (Some data) ∈ evs ∧ HashBytes data = hash ∧ r_Data r = Some data ∧ r_Hash r = hash ∧
                        r_Size r = Z.of_nat (String.length data)
    | Err e => e = ErrAllSourcesFailed ∧ ∀ s data, RDone s (Some data) ∈ evs → HashBytes data ≠ hash
    end ∧
    ∀ id, id ∈ bl → ∃ s data, RDone s (Some data) ∈ evs ∧ is_peer s = true ∧ src_ID s = id ∧ HashBytes data ≠ hash.
Proof.
  intros racers Hpos Hlen Hall. unfold downloadRacing. fold racers.
  replace (racers =? 0)%nat with false by (symmetry; apply Nat.eqb_neq; lia).
  destruct (race_spec hash racers 0 evs [] Hall ltac:(lia) ltac:(lia)) as (out & bl & -> & Hout & Hbl).
  exists out, bl. split_and!; [done..|]. intros id [Hin|?]%Hbl; [by apply not_elem_of_nil in Hin|done].
Qed.
End downloads.

(** ** Evaluations *)
Section examples.
#[local] Existing Instance toy_sha.
#[local] Existing Instance isort_order.

#[local] Existing Instance insertion_Slice.

Definition dl : Downloader := New (Some (2, 0, 1)).
Definition content : string := "abcd".
Definition h : string := HashBytes content.
Definition peer : Source := mkSource "P" SourceTypePeer.
Definition mirror : Source := mkSource "http://m" SourceTypeMirror.

Definition ev0 : DlEnv :=
  let e := ok_env 100 in
  mkDlEnv e e e e e e (λ _, e) true (Some "/tmp/x") true true true true (λ _, None).

Definition serve (out : Chunk → option string) (cs : list Chunk) : list ChunkResult :=
  (λ c, mkChunkResult c ((λ data, (data, peer)) <$> out c)) <$> reverse cs.

Definition honest_serve : list Chunk → list ChunkResult := serve (λ c, Some (slice content c)).

Definition attempt (results : list Chunk → list ChunkResult) (w : World) : res DlErr DownloadResult * World :=
  downloadChunked ev0 dl true true "/c/partial/h" "http://m" h 4 results w.

Definition w0 : World := mkWorld (mkSM ∅ ∅) ∅.

Lemma grid_small : grid_ok 4 (chunkSize dl).
Proof. unfold grid_ok. cbn. lia. Qed.

Lemma w0_resumable : resumable content h 4 dl "/c/partial/h" w0.
Proof. split; intros; simplify_map_eq. Qed.

Lemma chunked_result_verified_witness :
  ∃ content, w_files (attempt honest_serve w0).2 !! "/c/partial/h/assembled" = Some content ∧ HashBytes content = h.
Proof.
  destruct (attempt honest_serve w0) as [[r|e] w'] eqn:Ha; [|vm_compute in Ha; discriminate].
  destruct (chunked_result_verified ev0 dl true true "/c/partial/h" "http://m" h 4 honest_serve w0 r w' Ha)
    as (_ & _ & c & Hc & Hh).
  exists c. split; [|exact Hh]. cbn [snd]. rewrite <- Hc. f_equal.
  vm_compute in Ha. injection Ha as <- _. reflexivity.
Defined.

Lemma honest_answers : answers content (λ _, peer) honest_serve.
Proof. intros cs. unfold honest_serve, serve. by rewrite reverse_Permutation. Qed.

Lemma chunked_download_completes_witness :
  ∃ r w', attempt honest_serve w0 = (Ok r, w') ∧ w_files w' !! r_FilePath r = Some content.
Proof.
  apply (chunked_download_completes content h 4 dl grid_small eq_refl (λ _, peer) ev0 true).
  - reflexivity.
  - apply honest_answers.
  - by constructor.
  - discriminate.
  - intros _. apply w0_resumable.
Defined.

(** The second chunk never arrives. *)
Definition lossy : list Chunk → list ChunkResult :=
  serve (λ c, if Index c =? 1 then None else Some (slice content c)).

Lemma lossy_honest cs : (∀ c, c ∈ cs → ∃ i, i ∈ indices (totalChunks 4 2) ∧ c = gchunk 4 2 i) →
  Forall (honest content 4 2) (lossy cs).
Proof.
  intros Hcs. apply Forall_forall. unfold lossy, serve. intros r (c & -> & Hc)%list_elem_of_fmap.
  rewrite elem_of_reverse in Hc. split; [by apply Hcs|]. cbn. intros data s.
  destruct (Index c =? 1); [done|]. cbn. by intros [= <- <-].
Qed.

Lemma interrupted_witness : resumable content h 4 dl "/c/partial/h" (attempt lossy w0).2.
Proof.
  apply (interrupted_download_resumable content h 4 dl grid_small eq_refl).
  - reflexivity.
  - discriminate.
  - apply lossy_honest.
  - apply w0_resumable.
Defined.

Definition net : ChunkNet := mkChunkNet (λ k s _ _, if is_peer s then None else Some "ab") (λ k, if (k =? 0)%nat then ∅ else recordFailure 5 "P" ∅) (λ k, 6).

Lemma worker_result_witness :
  ∃ r, workChunk net [peer; mirror] false (mkChunk 0 0 2) = Some r ∧ cr_chunk r = mkChunk 0 0 2 ∧
    ∀ data s, cr_out r = Some (data, s) →
      Z.of_nat (String.length data) = 2 - 0 ∧ s ∈ [peer; mirror] ∧
      ∃ k, (k < 3)%nat ∧ cn_download net k s 0 2 = Some data.
Proof. apply (worker_result_sound net [peer; mirror] false (mkChunk 0 0 2)). discriminate. Defined.

(** The failed peer is not asked again: the retry goes to the mirror. *)
Example worker_switches : workChunk net [peer; mirror] false (mkChunk 0 0 2) = Some (mkChunkResult (mkChunk 0 0 2) (Some ("ab", mirror))).
Proof. vm_compute. reflexivity. Qed.

Lemma racing_witness :
  ∃ out bl, downloadRacing h 1 true [RDone peer (Some "bad"); RDone mirror (Some content)] = Some (out, bl) ∧
    match out with
    | Ok r => ∃ s data, RDone s (Some data) ∈ [RDone peer (Some "bad"); RDone mirror (Some content)] ∧
                HashBytes data = h ∧ r_Data r = Some data ∧ r_Hash r = h ∧ r_Size r = Z.of_nat (String.length data)
    | Err e => e = ErrAllSourcesFailed ∧
               ∀ s data, RDone s (Some data) ∈ [RDone peer (Some "bad"); RDone mirror (Some content)] → HashBytes data ≠ h
    end ∧
    ∀ id, id ∈ bl → ∃ s data, RDone s (Some data) ∈ [RDone peer (Some "bad"); RDone mirror (Some content)] ∧
      is_peer s = true ∧ src_ID s = id ∧ HashBytes data ≠ h.
Proof.
  apply (racing_succeeds_if_any h 1 true); [cbn; lia|reflexivity|].
  repeat constructor; discriminate.
Defined.

(** A hash mismatch poisons later attempts.  First attempt: one peer sends a
    wrong chunk 0; the mismatch is detected and the assembly file removed, but
    both chunks stay recorded as completed.  Second attempt: chunk 1 is lost, so
    it fails and leaves a freshly allocated file of the right size in which
    chunk 1 is zeros.  Third attempt, all sources honest: both chunks are taken
    from the file as completed, nothing is downloaded, and the download fails
    with a hash mismatch. *)
Theorem mismatch_poisons_retry :
  let bad := serve (λ c, if Index c =? 0 then Some "xx" else Some (slice content c)) in
  let a1 := attempt bad w0 in
  let a2 := attempt lossy a1.2 in
  let a3 := attempt honest_serve a2.2 in
  a1.1 = Err ErrHashMismatch ∧ a2.1 = Err (EChunkFailed 1) ∧
  w_files a2.2 !! "/c/partial/h/assembled" = Some (writeAt 0 "ab" (zeros 4)) ∧
  a3.1 = Err ErrHashMismatch.
Proof. vm_compute. split_and!; reflexivity. Qed.
End examples.

End DownloaderSys.
