(* ===== verification/Scheduler.v ===== *)
(** * internal/scheduler: time windows and download rates

    window.go and scheduler.go.  An instant is its Unix time in nanoseconds; a
    [time.Location] is the UTC offset in force at each Unix second, which is what
    the tz database gives; a calendar date is its day number since 1970-01-01,
    on which [time.Date]'s normalisation of day overflow is addition. *)

From S2P Require Import Prelude GoStd.
From Stdlib Require Import Ascii.
Open Scope Z_scope.

Module Scheduler.

(** ** Package time *)

Definition Location : Type := Z → Z.
Definition UTC : Location := λ _, 0.

(** Seconds of local civil time since 1970-01-01 00:00. *)
Definition local (loc : Location) (t : Z) : Z := t / 10^9 + loc (t / 10^9).

Definition dayOf (loc : Location) (t : Z) : Z := local loc t / 86400.
Definition Hour (loc : Location) (t : Z) : Z := local loc t mod 86400 / 3600.
Definition Minute (loc : Location) (t : Z) : Z := local loc t mod 3600 / 60.

(** Sunday is 0; 1970-01-01 was a Thursday. *)
Definition weekday (day : Z) : Z := (day + 4) mod 7.
Definition Weekday (loc : Location) (t : Z) : Z := weekday (dayOf loc t).

(** [time.Date(year, month, day, hour, min, 0, 0, loc)]: the offset is looked up
    at the civil time taken as UTC and corrected once. *)
Definition Date (loc : Location) (day hour min : Z) : Z :=
  let unix := day * 86400 + hour * 3600 + min * 60 in
  (unix - loc (unix - loc unix)) * 10^9.

(** ** Windows *)

Record Window := mkWindow { w_Days : list string; w_StartTime : string; w_EndTime : string }.

Record ParsedWindow := mkParsed {
  Days : gset Z;
  StartHour : Z; StartMin : Z; EndHour : Z; EndMin : Z;
  SpansDay : bool;
}.

Inductive ParseErr := EInvalidDay (d : string) | EInvalidStart | EInvalidEnd.

Section parse.
Context `{GoUnicode}.

(** The days a name adds. *)
Definition parseDay (day : string) : option (gset Z) :=
  let d := ToLower day in
  let oneof l := existsb (String.eqb d) l in
  if oneof ["monday"; "mon"] then Some {[1]}
  else if oneof ["tuesday"; "tue"] then Some {[2]}
  else if oneof ["wednesday"; "wed"] then Some {[3]}
  else if oneof ["thursday"; "thu"] then Some {[4]}
  else if oneof ["friday"; "fri"] then Some {[5]}
  else if oneof ["saturday"; "sat"] then Some {[6]}
  else if oneof ["sunday"; "sun"] then Some {[0]}
  else if oneof ["weekday"; "weekdays"] then Some {[1; 2; 3; 4; 5]}
  else if oneof ["weekend"; "weekends"] then Some {[6; 0]}
  else if oneof ["all"; "everyday"; "daily"] then Some {[0; 1; 2; 3; 4; 5; 6]}
  else None.

Fixpoint parseDays (days : list string) (acc : gset Z) : res ParseErr (gset Z) :=
  match days with
  | [] => Ok acc
  | d :: rest =>
      match parseDay d with
      | Some s => parseDays rest (acc ∪ s)
      | None => Err (EInvalidDay d)
      end
  end.

Definition parseTime (s : string) : option (Z * Z) :=
  match Split ":"%char (TrimSpace s) with
  | [h; m] =>
      match Atoi h with
      | Some hour =>
          if (hour <? 0) || (23 <? hour) then None
          else match Atoi m with
               | Some min => if (min <? 0) || (59 <? min) then None else Some (hour, min)
               | None => None
               end
      | None => None
      end
  | _ => None
  end.

Definition ParseWindow (w : Window) : res ParseErr ParsedWindow :=
  match parseDays (w_Days w) ∅ with
  | Err e => Err e
  | Ok days =>
      match parseTime (w_StartTime w) with
      | None => Err EInvalidStart
      | Some (sh, sm) =>
          match parseTime (w_EndTime w) with
          | None => Err EInvalidEnd
          | Some (eh, em) =>
              let startMins := sh * 60 + sm in
              let endMins := eh * 60 + em in
              Ok (mkParsed days sh sm eh em
                    ((endMins <=? startMins) && (negb (startMins =? 0) || negb (endMins =? 0))))
          end
      end
  end.
End parse.

Definition startMins (pw : ParsedWindow) : Z := StartHour pw * 60 + StartMin pw.
Definition endMins (pw : ParsedWindow) : Z := EndHour pw * 60 + EndMin pw.

Definition day24h : Z := 24 * 3600 * 10^9.

Definition Contains (loc : Location) (pw : ParsedWindow) (t : Z) : bool :=
  let currentMins := Hour loc t * 60 + Minute loc t in
  let today := bool_decide (Weekday loc t ∈ Days pw) in
  if negb (SpansDay pw) then today && (startMins pw <=? currentMins) && (currentMins <? endMins pw)
  else if today && (startMins pw <=? currentMins) then true
  else
    let yesterday := bool_decide (Weekday loc (t - day24h) ∈ Days pw) in
    yesterday && (currentMins <? endMins pw).

(** The loop of [NextStart]: [n] more days to check, from [candidate]. *)
Fixpoint nextLoop (loc : Location) (pw : ParsedWindow) (from : Z) (n : nat) (candidate : Z) : option Z :=
  match n with
  | O => None
  | S n =>
      let windowStart := Date loc (dayOf loc candidate) (StartHour pw) (StartMin pw) in
      if bool_decide (Weekday loc candidate ∈ Days pw) && (from <? windowStart) then Some windowStart
      else nextLoop loc pw from n (Date loc (dayOf loc candidate + 1) 0 0)
  end.

(** [None] is the zero Time. *)
Definition NextStart (loc : Location) (pw : ParsedWindow) (from : Z) : option Z :=
  if bool_decide (Days pw = ∅) then None else nextLoop loc pw from 8 from.

(** ** Scheduler *)

Record Config := mkConfig {
  Enabled : bool; Windows : list Window;
  Timezone : string;
  OutsideWindowRate : Z; InsideWindowRate : Z; UrgentFullSpeed : bool;
}.

Record Scheduler := mkScheduler {
  windows : list ParsedWindow; timezone : Location;
  outsideRate : Z; insideRate : Z; urgentFullSpeed : bool;
}.

Section scheduler.
Context `{GoUnicode}.

(** [time.LoadLocation] is an argument; a failure falls back to UTC. *)
Definition New (LoadLocation : string → option Location) (cfg : option Config) : option Scheduler :=
  match cfg with
  | Some c =>
      if Enabled c then
        let tz := if String.eqb (Timezone c) "" then UTC else default UTC (LoadLocation (Timezone c)) in
        let ws := omap (λ w, match ParseWindow w with Ok pw => Some pw | Err _ => None end) (Windows c) in
        Some (mkScheduler ws tz (OutsideWindowRate c) (InsideWindowRate c) (UrgentFullSpeed c))
      else None
  | None => None
  end.

(** A nil scheduler is [None]. *)
Definition IsInWindow (now : Z) (s : option Scheduler) : bool :=
  match s with
  | None => true
  | Some s =>
      match windows s with
      | [] => true
      | ws => existsb (λ w, Contains (timezone s) w now) ws
      end
  end.

Definition GetCurrentRate (now : Z) (s : option Scheduler) (isUrgent : bool) : Z :=
  match s with
  | None => 0
  | Some sc =>
      if isUrgent && urgentFullSpeed sc then 0
      else if IsInWindow now s then insideRate sc else outsideRate sc
  end.

(** [None] is the zero Time. *)
Definition earlier (earliest next : option Z) : option Z :=
  match next, earliest with
  | None, _ => earliest
  | Some n, None => Some n
  | Some n, Some e => if n <? e then Some n else Some e
  end.

Definition NextWindowStart (now : Z) (s : option Scheduler) : option Z :=
  match s with
  | None => None
  | Some sc =>
      match windows sc with
      | [] => None
      | ws =>
          if IsInWindow now s then None
          else foldl (λ e w, earlier e (NextStart (timezone sc) w now)) None ws
      end
  end.

Definition IsSecurityUpdate (url : string) : bool :=
  let u := ToLower url in
  GoStd.Contains u "-security" || GoStd.Contains u "/security/" || GoStd.Contains u "-updates" || GoStd.Contains u "/updates/".
End scheduler.

(** ** Properties *)

(** What [ParseWindow] guarantees of its result. *)
Record valid (pw : ParsedWindow) : Prop := {
  va_start : 0 <= startMins pw < 1440;
  va_end : 0 <= endMins pw < 1440;
  va_hour : 0 <= StartHour pw <= 23 ∧ 0 <= StartMin pw <= 59;
  va_days : ∀ d, d ∈ Days pw → 0 <= d < 7;
  va_spans : SpansDay pw = ((endMins pw <=? startMins pw) && (negb (startMins pw =? 0) || negb (endMins pw =? 0)));
}.

Section valid.
Context `{GoUnicode}.

Lemma parseDay_range d s : parseDay d = Some s → ∀ x, x ∈ s → 0 <= x < 7.
Proof.
  unfold parseDay. intros Hd x Hx.
  repeat (destruct (existsb _ _); [injection Hd as <-; set_unfold; lia|]). done.
Qed.

Lemma parseDays_range l acc s :
  parseDays l acc = Ok s → (∀ x, x ∈ acc → 0 <= x < 7) → ∀ x, x ∈ s → 0 <= x < 7.
Proof.
  revert acc. induction l as [|d l IH]; intros acc; cbn; [by intros [= <-]|].
  destruct (parseDay d) as [s'|] eqn:Hd; [|done]. intros Hp Hacc. eapply IH; [exact Hp|].
  intros x [?|?]%elem_of_union; [auto|]. by eapply parseDay_range.
Qed.

Lemma parseTime_range s h m : parseTime s = Some (h, m) → 0 <= h <= 23 ∧ 0 <= m <= 59.
Proof.
  unfold parseTime. destruct (Split _ _) as [|a [|b [|]]]; try done.
  destruct (Atoi a) as [hour|]; [|done]. destruct (_ || _) eqn:Hh; [done|].
  destruct (Atoi b) as [min|]; [|done]. destruct ((min <? 0) || _) eqn:Hm; [done|].
  intros [= <- <-]. apply orb_false_iff in Hh as [? ?], Hm as [? ?]. split; blia.
Qed.

Lemma ParseWindow_valid w pw : ParseWindow w = Ok pw → valid pw.
Proof.
  unfold ParseWindow. destruct (parseDays _ _) as [days|] eqn:Hd; [|done].
  destruct (parseTime (w_StartTime w)) as [[sh sm]|] eqn:Hs; [|done].
  destruct (parseTime (w_EndTime w)) as [[eh em]|] eqn:He; [|done]. intros [= <-].
  apply parseTime_range in Hs, He. constructor; unfold startMins, endMins; cbn; try lia; try done.
  eapply parseDays_range; [exact Hd|set_solver].
Qed.
End valid.

Section contains.
Context (loc : Location).

Lemma current_mins t : Hour loc t * 60 + Minute loc t = local loc t mod 86400 / 60.
Proof.
  unfold Hour, Minute. set (L := local loc t).
  pose proof (Z.div_mod L 86400). pose proof (Z.mod_pos_bound L 86400).
  assert (L mod 3600 = (L mod 86400) mod 3600) as ->.
  { symmetry. apply Z.mod_mod_divide. by exists 24. }
  set (r := L mod 86400). pose proof (Z.div_mod r 3600). pose proof (Z.mod_pos_bound r 3600).
  pose proof (Z.div_mod r 60). pose proof (Z.mod_pos_bound r 60).
  pose proof (Z.div_mod (r mod 3600) 60). pose proof (Z.mod_pos_bound (r mod 3600) 60). lia.
Qed.

Lemma local_yesterday t :
  loc ((t - day24h) / 10^9) = loc (t / 10^9) → local loc (t - day24h) = local loc t - 86400.
Proof.
  intros Ho. unfold local. rewrite Ho.
  assert ((t - day24h) / 10^9 = t / 10^9 - 86400) as ->; [|lia].
  replace (t - day24h) with (t + (-86400) * 10^9) by (unfold day24h; lia).
  rewrite Z.div_add by lia. lia.
Qed.

(** The length of a window's day plus its end, from midnight of its day. *)
Definition closing (pw : ParsedWindow) : Z := endMins pw * 60 + if SpansDay pw then 86400 else 0.

(** An opening of [pw], on day [D], that is still open at local time [l]. *)
Definition open_on (pw : ParsedWindow) (D l : Z) : Prop :=
  weekday D ∈ Days pw ∧ D * 86400 + startMins pw * 60 <= l < D * 86400 + closing pw.

(** [Contains] is the intended meaning of a window: a time is in the window
    exactly when some configured day's opening, from its start time to the end
    time of the same day or, for a window across midnight, of the next day, is
    in progress.  It assumes that the UTC offset is the same 24 hours earlier. *)
Theorem contains_spec pw t :
  valid pw → loc ((t - day24h) / 10^9) = loc (t / 10^9) →
  Contains loc pw t = true ↔ ∃ D, open_on pw D (local loc t).
Proof.
  intros [Hs He _ _ Hsp] Ho. unfold Contains, Weekday, dayOf. rewrite local_yesterday, current_mins by done.
  set (L := local loc t). pose proof (Z.div_mod L 86400). pose proof (Z.mod_pos_bound L 86400).
  pose proof (Z.div_mod (L mod 86400) 60). pose proof (Z.mod_pos_bound (L mod 86400) 60).
  replace ((L - 86400) / 86400) with (L / 86400 - 1) by
    (replace (L - 86400) with (L + (-1) * 86400) by lia; rewrite Z.div_add by lia; lia).
  set (q := L / 86400) in *. set (m := L mod 86400 / 60) in *.
  unfold open_on, closing. destruct (SpansDay pw); cbn [negb].
  - symmetry in Hsp. apply andb_prop in Hsp as [Hle _]. apply Z.leb_le in Hle.
    destruct (bool_decide_reflect (weekday q ∈ Days pw)) as [Hq|Hq], (bool_decide_reflect (weekday (q - 1) ∈ Days pw)) as [Hp|Hp];
      destruct (Z.leb_spec (startMins pw) m); destruct (Z.ltb_spec m (endMins pw)); cbn;
      (split; [intros Hx; try discriminate Hx|intros (D & HD & HL); try reflexivity]);
      first [ by (exists q; split; [done|lia]) | by (exists (q - 1); split; [done|lia])
            | exfalso; assert (D = q ∨ D = q - 1) as [->| ->] by lia; first [done|lia] ].
  - destruct (bool_decide_reflect (weekday q ∈ Days pw)) as [Hq|Hq];
      destruct (Z.leb_spec (startMins pw) m); destruct (Z.ltb_spec m (endMins pw)); cbn;
      (split; [intros Hx; try discriminate Hx|intros (D & HD & HL); try reflexivity]);
      first [ by (exists q; split; [done|lia])
            | exfalso; assert (D = q) as -> by lia; first [done|lia] ].
Qed.
End contains.

(** ** The next opening *)
Section next.
Context (o : Z).

(** A location with a fixed offset. *)
Definition fixed : Location := λ _, o.

Lemma Date_fixed D h m : Date fixed D h m = (D * 86400 + h * 3600 + m * 60 - o) * 10^9.
Proof. done. Qed.

Lemma dayOf_Date D : dayOf fixed (Date fixed D 0 0) = D.
Proof.
  rewrite Date_fixed. unfold dayOf, local, fixed. rewrite Z.div_mul by lia.
  replace (D * 86400 + 0 * 3600 + 0 * 60 - o + o) with (D * 86400) by lia. by rewrite Z.div_mul.
Qed.

(** The loop finds the first opening after [from] among the next [n] days. *)
Lemma nextLoop_spec pw from n candidate :
  match nextLoop fixed pw from n candidate with
  | Some t => ∃ D, dayOf fixed candidate <= D < dayOf fixed candidate + Z.of_nat n ∧ weekday D ∈ Days pw ∧
                t = Date fixed D (StartHour pw) (StartMin pw) ∧ from < t ∧
                ∀ D', dayOf fixed candidate <= D' < D → weekday D' ∈ Days pw →
                  Date fixed D' (StartHour pw) (StartMin pw) <= from
  | None => ∀ D, dayOf fixed candidate <= D < dayOf fixed candidate + Z.of_nat n → weekday D ∈ Days pw →
                 Date fixed D (StartHour pw) (StartMin pw) <= from
  end.
Proof.
  revert candidate. induction n as [|n IH]; intros candidate; [cbn; lia|]. cbn [nextLoop].
  set (d := dayOf fixed candidate). unfold Weekday. fold d.
  destruct (bool_decide_reflect (weekday d ∈ Days pw)) as [Hd|Hd]; cbn [andb].
  - destruct (Z.ltb_spec from (Date fixed d (StartHour pw) (StartMin pw))) as [Hlt|Hge].
    + exists d. split_and!; [lia|lia|done..|]. intros D' HD'. lia.
    + specialize (IH (Date fixed (d + 1) 0 0)). rewrite dayOf_Date in IH.
      destruct (nextLoop _ _ _ _ _) as [t|].
      * destruct IH as (D & HD & ? & ? & ? & Hmin). exists D. split_and!; [lia|lia|done..|].
        intros D' HD' Hw. destruct (decide (D' = d)) as [->|]; [done|]. apply Hmin; [lia|done].
      * intros D HD Hw. destruct (decide (D = d)) as [->|]; [done|]. apply IH; [lia|done].
  - specialize (IH (Date fixed (d + 1) 0 0)). rewrite dayOf_Date in IH.
    destruct (nextLoop _ _ _ _ _) as [t|].
    + destruct IH as (D & HD & ? & ? & ? & Hmin). exists D. split_and!; [lia|lia|done..|].
      intros D' HD' Hw. destruct (decide (D' = d)) as [->|]; [done|]. apply Hmin; [lia|done].
    + intros D HD Hw. destruct (decide (D = d)) as [->|]; [done|]. apply IH; [lia|done].
Qed.

(** [from] lies in its day. *)
Lemma from_bounds from :
  (dayOf fixed from * 86400 - o) * 10^9 <= from < ((dayOf fixed from + 1) * 86400 - o) * 10^9.
Proof.
  unfold dayOf, local, fixed. pose proof (Z.div_mod from (10^9)). pose proof (Z.mod_pos_bound from (10^9)).
  pose proof (Z.div_mod (from / 10^9 + o) 86400). pose proof (Z.mod_pos_bound (from / 10^9 + o) 86400). lia.
Qed.

Lemma weekday_in_week d w : 0 <= w < 7 → ∃ D, d + 1 <= D <= d + 7 ∧ weekday D = w.
Proof.
  intros Hw. exists (d + 1 + (w - weekday (d + 1)) mod 7). unfold weekday.
  pose proof (Z.mod_pos_bound (w - (d + 1 + 4) mod 7) 7). split; [lia|].
  replace (d + 1 + (w - (d + 1 + 4) mod 7) mod 7 + 4) with ((d + 1 + 4) + (w - (d + 1 + 4) mod 7) mod 7) by lia.
  rewrite Zplus_mod_idemp_r, <- Zplus_mod_idemp_l.
  replace ((d + 1 + 4) mod 7 + (w - (d + 1 + 4) mod 7)) with w by lia. apply Z.mod_small. lia.
Qed.

(** With a configured day, [NextStart] always finds an opening within its
    eight iterations, and it is the next one: strictly after [from], on a
    configured day at the start time, and no later than any other opening after
    [from] (for a location with a fixed offset). *)
Theorem next_start_spec pw from :
  valid pw → Days pw ≠ ∅ →
  ∃ D t, NextStart fixed pw from = Some t ∧ weekday D ∈ Days pw ∧
    t = Date fixed D (StartHour pw) (StartMin pw) ∧ from < t ∧
    ∀ D', weekday D' ∈ Days pw → from < Date fixed D' (StartHour pw) (StartMin pw) →
      t <= Date fixed D' (StartHour pw) (StartMin pw).
Proof.
  intros [_ _ Hh Hr _] Hne. unfold NextStart. rewrite bool_decide_false by done.
  pose proof (nextLoop_spec pw from 8 from) as Hl. pose proof (from_bounds from) as Hb.
  set (d := dayOf fixed from) in *. destruct (nextLoop _ _ _ _ _) as [t|].
  - destruct Hl as (D & HD & Hw & -> & Hlt & Hmin). exists D, (Date fixed D (StartHour pw) (StartMin pw)).
    split_and!; [done..|]. intros D' Hw' Hlt'.
    destruct (decide (D <= D')) as [|Hlt2]; [rewrite !Date_fixed; lia|]. exfalso.
    destruct (decide (d <= D')) as [|Hlt3]; [specialize (Hmin D' ltac:(lia) Hw'); lia|].
    rewrite Date_fixed in Hlt'. lia.
  - exfalso. apply set_choose_L in Hne as [w Hw]. destruct (weekday_in_week d w (Hr w Hw)) as (D & HD & <-).
    specialize (Hl D ltac:(lia) Hw). rewrite Date_fixed in Hl. lia.
Qed.
End next.

(** ** Evaluations *)
Section examples.
#[local] Existing Instance ascii_only.

Definition night (days : list string) : Window := mkWindow days "22:00" "06:00".
Definition parsed (w : Window) : ParsedWindow :=
  match ParseWindow w with Ok pw => pw | Err _ => mkParsed ∅ 0 0 0 0 false end.

(** The local time of [day], [hour], [min] in UTC. *)
Definition at_ (day hour min : Z) : Z := Date UTC day hour min.

Lemma contains_witness : ∃ D, open_on (parsed (night ["Fri"])) D (local UTC (at_ 2 5 59)).
Proof.
  apply (contains_spec UTC (parsed (night ["Fri"])) (at_ 2 5 59)).
  - apply (ParseWindow_valid (night ["Fri"])). vm_compute. reflexivity.
  - reflexivity.
  - vm_compute. reflexivity.
Defined.

Lemma next_start_witness :
  ∃ D t, NextStart (fixed 3600) (parsed (night ["weekday"])) (at_ 2 12 0) = Some t ∧
    weekday D ∈ Days (parsed (night ["weekday"])) ∧
    t = Date (fixed 3600) D 22 0 ∧ at_ 2 12 0 < t ∧
    ∀ D', weekday D' ∈ Days (parsed (night ["weekday"])) → at_ 2 12 0 < Date (fixed 3600) D' 22 0 →
      t <= Date (fixed 3600) D' 22 0.
Proof.
  apply (next_start_spec 3600 (parsed (night ["weekday"])) (at_ 2 12 0)).
  - apply (ParseWindow_valid (night ["weekday"])). vm_compute. reflexivity.
  - vm_compute. discriminate.
Defined.

(** US Eastern time around 2025-03-09 (day 20156), a Sunday of 23 hours. *)
Definition eastern : Location := λ s, if s <? 20156 * 86400 + 7 * 3600 then -18000 else -14400.

(** [Contains] takes "yesterday" to be the day 24 hours ago, which after a
    23-hour day is the day before yesterday: at 00:30 on Monday 2025-03-10 a
    Saturday-night window counts as open although it closed on Sunday at 06:00,
    and a Sunday-night window as closed although it opened on Sunday at 22:00. *)
Lemma contains_after_short_day :
  let t := Date eastern 20157 0 30 in
  Weekday eastern t = 1 ∧
  Contains eastern (parsed (night ["saturday"])) t = true ∧
  (¬ ∃ D, open_on (parsed (night ["saturday"])) D (local eastern t)) ∧
  Contains eastern (parsed (night ["sunday"])) t = false ∧
  (∃ D, open_on (parsed (night ["sunday"])) D (local eastern t)).
Proof.
  cbv zeta. split; [vm_compute; reflexivity|]. split; [vm_compute; reflexivity|].
  split; [|split; [vm_compute; reflexivity|]].
  - intros (D & Hw & HL).
    assert (weekday D = 6) as HD.
    { assert (Days (parsed (night ["saturday"])) = {[6]}) as Hdays by (vm_compute; reflexivity).
      rewrite Hdays in Hw. by apply elem_of_singleton in Hw. }
    assert (local eastern (Date eastern 20157 0 30) = 1741566600) as Hl by (vm_compute; reflexivity).
    rewrite Hl in HL. assert (startMins (parsed (night ["saturday"])) = 1320) as Hs by (vm_compute; reflexivity).
    assert (closing (parsed (night ["saturday"])) = 108000) as Hc by (vm_compute; reflexivity).
    rewrite Hs, Hc in HL. assert (D = 20156) as -> by lia. vm_compute in HD. discriminate.
  - exists 20156. split; [apply (bool_decide_unpack _); vm_compute; exact I|].
    vm_compute. split; [discriminate|reflexivity].
Qed.

(** A window whose start and end are both midnight never contains anything,
    while any other window with equal start and end is a whole day. *)
Lemma midnight_window_is_empty t :
  Contains UTC (parsed (mkWindow ["daily"] "00:00" "00:00")) t = false.
Proof.
  unfold Contains.
  assert (SpansDay (parsed (mkWindow ["daily"] "00:00" "00:00")) = false) as -> by (vm_compute; reflexivity).
  assert (endMins (parsed (mkWindow ["daily"] "00:00" "00:00")) = 0) as -> by (vm_compute; reflexivity).
  cbn [negb]. rewrite andb_false_iff. right. apply Z.ltb_ge. rewrite current_mins.
  apply Z.div_pos; [|lia]. apply Z.mod_pos_bound. lia.
Qed.
End examples.
End Scheduler.
