(* ===== verification/RateLimit.v ===== *)
(** * internal/ratelimit: rate-limited readers and writers

    limiter.go and peer_limiter.go.  golang.org/x/time/rate is not part of the
    sources: a [rate.Limiter] is its limit and burst, and whether a [WaitN] call
    is granted is an input, except that, as documented, a request above the
    burst fails.  What a reader or writer does is recorded as a trace of waits
    and writes. *)

From S2P Require Import Prelude GoStd GoNum HashUtil.
From Stdlib Require Import Ascii SpecFloat.
Open Scope Z_scope.

Module RateLimit.

(** ** Limiters *)

Record rateLimiter := mkRate { rl_limit : Z; rl_burst : Z }.

(** The burst of a limiter: one second's worth within 64 KiB and 4 MiB. *)
Definition clampBurst (bytesPerSecond : Z) : Z :=
  let burst := if bytesPerSecond <? 64 * 1024 then 64 * 1024 else bytesPerSecond in
  if 4 * 1024 * 1024 <? burst then 4 * 1024 * 1024 else burst.

Definition calculateBurst (bytesPerSecond : Z) : Z :=
  if bytesPerSecond <=? 0 then 64 * 1024 else clampBurst bytesPerSecond.

Record Limiter := mkLimiter { l_limiter : option rateLimiter; l_enabled : bool }.

Definition New (bytesPerSecond : Z) : Limiter :=
  if bytesPerSecond <=? 0 then mkLimiter None false
  else mkLimiter (Some (mkRate bytesPerSecond (clampBurst bytesPerSecond))) true.

(** A nil limiter is [None]. *)
Definition Enabled (l : option Limiter) : bool := match l with Some l => l_enabled l | None => false end.

(** An existing [rate.Limiter] is updated in place, a missing one created. *)
Definition UpdateRate (bytesPerSecond : Z) (l : option Limiter) : option Limiter :=
  match l with
  | None => None
  | Some l =>
      if bytesPerSecond <=? 0 then Some (mkLimiter (l_limiter l) false)
      else Some (mkLimiter (Some (mkRate bytesPerSecond (clampBurst bytesPerSecond))) true)
  end.

(** ** Waiting *)

(** A wait granted by the limiter at a position of the limiter list, or bytes
    delivered to the underlying writer. *)
Inductive event := EWait (lim : nat) (n : Z) | EWrite (chunk : string).

(** Whether the next [WaitN] is granted, given what happened so far. *)
Definition grants : Type := list event → bool.

(** [l.WaitN(ctx, n)]. *)
Definition WaitN (g : grants) (i : nat) (l : rateLimiter) (n : Z) (tr : list event) : bool * list event :=
  if (rl_burst l <? n) || negb (g tr) then (false, tr) else (true, tr ++ [EWait i n]).

(** The smallest burst of the limiters, 0 if there is none. *)
Definition composedBurst (lims : list (option rateLimiter)) : Z :=
  foldl (λ burst l, match l with
                    | None => burst
                    | Some l => if (burst =? 0) || (rl_burst l <? burst) then rl_burst l else burst
                    end) 0 lims.

(** The inner loop: one wait of [w] on each limiter. *)
Fixpoint waitEach (g : grants) (w : Z) (i : nat) (lims : list (option rateLimiter)) (tr : list event)
  : bool * list event :=
  match lims with
  | [] => (true, tr)
  | None :: rest => waitEach g w (S i) rest tr
  | Some l :: rest =>
      match WaitN g i l w tr with
      | (true, tr) => waitEach g w (S i) rest tr
      | (false, tr) => (false, tr)
      end
  end.

Definition piece (burst remaining : Z) : Z := if (0 <? burst) && (burst <? remaining) then burst else remaining.

(** The outer loop; each iteration waits for at least one byte, so [n] is enough
    fuel. *)
Fixpoint waitLoop (fuel : nat) (g : grants) (burst : Z) (lims : list (option rateLimiter)) (remaining : Z)
    (tr : list event) : bool * list event :=
  match fuel with
  | O => (true, tr)
  | S fuel =>
      if 0 <? remaining then
        match waitEach g (piece burst remaining) 0 lims tr with
        | (true, tr) => waitLoop fuel g burst lims (remaining - piece burst remaining) tr
        | (false, tr) => (false, tr)
        end
      else (true, tr)
  end.

Definition composedWaitN (g : grants) (n : Z) (lims : list (option rateLimiter)) (tr : list event)
  : bool * list event :=
  waitLoop (Z.to_nat n) g (composedBurst lims) lims n tr.

(** ** Readers and writers *)

(** [ComposedLimitedReader.Read], of an underlying read that returned [n] bytes
    and possibly an error: the bytes are returned in any case. *)
Definition composedRead (g : grants) (lims : list (option rateLimiter)) (n : Z) (rerr : bool) (tr : list event)
  : Z * bool * list event :=
  if 0 <? n then
    match composedWaitN g n lims tr with
    | (true, tr) => (n, rerr, tr)
    | (false, tr) => (n, true, tr)
    end
  else (n, rerr, tr).

(** [ComposedLimitedWriter.Write]: returns the bytes written, whether it
    succeeded, and the trace. *)
Fixpoint writeLoop (fuel : nat) (g : grants) (sink : Sink) (burst : Z) (lims : list (option rateLimiter))
    (p : string) (n : nat) (tr : list event) : nat * bool * list event :=
  match fuel with
  | O => (n, true, tr)
  | S fuel =>
      if (n <? String.length p)%nat then
        let len := Z.of_nat (String.length p) in
        let stop := if (0 <? burst) && (Z.of_nat n + burst <? len) then Z.of_nat n + burst else len in
        let chunk := str_take (Z.to_nat stop - n) (str_drop n p) in
        match composedWaitN g (Z.of_nat (String.length chunk)) lims tr with
        | (false, tr) => (n, false, tr)
        | (true, tr) =>
            let '(taken, ok) := sink_write sink chunk in
            let n := (n + String.length taken)%nat in
            let tr := tr ++ [EWrite taken] in
            if ok then writeLoop fuel g sink burst lims p n tr else (n, false, tr)
        end
      else (n, true, tr)
  end.

Definition composedWrite (g : grants) (sink : Sink) (lims : list (option rateLimiter)) (p : string) : nat * bool * list event :=
  writeLoop (S (String.length p)) g sink (composedBurst lims) lims p 0 [].

(** [LimitedReader.Read]: the waits after a read of [n] bytes.  With a positive
    burst each takes at least one byte, so [n] is enough fuel. *)
Fixpoint limitedWaits (fuel : nat) (g : grants) (l : rateLimiter) (remaining : Z) (tr : list event)
  : bool * list event :=
  match fuel with
  | O => (true, tr)
  | S fuel =>
      if 0 <? remaining then
        let wait := if rl_burst l <? remaining then rl_burst l else remaining in
        match WaitN g 0 l wait tr with
        | (true, tr) => limitedWaits fuel g l (remaining - wait) tr
        | (false, tr) => (false, tr)
        end
      else (true, tr)
  end.

Definition limitedRead (g : grants) (l : rateLimiter) (n : Z) (rerr : bool) (tr : list event) : Z * bool * list event :=
  if 0 <? n then
    match limitedWaits (Z.to_nat n) g l n tr with
    | (true, tr) => (n, rerr, tr)
    | (false, tr) => (n, true, tr)
    end
  else (n, rerr, tr).

(** [LimitedWriter.Write]. *)
Fixpoint limitedWrites (fuel : nat) (g : grants) (sink : Sink) (l : rateLimiter) (p : string) (n : nat)
    (tr : list event) : nat * bool * list event :=
  match fuel with
  | O => (n, true, tr)
  | S fuel =>
      if (n <? String.length p)%nat then
        let len := Z.of_nat (String.length p) in
        let stop := Z.of_nat n + rl_burst l in
        let stop := if len <? stop then len else stop in
        let chunk := str_take (Z.to_nat stop - n) (str_drop n p) in
        match WaitN g 0 l (Z.of_nat (String.length chunk)) tr with
        | (false, tr) => (n, false, tr)
        | (true, tr) =>
            let '(taken, ok) := sink_write sink chunk in
            let n := (n + String.length taken)%nat in
            let tr := tr ++ [EWrite taken] in
            if ok then limitedWrites fuel g sink l p n tr else (n, false, tr)
        end
      else (n, true, tr)
  end.

Definition limitedWrite (g : grants) (sink : Sink) (l : rateLimiter) (p : string) : nat * bool * list event :=
  limitedWrites (S (String.length p)) g sink l p 0 [].

(** [Reader] and [Writer], with or without a context: the limiter of the wrapper,
    or the reader or writer itself ([None]). *)
Definition wrapping (l : option Limiter) : option rateLimiter :=
  if Enabled l then l ≫= l_limiter else None.

(** ** Per-peer limiters *)

Definition DefaultExpectedPeers : Z := 10.
Definition DefaultIdleTimeout : Z := 30 * 10^9.

Record PeerLimiterConfig := mkPLConfig {
  GlobalLimit : Z; PerPeerLimit : Z; ExpectedPeers : Z; MinPeerLimit : Z; AdaptiveEnabled : bool;
  MaxBoostFactor : spec_float; LatencyThresholdMs : spec_float; IdleTimeout : Z;
}.

Record PeerLimiter := mkPL { pl_limiter : rateLimiter; pl_currentLimit : Z; pl_baseLimit : Z; pl_lastAccess : Z }.

Record Manager := mkManager {
  peerLimiters : gmap string PeerLimiter;
  perPeerLimit : Z; minPeerLimit : Z; maxBoostFactor : spec_float; latencyThresh : spec_float; idleTimeout : Z;
  adaptiveEnabled : bool;    (* with a scorer *)
}.

Definition NewPeerLimiterManager (cfg : PeerLimiterConfig) (hasScorer : bool) : Manager :=
  let limit :=
    if (PerPeerLimit cfg =? 0) && (0 <? GlobalLimit cfg)
    then Z.quot (GlobalLimit cfg) (if ExpectedPeers cfg <=? 0 then DefaultExpectedPeers else ExpectedPeers cfg)
    else PerPeerLimit cfg in
  let limit := if (0 <? limit) && (limit <? MinPeerLimit cfg) then MinPeerLimit cfg else limit in
  mkManager ∅ limit (MinPeerLimit cfg) (MaxBoostFactor cfg) (LatencyThresholdMs cfg)
            (if IdleTimeout cfg <=? 0 then DefaultIdleTimeout else IdleTimeout cfg)
            (AdaptiveEnabled cfg && hasScorer).

Definition ManagerEnabled (m : Manager) : bool := 0 <? perPeerLimit m.

(** A peer's score and, when known, its average latency, as the scorer reports
    them. *)
Record PeerScore := mkScore { ps_score : spec_float; ps_latency : option spec_float }.

Definition adjustmentFactor (m : Manager) (s : PeerScore) : spec_float :=
  let f := fadd (fdiv (f_of_Z 5) (f_of_Z 10)) (ps_score s) in
  match ps_latency s with
  | Some lat =>
      if SFltb (latencyThresh m) lat then
        let ratio := fdiv (fsub lat (latencyThresh m)) (latencyThresh m) in
        let penalty := fmin (fdiv (f_of_Z 3) (f_of_Z 10)) (fmul ratio (fdiv (f_of_Z 15) (f_of_Z 100))) in
        fmul f (fsub (f_of_Z 1) penalty)
      else f
  | None => f
  end.

Definition adjustForPeerScore (m : Manager) (s : PeerScore) (baseLimit : Z) : Z :=
  let newLimit := f_to_Z (fmul (f_of_Z baseLimit) (adjustmentFactor m s)) in
  let newLimit := if newLimit <? minPeerLimit m then minPeerLimit m else newLimit in
  let maxLimit := f_to_Z (fmul (f_of_Z baseLimit) (maxBoostFactor m)) in
  if maxLimit <? newLimit then maxLimit else newLimit.

Definition calculatePeerLimit (m : Manager) (s : PeerScore) : Z :=
  if perPeerLimit m <=? 0 then 0
  else if negb (adaptiveEnabled m) then perPeerLimit m
  else adjustForPeerScore m s (perPeerLimit m).

Definition set_limiters (t : gmap string PeerLimiter) (m : Manager) : Manager :=
  mkManager t (perPeerLimit m) (minPeerLimit m) (maxBoostFactor m) (latencyThresh m) (idleTimeout m) (adaptiveEnabled m).

Definition GetLimiter (now : Z) (s : PeerScore) (peerID : string) (m : Manager) : option rateLimiter * Manager :=
  if negb (ManagerEnabled m) then (None, m)
  else match peerLimiters m !! peerID with
  | Some pl =>
      (Some (pl_limiter pl),
       set_limiters (<[peerID := mkPL (pl_limiter pl) (pl_currentLimit pl) (pl_baseLimit pl) now]> (peerLimiters m)) m)
  | None =>
      let limit := calculatePeerLimit m s in
      let l := mkRate limit (calculateBurst limit) in
      (Some l, set_limiters (<[peerID := mkPL l limit (perPeerLimit m) now]> (peerLimiters m)) m)
  end.

(** [ReaderContext] and [WriterContext]: the global and the peer's limiter, or the
    reader or writer itself when neither is active. *)
Definition peerWrapping (now : Z) (s : PeerScore) (peerID : string) (globalLimiter : option Limiter) (m : Manager)
  : option (list (option rateLimiter)) * Manager :=
  let '(peerLimiter, m) := GetLimiter now s peerID m in
  let globalLim := if Enabled globalLimiter then globalLimiter ≫= l_limiter else None in
  (match peerLimiter, globalLim with
   | None, None => None
   | _, _ => Some [globalLim; peerLimiter]
   end, m).

Definition cleanupIdleLimiters (now : Z) (m : Manager) : Manager :=
  set_limiters (filter (λ kv, (pl_lastAccess kv.2 <? now - idleTimeout m) = false) (peerLimiters m)) m.

(** The new limit is set on the [rate.Limiter]; its burst stays. *)
Definition recalculateRates (score : string → PeerScore) (m : Manager) : Manager :=
  set_limiters (map_imap (λ id pl,
    let newLimit := adjustForPeerScore m (score id) (perPeerLimit m) in
    Some (if newLimit =? pl_currentLimit pl then pl
          else mkPL (mkRate newLimit (rl_burst (pl_limiter pl))) newLimit (pl_baseLimit pl) (pl_lastAccess pl)))
    (peerLimiters m)) m.

Definition GetPeerStats (peerID : string) (m : Manager) : Z * Z * bool :=
  match peerLimiters m !! peerID with
  | Some pl => (pl_currentLimit pl, pl_baseLimit pl, true)
  | None => (0, perPeerLimit m, false)
  end.

Definition PeerCount (m : Manager) : nat := size (peerLimiters m).

(** ** Properties *)

Fixpoint granted (i : nat) (tr : list event) : Z :=
  match tr with
  | [] => 0
  | EWait j n :: tr => (if (i =? j)%nat then n else 0) + granted i tr
  | EWrite _ :: tr => granted i tr
  end.

Fixpoint written (tr : list event) : Z :=
  match tr with
  | [] => 0
  | EWrite c :: tr => Z.of_nat (String.length c) + written tr
  | EWait _ _ :: tr => written tr
  end.

Fixpoint delivered (tr : list event) : string :=
  match tr with
  | [] => ""
  | EWrite c :: tr => c +:+ delivered tr
  | EWait _ _ :: tr => delivered tr
  end.

Section facts.
Lemma granted_app i a b : granted i (a ++ b) = granted i a + granted i b.
Proof. induction a as [|[j n|c] a IH]; cbn; lia. Qed.

Lemma written_app a b : written (a ++ b) = written a + written b.
Proof. induction a as [|[j n|c] a IH]; cbn; lia. Qed.

Lemma delivered_app a b : delivered (a ++ b) = delivered a +:+ delivered b.
Proof.
  induction a as [|[j n|c] a IH]; cbn [app delivered]; [done|done|]. by rewrite IH, str_app_assoc.
Qed.

Lemma written_delivered tr : written tr = Z.of_nat (String.length (delivered tr)).
Proof.
  induction tr as [|[j n|c] tr IH]; cbn [written delivered]; [done|done|]. rewrite str_length_app. lia.
Qed.

(** Only waits, of positive amounts. *)
Definition waits (evs : list event) : Prop := Forall (λ e, ∃ i n, e = EWait i n ∧ 0 < n) evs.

Lemma waits_written evs : waits evs → written evs = 0 ∧ delivered evs = "".
Proof. intros Hw. induction Hw as [|e evs (i & n & -> & _) _ IH]; [done|]. by destruct IH. Qed.

Lemma waits_granted i evs : waits evs → 0 <= granted i evs.
Proof. intros Hw. induction Hw as [|e evs (j & n & -> & Hn) _ IH]; cbn; [lia|]. destruct (_ =? _)%nat; lia. Qed.

Context (g : grants) (lims : list (option rateLimiter)).

Lemma waitEach_spec w i0 ls tr :
  0 < w →
  ∃ evs ok, waitEach g w i0 ls tr = (ok, tr ++ evs) ∧ waits evs ∧ (∀ i, (i < i0)%nat → granted i evs = 0) ∧
    (ok = true → ∀ k l, ls !! k = Some (Some l) → granted (i0 + k) evs = w).
Proof.
  intros Hw. revert i0 tr. induction ls as [|[l|] ls IH]; intros i0 tr; cbn [waitEach].
  - exists [], true. rewrite app_nil_r. split_and!; [done|constructor|done|].
    intros _ k l Hl. by rewrite lookup_nil in Hl.
  - unfold WaitN. destruct (_ || _); [exists [], false; rewrite app_nil_r; split_and!; [done|constructor|done|done]|].
    destruct (IH (S i0) (tr ++ [EWait i0 w])) as (evs & ok & -> & Hwt & Hlow & Hgr).
    exists (EWait i0 w :: evs), ok. rewrite <- app_assoc. split_and!; [done|by constructor; eauto| |].
    + intros i Hi. cbn. rewrite Hlow by lia. destruct (Nat.eqb_spec i i0); lia.
    + intros Hok [|k] l' Hl; cbn in *.
      * rewrite Nat.add_0_r, Nat.eqb_refl, Hlow by lia. lia.
      * specialize (Hgr Hok k l' Hl). destruct (Nat.eqb_spec (i0 + S k) i0); [lia|].
        replace (i0 + S k)%nat with (S (i0 + k))%nat by lia. lia.
  - destruct (IH (S i0) tr) as (evs & ok & -> & Hwt & Hlow & Hgr). exists evs, ok. split_and!; [done|done| |].
    + intros i Hi. apply Hlow. lia.
    + intros Hok [|k] l' Hl; cbn in *; [done|]. replace (i0 + S k)%nat with (S (i0 + k))%nat by lia. eauto.
Qed.

Lemma piece_bounds burst n : 0 < n → 0 < piece burst n <= n.
Proof. intros Hn. unfold piece. destruct (_ && _) eqn:Hb; [|lia]. apply andb_prop in Hb as [? ?]. blia. Qed.

(** A successful wait for [n] grants [n] at every limiter. *)
Lemma waitLoop_spec fuel burst n tr :
  0 <= n → (Z.to_nat n <= fuel)%nat →
  ∃ evs ok, waitLoop fuel g burst lims n tr = (ok, tr ++ evs) ∧ waits evs ∧
    (ok = true → ∀ i l, lims !! i = Some (Some l) → granted i evs = n).
Proof.
  revert n tr. induction fuel as [|fuel IH]; intros n tr Hn Hf; cbn [waitLoop].
  - exists [], true. rewrite app_nil_r. split_and!; [done|constructor|]. intros _ i l _. cbn. lia.
  - destruct (Z.ltb_spec 0 n) as [Hpos|Hz].
    + pose proof (piece_bounds burst n Hpos) as Hp. set (w := piece burst n) in *.
      destruct (waitEach_spec w 0 lims tr) as (evs & ok & -> & Hwt & _ & Hgr); [lia|].
      destruct ok; [|exists evs, false; done].
      destruct (IH (n - w) (tr ++ evs)) as (evs' & ok' & -> & Hwt' & Hgr'); [lia|lia|].
      exists (evs ++ evs'), ok'. rewrite app_assoc. split_and!; [done|by apply Forall_app|].
      intros Hok i l Hl. rewrite granted_app, (Hgr' Hok i l Hl).
      pose proof (Hgr eq_refl i l Hl) as Hg. cbn in Hg. lia.
    + exists [], true. rewrite app_nil_r. split_and!; [done|constructor|]. intros _ i l _. cbn. lia.
Qed.

(** No byte is written before every limiter has granted it. *)
Definition paid (tr : list event) : Prop :=
  ∀ k i l, lims !! i = Some (Some l) → written (take k tr) <= granted i (take k tr).

Lemma paid_app tr evs :
  paid tr → (∀ k i l, lims !! i = Some (Some l) →
     written tr + written (take k evs) <= granted i tr + granted i (take k evs)) → paid (tr ++ evs).
Proof.
  intros Hp He k i l Hl. rewrite take_app. rewrite written_app, granted_app.
  destruct (decide (k <= length tr)%nat).
  - replace (k - length tr)%nat with 0%nat by lia.
    change (written (take 0 evs)) with 0. change (granted i (take 0 evs)) with 0. specialize (Hp k i l Hl). lia.
  - rewrite take_ge by lia. by apply (He _ i l).
Qed.

Lemma paid_waits tr evs : paid tr → waits evs → paid (tr ++ evs).
Proof.
  intros Hp Hw. apply paid_app; [done|]. intros k i l Hl.
  assert (waits (take k evs)) as Hk by by apply Forall_take.
  rewrite (proj1 (waits_written _ Hk)). pose proof (waits_granted i _ Hk).
  specialize (Hp (length tr) i l Hl). rewrite take_ge in Hp by done. lia.
Qed.

Lemma writeLoop_paid fuel sink burst p n tr :
  paid tr → (n <= String.length p)%nat → written tr = Z.of_nat n →
  let '(n', ok, tr') := writeLoop fuel g sink burst lims p n tr in
  paid tr' ∧ written tr' = Z.of_nat n' ∧ (n' <= String.length p)%nat.
Proof.
  revert n tr. induction fuel as [|fuel IH]; intros n tr Hp Hn Hw; cbn [writeLoop]; [done|].
  destruct (Nat.ltb_spec n (String.length p)) as [Hlt|]; [|done].
  set (stop := if _ && _ then _ else _). set (chunk := str_take _ _).
  assert (String.length chunk <= String.length p - n)%nat as Hlen.
  { unfold chunk. rewrite str_length_take_le, str_length_drop. lia. }
  destruct (waitLoop_spec (Z.to_nat (Z.of_nat (String.length chunk))) (composedBurst lims)
    (Z.of_nat (String.length chunk)) tr) as (evs & ok & Heq & Hwt & Hgr); [lia|lia|].
  unfold composedWaitN. rewrite Heq. destruct (waits_written _ Hwt) as [Hw0 _].
  destruct ok; [|split_and!; [by apply paid_waits|rewrite written_app; lia|lia]].
  destruct (sink_write sink chunk) as [taken sok] eqn:Hs.
  assert (String.length taken <= String.length chunk)%nat as Ht.
  { unfold sink_write in Hs. destruct (sink chunk) as [k|]; injection Hs as <- _; [|done].
    rewrite str_length_take_le. lia. }
  assert (paid ((tr ++ evs) ++ [EWrite taken])) as Hp'.
  { apply paid_app; [by apply paid_waits|]. intros k i l Hl. rewrite written_app, granted_app, Hw0.
    rewrite (Hgr eq_refl i l Hl). specialize (Hp (length tr) i l Hl). rewrite take_ge in Hp by done.
    destruct k as [|k]; [cbn; lia|]. destruct k; cbn; lia. }
  assert (written ((tr ++ evs) ++ [EWrite taken]) = Z.of_nat (n + String.length taken)) as Hw'.
  { rewrite !written_app, Hw0. cbn. lia. }
  destruct sok; [|by split_and!; [..|lia]]. apply IH; [done|lia|done].
Qed.
End facts.

(** Rate limiting is never bypassed.  Whatever the limiters grant or refuse
    and however the underlying writer fails, at every moment of a composed
    [Write] the bytes delivered so far are at most what each limiter, global and
    per-peer, has granted so far; and the count returned is the number of bytes
    delivered. *)
Theorem composed_write_pays g sink lims p :
  let '(n, ok, tr) := composedWrite g sink lims p in
  (∀ k i l, lims !! i = Some (Some l) → written (take k tr) <= granted i (take k tr)) ∧
  Z.of_nat n = written tr ∧ (n <= String.length p)%nat.
Proof.
  pose proof (writeLoop_paid g lims (S (String.length p)) sink (composedBurst lims) p 0 []) as Hl.
  unfold composedWrite. destruct (writeLoop _ _ _ _ _ _ _ _) as [[n ok] tr].
  destruct Hl as (H1 & H2 & H3); [|lia|done|split_and!; [exact H1|lia|lia]].
  intros k i l _. by rewrite take_nil.
Qed.

(** ** Completeness *)
Section complete.
Context (lims : list (option rateLimiter)).
Context (Hpos : ∀ i l, lims !! i = Some (Some l) → 0 < rl_burst l).

Lemma composedBurst_le i l : lims !! i = Some (Some l) → 0 < composedBurst lims <= rl_burst l.
Proof.
  assert (∀ ls b, (∀ l, Some l ∈ ls → 0 < rl_burst l) → 0 <= b →
    let r := foldl (λ burst l, match l with None => burst
                    | Some l => if (burst =? 0) || (rl_burst l <? burst) then rl_burst l else burst end) b ls in
    (0 < b → 0 < r <= b) ∧ ∀ l, Some l ∈ ls → 0 < r <= rl_burst l) as Hgen.
  { clear. induction ls as [|[x|] ls IH]; intros b Hls Hb; cbn.
    - split; [lia|]. intros l Hl. by apply not_elem_of_nil in Hl.
    - assert (0 < rl_burst x) as Hx by (apply Hls; by left).
      set (b' := if _ || _ then _ else _).
      assert (0 < b' <= rl_burst x ∧ (0 < b → b' <= b)) as [Hb' Hbb].
      { unfold b'. destruct (Z.eqb_spec b 0); cbn; [lia|]. destruct (Z.ltb_spec (rl_burst x) b); lia. }
      destruct (IH b') as [H1 H2]; [intros l Hl; apply Hls; by right|lia|]. cbn in H1, H2.
      specialize (H1 ltac:(lia)). split; [lia|]. intros l [[= ->]|Hl]%elem_of_cons; [lia|auto].
    - destruct (IH b) as [H1 H2]; [intros l Hl; apply Hls; by right|lia|]. cbn in H1, H2.
      split; [done|]. intros l [?|Hl]%elem_of_cons; [done|auto]. }
  intros Hl. unfold composedBurst. destruct (Hgen lims 0) as [_ H2]; [|lia|].
  - intros l' [j Hj]%list_elem_of_lookup. eauto.
  - apply H2. by eapply list_elem_of_lookup_2.
Qed.

Definition always : grants := λ _, true.

Lemma waitEach_ok w i0 ls tr : (∀ l, Some l ∈ ls → w <= rl_burst l) → (waitEach always w i0 ls tr).1 = true.
Proof.
  revert i0 tr. induction ls as [|[l|] ls IH]; intros i0 tr Hls; cbn; [done| |].
  - unfold WaitN, always. destruct (Z.ltb_spec (rl_burst l) w) as [Hlt|]; cbn.
    + specialize (Hls l ltac:(by left)). lia.
    + apply IH. intros l' Hl'. apply Hls. by right.
  - apply IH. intros l' Hl'. apply Hls. by right.
Qed.

(** The composed wait never asks a limiter for more than its burst. *)
Lemma composedWaitN_ok n tr : (composedWaitN always n lims tr).1 = true.
Proof.
  unfold composedWaitN. generalize (Z.to_nat n) as fuel. intros fuel. revert n tr.
  induction fuel as [|fuel IH]; intros n tr; cbn; [done|]. destruct (0 <? n); [|done].
  pose proof (waitEach_ok (piece (composedBurst lims) n) 0 lims tr) as Hok.
  destruct (waitEach _ _ _ _ _) as [ok tr']. cbn [fst] in Hok. rewrite Hok; [apply IH|].
  intros l [i Hi]%list_elem_of_lookup. pose proof (composedBurst_le i l Hi).
  unfold piece. destruct (Z.ltb_spec 0 (composedBurst lims)); [|lia]. cbn.
  destruct (Z.ltb_spec (composedBurst lims) n); lia.
Qed.

Lemma writeLoop_complete fuel p n tr :
  (n <= String.length p)%nat → (String.length p - n < fuel)%nat → delivered tr = str_take n p →
  let '(n', ok, tr') := writeLoop fuel always (λ _, None) (composedBurst lims) lims p n tr in
  n' = String.length p ∧ ok = true ∧ delivered tr' = p.
Proof.
  revert n tr. induction fuel as [|fuel IH]; intros n tr Hn Hf Hd; [lia|]. cbn [writeLoop].
  destruct (Nat.ltb_spec n (String.length p)) as [Hlt|Hge].
  2:{ assert (n = String.length p) as -> by lia. split_and!; [done..|]. by rewrite Hd, str_take_all. }
  set (stop := if _ && _ then _ else _).
  assert (Z.of_nat n < stop <= Z.of_nat (String.length p)) as Hstop.
  { unfold stop. destruct (_ && _) eqn:Hb; [|lia]. apply andb_prop in Hb as [? ?]. blia. }
  set (chunk := str_take _ _).
  assert (String.length chunk = Z.to_nat stop - n)%nat as Hlen.
  { unfold chunk. rewrite str_length_take_le, str_length_drop. lia. }
  pose proof (composedWaitN_ok (Z.of_nat (String.length chunk)) tr) as Hok.
  destruct (waitLoop_spec always lims (Z.to_nat (Z.of_nat (String.length chunk))) (composedBurst lims)
    (Z.of_nat (String.length chunk)) tr) as (evs & ok & Heq & Hwt & _); [lia|lia|].
  unfold composedWaitN in *. rewrite Heq in *. cbn [fst] in Hok. subst ok.
  unfold sink_write. apply IH; [lia|lia|].
  rewrite !delivered_app, Hd, (proj2 (waits_written _ Hwt)). cbn [delivered]. rewrite !str_app_nil_r.
  rewrite Hlen.
  assert (∀ a b s, str_take a s +:+ str_take b (str_drop a s) = str_take (a + b) s) as Htd.
  { clear. induction a as [|a IHa]; intros b [|c s]; cbn; try done; [by destruct b|]. by rewrite <- IHa. }
  unfold chunk. apply Htd.
Qed.
End complete.

(** Splitting into bursts loses nothing: with positive bursts, when every
    request within a limiter's burst is granted and the underlying writer
    accepts its data, [Write] succeeds and delivers exactly the buffer, in
    order, whatever its length. *)
Theorem composed_write_delivers lims p :
  (∀ i l, lims !! i = Some (Some l) → 0 < rl_burst l) →
  let '(n, ok, tr) := composedWrite (λ _, true) (λ _, None) lims p in
  n = String.length p ∧ ok = true ∧ delivered tr = p.
Proof. intros Hpos. apply (writeLoop_complete lims Hpos (S (String.length p)) p 0 []); [lia|lia|done]. Qed.

Lemma composed_write_witness :
  (composedWrite (λ _, true) (λ _, None) [Some (mkRate 5 2); None; Some (mkRate 9 3)] "hello").1 = (5%nat, true).
Proof.
  pose proof (composed_write_delivers [Some (mkRate 5 2); None; Some (mkRate 9 3)] "hello") as Hw.
  destruct (composedWrite _ _ _ _) as [[n ok] tr]. destruct Hw as (-> & -> & _); [|reflexivity].
  intros [|[|[|i]]] l Hl; cbn in Hl; simplify_eq; cbn; lia.
Defined.

(** Each limiter of [New] and of the manager has a positive burst. *)
Lemma calculateBurst_bounds b : 64 * 1024 <= calculateBurst b <= 4 * 1024 * 1024.
Proof.
  unfold calculateBurst, clampBurst. destruct (b <=? 0); [lia|].
  destruct (Z.ltb_spec b (64 * 1024)) as [_|Hb]; [done|].
  destruct (Z.ltb_spec (4 * 1024 * 1024) b); lia.
Qed.

(** The single-limiter reader and writer behave as the composed ones with that
    limiter alone. *)
Section single.
Context (g : grants) (l : rateLimiter) (Hl : 0 < rl_burst l).

Lemma composedBurst_single : composedBurst [Some l] = rl_burst l.
Proof. reflexivity. Qed.

Lemma waitEach_single w tr : waitEach g w 0 [Some l] tr = WaitN g 0 l w tr.
Proof. cbn. by destruct (WaitN g 0 l w tr) as [[] tr']. Qed.

Lemma piece_single n : piece (rl_burst l) n = if rl_burst l <? n then rl_burst l else n.
Proof. unfold piece. by replace (0 <? rl_burst l) with true by (symmetry; blia). Qed.

Lemma limitedWaits_composed fuel n tr :
  limitedWaits fuel g l n tr = waitLoop fuel g (rl_burst l) [Some l] n tr.
Proof.
  revert n tr. induction fuel as [|fuel IH]; intros n tr; [done|]. cbn [limitedWaits waitLoop].
  destruct (0 <? n); [|done]. cbv zeta. rewrite waitEach_single, piece_single.
  destruct (WaitN _ _ _ _ _) as [[] tr']; [apply IH|done].
Qed.

Lemma composedWaitN_single n tr :
  0 < n <= rl_burst l → composedWaitN g n [Some l] tr = WaitN g 0 l n tr.
Proof.
  intros Hn. unfold composedWaitN. rewrite composedBurst_single.
  destruct (Z.to_nat n) as [|fuel] eqn:Hf; [lia|]. cbn [waitLoop].
  replace (0 <? n) with true by (symmetry; blia). rewrite piece_single.
  replace (rl_burst l <? n) with false by (symmetry; blia). rewrite waitEach_single.
  destruct (WaitN _ _ _ _ _) as [[] tr']; [|done]. rewrite Z.sub_diag. by destruct fuel.
Qed.

Lemma limitedWrites_composed sink fuel p n tr :
  limitedWrites fuel g sink l p n tr = writeLoop fuel g sink (rl_burst l) [Some l] p n tr.
Proof.
  revert n tr. induction fuel as [|fuel IH]; intros n tr; [done|]. cbn [limitedWrites writeLoop].
  destruct (Nat.ltb_spec n (String.length p)) as [Hlt|]; [|done]. cbv zeta.
  set (stop := if _ <? _ then _ else _). set (stop' := if _ && _ then _ else _).
  assert (stop' = stop ∧ Z.of_nat n < stop <= Z.of_nat n + rl_burst l ∧ stop <= Z.of_nat (String.length p))
    as (-> & Hs & Hp).
  { unfold stop, stop'. replace (0 <? rl_burst l) with true by (symmetry; blia). cbn [andb].
    repeat match goal with |- context [?a <? ?b] => destruct (Z.ltb_spec a b) end; lia. }
  rewrite composedWaitN_single.
  - destruct (WaitN _ _ _ _ _) as [[] tr']; [|done]. destruct (sink_write _ _) as [taken []]; [apply IH|done].
  - rewrite str_length_take_le, str_length_drop. lia.
Qed.

Lemma limitedWrite_composed sink p : limitedWrite g sink l p = composedWrite g sink [Some l] p.
Proof. apply limitedWrites_composed. Qed.

Lemma limitedRead_composed n rerr tr : limitedRead g l n rerr tr = composedRead g [Some l] n rerr tr.
Proof.
  unfold limitedRead, composedRead, composedWaitN. by rewrite limitedWaits_composed, composedBurst_single.
Qed.
End single.
End RateLimit.
