(* ===== verification/Retry.v ===== *)
(** * internal/retry: retrying with backoff

    retry.go.  The function that is retried is a state transformer; time is the
    list of delays slept, and whether the context is done before a delay has
    passed is an input of each wait. *)

From S2P Require Import Prelude GoStd.
Open Scope Z_scope.

Module Retry.

(** ** Errors

    An error is one of the caller's, one wrapped by [NonRetryable], one wrapped
    by [fmt.Errorf] with [%w] (the number is the attempt count of [Do]'s
    message), or [ctx.Err()]. *)
Inductive error :=
| EOpaque (msg : string)
| ENonRetryable (Err : error)
| EWrapped (n : Z) (Err : error)
| ECtx.

#[global] Instance error_eq_dec : EqDecision error.
Proof. solve_decision. Defined.

(** [NonRetryable(nil)] is [nil]. *)
Definition NonRetryable (err : option error) : option error := ENonRetryable <$> err.

Definition Unwrap (e : error) : option error :=
  match e with ENonRetryable e | EWrapped _ e => Some e | _ => None end.

(** [errors.As(err, &nonRetryable)]: the [Err] field of the first
    [NonRetryableError] of the chain. *)
Fixpoint AsNonRetryable (e : error) : option error :=
  match e with
  | ENonRetryable e => Some e
  | EWrapped _ e => AsNonRetryable e
  | _ => None
  end.

(** ** Backoff

    Durations are [int64] nanoseconds. *)
Definition Second : Z := 1000000000.

Definition Exponential (base : Z) (attempt : Z) : Z := wrap64 (wrap64 (attempt * attempt) * base).
Definition Linear (base : Z) (attempt : Z) : Z := wrap64 (attempt * base).
Definition Constant (d : Z) (attempt : Z) : Z := if attempt =? 0 then 0 else d.

Record Config := mkConfig { MaxAttempts : Z; Backoff : option (Z → Z) }.

(** ** Do *)
Section retry.
Context {St T : Type}.

(** What a run did: the calls of [fn] and the delays slept, in order. *)
Record run := mkRun { calls : nat; slept : list Z }.

(** The wait before an attempt: nothing on the first one, otherwise the
    backoff's delay if it is positive.  [None]: the context was done. *)
Definition wait (canceled : Z → bool) (backoff : Z → Z) (attempt : Z) : option (list Z) :=
  if 0 <? attempt then
    let delay := backoff attempt in
    if 0 <? delay then (if canceled attempt then None else Some [delay]) else Some []
  else Some [].

(** The loop, with [todo] attempts to go.  [lastErr] is [nil] before the first
    attempt, and the wrapped [nil] is never reached as there is one attempt. *)
Fixpoint loop (canceled : Z → bool) (backoff : Z → Z) (max : Z) (fn : St → res error T * St)
    (todo : nat) (attempt : Z) (lastErr : option error) (s : St) (r : run)
  : res error T * St * run :=
  match todo with
  | O => (Err (match lastErr with Some e => EWrapped max e | None => EOpaque "%!w(<nil>)" end), s, r)
  | S todo =>
      match wait canceled backoff attempt with
      | None => (Err ECtx, s, r)
      | Some d =>
          let '(out, s) := fn s in
          let r := mkRun (S (calls r)) (slept r ++ d) in
          match out with
          | Ok v => (Ok v, s, r)
          | Err err =>
              match AsNonRetryable err with
              | Some e => (Err e, s, r)
              | None => loop canceled backoff max fn todo (attempt + 1) (Some err) s r
              end
          end
      end
  end.

Definition Do (canceled : Z → bool) (cfg : Config) (fn : St → res error T * St) (s : St)
  : res error T * St * run :=
  let max := if MaxAttempts cfg <? 1 then 1 else MaxAttempts cfg in
  let backoff := default (Exponential Second) (Backoff cfg) in
  loop canceled backoff max fn (Z.to_nat max) 0 None s (mkRun 0 []).

(** ** Specification *)

(** The state after a number of calls and the outcome of the next one. *)
Definition state_after (fn : St → res error T * St) (n : nat) (s : St) : St := Nat.iter n (λ s, (fn s).2) s.
Definition outcome (fn : St → res error T * St) (n : nat) (s : St) : res error T := (fn (state_after fn n s)).1.

(** A call whose failure is tried again. *)
Definition retryable (o : res error T) : Prop := ∃ e, o = Err e ∧ AsNonRetryable e = None.

(** The positive delays before attempts [1 .. k-1]. *)
Definition delays (backoff : Z → Z) (k : nat) : list Z :=
  List.filter (λ d, 0 <? d) ((λ i, backoff (Z.of_nat i)) <$> seq 1 (k - 1)).

(** Why a run ended after [k] calls, of which the last is number [k - 1]. *)
Definition explains (canceled : Z → bool) (backoff : Z → Z) (max : nat) (fn : St → res error T * St)
    (s : St) (k : nat) (out : res error T) : Prop :=
  match out with
  | Ok v => outcome fn (k - 1) s = Ok v
  | Err e =>
      (∃ err, outcome fn (k - 1) s = Err err ∧ AsNonRetryable err = Some e)
      ∨ (e = ECtx ∧ (k < max)%nat ∧ 0 < backoff (Z.of_nat k) ∧ canceled (Z.of_nat k) = true
         ∧ retryable (outcome fn (k - 1) s))
      ∨ (k = max ∧ ∃ err, outcome fn (k - 1) s = Err err ∧ AsNonRetryable err = None
         ∧ e = EWrapped (Z.of_nat max) err)
  end.

Lemma delays_S backoff k :
  delays backoff (S (S k)) =
  delays backoff (S k) ++
    (if 0 <? backoff (Z.of_nat (S k)) then [backoff (Z.of_nat (S k))] else []).
Proof.
  unfold delays. cbn [Nat.sub]. rewrite Nat.sub_0_r, seq_S, fmap_app, List.filter_app. cbn.
  by destruct (0 <? _).
Qed.

(** The loop at attempt [k], when all calls so far failed retryably. *)
Lemma loop_spec canceled backoff max fn s todo k lastErr r :
  (k + todo = max)%nat → (0 < max)%nat →
  (∀ i, (i < k)%nat → retryable (outcome fn i s)) →
  (0 < k → ∃ e, lastErr = Some e ∧ outcome fn (k - 1) s = Err e ∧ AsNonRetryable e = None)%nat →
  r = mkRun k (delays backoff k) →
  let '(out, s', r') := loop canceled backoff (Z.of_nat max) fn todo (Z.of_nat k) lastErr (state_after fn k s) r in
  ∃ k', r' = mkRun k' (delays backoff k') ∧ (1 <= k' <= max)%nat ∧ s' = state_after fn k' s ∧
    (∀ i, (i < k' - 1)%nat → retryable (outcome fn i s)) ∧
    explains canceled backoff max fn s k' out.
Proof.
  revert k lastErr r. induction todo as [|todo IH]; intros k lastErr r Hk Hmax Hpre Hlast ->; cbn [loop].
  - assert (k = max) as -> by lia. destruct (Hlast Hmax) as (e & -> & Ho & Ha).
    exists max. split_and!; [done|lia|lia|done|intros i Hi; apply Hpre; lia|].
    right; right. eauto.
  - destruct (wait canceled backoff (Z.of_nat k)) as [d|] eqn:Hw.
    + assert (delays backoff k ++ d = delays backoff (S k)) as Hd.
      { unfold wait in Hw. destruct k as [|k]; [by simplify_eq/=|]. rewrite delays_S.
        destruct (0 <? Z.of_nat (S k)) eqn:Hz; [|blia].
        cbv zeta in Hw. destruct (0 <? backoff _); [destruct (canceled _); [done|]|]; by simplify_eq. }
      cbn [calls slept]. rewrite Hd.
      assert (outcome fn k s = (fn (state_after fn k s)).1) as Ho by done.
      assert (state_after fn (S k) s = (fn (state_after fn k s)).2) as Hs by done.
      destruct (fn (state_after fn k s)) as [[v|err] s1]; cbn [fst snd] in *.
      * exists (S k). split_and!; [done|lia|lia|done|intros i Hi; apply Hpre; lia|].
        cbn. by rewrite Nat.sub_0_r.
      * destruct (AsNonRetryable err) as [e|] eqn:Ha.
        { exists (S k). split_and!; [done|lia|lia|done|intros i Hi; apply Hpre; lia|].
          left. cbn. rewrite Nat.sub_0_r. eauto. }
        replace (Z.of_nat k + 1) with (Z.of_nat (S k)) by lia. rewrite <- Hs.
        apply IH; [lia|done| | |done].
        -- intros i Hi. destruct (decide (i = k)) as [->|]; [by exists err|apply Hpre; lia].
        -- intros _. exists err. cbn. by rewrite Nat.sub_0_r.
    + unfold wait in Hw. destruct (0 <? Z.of_nat k) eqn:Hz; [|done].
      destruct (0 <? backoff (Z.of_nat k)) eqn:Hb; [|done]. destruct (canceled (Z.of_nat k)) eqn:Hc; [|done].
      exists k. split_and!; [done|blia|lia|done|intros i Hi; apply Hpre; lia|].
      right; left. split_and!; [done|lia|blia|done|]. apply Hpre. blia.
Qed.

Lemma Do_explained canceled cfg fn s :
  let max := Z.to_nat (Z.max 1 (MaxAttempts cfg)) in
  let backoff := default (Exponential Second) (Backoff cfg) in
  let '(out, s', r) := Do canceled cfg fn s in
  (1 <= calls r <= max)%nat ∧ s' = state_after fn (calls r) s ∧
  slept r = delays backoff (calls r) ∧
  (∀ i, (i < calls r - 1)%nat → retryable (outcome fn i s)) ∧
  explains canceled backoff max fn s (calls r) out.
Proof.
  cbv zeta. unfold Do.
  assert ((if MaxAttempts cfg <? 1 then 1 else MaxAttempts cfg) = Z.max 1 (MaxAttempts cfg)) as ->
    by (destruct (Z.ltb_spec (MaxAttempts cfg) 1); lia).
  set (max := Z.to_nat _). assert (Z.max 1 (MaxAttempts cfg) = Z.of_nat max) as -> by (unfold max; lia).
  pose proof (loop_spec canceled (default (Exponential Second) (Backoff cfg)) max fn s max 0 None (mkRun 0 []))
    as Hl. change (state_after fn 0 s) with s in Hl. change (Z.of_nat 0) with 0 in Hl.
  destruct (loop _ _ _ _ _ _ _ _ _) as [[out s'] r].
  destruct Hl as (k & -> & ? & ? & ? & ?); [lia|unfold max; lia|lia|lia|done|done].
Qed.

(** A run whose attempt [j] is the first not to fail, and which is not cancelled,
    returns its value. *)
Lemma Do_reaches canceled cfg fn s j v :
  (∀ a, canceled a = false) → (∀ i, (i < j)%nat → retryable (outcome fn i s)) → outcome fn j s = Ok v →
  (j < Z.to_nat (Z.max 1 (MaxAttempts cfg)))%nat →
  ∃ r, Do canceled cfg fn s = (Ok v, state_after fn (S j) s, r).
Proof.
  intros Hc Hpre Hj Hlt. pose proof (Do_explained canceled cfg fn s) as Hd. cbv zeta in Hd.
  destruct (Do canceled cfg fn s) as [[out s'] r]. destruct Hd as (Hk & -> & _ & Hfail & Hex).
  set (k := calls r) in *. exists r.
  assert (k - 1 = j)%nat as Hkj.
  { destruct (lt_eq_lt_dec (k - 1) j) as [[Hlt'|]|Hgt]; [|done|].
    - destruct (Hpre _ Hlt') as (e & He & Hne). unfold explains in Hex. rewrite He in Hex.
      destruct out as [v'|e']; [done|]. destruct Hex as [(err & Herr & Ha)|[(_ & _ & _ & Hca & _)|(Hkm & _)]].
      + by simplify_eq.
      + by rewrite Hc in Hca.
      + lia.
    - destruct (Hfail _ Hgt) as (e & He & _). congruence. }
  unfold explains in Hex. rewrite Hkj, Hj in Hex. replace k with (S j) by lia.
  destruct out as [v'|e]; [by simplify_eq|].
  destruct Hex as [(err & Herr & _)|[(_ & _ & _ & Hca & _)|(_ & err & Herr & _)]]; try done. by rewrite Hc in Hca.
Qed.

(** [Do] calls the function at least once and at most [MaxAttempts] times
    (once if that is below 1), goes on only after a retryable failure, sleeps
    exactly the positive delays between the calls it made, and ends in one of
    four ways: with the value of its last call, with the error inside a
    [NonRetryable] failure of its last call, with the context's error during a
    wait, or, after all attempts, with the last failure wrapped. *)
Theorem Do_spec canceled cfg fn s :
  let max := Z.to_nat (Z.max 1 (MaxAttempts cfg)) in
  let backoff := default (Exponential Second) (Backoff cfg) in
  let '(out, s', r) := Do canceled cfg fn s in
  (1 <= calls r <= max)%nat ∧ s' = state_after fn (calls r) s ∧
  slept r = delays backoff (calls r) ∧
  (∀ i, (i < calls r - 1)%nat → retryable (outcome fn i s)) ∧
  explains canceled backoff max fn s (calls r) out.
Proof. apply Do_explained. Qed.
End retry.

(** Three attempts: the third call is made after delays of one and four seconds. *)
Example Do_three :
  Do (λ _, false) (mkConfig 3 None)
     (λ n : nat, (if (n <? 2)%nat then Err (EOpaque "reset") else Ok n, S n)) 0%nat
  = (Ok 2%nat, 3%nat, mkRun 3 [1000000000; 4000000000]).
Proof. reflexivity. Qed.

(** A wrapped non-retryable error ends the run at once with its inner error. *)
Example Do_gives_up :
  Do (T := unit) (λ _, false) (mkConfig 5 (Some (Linear Second)))
     (λ n : nat, (Err (EWrapped 0 (ENonRetryable (EOpaque "404"))), S n)) 0%nat
  = (Err (EOpaque "404"), 1%nat, mkRun 1 []).
Proof. reflexivity. Qed.
End Retry.
