(* ===== verification/Security.v ===== *)
(** * internal/security and internal/p2p/gater.go: what may be contacted

    url.go decides which URLs and CONNECT targets the proxy may fetch from,
    multiaddr.go which peer addresses may be dialled, gater.go combines the
    latter with the allow and block lists of peers.  A multiaddr is the list of
    its components. *)

From S2P Require Import Prelude GoStd GoText GoNet.
From Stdlib Require Import Ascii.
Open Scope Z_scope.

Module Security.

(** ** Addresses *)

Definition IsBlockedIP (ip : option IP) : bool :=
  match ip with
  | None => false
  | Some ip => IsLoopback ip || IsPrivate ip || IsLinkLocalUnicast ip || IsLinkLocalMulticast ip || IsUnspecified ip
  end.

(** An octet in decimal, hexadecimal or octal. *)
Definition parseOctet (s : string) : option Z :=
  if String.eqb s "" then None
  else if HasPrefix s "0x" || HasPrefix s "0X" then
    if (2 <? String.length s)%nat then ParseUint (str_drop 2 s) 16 8 else None
  else if HasPrefix s "0" && (1 <? String.length s)%nat then ParseUint (str_drop 1 s) 8 8
  else ParseUint s 10 8.

(** An integer without dots; the flag is false when the function returns nil at
    once. *)
Definition parseWhole (host : string) : option Z * bool :=
  if HasPrefix host "0x" || HasPrefix host "0X" then
    if (2 <? String.length host)%nat then (ParseUint (str_drop 2 host) 16 32, true) else (None, false)
  else if HasPrefix host "0" && (1 <? String.length host)%nat then (ParseUint (str_drop 1 host) 8 32, true)
  else (ParseUint host 10 32, true).

Definition of_uint32 (num : Z) : IP :=
  IPv4 (num / 2^24 mod 256) (num / 2^16 mod 256) (num / 2^8 mod 256) (num mod 256).

Definition parseDotted (host : string) : option IP :=
  if Contains host "." && negb (Contains host ":") then
    match Split "." host with
    | [a; b; c; d] =>
        match parseOctet a, parseOctet b, parseOctet c, parseOctet d with
        | Some a, Some b, Some c, Some d => Some (IPv4 a b c d)
        | _, _, _, _ => None
        end
    | _ => None
    end
  else None.

Definition parseIPPermissive (host : string) : option IP :=
  match ParseIP host with
  | Some ip => Some ip
  | None =>
      match (if HasPrefix host "[" && HasSuffix host "]"
             then ParseIP (str_take (String.length host - 2) (str_drop 1 host)) else None) with
      | Some ip => Some ip
      | None =>
          if negb (Contains host ".") && negb (Contains host ":") then
            match parseWhole host with
            | (Some num, _) => Some (of_uint32 num)
            | (None, true) => parseDotted host
            | (None, false) => None
            end
          else parseDotted host
      end
  end.

Section policy.
Context `{GoUnicode}.

(** ** Hosts *)

Definition blockedHostnamePatterns : list string := ["localhost"; "metadata."].

Definition isBlockedHostOrIP (host : string) : bool :=
  let lower := ToLower host in
  match parseIPPermissive lower with
  | Some ip => IsBlockedIP (Some ip)
  | None =>
      existsb (λ pattern,
        if HasSuffix pattern "." then HasPrefix lower pattern
        else String.eqb lower pattern || HasSuffix lower ("." +:+ pattern)) blockedHostnamePatterns
  end.

Definition extractHost (rawURL : string) : string :=
  match url_Parse rawURL with
  | Some u => if String.eqb (u_Host u) "" then "" else ToLower (Hostname u)
  | None => ""
  end.

Definition IsBlockedHost (rawURL : string) : bool :=
  let host := extractHost rawURL in
  if String.eqb host "" then false else isBlockedHostOrIP host.

Definition matchesHost (host domain : string) : bool :=
  String.eqb host domain || HasSuffix host ("." +:+ domain).

Definition knownMirrorDomains : list string :=
  ["deb.debian.org"; "debian.org"; "archive.ubuntu.com"; "ubuntu.com"; "security.debian.org";
   "security.ubuntu.com"; "packages.linuxmint.com"; "linuxmint.com"].

Definition isKnownDebianMirror (host : string) : bool :=
  let lower := ToLower host in existsb (matchesHost lower) knownMirrorDomains.

Definition isAllowedHost (rawURL : string) (additionalHosts : list string) : bool :=
  let host := extractHost rawURL in
  if String.eqb host "" then false
  else isKnownDebianMirror host || existsb (λ allowed, matchesHost host (ToLower allowed)) additionalHosts.

(** ** Repository URLs *)

Definition basePath (lowerURL : string) : string :=
  let p := match url_Parse lowerURL with
           | Some u => if String.eqb (u_Path u) "" then lowerURL else u_Path u
           | None => lowerURL
           end in
  let p := TrimSuffix p "/" in
  match LastIndexByte slash p with Some i => str_drop (S i) p | None => p end.

(** The first extension that is a suffix is removed. *)
Fixpoint cutCompression (exts : list string) (name : string) : string :=
  match exts with
  | [] => name
  | ext :: exts => if HasSuffix name ext then TrimSuffix name ext else cutCompression exts name
  end.

Definition isAPTFileName (name : string) : bool :=
  if String.eqb name "" then false
  else if HasSuffix name ".deb" || HasSuffix name ".ddeb" || HasSuffix name ".udeb" then true
  else
    let stem := cutCompression [".gz"; ".xz"; ".bz2"; ".zst"; ".lz4"] name in
    existsb (String.eqb stem) ["release"; "inrelease"; "release.gpg"; "packages"; "sources"; "index"]
    || HasPrefix stem "contents-" || HasPrefix stem "translation-" || HasPrefix stem "commands-".

Definition IsDebianRepoURL (rawURL : string) : bool :=
  let lower := ToLower rawURL in
  existsb (Contains lower) ["/dists/"; "/pool/"; "/debian/"; "/ubuntu/"; "/linuxmint/"; "/by-hash/"]
  || isAPTFileName (basePath lower).

Definition IsAllowedMirrorURLWithHosts (url : string) (allowedHosts : list string) : bool :=
  if IsBlockedHost url then false
  else if negb (IsDebianRepoURL url) then false
  else isAllowedHost url allowedHosts.

Definition IsAllowedMirrorURL (url : string) : bool := IsAllowedMirrorURLWithHosts url [].

(** ** CONNECT targets *)

Definition isKnownMirrorOrAllowed (host : string) (allowedHosts : list string) : bool :=
  isKnownDebianMirror host
  || let lower := ToLower host in
     existsb (λ allowed, let a := ToLower allowed in String.eqb lower a || HasSuffix lower ("." +:+ a)) allowedHosts.

Definition isBlockedConnectHost (host : string) : bool := isBlockedHostOrIP host.

Definition IsAllowedConnectTargetWithHosts (hostPort : string) (allowedHosts : list string) : bool :=
  let '(host, port) := default (hostPort, "443") (SplitHostPort hostPort) in
  if negb (String.eqb port "443") && negb (String.eqb port "80") then false
  else if isBlockedConnectHost host then false
  else isKnownMirrorOrAllowed host allowedHosts.

Definition IsAllowedConnectTarget (hostPort : string) : bool := IsAllowedConnectTargetWithHosts hostPort [].

(** ** Multiaddrs *)

Inductive protocol := P_IP4 | P_IP6 | P_other (code : Z).
Definition Multiaddr : Type := list (protocol * string).

Fixpoint extractIPFromMultiaddr (ma : Multiaddr) : string :=
  match ma with
  | [] => ""
  | (P_IP4, v) :: _ | (P_IP6, v) :: _ => v
  | (P_other _, _) :: rest => extractIPFromMultiaddr rest
  end.

Definition isBlockedIPString (ipStr : string) : bool :=
  let lower := ToLower ipStr in
  existsb (HasPrefix lower)
    ["127."; "0.0.0.0"; "10."; "172.16."; "172.17."; "172.18."; "172.19."; "172.20."; "172.21."; "172.22.";
     "172.23."; "172.24."; "172.25."; "172.26."; "172.27."; "172.28."; "172.29."; "172.30."; "172.31.";
     "192.168."; "169.254."; "::1"; "::"; "fd"; "fe80:"].

Definition isBlockedIP (ipStr : string) : bool :=
  match ParseIP ipStr with
  | None => isBlockedIPString ipStr
  | Some ip =>
      if IsLoopback ip || IsPrivate ip || IsLinkLocalUnicast ip || IsLinkLocalMulticast ip || IsUnspecified ip
      then true
      else match To4 ip with
           | None => (length ip =? 16)%nat && (byte_at ip 0 =? 253)
           | Some _ => false
           end
  end.

Definition IsBlockedMultiaddr (ma : option Multiaddr) : bool :=
  match ma with
  | None => false
  | Some ma => let ip := extractIPFromMultiaddr ma in if String.eqb ip "" then false else isBlockedIP ip
  end.

Definition FilterBlockedAddrs (addrs : list (option Multiaddr)) : list (option Multiaddr) :=
  List.filter (λ a, negb (IsBlockedMultiaddr a)) addrs.

(** ** The connection gater *)

Record AllowlistGater := mkGater { allowlist : gset string; blocklist : gset string; allowlistEnabled : bool }.

Definition NewGater (allow block : list string) : AllowlistGater :=
  mkGater (list_to_set allow) (list_to_set block) (0 <? length allow)%nat.

Definition NewAllowlistGater (peers : list string) : AllowlistGater := NewGater peers [].

Definition AddPeer (id : string) (g : AllowlistGater) : AllowlistGater :=
  mkGater ({[id]} ∪ allowlist g) (blocklist g) (allowlistEnabled g).
Definition RemovePeer (id : string) (g : AllowlistGater) : AllowlistGater :=
  mkGater (allowlist g ∖ {[id]}) (blocklist g) (allowlistEnabled g).
Definition BlockPeer (id : string) (g : AllowlistGater) : AllowlistGater :=
  mkGater (allowlist g) ({[id]} ∪ blocklist g) (allowlistEnabled g).
Definition UnblockPeer (id : string) (g : AllowlistGater) : AllowlistGater :=
  mkGater (allowlist g) (blocklist g ∖ {[id]}) (allowlistEnabled g).

Definition isAllowed (g : AllowlistGater) (p : string) : bool :=
  if bool_decide (p ∈ blocklist g) then false
  else if allowlistEnabled g then bool_decide (p ∈ allowlist g)
  else true.

Definition InterceptPeerDial (g : AllowlistGater) (p : string) : bool := isAllowed g p.
Definition InterceptAddrDial (g : AllowlistGater) (id : string) (addr : option Multiaddr) : bool :=
  if IsBlockedMultiaddr addr then false else isAllowed g id.
(** [None]: no addresses are known. *)
Definition InterceptAccept (g : AllowlistGater) (remote : option (option Multiaddr)) : bool :=
  match remote with Some ma => negb (IsBlockedMultiaddr ma) | None => true end.
Definition InterceptSecured (g : AllowlistGater) (id : string) : bool := isAllowed g id.
Definition InterceptUpgraded (g : AllowlistGater) (remotePeer : string) : bool := isAllowed g remotePeer.
End policy.
End Security.
