(* ===== verification/SecuritySys.v ===== *)
(** * Properties of the contact policy

    Every spelling of an IPv4 address that the code knows of is classified as the
    address; what a URL or CONNECT target that passes the checks looks like; and
    the gater's decisions. *)

From S2P Require Import Prelude GoStd GoText GoNet Security.
From Stdlib Require Import Ascii.
Open Scope Z_scope.

Module SecuritySys.
Import Security.

(** ** Numbers in a base *)

Fixpoint num_go (base : Z) (fuel : nat) (n : Z) (acc : string) : string :=
  match fuel with
  | O => acc
  | S fuel =>
      let acc := String (hex_digit (n mod base)) acc in
      if n <? base then acc else num_go base fuel (n / base) acc
  end.

(** 32 digits are enough for 32-bit numbers in any base. *)
Definition num (base n : Z) : string := num_go base 32 n "".

Inductive radix := Dec | Oct | Hex.

(** The spelling of a number with its C-style prefix. *)
Definition spell (r : radix) (n : Z) : string :=
  match r with Dec => num 10 n | Oct => "0" +:+ num 8 n | Hex => "0x" +:+ num 16 n end.

Definition lower_alnum (a : ascii) : bool := is_digit a || ((97 <=? code a) && (code a <=? 122)).

Lemma code_hex_digit d : 0 <= d < 16 → code (hex_digit d) = if d <? 10 then 48 + d else 87 + d.
Proof.
  intros Hd. unfold hex_digit. destruct (d <? 10) eqn:E; rewrite code_byte_of, Z.mod_small; blia.
Qed.

Lemma digit_value_hex d : 0 <= d < 16 → digit_value (hex_digit d) = Some d.
Proof.
  intros Hd. unfold digit_value. rewrite code_hex_digit by done. destruct (d <? 10) eqn:E.
  - replace ((48 <=? 48 + d) && (48 + d <=? 57)) with true by (symmetry; rewrite andb_true_iff, !Z.leb_le; blia).
    f_equal. lia.
  - replace ((48 <=? 87 + d) && (87 + d <=? 57)) with false by (symmetry; rewrite andb_false_iff, !Z.leb_gt; blia).
    replace ((97 <=? 87 + d) && (87 + d <=? 122)) with true by (symmetry; rewrite andb_true_iff, !Z.leb_le; blia).
    f_equal. lia.
Qed.

Lemma hex_digit_alnum d : 0 <= d < 16 → lower_alnum (hex_digit d) = true.
Proof.
  intros Hd. unfold lower_alnum, is_digit. rewrite code_hex_digit by done.
  rewrite orb_true_iff, !andb_true_iff, !Z.leb_le. destruct (d <? 10) eqn:E; blia.
Qed.

Section base.
Context (base : Z) (Hbase : 2 <= base <= 16).

Lemma num_parse fuel n acc :
  0 <= n < base ^ Z.of_nat fuel → parse_digits base 0 (num_go base fuel n acc) = parse_digits base n acc.
Proof.
  revert n acc. induction fuel as [|fuel IH]; intros n acc Hn.
  { assert (n = 0) as -> by (cbn in Hn; lia). done. }
  cbn [num_go]. pose proof (Z.mod_pos_bound n base ltac:(lia)) as Hm.
  assert (∀ k, parse_digits base k (String (hex_digit (n mod base)) acc) = parse_digits base (k * base + n mod base) acc)
    as Hstep.
  { intros k. cbn [parse_digits]. rewrite digit_value_hex by lia.
    by replace (n mod base <? base) with true by (symmetry; blia). }
  destruct (n <? base) eqn:Hs.
  - rewrite Hstep. f_equal. rewrite Z.mod_small; blia.
  - rewrite IH, Hstep.
    + f_equal. pose proof (Z.div_mod n base). lia.
    + rewrite Nat2Z.inj_succ, Z.pow_succ_r in Hn by lia.
      split; [apply Z.div_pos; lia|apply Z.div_lt_upper_bound; lia].
Qed.

Lemma num_lead fuel n acc :
  0 < n < base ^ Z.of_nat fuel →
  ∃ d t, num_go base fuel n acc = String (hex_digit d) t ∧ 1 <= d < base.
Proof.
  revert n acc. induction fuel as [|fuel IH]; intros n acc Hn; [cbn in Hn; lia|]. cbn [num_go].
  destruct (n <? base) eqn:Hs; [exists (n mod base), acc; split; [done|]; rewrite Z.mod_small; blia|].
  apply IH. rewrite Nat2Z.inj_succ, Z.pow_succ_r in Hn by lia.
  split; [apply Z.div_str_pos; blia|apply Z.div_lt_upper_bound; lia].
Qed.

Lemma num_nonempty fuel n acc : acc ≠ "" ∨ (0 < fuel)%nat → num_go base fuel n acc ≠ "".
Proof.
  revert n acc. induction fuel as [|fuel IH]; intros n acc Ha; cbn [num_go]; [destruct Ha; [done|lia]|].
  destruct (n <? base); [done|]. apply IH. by left.
Qed.

Lemma num_alnum fuel n acc :
  str_forallb lower_alnum acc = true → str_forallb lower_alnum (num_go base fuel n acc) = true.
Proof.
  revert n acc. induction fuel as [|fuel IH]; intros n acc Ha; [done|]. cbn [num_go].
  pose proof (Z.mod_pos_bound n base ltac:(lia)).
  assert (str_forallb lower_alnum (String (hex_digit (n mod base)) acc) = true).
  { cbn [str_forallb]. by rewrite hex_digit_alnum, Ha by lia. }
  destruct (n <? base); [done|]. by apply IH.
Qed.
End base.

Lemma spell_alnum r n : str_forallb lower_alnum (spell r n) = true.
Proof. destruct r; cbn [spell String.append str_forallb]; unfold num; by rewrite num_alnum by (done || lia). Qed.

(** ** Alphanumeric strings *)

Lemma HasPrefix_cons a s b p : HasPrefix (String a s) (String b p) = Ascii.eqb b a && HasPrefix s p.
Proof.
  unfold HasPrefix. cbn [String.prefix].
  destruct (Ascii.eqb_spec b a) as [->|Hne]; destruct (ascii_dec _ _); by try done.
Qed.

Lemma alnum_char a c : lower_alnum a = true → lower_alnum c = false → Ascii.eqb a c = false.
Proof. intros Ha Hc. apply Ascii.eqb_neq. intros ->. congruence. Qed.

Lemma str_no_app c a b : str_no c (a +:+ b) = str_no c a && str_no c b.
Proof. apply str_forallb_app. Qed.

Lemma alnum_no s c : str_forallb lower_alnum s = true → lower_alnum c = false → str_no c s = true.
Proof. intros Hs Hc. eapply str_forallb_impl; [|exact Hs]. intros a Ha. by rewrite (alnum_char a c). Qed.

(** Lower-case letters, digits and dots are left alone by [ToLower]. *)
Lemma ToLower_id `{GoUnicode} s :
  str_forallb (λ a, lower_alnum a || Ascii.eqb a ".") s = true → ToLower s = s.
Proof.
  intros Hs. unfold ToLower.
  assert (∀ a, lower_alnum a || Ascii.eqb a "." = true → code a < 128 ∧ ascii_lower a = a) as Hc.
  { intros a. unfold lower_alnum, is_digit, ascii_lower. rewrite !orb_true_iff, !andb_true_iff, !Z.leb_le.
    rewrite Ascii.eqb_eq. intros [Ha| ->]; [|done].
    replace ((65 <=? code a) && (code a <=? 90)) with false; [split; [lia|done]|].
    symmetry. rewrite andb_false_iff, !Z.leb_gt. lia. }
  assert (isASCII s = true) as ->.
  { eapply str_forallb_impl; [|exact Hs]. intros a Ha. apply Z.ltb_lt. by apply Hc. }
  induction s as [|a s IH]; [done|]. cbn in *. apply andb_prop in Hs as [Ha Hs].
  rewrite IH by done. by destruct (Hc a Ha) as [_ ->].
Qed.

Lemma Contains_no c s : str_no c s = true → Contains s (String c "") = false.
Proof.
  induction s as [|a s IH]; cbn; [done|]. unfold str_no in *. cbn. rewrite andb_true_iff, negb_true_iff.
  intros [Ha Hs]. rewrite IH by done. unfold HasPrefix. cbn.
  destruct (ascii_dec c a) as [->|]; [by rewrite Ascii.eqb_refl in Ha|done].
Qed.

Lemma Contains_mid c a b : Contains (a +:+ String c b) (String c "") = true.
Proof.
  induction a as [|x a IH]; cbn; unfold HasPrefix; cbn.
  - destruct (ascii_dec c c); [by destruct b|done].
  - rewrite IH. by rewrite orb_true_r.
Qed.

Lemma list_ascii_app a b :
  String.list_ascii_of_string (a +:+ b) = String.list_ascii_of_string a ++ String.list_ascii_of_string b.
Proof. induction a; cbn; congruence. Qed.

Lemma one_of_alnum a : lower_alnum a = true → one_of ".:%" a = false.
Proof.
  intros Ha. unfold one_of, str_no. apply negb_false_iff. cbn [str_forallb].
  by rewrite !(Ascii.eqb_sym _ a), !alnum_char by done.
Qed.

Lemma filter_alnum s :
  str_forallb lower_alnum s = true → List.filter (one_of ".:%") (String.list_ascii_of_string s) = [].
Proof.
  induction s as [|a s IH]; cbn; [done|]. intros [Ha Hs]%andb_prop. rewrite IH by done.
  by rewrite one_of_alnum.
Qed.

Lemma alnum_first c s : str_forallb lower_alnum s = true → lower_alnum c = false → HasPrefix s (String c "") = false.
Proof.
  destruct s as [|a s]; [done|]. cbn. intros [Ha _]%andb_prop Hc. unfold HasPrefix. cbn.
  destruct (ascii_dec c a) as [->|]; [congruence|done].
Qed.

(** ** Spellings *)

(** Octets: checked for all 256 values. *)
Definition octet_ok (r : radix) (v : Z) : bool :=
  bool_decide (parseOctet (spell r v) = Some v) && (bool_decide (octet (spell r v) = None) || bool_decide (octet (spell r v) = Some v)).

Lemma octets_ok : forallb (λ v, octet_ok Dec v && octet_ok Oct v && octet_ok Hex v) (seqZ 0 256) = true.
Proof. vm_compute. reflexivity. Qed.

Lemma spell_octet r v :
  0 <= v < 256 → parseOctet (spell r v) = Some v ∧ (octet (spell r v) = None ∨ octet (spell r v) = Some v).
Proof.
  intros Hv. pose proof octets_ok as Hall. rewrite forallb_forall in Hall.
  specialize (Hall v). rewrite <- list_elem_of_In, elem_of_seqZ in Hall. specialize (Hall ltac:(lia)).
  apply andb_prop in Hall as [[Hd Ho]%andb_prop Hh].
  assert (octet_ok r v = true) as Hok by by destruct r.
  unfold octet_ok in Hok. apply andb_prop in Hok as [H1%bool_decide_eq_true H2]. split; [done|].
  apply orb_prop in H2 as [H2|H2]; apply bool_decide_eq_true in H2; auto.
Qed.

Definition dotted (a b c d : string) : string := a +:+ "." +:+ b +:+ "." +:+ c +:+ "." +:+ d.

Section dotted.
Context (a b c d : string).
Context (Ha : str_forallb lower_alnum a = true) (Hb : str_forallb lower_alnum b = true).
Context (Hc : str_forallb lower_alnum c = true) (Hd : str_forallb lower_alnum d = true).

Lemma dotted_split : Split "." (dotted a b c d) = [a; b; c; d].
Proof.
  unfold dotted. cbn [String.append]. rewrite !Split_app, !Split_no by (by apply alnum_no). done.
Qed.

Lemma dotted_filter :
  ∃ rest, List.filter (one_of ".:%") (String.list_ascii_of_string (dotted a b c d)) = "."%char :: rest.
Proof.
  unfold dotted. rewrite list_ascii_app, List.filter_app, filter_alnum by done. cbn. eauto.
Qed.

Lemma dotted_no_colon : Contains (dotted a b c d) ":" = false.
Proof.
  apply Contains_no. unfold dotted. rewrite !str_no_app, (alnum_no a), (alnum_no b), (alnum_no c), (alnum_no d) by done. done.
Qed.

Lemma dotted_no_bracket : HasPrefix (dotted a b c d) "[" = false.
Proof.
  destruct a as [|x t] eqn:E; [done|]. unfold dotted. cbn in Ha. apply andb_prop in Ha as [Hx _].
  unfold HasPrefix. cbn [String.append String.prefix]. destruct (ascii_dec "[" x) as [Hx'|]; [|done].
  rewrite <- Hx' in Hx. by vm_compute in Hx.
Qed.

Lemma dotted_lower `{GoUnicode} : ToLower (dotted a b c d) = dotted a b c d.
Proof.
  apply ToLower_id. unfold dotted. rewrite !str_forallb_app. cbn [str_forallb]. cbn.
  assert (∀ s, str_forallb lower_alnum s = true → str_forallb (λ a, lower_alnum a || Ascii.eqb a ".") s = true) as Hw.
  { intros s. apply str_forallb_impl. by intros x ->. }
  by rewrite !Hw.
Qed.
End dotted.

Lemma permissive_dotted ra rb rc rd a b c d :
  0 <= a < 256 → 0 <= b < 256 → 0 <= c < 256 → 0 <= d < 256 →
  parseIPPermissive (dotted (spell ra a) (spell rb b) (spell rc c) (spell rd d)) = Some (IPv4 a b c d).
Proof.
  intros Ha Hb Hc Hd.
  destruct (spell_octet ra a Ha) as [Pa Oa], (spell_octet rb b Hb) as [Pb Ob],
    (spell_octet rc c Hc) as [Pc Oc], (spell_octet rd d Hd) as [Pd Od].
  pose proof (spell_alnum ra a) as Aa. pose proof (spell_alnum rb b) as Ab.
  pose proof (spell_alnum rc c) as Ac. pose proof (spell_alnum rd d) as Ad.
  unfold parseIPPermissive, ParseIP.
  destruct (dotted_filter (spell ra a) (spell rb b) (spell rc c) (spell rd d)) as [rest ->]; [done|].
  unfold parseIPv4, parseDotted.
  rewrite dotted_split, dotted_no_colon, dotted_no_bracket, Pa, Pb, Pc, Pd by done.
  assert (Contains (dotted (spell ra a) (spell rb b) (spell rc c) (spell rd d)) "." = true) as ->
    by apply Contains_mid. cbn [andb negb].
  destruct Oa as [->| ->]; [reflexivity|]. destruct Ob as [->| ->]; [reflexivity|].
  destruct Oc as [->| ->]; [reflexivity|]. destruct Od as [->| ->]; reflexivity.
Qed.

Lemma whole_spelling r n : 0 <= n < 2 ^ 32 → parseWhole (spell r n) = (Some n, true).
Proof.
  intros Hn.
  assert (∀ base, 2 <= base <= 16 → n < base ^ Z.of_nat 32) as Hp.
  { intros base Hb. apply Z.lt_le_trans with (2 ^ 32); [lia|]. change (Z.of_nat 32) with 32.
    apply Z.pow_le_mono_l. lia. }
  assert (∀ base, 2 <= base <= 16 → ParseUint (num base n) base 32 = Some n) as Hu.
  { intros base Hb. unfold ParseUint, num.
    destruct (num_go base 32 n "") as [|x t] eqn:E; [by apply num_nonempty in E; [|right; lia]|].
    rewrite <- E, num_parse; [|lia|split; [lia|by apply Hp]]. cbn [parse_digits].
    by replace (n <? 2 ^ 32) with true by (symmetry; blia). }
  unfold parseWhole. destruct r; cbn [spell].
  - destruct (decide (n = 0)) as [->|Hnz]; [reflexivity|].
    destruct (num_lead 10 ltac:(lia) 32 n "" ltac:(split; [lia|apply Hp; lia])) as (dg & t & E & Hdg).
    assert (∀ p, HasPrefix (num 10 n) (String "0" p) = false) as Hpre.
    { intros p. unfold num. rewrite E, HasPrefix_cons.
      destruct (Ascii.eqb_spec "0" (hex_digit dg)) as [Hx|]; [|done]. exfalso. apply (f_equal code) in Hx. rewrite code_hex_digit in Hx by lia.
      change (code "0") with 48 in Hx.
      destruct (dg <? 10) eqn:?; blia. }
    rewrite !Hpre. cbn [orb andb]. by rewrite Hu by lia.
  - assert (∀ x p, hex_digit x = "x"%char ∨ hex_digit x = "X"%char → 0 <= x < 16 → p) as Hxx.
    { intros x p Hx Hr. exfalso. assert (code (hex_digit x) = 120 ∨ code (hex_digit x) = 88) as Hc
        by (destruct Hx as [->| ->]; [left|right]; reflexivity).
      rewrite code_hex_digit in Hc by done. destruct (x <? 10) eqn:?; blia. }
    assert (∃ x t, num 8 n = String (hex_digit x) t ∧ 0 <= x < 16) as (x & t & E & Hx).
    { destruct (decide (n = 0)) as [->|Hnz]; [exists 0, ""; split; [reflexivity|lia]|].
      destruct (num_lead 8 ltac:(lia) 32 n "" ltac:(split; [lia|apply Hp; lia])) as (dg & t & E & Hdg).
      exists dg, t. split; [done|lia]. }
    assert (HasPrefix ("0" +:+ num 8 n) "0x" || HasPrefix ("0" +:+ num 8 n) "0X" = false) as ->.
    { cbn [String.append]. rewrite E, !HasPrefix_cons.
      destruct (Ascii.eqb_spec "x" (hex_digit x)) as [Hy|]; [by apply (Hxx x); auto|].
      by destruct (Ascii.eqb_spec "X" (hex_digit x)) as [Hy|]; [apply (Hxx x); auto|]. }
    assert (HasPrefix ("0" +:+ num 8 n) "0" && (1 <? String.length ("0" +:+ num 8 n))%nat = true) as ->
      by by rewrite E. cbn [str_drop String.append]. by rewrite Hu by lia.
  - assert (2 <? String.length ("0x" +:+ num 16 n) = true)%nat as ->.
    { destruct (num 16 n) as [|x t] eqn:E; [|done].
      by apply num_nonempty in E; [|right; lia]. }
    cbn [String.append str_drop]. change (HasPrefix (String "0" (String "x" (num 16 n))) "0x") with
      (HasPrefix (num 16 n) ""). replace (HasPrefix (num 16 n) "") with true by by destruct (num 16 n).
    cbn [orb]. by rewrite Hu by lia.
Qed.

Lemma permissive_whole r n : 0 <= n < 2 ^ 32 → parseIPPermissive (spell r n) = Some (of_uint32 n).
Proof.
  intros Hn. pose proof (spell_alnum r n) as Ha. unfold parseIPPermissive, ParseIP.
  rewrite filter_alnum, (alnum_first "[") by done. cbn [andb].
  rewrite !Contains_no by (by apply alnum_no). cbn [negb andb]. by rewrite whole_spelling.
Qed.

Lemma of_uint32_bytes a b c d :
  0 <= a < 256 → 0 <= b < 256 → 0 <= c < 256 → 0 <= d < 256 →
  of_uint32 (((a * 256 + b) * 256 + c) * 256 + d) = IPv4 a b c d.
Proof.
  intros Ha Hb Hc Hd. unfold of_uint32. set (n := ((a * 256 + b) * 256 + c) * 256 + d).
  assert (n / 2 ^ 24 = a ∧ n / 2 ^ 16 = a * 256 + b ∧ n / 2 ^ 8 = (a * 256 + b) * 256 + c) as (-> & -> & ->).
  { unfold n. split_and!; symmetry; [apply Z.div_unique with ((b * 256 + c) * 256 + d)
      |apply Z.div_unique with (c * 256 + d)|apply Z.div_unique with d]; lia. }
  f_equal; symmetry; [apply Z.mod_unique with 0|apply Z.mod_unique with a
    |apply Z.mod_unique with (a * 256 + b)|apply Z.mod_unique with ((a * 256 + b) * 256 + c)]; unfold n; lia.
Qed.

(** ** Internal addresses

    The ranges by their bounds: loopback, private, link-local, link-local multicast
    and unspecified. *)

Definition internal4 (a b c d : Z) : Prop :=
  a = 127 ∨ a = 10 ∨ (a = 172 ∧ 16 <= b < 32) ∨ (a = 192 ∧ b = 168) ∨ (a = 169 ∧ b = 254) ∨
  (a = 224 ∧ b = 0 ∧ c = 0) ∨ (a = 0 ∧ b = 0 ∧ c = 0 ∧ d = 0).

(** An IPv6 address that is not a mapped IPv4 one: ::1, ::, fc00::/7, fe80::/10 and
    the link-local multicast addresses ff?2::/16. *)
Definition internal6 (ip : IP) : Prop :=
  ip = repeat 0 15 ++ [1] ∨ ip = repeat 0 16 ∨ 252 <= byte_at ip 0 < 254 ∨
  (byte_at ip 0 = 254 ∧ 128 <= byte_at ip 1 < 192) ∨ (byte_at ip 0 = 255 ∧ byte_at ip 1 mod 16 = 2).

Definition internal (ip : IP) : Prop :=
  (∃ a b c d, ip = IPv4 a b c d ∧ internal4 a b c d) ∨ (To4 ip = None ∧ internal6 ip).

Definition loopback (ip : IP) : Prop := (∃ b c d, ip = IPv4 127 b c d) ∨ ip = repeat 0 15 ++ [1].

Lemma To4_IPv4 ip a b c d : To4 ip = Some (a, b, c, d) → ip = IPv4 a b c d.
Proof.
  unfold To4. intros Ht.
  repeat (match type of Ht with (match ?x with _ => _ end) = _ => destruct x as [|? ?] eqn:?|| destruct x eqn:? end; try discriminate Ht; simplify_eq).
  all: by try reflexivity.
Qed.

Lemma IsLoopback_spec ip : IsLoopback ip = true ↔ loopback ip.
Proof.
  unfold IsLoopback, loopback. destruct (To4 ip) as [[[[a b] c] d]|] eqn:H4.
  - apply To4_IPv4 in H4 as ->. rewrite Z.eqb_eq. split; [intros ->; left; by exists b, c, d|].
    intros [(b' & c' & d' & Heq)|?]; [by injection Heq as -> _ _ _|done].
  - rewrite bool_decide_eq_true. split; [by right|]. intros [(b & c & d & ->)|?]; done.
Qed.

(** What a byte satisfies can be checked on all of them. *)
Lemma byte_check (p : Z → bool) :
  forallb p (Z.of_nat <$> seq 0 256) = true → ∀ x, 0 <= x < 256 → p x = true.
Proof.
  intros Hp x Hx. rewrite forallb_forall in Hp. apply Hp. apply list_elem_of_In, list_elem_of_fmap.
  exists (Z.to_nat x). split; [lia|]. apply elem_of_seq. lia.
Qed.

Lemma land_masks x :
  0 <= x < 256 →
  (Z.land x 240 =? 16) = ((16 <=? x) && (x <? 32)) ∧ (Z.land x 254 =? 252) = ((252 <=? x) && (x <? 254)) ∧
  (Z.land x 192 =? 128) = ((128 <=? x) && (x <? 192)) ∧ (Z.land x 15 =? 2) = (x mod 16 =? 2).
Proof.
  intros Hx.
  pose proof (byte_check (λ x, Bool.eqb (Z.land x 240 =? 16) ((16 <=? x) && (x <? 32)) && Bool.eqb (Z.land x 254 =? 252) ((252 <=? x) && (x <? 254))
    && Bool.eqb (Z.land x 192 =? 128) ((128 <=? x) && (x <? 192)) && Bool.eqb (Z.land x 15 =? 2) (x mod 16 =? 2)) ltac:(vm_compute; reflexivity) x Hx) as Hc.
  cbn beta in Hc. rewrite !andb_true_iff, !Bool.eqb_true_iff in Hc. tauto.
Qed.

Lemma blocked4 a b c d : 0 <= b < 256 → IsBlockedIP (Some (IPv4 a b c d)) = true ↔ internal4 a b c d.
Proof.
  intros Hb. destruct (land_masks b Hb) as (Hm & _). unfold internal4.
  cbn [IsBlockedIP IsLoopback IsPrivate IsLinkLocalUnicast IsLinkLocalMulticast IsUnspecified].
  unfold IsLoopback, IsPrivate, IsLinkLocalUnicast, IsLinkLocalMulticast, IsUnspecified. cbn [To4 IPv4 repeat app].
  rewrite Hm, !orb_true_iff, !andb_true_iff, !Z.eqb_eq, Z.leb_le, Z.ltb_lt. tauto.
Qed.

(** The check of addresses is exact. *)
Lemma blocked_internal ip :
  Forall (λ x, 0 <= x < 256) ip → length ip = 16%nat → IsBlockedIP (Some ip) = true ↔ internal ip.
Proof.
  intros Hb Hl. unfold internal. destruct (To4 ip) as [[[[a b] c] d]|] eqn:H4.
  - apply To4_IPv4 in H4. subst ip.
    assert (0 <= b < 256) as Hbb by exact (Forall_lookup_1 _ _ 13%nat b Hb eq_refl). rewrite blocked4 by done. split.
    + intros Hi. left. by exists a, b, c, d.
    + intros [(a' & b' & c' & d' & Heq & Hi)|[? _]]; [|done]. by injection Heq as -> -> -> ->.
  - assert (∀ i, 0 <= byte_at ip i < 256) as Hbyte.
    { intros i. unfold byte_at, default, from_option, id. case_match eqn:Hi; [exact (Forall_lookup_1 _ _ _ _ Hb Hi)|lia]. }
    destruct (land_masks _ (Hbyte 0%nat)) as (_ & H254 & _). destruct (land_masks _ (Hbyte 1%nat)) as (_ & _ & H192 & H15).
    cbn [IsBlockedIP]. unfold IsLoopback, IsPrivate, IsLinkLocalUnicast, IsLinkLocalMulticast, IsUnspecified. rewrite H4, H254, H192, H15.
    rewrite !orb_true_iff, !andb_true_iff, !Z.eqb_eq, !Z.leb_le, !Z.ltb_lt, !bool_decide_eq_true. unfold internal6.
    split; [tauto|]. intros [(a & b & c & d & -> & _)|[_ Hi]]; [done|tauto].
Qed.

Section policy.
Context `{GoUnicode}.

(** C22: the host check sees through every spelling of an IPv4 address: in dotted
    form with each of the four octets in decimal, octal or hexadecimal, or as one
    number in any of the three, the host is blocked exactly when the address is
    loopback (127/8), private (10/8, 172.16/12, 192.168/16), link-local
    (169.254/16), link-local multicast (224.0.0/24) or unspecified (0.0.0.0).
    Forms with two or three parts are not among these spellings. *)
Theorem spellings_classified a b c d ra rb rc rd r :
  0 <= a < 256 → 0 <= b < 256 → 0 <= c < 256 → 0 <= d < 256 →
  (isBlockedHostOrIP (dotted (spell ra a) (spell rb b) (spell rc c) (spell rd d)) = true ↔ internal4 a b c d) ∧
  (isBlockedHostOrIP (spell r (((a * 256 + b) * 256 + c) * 256 + d)) = true ↔ internal4 a b c d).
Proof.
  intros Ha Hb Hc Hd. rewrite <- blocked4 by done. unfold isBlockedHostOrIP. split.
  - rewrite dotted_lower, permissive_dotted by (done || apply spell_alnum). done.
  - rewrite ToLower_id.
    + rewrite permissive_whole, of_uint32_bytes by lia. done.
    + eapply str_forallb_impl; [|apply spell_alnum]. by intros x ->.
Qed.

(** *** Hosts that pass *)

Definition ends_in (c : ascii) (s : string) : Prop := ∃ t, s = t +:+ String c "".

(** A host is within a domain if it is the domain or a subdomain of it. *)
Definition within (host domain : string) : Prop := host = domain ∨ ∃ sub, host = sub +:+ "." +:+ domain.

Lemma matchesHost_within host domain : matchesHost host domain = true ↔ within host domain.
Proof.
  unfold matchesHost, within. rewrite orb_true_iff, String.eqb_eq. split; intros [?|Hs]; auto; right.
  - by apply HasSuffix_inv in Hs.
  - destruct Hs as [x ->]. apply HasSuffix_app.
Qed.

Lemma existsb_within host l : existsb (matchesHost host) l = true ↔ ∃ d, d ∈ l ∧ within host d.
Proof.
  rewrite existsb_exists. setoid_rewrite list_elem_of_In. by setoid_rewrite matchesHost_within.
Qed.

(** *** Addresses end in a hexadecimal digit *)

(** A byte that is neither a digit of any base in use nor punctuation of an
    address. *)
Definition not_addr (c : ascii) : Prop :=
  digit_value c = None ∨ (∃ v, digit_value c = Some v ∧ 16 <= v).

Lemma parse_digits_last base acc t c :
  base <= 16 → not_addr c → parse_digits base acc (t +:+ String c "") = None.
Proof.
  intros Hb Hc. revert acc. induction t as [|x t IH]; intros acc; cbn.
  - destruct Hc as [->|(v & -> & Hv)]; [done|]. by replace (v <? base) with false by (symmetry; blia).
  - destruct (digit_value x) as [dv|]; [|done]. by destruct (dv <? base).
Qed.

Lemma str_drop_last n t c :
  (n <= String.length t)%nat → ∃ t', str_drop n (t +:+ String c "") = t' +:+ String c "".
Proof.
  revert t. induction n as [|n IH]; intros [|x t] Hn; cbn in *; [by exists ""|by exists (String x t)|lia|].
  apply IH. lia.
Qed.

Lemma ParseUint_last base bits t c : base <= 16 → not_addr c → ParseUint (t +:+ String c "") base bits = None.
Proof.
  intros Hb Hc. unfold ParseUint. destruct (t +:+ String c "") as [|x u] eqn:E; [done|].
  by rewrite <- E, parse_digits_last.
Qed.

Lemma unhex_not_addr c : not_addr c → unhex c = None.
Proof.
  unfold unhex. intros [->|(v & -> & Hv)]; [done|]. by replace (v <? 16) with false by (symmetry; blia).
Qed.

Lemma is_digit_not_addr c : not_addr c → is_digit c = false.
Proof.
  intros Hc. destruct (is_digit c) eqn:E; [|done]. exfalso. unfold not_addr, digit_value in Hc.
  unfold is_digit in E. rewrite E in Hc. destruct Hc as [|(v & [= <-] & ?)]; [done|]. blia.
Qed.

Lemma octet_last t c : not_addr c → octet (t +:+ String c "") = None.
Proof.
  intros Hc. unfold octet. destruct (t +:+ String c "") as [|x u] eqn:E; [done|].
  destruct (_ && _); [done|]. rewrite <- E, str_forallb_app. cbn [str_forallb].
  by rewrite is_digit_not_addr, andb_false_r.
Qed.

Lemma parseOctet_last t c : not_addr c → parseOctet (t +:+ String c "") = None.
Proof.
  intros Hc. unfold parseOctet. destruct (String.eqb _ _); [done|].
  assert (∀ n base, (n <= String.length t)%nat → base <= 16 →
    ParseUint (str_drop n (t +:+ String c "")) base 8 = None) as Hd.
  { intros n base Hn Hb. destruct (str_drop_last n t c Hn) as [t' ->]. by apply ParseUint_last. }
  rewrite str_length_app. cbn [String.length].
  repeat match goal with
  | |- (if ?b then _ else _) = _ => destruct b eqn:?
  end; try done; [| |by apply ParseUint_last].
  - apply Hd; [|lia]. apply Nat.ltb_lt in Heqb0. lia.
  - apply andb_prop in Heqb0 as [_ ?%Nat.ltb_lt]. apply Hd; lia.
Qed.

(** The last part of a dotted name keeps the last byte. *)
Lemma Split_last sep t c :
  Ascii.eqb c sep = false → ∃ l u, Split sep (t +:+ String c "") = l ++ [u +:+ String c ""].
Proof.
  intros Hc. induction t as [|x t (l & u & IH)]; cbn [String.append Split].
  - rewrite Hc. by exists [], "".
  - rewrite IH. destruct (Ascii.eqb x sep); [by exists ("" :: l), u|].
    destruct l as [|y l]; cbn; [by exists [], (String x u)|by exists (String x y :: l), u].
Qed.

Lemma four_last (f : string → option Z) l u :
  f u = None → match l ++ [u] with
               | [a; b; c; d] => f a = None ∨ f b = None ∨ f c = None ∨ f d = None
               | _ => True
               end.
Proof.
  intros Hu. destruct l as [|a [|b [|c [|d l]]]]; cbn; auto.
  destruct l; cbn; auto.
Qed.

Lemma parseIPv4_last t c : Ascii.eqb c "." = false → not_addr c → parseIPv4 (t +:+ String c "") = None.
Proof.
  intros Hd Hc. unfold parseIPv4. destruct (Split_last "." t c Hd) as (l & u & ->).
  pose proof (four_last octet l (u +:+ String c "") (octet_last u c Hc)) as Hf.
  destruct (l ++ [u +:+ String c ""]) as [|x1 [|x2 [|x3 [|x4 [|]]]]]; try done.
  destruct (octet x1), (octet x2), (octet x3), (octet x4); try done. naive_solver.
Qed.

Lemma parseDotted_last t c : Ascii.eqb c "." = false → not_addr c → parseDotted (t +:+ String c "") = None.
Proof.
  intros Hd Hc. unfold parseDotted. destruct (_ && _); [|done]. destruct (Split_last "." t c Hd) as (l & u & ->).
  pose proof (four_last parseOctet l (u +:+ String c "") (parseOctet_last u c Hc)) as Hf.
  destruct (l ++ [u +:+ String c ""]) as [|x1 [|x2 [|x3 [|x4 [|]]]]]; try done.
  destruct (parseOctet x1), (parseOctet x2), (parseOctet x3), (parseOctet x4); try done. naive_solver.
Qed.

Lemma hex_prefix_last t c n acc :
  not_addr c → ∃ t', (hex_prefix (t +:+ String c "") n acc).2 = t' +:+ String c "".
Proof.
  intros Hc%unhex_not_addr. revert n acc. induction t as [|x t IH]; intros n acc; cbn.
  - rewrite Hc. by exists "".
  - destruct (unhex x); [apply IH|]. by exists (String x t).
Qed.

Lemma v6_groups_last fuel t c bytes e :
  Ascii.eqb c "." = false → Ascii.eqb c ":" = false → not_addr c →
  v6_groups fuel (t +:+ String c "") bytes e = None.
Proof.
  intros Hd Hcol Hc. revert t bytes e. induction fuel as [|fuel IH]; intros t bytes e; cbn [v6_groups].
  { by destruct t. }
  destruct (hex_prefix_last t c 0 0 Hc) as [t' Ht].
  destruct (hex_prefix _ _ _) as [[n acc] rest]. cbn in Ht. subst rest.
  destruct (_ || _); [done|].
  destruct t' as [|a t']; cbn [String.append].
  { rewrite Hd, Hcol. done. }
  rewrite parseIPv4_last by done. destruct (Ascii.eqb a "."); [by repeat case_match|].
  destruct (negb _); [done|]. destruct t' as [|b t']; cbn [String.append].
  - rewrite Hcol. apply (IH "").
  - destruct (Ascii.eqb b ":"); [|apply (IH (String b t'))]. destruct e; [done|].
    destruct (String.eqb_spec (t' +:+ String c "") "") as [He|]; [by destruct t'|apply IH].
Qed.

Lemma ParseIP_last t c :
  Ascii.eqb c "." = false → Ascii.eqb c ":" = false → not_addr c → ParseIP (t +:+ String c "") = None.
Proof.
  intros Hd Hcol Hc. unfold ParseIP. destruct (List.filter _ _) as [|a l]; [done|].
  rewrite parseIPv4_last by done. destruct (Ascii.eqb a "."); [done|]. destruct (Ascii.eqb a ":"); [|done].
  destruct (str_no _ _); [|done]. unfold parseIPv6. destruct (HasPrefix _ _) eqn:Hp; [|by rewrite v6_groups_last].
  destruct t as [|x [|y t]]; cbn [String.append] in *.
  - by rewrite HasPrefix_cons, Ascii.eqb_sym, Hcol in Hp.
  - rewrite !HasPrefix_cons, (Ascii.eqb_sym ":" c), Hcol in Hp. by rewrite andb_false_r in Hp.
  - cbn [str_drop]. destruct (String.eqb_spec (t +:+ String c "") "") as [He|_]; [by destruct t|].
    by rewrite v6_groups_last.
Qed.

(** No spelling of an address ends in such a byte. *)
Lemma permissive_last t c :
  Ascii.eqb c "." = false → Ascii.eqb c ":" = false → Ascii.eqb c "]" = false → not_addr c →
  parseIPPermissive (t +:+ String c "") = None.
Proof.
  intros Hd Hcol Hbr Hc. unfold parseIPPermissive. rewrite ParseIP_last by done.
  assert (HasSuffix (t +:+ String c "") "]" = false) as ->.
  { destruct (HasSuffix _ _) eqn:Hs; [|done]. exfalso. apply HasSuffix_inv in Hs as [x Hx].
    assert (String.length t = String.length x) as Hl.
    { apply (f_equal String.length) in Hx. rewrite !str_length_app in Hx. cbn in Hx. lia. }
    destruct (str_app_inj_len _ _ _ _ Hl Hx) as [_ [= ->]]. done. }
  rewrite andb_false_r, parseDotted_last by done.
  assert ((parseWhole (t +:+ String c "")).1 = None) as Hw.
  { unfold parseWhole.
    assert (∀ n base, (n <= String.length t)%nat → base <= 16 →
      ParseUint (str_drop n (t +:+ String c "")) base 32 = None) as Hdr.
    { intros n base Hn Hb. destruct (str_drop_last n t c Hn) as [t' ->]. by apply ParseUint_last. }
    rewrite str_length_app. cbn [String.length].
    repeat match goal with |- (if ?b then _ else _).1 = _ => destruct b eqn:? end; cbn [fst]; try done;
      [| |by apply ParseUint_last].
    - apply Hdr; [|lia]. apply Nat.ltb_lt in Heqb0. lia.
    - apply andb_prop in Heqb0 as [_ ?%Nat.ltb_lt]. apply Hdr; lia. }
  destruct (parseWhole _) as [o b]. cbn in Hw. subst o. by repeat case_match.
Qed.

(** A host within one of the known mirrors is not an address in any spelling. *)
Lemma known_not_address host d : d ∈ knownMirrorDomains → within host d → parseIPPermissive host = None.
Proof.
  intros Hd Hw.
  assert (∃ t c, host = t +:+ String c "" ∧ (c = "g"%char ∨ c = "m"%char)) as (t & c & -> & Hc).
  { assert (∃ u c, d = u +:+ String c "" ∧ (c = "g"%char ∨ c = "m"%char)) as (u & c & -> & Hc).
    { unfold knownMirrorDomains in Hd.
      repeat (apply elem_of_cons in Hd as [->|Hd];
        [match goal with |- ∃ u c, ?s = _ ∧ _ =>
           exists (str_take (String.length s - 1) s); eexists; split; [reflexivity|auto] end|]).
      by apply elem_of_nil in Hd. }
    destruct Hw as [->|[sub ->]]; [eauto|].
    exists (sub +:+ "." +:+ u), c. by rewrite !str_app_assoc. }
  apply permissive_last; try (destruct Hc as [->| ->]; reflexivity).
  right. destruct Hc as [->| ->]; eexists; (split; [reflexivity|done]).
Qed.

(** C23: a URL that may be fetched names a host that is not blocked and that is
    a known mirror, a configured host, or a subdomain of one, and it looks like a
    repository's; without configured hosts, the host is not an IP address in any
    spelling. *)
Theorem allowed_url_host url hosts :
  IsAllowedMirrorURLWithHosts url hosts = true →
  let host := extractHost url in
  host ≠ "" ∧ isBlockedHostOrIP host = false ∧ IsDebianRepoURL url = true ∧
  ((∃ d, d ∈ knownMirrorDomains ∧ within (ToLower host) d) ∨ (∃ d, d ∈ hosts ∧ within host (ToLower d))) ∧
  (hosts = [] → parseIPPermissive (ToLower host) = None).
Proof.
  unfold IsAllowedMirrorURLWithHosts, IsBlockedHost, isAllowedHost. intros Hok. cbv zeta.
  set (host := extractHost url) in *.
  destruct (String.eqb_spec host "") as [He|Hne].
  { by destruct (negb (IsDebianRepoURL url)). }
  destruct (isBlockedHostOrIP host) eqn:Hb; [done|].
  destruct (IsDebianRepoURL url); [cbn [negb] in Hok|done].
  assert ((∃ d, d ∈ knownMirrorDomains ∧ within (ToLower host) d) ∨ (∃ d, d ∈ hosts ∧ within host (ToLower d)))
    as Hwhere.
  { apply orb_prop in Hok as [Hk|Hk]; [left; by apply existsb_within|right].
    apply existsb_exists in Hk as (d & Hd & Hm). exists d. by rewrite list_elem_of_In, <- matchesHost_within. }
  split_and!; try done. intros ->. destruct Hwhere as [(d & Hd & Hw)|(d & Hd & _)]; [by eapply known_not_address|].
  by apply elem_of_nil in Hd.
Qed.

(** The same for CONNECT, on the two usual ports. *)
Lemma allowed_connect_target hostPort hosts :
  IsAllowedConnectTargetWithHosts hostPort hosts = true →
  ∃ host port, default (hostPort, "443") (SplitHostPort hostPort) = (host, port) ∧ (port = "443" ∨ port = "80") ∧
    ((∃ d, d ∈ knownMirrorDomains ∧ within (ToLower host) d) ∨ (∃ d, d ∈ hosts ∧ within (ToLower host) (ToLower d))).
Proof.
  unfold IsAllowedConnectTargetWithHosts. destruct (default _ _) as [host port].
  assert (Hport : (port = "443" ∨ port = "80") ∨
    negb (String.eqb port "443") && negb (String.eqb port "80") = true).
  { destruct (String.eqb_spec port "443"); [by do 2 left|].
    destruct (String.eqb_spec port "80"); [by left; right|by right]. }
  destruct Hport as [Hport| ->]; [|done].
  replace (negb _ && negb _) with false by (destruct Hport as [->| ->]; reflexivity).
  destruct (isBlockedConnectHost host); [done|]. unfold isKnownMirrorOrAllowed. intros Hok. exists host, port. split_and!; [done|done|].
  apply orb_prop in Hok as [(d & Hd & Hw)%existsb_within|Hk]; [left; by exists d|right].
  apply existsb_exists in Hk as (d & Hd & Hm). exists d. split; [by apply list_elem_of_In|]. by apply matchesHost_within.
Qed.

(** *** The gater *)

(** A blocked peer passes none of the checks that see its identity, whatever the
    allow list says; and an address in a blocked range is never dialled. *)
Lemma gater_blocks g p addr :
  p ∈ blocklist g →
  InterceptPeerDial g p = false ∧ InterceptAddrDial g p addr = false ∧
  InterceptSecured g p = false ∧ InterceptUpgraded g p = false.
Proof.
  intros Hp. unfold InterceptPeerDial, InterceptAddrDial, InterceptSecured, InterceptUpgraded, isAllowed.
  rewrite bool_decide_true by done. by destruct (IsBlockedMultiaddr addr).
Qed.

(** An empty allow list stays disabled: adding a peer later restricts nothing. *)
Lemma empty_allowlist_stays_open block p q :
  q ∉ (list_to_set block : gset string) → isAllowed (AddPeer p (NewGater [] block)) q = true.
Proof. intros Hq. unfold isAllowed. cbn. by rewrite bool_decide_false. Qed.
End policy.

(** ** Evaluations *)
#[local] Existing Instance ascii_only.

Lemma spellings_witness : isBlockedHostOrIP "0x7f.0.0.01" = true ∧ isBlockedHostOrIP "2130706433" = true.
Proof.
  destruct (spellings_classified 127 0 0 1 Hex Dec Dec Oct Dec) as [H1 H2]; [lia..|].
  split; [apply H1|apply H2]; by left.
Defined.

Lemma allowed_url_witness :
  within (ToLower (extractHost "http://ftp.debian.org:80/debian/pool/main/a.deb")) "debian.org" ∧
  parseIPPermissive (ToLower (extractHost "http://ftp.debian.org:80/debian/pool/main/a.deb")) = None.
Proof.
  destruct (allowed_url_host "http://ftp.debian.org:80/debian/pool/main/a.deb" []) as (_ & _ & _ & _ & Hip);
    [vm_compute; reflexivity|].
  split; [right; exists "ftp"; vm_compute; reflexivity|exact (Hip eq_refl)].
Defined.

(** Two- and three-part addresses are not recognised, although the C library's
    resolver reads [127.1] as the loopback address. *)
Example short_form_not_blocked : isBlockedHostOrIP "127.1" = false ∧ IsBlockedHost "http://127.1/debian/pool/x" = false.
Proof. split; vm_compute; reflexivity. Qed.
End SecuritySys.
