(* ===== verification/PkgIndex.v ===== *)
(** * The package index

    [internal/index/index.go] and [internal/index/sources.go]: the four maps of an
    [Index], the parsers of Packages and Sources files, the replacement of an
    index file's previous generation, and the lookups.

    The maps hold pointers and the code compares them, so an entry carries its
    address ([ptr]) and the state the next free one; an entry is not written to
    once it is in a map, so its fields can be kept with the address.  The
    decompressors are parameters, as are the file system and the HTTP client. *)

From S2P Require Import Prelude GoStd GoText GoNet Security.
From Stdlib Require Import Ascii.
Open Scope Z_scope.

(** Third-party decompressors: [None] is an error of the constructor. *)
Class Decompressors := {
  gzip_NewReader : stream → option stream;
  xz_NewReader : stream → option stream;
  zstd_NewReader : stream → option stream;
  lz4_NewReader : stream → stream;
  bzip2_NewReader : stream → stream;
}.

Module PkgIndex.

Definition maxDecompressedBytes : Z := 512 * 1024 * 1024.
Definition maxPackagesPerRepo : Z := 500000.
Definition maxTokenSize : Z := 1024 * 1024.

(** ** Data *)

Record PackageInfo := mkPkg {
  ptr : nat;
  Package : string; Version : string; Architecture : string; Filename : string;
  Size : Z; SHA256 : string; Repo : string;
}.

#[global] Instance PackageInfo_eq_dec : EqDecision PackageInfo.
Proof. solve_decision. Defined.

(** Pointer equality. *)
Definition same_ptr (p q : PackageInfo) : bool := (ptr p =? ptr q)%nat.

Record Index := mkIndex {
  packages : gmap string PackageInfo;
  byRepo : gmap string (gmap string PackageInfo);
  byBasename : gmap string (list PackageInfo);
  byIndexFile : gmap string (list PackageInfo);
  next : nat;
}.

Definition New : Index := mkIndex ∅ ∅ ∅ ∅ 0.

Definition set_packages m x := mkIndex m (byRepo x) (byBasename x) (byIndexFile x) (next x).
Definition set_byRepo m x := mkIndex (packages x) m (byBasename x) (byIndexFile x) (next x).
Definition set_byBasename m x := mkIndex (packages x) (byRepo x) m (byIndexFile x) (next x).
Definition set_byIndexFile m x := mkIndex (packages x) (byRepo x) (byBasename x) m (next x).
Definition set_next n x := mkIndex (packages x) (byRepo x) (byBasename x) (byIndexFile x) n.

(** ** Names *)

Definition indexFileKey (s : string) : string :=
  match GoStd.Index s "/by-hash/" with
  | Some i => str_take i s
  | None => foldl TrimSuffix s [".gz"; ".xz"; ".lz4"; ".bz2"; ".zst"]
  end.

Definition HasIndexFile (urlOrPath : string) (x : Index) : bool :=
  negb (length (default [] (byIndexFile x !! indexFileKey urlOrPath)) =? 0)%nat.

(** The first marker that occurs, and where. *)
Fixpoint first_marker (markers : list string) (s : string) : option nat :=
  match markers with
  | [] => None
  | m :: ms => match GoStd.Index s m with Some i => Some i | None => first_marker ms s end
  end.

Definition ExtractRepoFromURL (url : string) : string :=
  let s := if HasPrefix url "https://" then str_drop 8 url
           else if HasPrefix url "http://" then str_drop 7 url else url in
  match first_marker ["/dists/"; "/pool/"] s with
  | Some i => str_take i s
  | None => match GoStd.Index s "/" with Some i => str_take i s | None => s end
  end.

Definition ExtractPathFromURL (rawURL : string) : string :=
  match first_marker ["/pool/"; "/dists/"] rawURL with
  | Some i => let p := str_drop (i + 1) rawURL in default p (PathUnescape p)
  | None => ""
  end.

(** ** Replacing the previous generation of an index file *)

Definition clear_packages (pkg : PackageInfo) (x : Index) : Index :=
  match packages x !! SHA256 pkg with
  | Some cur => if same_ptr cur pkg then set_packages (delete (SHA256 pkg) (packages x)) x else x
  | None => x
  end.

Definition clear_byRepo (pkg : PackageInfo) (x : Index) : Index :=
  match byRepo x !! Repo pkg with
  | Some repoMap =>
      let repoMap := match repoMap !! Filename pkg with
                     | Some cur => if same_ptr cur pkg then delete (Filename pkg) repoMap else repoMap
                     | None => repoMap
                     end in
      set_byRepo (if decide (repoMap = ∅) then delete (Repo pkg) (byRepo x)
                  else <[Repo pkg := repoMap]> (byRepo x)) x
  | None => x
  end.

(** The in-place filter of a [byBasename] list; an empty list leaves the map. *)
Definition filter_basename (keep : PackageInfo → bool) (pkg : PackageInfo) (x : Index) : Index :=
  if String.eqb (Filename pkg) "" then x
  else
    let basename := filepath_Base (Filename pkg) in
    match default [] (byBasename x !! basename) with
    | [] => x
    | l => match List.filter keep l with
           | [] => set_byBasename (delete basename (byBasename x)) x
           | filtered => set_byBasename (<[basename := filtered]> (byBasename x)) x
           end
    end.

Definition is_old (gen : list PackageInfo) (p : PackageInfo) : bool := existsb (same_ptr p) gen.

Definition clear_one (gen : list PackageInfo) (x : Index) (pkg : PackageInfo) : Index :=
  filter_basename (λ p, negb (is_old gen p)) pkg (clear_byRepo pkg (clear_packages pkg x)).

Definition clearIndexFileLocked (fileKey : string) (x : Index) : Index :=
  match default [] (byIndexFile x !! fileKey) with
  | [] => x
  | gen => let x := foldl (clear_one gen) x gen in set_byIndexFile (delete fileKey (byIndexFile x)) x
  end.

(** ** Inserting an entry *)

Definition ensureRepo (repo : string) (x : Index) : Index :=
  match byRepo x !! repo with
  | Some _ => x
  | None => set_byRepo (<[repo := ∅]> (byRepo x)) x
  end.

Definition insert_entry (repo : string) (pkg : PackageInfo) (x : Index) : Index :=
  let x := set_packages (<[SHA256 pkg := pkg]> (packages x)) x in
  if String.eqb (Filename pkg) "" then x
  else
    let x := set_byRepo (<[repo := <[Filename pkg := pkg]> (default ∅ (byRepo x !! repo))]> (byRepo x)) x in
    let basename := filepath_Base (Filename pkg) in
    set_byBasename (<[basename := default [] (byBasename x !! basename) ++ [pkg]]> (byBasename x)) x.

(** ** Packages files *)

Section parsers.
Context `{GoUnicode}.

(** The line's field and trimmed value; [None] without a colon. *)
Definition split_field (line : string) : option (string * string) :=
  match GoStd.Index line ":" with
  | Some i => Some (str_take i line, TrimSpace (str_drop (i + 1) line))
  | None => None
  end.

Definition set_field (p : PackageInfo) (field value : string) : PackageInfo :=
  let '(mkPkg a pk v ar fn sz sha r) := p in
  if String.eqb field "Package" then mkPkg a value v ar fn sz sha r
  else if String.eqb field "Version" then mkPkg a pk value ar fn sz sha r
  else if String.eqb field "Architecture" then mkPkg a pk v value fn sz sha r
  else if String.eqb field "Filename" then mkPkg a pk v ar value sz sha r
  else if String.eqb field "Size" then
    let '(size, ok) := ParseInt value in mkPkg a pk v ar fn (if ok then size else sz) sha r
  else if String.eqb field "SHA256" then mkPkg a pk v ar fn sz value r
  else p.

Definition set_Repo (repo : string) (p : PackageInfo) : PackageInfo :=
  let '(mkPkg a pk v ar fn sz sha _) := p in mkPkg a pk v ar fn sz sha repo.

Record pstate := mkP { p_idx : Index; p_generation : list PackageInfo; p_pkg : option PackageInfo; p_count : Z }.

(** The end of a stanza: an entry with a hash is inserted and counted. *)
Definition flush_pkg (repo : string) (st : pstate) : pstate :=
  match p_pkg st with
  | Some pkg =>
      if String.eqb (SHA256 pkg) "" then st
      else
        let pkg := set_Repo repo pkg in
        mkP (insert_entry repo pkg (p_idx st)) (p_generation st ++ [pkg]) (Some pkg) (p_count st + 1)
  | None => st
  end.

Definition flushes (st : pstate) : bool :=
  match p_pkg st with Some pkg => negb (String.eqb (SHA256 pkg) "") | None => false end.

Definition field_line (line : string) (st : pstate) : pstate :=
  let '(pkg, x) := match p_pkg st with
                   | Some pkg => (pkg, p_idx st)
                   | None => (mkPkg (next (p_idx st)) "" "" "" "" 0 "" "", set_next (S (next (p_idx st))) (p_idx st))
                   end in
  let pkg := match split_field line with Some (f, v) => set_field pkg f v | None => pkg end in
  mkP x (p_generation st) (Some pkg) (p_count st).

(** The scan loop; at the limit it breaks with the entry still in [pkg]. *)
Fixpoint parse_loop (repo : string) (lines : list string) (st : pstate) : pstate :=
  match lines with
  | [] => st
  | line :: rest =>
      if String.eqb line "" then
        let st' := flush_pkg repo st in
        if flushes st && (maxPackagesPerRepo <=? p_count st') then st'
        else parse_loop repo rest (mkP (p_idx st') (p_generation st') None (p_count st'))
      else parse_loop repo rest (field_line line st)
  end.

(** Recording the generation; the error is the scanner's. *)
Definition finish (fileKey : string) (x : Index) (generation : list PackageInfo) (scan_ok : bool) : Index * bool :=
  (match generation with
   | [] => x
   | _ => set_byIndexFile (<[fileKey := generation]> (byIndexFile x)) x
   end, scan_ok).

Definition parseForRepo (reader : stream) (repo fileKey : string) (x : Index) : Index * bool :=
  let x := ensureRepo repo (clearIndexFileLocked fileKey x) in
  let '(lines, ok) := scan maxTokenSize reader.1 reader.2 in
  let st := flush_pkg repo (parse_loop repo lines (mkP x [] None 0)) in
  finish fileKey (p_idx st) (p_generation st) ok.

(** ** Sources files *)

Definition isHex64 (s : string) : bool :=
  (String.length s =? 64)%nat &&
  str_forallb (λ c, ((48 <=? code c) && (code c <=? 57)) || ((97 <=? code c) && (code c <=? 102))
                    || ((65 <=? code c) && (code c <=? 70))) s.

Record fileEntry := mkFE { fe_sha256 : string; fe_size : Z; fe_name : string }.

Record sstate := mkS {
  s_idx : Index; s_generation : list PackageInfo; s_count : Z;
  s_srcName : string; s_directory : string; s_files : list fileEntry; s_inChecksums : bool;
}.

(** The artifacts of a stanza, up to the limit; [false] when it is reached. *)
Fixpoint emit_files (repo srcName directory : string) (files : list fileEntry)
    (x : Index) (gen : list PackageInfo) (count : Z) : Index * list PackageInfo * Z * bool :=
  match files with
  | [] => (x, gen, count, true)
  | fe :: files =>
      if String.eqb (fe_sha256 fe) "" || String.eqb (fe_name fe) "" then
        emit_files repo srcName directory files x gen count
      else
        let filename := directory +:+ "/" +:+ fe_name fe in
        let pkg := mkPkg (next x) srcName "" "" filename (fe_size fe) (fe_sha256 fe) repo in
        let x := insert_entry repo pkg (set_next (S (next x)) x) in
        if maxPackagesPerRepo <=? count + 1 then (x, gen ++ [pkg], count + 1, false)
        else emit_files repo srcName directory files x (gen ++ [pkg]) (count + 1)
  end.

Definition emit (repo : string) (st : sstate) : sstate * bool :=
  let '(x, gen, count, ok) :=
    if String.eqb (s_directory st) "" then (s_idx st, s_generation st, s_count st, true)
    else emit_files repo (s_srcName st) (s_directory st) (s_files st) (s_idx st) (s_generation st) (s_count st) in
  (mkS x gen count "" "" [] false, ok).

Definition is_indented (line : string) : bool :=
  match line with String c _ => Ascii.eqb c " " || Ascii.eqb c TAB | EmptyString => false end.

Definition source_line (line : string) (st : sstate) : sstate :=
  let '(mkS x gen count src dir files inc) := st in
  if inc && is_indented line then
    match Fields line with
    | f0 :: f1 :: f2 :: _ =>
        if isHex64 f0 then mkS x gen count src dir (files ++ [mkFE (ToLower f0) (ParseInt f1).1 f2]) inc else st
    | _ => st
    end
  else
    match split_field line with
    | None => mkS x gen count src dir files false
    | Some (field, value) =>
        if String.eqb field "Package" then mkS x gen count value dir files false
        else if String.eqb field "Directory" then mkS x gen count src (trim_right_slash value) files false
        else mkS x gen count src dir files (String.eqb field "Checksums-Sha256")
    end.

(** The loop and whether it was truncated. *)
Fixpoint sources_loop (repo : string) (lines : list string) (st : sstate) : sstate * bool :=
  match lines with
  | [] => (st, false)
  | line :: rest =>
      if String.eqb line "" then
        let '(st, more) := emit repo st in
        if more then sources_loop repo rest st else (st, true)
      else sources_loop repo rest (source_line line st)
  end.

Definition parseSourcesForRepo (reader : stream) (repo fileKey : string) (x : Index) : Index * bool :=
  let x := ensureRepo repo (clearIndexFileLocked fileKey x) in
  let '(lines, ok) := scan maxTokenSize reader.1 reader.2 in
  let '(st, truncated) := sources_loop repo lines (mkS x [] 0 "" "" [] false) in
  let st := if truncated then st else (emit repo st).1 in
  finish fileKey (s_idx st) (s_generation st) ok.

(** ** Loading *)

Context `{Decompressors}.

Definition limited (r : stream) : stream := LimitReader r maxDecompressedBytes.

Definition decompressByName (r : stream) (name : string) : option stream :=
  if HasSuffix name ".gz" then limited <$> gzip_NewReader r
  else if HasSuffix name ".xz" then limited <$> xz_NewReader r
  else if HasSuffix name ".lz4" then Some (limited (lz4_NewReader r))
  else if HasSuffix name ".bz2" then Some (limited (bzip2_NewReader r))
  else if HasSuffix name ".zst" then limited <$> zstd_NewReader r
  else Some r.

Definition bytes_of (l : list Z) : string := foldr (λ z s, String (byte_of z) s) "" l.

Definition gzip_magic := bytes_of [0x1f; 0x8b].
Definition xz_magic := bytes_of [0xfd; 0x37; 0x7a; 0x58; 0x5a; 0x00].
Definition zstd_magic := bytes_of [0x28; 0xb5; 0x2f; 0xfd].
Definition lz4_magic := bytes_of [0x04; 0x22; 0x4d; 0x18].

(** The same detection is written out in [LoadFromData]. *)
Definition decompressByMagic (data : string) : option stream :=
  if HasPrefix data gzip_magic then limited <$> gzip_NewReader (data, true)
  else if HasPrefix data xz_magic then limited <$> xz_NewReader (data, true)
  else if HasPrefix data zstd_magic then limited <$> zstd_NewReader (data, true)
  else if HasPrefix data lz4_magic then Some (limited (lz4_NewReader (data, true)))
  else Some (data, true).

(** An operation that fails before parsing leaves the index as it is. *)
Definition with_reader (r : option stream) (parse : stream → Index → Index * bool) (x : Index) : Index * bool :=
  match r with Some r => parse r x | None => (x, false) end.

Definition LoadFromData (data url : string) (x : Index) : Index * bool :=
  with_reader (decompressByMagic data) (λ r, parseForRepo r (ExtractRepoFromURL url) (indexFileKey url)) x.

Definition LoadSourcesFromData (data url : string) (x : Index) : Index * bool :=
  with_reader (decompressByMagic data) (λ r, parseSourcesForRepo r (ExtractRepoFromURL url) (indexFileKey url)) x.

(** [open]: the result of [os.Open] and of reading the file. *)
Definition LoadFromFileWithRepo (open : string → option stream) (path repo : string) (x : Index) : Index * bool :=
  with_reader (open path ≫= λ f, decompressByName f path) (λ r, parseForRepo r repo (indexFileKey path)) x.

Definition LoadFromFile (open : string → option stream) (path : string) (x : Index) : Index * bool :=
  LoadFromFileWithRepo open path path x.

Definition LoadSourcesFromFileWithRepo (open : string → option stream) (path repo : string) (x : Index) : Index * bool :=
  with_reader (open path ≫= λ f, decompressByName f path) (λ r, parseSourcesForRepo r repo (indexFileKey path)) x.

(** [get]: the status and body of a response, if there is one. *)
Definition LoadFromURL (get : string → option (Z * stream)) (url : string) (x : Index) : Index * bool :=
  if negb (Security.IsAllowedMirrorURL url) then (x, false)
  else
    match get url with
    | Some (200, body) =>
        with_reader (decompressByName body url) (λ r, parseForRepo r (ExtractRepoFromURL url) (indexFileKey url)) x
    | _ => (x, false)
    end.

(** ** Lookups *)

Context `{GoRange}.

Definition GetBySHA256 (sha256 : string) (x : Index) : option PackageInfo := packages x !! sha256.

Definition GetByRepoAndPath (repo path : string) (x : Index) : option PackageInfo :=
  byRepo x !! repo ≫= λ repoMap, repoMap !! path.

(** The first result of ranging over the repositories. *)
Definition first_match {A B} (f : A → option B) (l : list A) : option B := head (omap f l).

Definition GetByPath (path : string) (x : Index) : option PackageInfo :=
  match first_match (λ e : string * gmap string PackageInfo, e.2 !! path) (go_range (map_to_list (byRepo x))) with
  | Some pkg => Some pkg
  | None => head (default [] (byBasename x !! filepath_Base path))
  end.

Definition GetByBasename (basename preferRepo : string) (x : Index) : option PackageInfo :=
  let l := default [] (byBasename x !! basename) in
  if String.eqb preferRepo "" then head l
  else match List.find (λ p, String.eqb (Repo p) preferRepo) l with
       | Some pkg => Some pkg
       | None => head l
       end.

(** [path.Base] is [filepath.Base] on Unix. *)
Definition basenameFromURL (rawURL : string) : string :=
  match url_Parse rawURL with
  | None => ""
  | Some u => let base := filepath_Base (u_Path u) in
              if String.eqb base "." || String.eqb base "/" then "" else base
  end.

Definition GetByURLPath (rawURL : string) (x : Index) : option PackageInfo :=
  let repo := ExtractRepoFromURL rawURL in
  if String.eqb repo "" then None
  else
    let pathKey := ExtractPathFromURL rawURL in
    if String.eqb pathKey "" then
      let base := basenameFromURL rawURL in
      if String.eqb base "" then None else GetByBasename base repo x
    else
      match GetByRepoAndPath repo pathKey x with
      | Some pkg => Some pkg
      | None => GetByPath pathKey x
      end.

Definition GetByPathSuffix (suffix : string) (x : Index) : option PackageInfo :=
  first_match (λ e : string * gmap string PackageInfo,
      first_match (λ fp : string * PackageInfo,
          if HasSuffix fp.1 suffix || HasSuffix suffix fp.1 then Some fp.2 else None)
        (go_range (map_to_list e.2)))
    (go_range (map_to_list (byRepo x))).

Definition Count (x : Index) : nat := size (packages x).
Definition RepoCount (x : Index) : nat := size (byRepo x).

(** ** Clearing *)

Definition Clear (x : Index) : Index := mkIndex ∅ ∅ ∅ ∅ (next x).

Definition other_repo (repo : string) (p : PackageInfo) : bool := negb (String.eqb (Repo p) repo).

Definition clearRepoLocked (repo : string) (x : Index) : Index :=
  let x := match byRepo x !! repo with
           | Some repoMap =>
               foldl (λ x pkg, filter_basename (other_repo repo) pkg (clear_packages pkg x)) x
                 (snd <$> go_range (map_to_list repoMap))
           | None => x
           end in
  let x := set_byRepo (delete repo (byRepo x)) x in
  set_byIndexFile (omap (λ gen, match List.filter (other_repo repo) gen with [] => None | l => Some l end)
                     (byIndexFile x)) x.

Definition ClearRepo (repo : string) (x : Index) : Index := clearRepoLocked repo x.
End parsers.
End PkgIndex.
