(* ===== verification/PkgIndexSys.v ===== *)
(** * Correctness of the package index

    The index refines a map from index-file keys to the entries parsed last from
    that file: every entry a lookup returns is listed by a loaded file, and the
    basename index is exactly the listed entries. *)

From S2P Require Import Prelude GoStd GoText GoNet Security PkgIndex.
From Stdlib Require Import Ascii.
Open Scope Z_scope.

Module PkgIndexSys.
Import PkgIndex.

(** ** The invariant *)

(** The entries of all generations. *)
Definition entries (G : gmap string (list PackageInfo)) : list PackageInfo := concat (snd <$> map_to_list G).

Definition listed (G : gmap string (list PackageInfo)) (p : PackageInfo) : Prop :=
  ∃ k g, G !! k = Some g ∧ p ∈ g.

Definition has_base (b : string) (p : PackageInfo) : Prop := Filename p ≠ "" ∧ filepath_Base (Filename p) = b.
#[global] Instance has_base_dec b p : Decision (has_base b p).
Proof. apply _. Defined.

Definition base_list (x : Index) (b : string) : list PackageInfo := default [] (byBasename x !! b).

(** [wf G x]: the lookup maps of [x] hold exactly what the generations [G] allow. *)
Record wf (G : gmap string (list PackageInfo)) (x : Index) : Prop := {
  wf_gen : ∀ p, listed G p → SHA256 p ≠ "" ∧ (ptr p < next x)%nat;
  wf_ptr : ∀ k1 g1 k2 g2 p q, G !! k1 = Some g1 → G !! k2 = Some g2 → p ∈ g1 → q ∈ g2 →
             ptr p = ptr q → k1 = k2 ∧ p = q;
  wf_packages : ∀ sha p, packages x !! sha = Some p → SHA256 p = sha ∧ listed G p;
  wf_byRepo : ∀ r f p, GetByRepoAndPath r f x = Some p → Repo p = r ∧ Filename p = f ∧ f ≠ "" ∧ listed G p;
  wf_byBasename : ∀ b, base_list x b ≡ₚ filter (has_base b) (entries G);
}.

Definition inv (x : Index) : Prop :=
  wf (byIndexFile x) x ∧ (∀ k g, byIndexFile x !! k = Some g → g ≠ []).

Lemma entries_insert k g G : entries (<[k := g]> G) ≡ₚ g ++ entries (delete k G).
Proof.
  unfold entries. rewrite <- insert_delete_eq.
  rewrite map_to_list_insert by apply lookup_delete_eq. done.
Qed.

Lemma entries_delete k g G : G !! k = Some g → entries G ≡ₚ g ++ entries (delete k G).
Proof. intros Hg. rewrite <- (insert_id G k g Hg) at 1. apply entries_insert. Qed.

Lemma elem_of_entries G p : p ∈ entries G ↔ listed G p.
Proof.
  unfold entries, listed. rewrite list_elem_of_In, in_concat. setoid_rewrite <- list_elem_of_In. split.
  - intros (g & Hg & Hp). apply list_elem_of_fmap in Hg as ([k g'] & -> & Hk).
    apply elem_of_map_to_list in Hk. eauto.
  - intros (k & g & Hk & Hp). exists g. split; [|done]. apply list_elem_of_fmap.
    exists (k, g). split; [done|]. by apply elem_of_map_to_list.
Qed.

(** ** Inserting an entry *)

(** Only the entry's own slot of each map changes. *)
Lemma insert_entry_repo repo p x r f :
  GetByRepoAndPath r f (insert_entry repo p x) =
  if decide (Filename p ≠ "" ∧ repo = r ∧ Filename p = f) then Some p else GetByRepoAndPath r f x.
Proof.
  unfold GetByRepoAndPath, insert_entry. destruct (String.eqb_spec (Filename p) "") as [He|Hne].
  { rewrite decide_False by naive_solver. done. }
  cbn [byRepo set_byRepo set_byBasename set_packages].
  destruct (decide (repo = r)) as [->|Hr].
  - rewrite lookup_insert_eq. cbn [mbind option_bind].
    destruct (decide (Filename p = f)) as [Hf|Hf].
    + rewrite decide_True by done. rewrite Hf. apply lookup_insert_eq.
    + rewrite decide_False by naive_solver. rewrite lookup_insert_ne by done. by destruct (byRepo x !! r).
  - rewrite decide_False by naive_solver. by rewrite lookup_insert_ne.
Qed.

Lemma insert_entry_base repo p x b :
  base_list (insert_entry repo p x) b = base_list x b ++ (if decide (has_base b p) then [p] else []).
Proof.
  unfold base_list, insert_entry, has_base. destruct (String.eqb_spec (Filename p) "") as [He|Hne].
  { rewrite decide_False by naive_solver. by rewrite app_nil_r. }
  cbn [byBasename set_byRepo set_byBasename set_packages].
  destruct (decide (filepath_Base (Filename p) = b)) as [<-|Hb].
  - rewrite lookup_insert_eq, decide_True by done. done.
  - rewrite lookup_insert_ne, decide_False by naive_solver. by rewrite app_nil_r.
Qed.

Lemma insert_entry_packages repo p x : packages (insert_entry repo p x) = <[SHA256 p := p]> (packages x).
Proof. unfold insert_entry. by destruct (String.eqb _ _). Qed.
Lemma insert_entry_next repo p x : next (insert_entry repo p x) = next x.
Proof. unfold insert_entry. by destruct (String.eqb _ _). Qed.
Lemma insert_entry_files repo p x : byIndexFile (insert_entry repo p x) = byIndexFile x.
Proof. unfold insert_entry. by destruct (String.eqb _ _). Qed.

Lemma listed_snoc k gen F p q :
  listed (<[k := gen ++ [p]]> F) q ↔ listed (<[k := gen]> F) q ∨ q = p.
Proof.
  rewrite <- !elem_of_entries, !entries_insert, !elem_of_app, list_elem_of_singleton. tauto.
Qed.

(** The step of both parsers: [p] is a new entry, or the one inserted last. *)
Lemma wf_insert_entry k gen F repo p x :
  wf (<[k := gen]> F) x → SHA256 p ≠ "" → Repo p = repo → (ptr p < next x)%nat →
  (∀ k' g q, <[k := gen]> F !! k' = Some g → q ∈ g → ptr q = ptr p → k' = k ∧ q = p) →
  wf (<[k := gen ++ [p]]> F) (insert_entry repo p x).
Proof.
  intros [Hgen Hptr Hpk Hrp Hbn] Hsha Hrepo Hlt Hfresh. split.
  - intros q [Hq| ->]%listed_snoc; rewrite insert_entry_next; auto.
  - assert (∀ k' g q, <[k := gen ++ [p]]> F !! k' = Some g → q ∈ g →
      (∃ g', <[k := gen]> F !! k' = Some g' ∧ q ∈ g') ∨ (k' = k ∧ q = p)) as Hcase.
    { intros k' g q Hk Hq. destruct (decide (k = k')) as [<-|Hne].
      - rewrite lookup_insert_eq in Hk. simplify_eq. apply elem_of_app in Hq as [Hq|Hq%list_elem_of_singleton].
        + left. exists gen. by rewrite lookup_insert_eq.
        + by right.
      - left. exists g. by rewrite lookup_insert_ne in * by done. }
    intros k1 g1 k2 g2 q1 q2 H1 H2 Hq1 Hq2 Heq.
    destruct (Hcase _ _ _ H1 Hq1) as [(g1' & H1' & Hq1')|[-> ->]], (Hcase _ _ _ H2 Hq2) as [(g2' & H2' & Hq2')|[-> ->]].
    + by eapply (Hptr k1 g1' k2 g2').
    + by eapply (Hfresh k1 g1').
    + destruct (Hfresh k2 g2' q2) as [-> ->]; auto.
    + done.
  - intros sha q. rewrite insert_entry_packages, listed_snoc. intros [[<- <-]|[_ Hq]]%lookup_insert_Some; [by auto|].
    destruct (Hpk _ _ Hq). auto.
  - intros r f q. rewrite insert_entry_repo, listed_snoc. destruct (decide _) as [(Hf & <- & <-)|_].
    + intros [= <-]. auto.
    + intros (? & ? & ? & ?)%Hrp. auto.
  - intros b. rewrite insert_entry_base, Hbn, !entries_insert, !filter_app, filter_cons, filter_nil.
    destruct (decide (has_base b p)); [|by rewrite !app_nil_r].
    rewrite <- !app_assoc. f_equiv. by rewrite Permutation_app_comm.
Qed.

(** ** Clearing the previous generation *)

Lemma clear_one_files gen x p : byIndexFile (clear_one gen x p) = byIndexFile x.
Proof. unfold clear_one, filter_basename, clear_byRepo, clear_packages. by repeat case_match. Qed.
Lemma clear_one_next gen x p : next (clear_one gen x p) = next x.
Proof. unfold clear_one, filter_basename, clear_byRepo, clear_packages. by repeat case_match. Qed.

Lemma same_ptr_spec p q : same_ptr p q = true ↔ ptr p = ptr q.
Proof. apply Nat.eqb_eq. Qed.

Lemma clear_one_packages gen x p sha :
  packages (clear_one gen x p) !! sha =
  match packages x !! sha with
  | Some cur => if decide (SHA256 p = sha ∧ ptr cur = ptr p) then None else Some cur
  | None => None
  end.
Proof.
  transitivity (packages (clear_packages p x) !! sha).
  { unfold clear_one, filter_basename, clear_byRepo. by repeat case_match. }
  unfold clear_packages. destruct (decide (SHA256 p = sha)) as [<-|Hne].
  - destruct (packages x !! SHA256 p) as [cur|] eqn:Hcur; [|done].
    destruct (same_ptr cur p) eqn:Hs.
    + rewrite decide_True by (by apply same_ptr_spec in Hs). apply lookup_delete_eq.
    + rewrite decide_False; [done|]. intros [_ Hp%same_ptr_spec]. congruence.
  - assert (∀ m : gmap string PackageInfo, match m !! sha with
      | Some cur => if decide (SHA256 p = sha ∧ ptr cur = ptr p) then None else Some cur | None => None end = m !! sha) as ->.
    { intros m. destruct (m !! sha); [|done]. rewrite decide_False; naive_solver. }
    repeat case_match; try done. cbn [packages set_packages]. by rewrite lookup_delete_ne.
Qed.

Lemma clear_one_repo gen x p r f :
  GetByRepoAndPath r f (clear_one gen x p) =
  match GetByRepoAndPath r f x with
  | Some cur => if decide (Repo p = r ∧ Filename p = f ∧ ptr cur = ptr p) then None else Some cur
  | None => None
  end.
Proof.
  transitivity (GetByRepoAndPath r f (clear_byRepo p (clear_packages p x))).
  { unfold clear_one, filter_basename. by repeat case_match. }
  assert (byRepo (clear_packages p x) = byRepo x) as Hb by (unfold clear_packages; by repeat case_match).
  unfold clear_byRepo, GetByRepoAndPath. rewrite Hb.
  destruct (decide (Repo p = r)) as [<-|Hne].
  - destruct (byRepo x !! Repo p) as [m|] eqn:Hm; [|by rewrite Hb, Hm]. cbn [mbind option_bind].
    set (m' := match m !! Filename p with Some cur => _ | None => _ end).
    assert (m' !! f = match m !! f with
      | Some cur => if decide (Repo p = Repo p ∧ Filename p = f ∧ ptr cur = ptr p) then None else Some cur
      | None => None end) as <-.
    { subst m'. destruct (decide (Filename p = f)) as [<-|Hf].
      - destruct (m !! Filename p) as [cur|] eqn:Hcur; [|by rewrite Hcur].
        destruct (same_ptr cur p) eqn:Hs.
        + rewrite decide_True by (by apply same_ptr_spec in Hs). apply lookup_delete_eq.
        + rewrite decide_False; [done|]. intros (_ & _ & Hp%same_ptr_spec). congruence.
      - destruct (m !! f) eqn:Hmf; [rewrite decide_False by naive_solver|]; repeat case_match; try done;
          by rewrite lookup_delete_ne. }
    cbn [byRepo set_byRepo]. destruct (decide (m' = ∅)) as [->|_].
    + by rewrite lookup_delete_eq.
    + by rewrite lookup_insert_eq.
  - assert (∀ o : option PackageInfo, match o with
      | Some cur => if decide (Repo p = r ∧ Filename p = f ∧ ptr cur = ptr p) then None else Some cur | None => None end = o) as ->.
    { intros [?|]; [|done]. rewrite decide_False; naive_solver. }
    destruct (byRepo x !! Repo p); [|by rewrite Hb]. cbn [byRepo set_byRepo].
    case_decide; [by rewrite lookup_delete_ne|by rewrite lookup_insert_ne].
Qed.

Lemma filter_basename_list keep p x b :
  base_list (filter_basename keep p x) b =
  if decide (has_base b p) then List.filter keep (base_list x b) else base_list x b.
Proof.
  unfold base_list, filter_basename, has_base. destruct (String.eqb_spec (Filename p) "") as [He|Hne].
  { rewrite decide_False; naive_solver. }
  destruct (decide (filepath_Base (Filename p) = b)) as [<-|Hb].
  - rewrite decide_True by done. destruct (default [] (byBasename x !! _)) as [|q l] eqn:Hl; [by rewrite Hl|].
    destruct (List.filter keep (q :: l)) as [|q' l']; cbn [byBasename set_byBasename].
    + by rewrite lookup_delete_eq.
    + by rewrite lookup_insert_eq.
  - rewrite decide_False by naive_solver. repeat case_match; try done; cbn [byBasename set_byBasename].
    + by rewrite lookup_delete_ne.
    + by rewrite lookup_insert_ne.
Qed.

Lemma clear_one_base gen x p b :
  base_list (clear_one gen x p) b =
  if decide (has_base b p) then List.filter (λ q, negb (is_old gen q)) (base_list x b) else base_list x b.
Proof.
  unfold clear_one. rewrite filter_basename_list.
  replace (base_list (clear_byRepo p (clear_packages p x)) b) with (base_list x b); [done|].
  unfold base_list, clear_byRepo, clear_packages. by repeat case_match.
Qed.

Section clear_fold.
Variables (gen : list PackageInfo).

Lemma clear_fold_files l x : byIndexFile (foldl (clear_one gen) x l) = byIndexFile x.
Proof. revert x. induction l as [|p l IH]; intros x; [done|]. cbn. by rewrite IH, clear_one_files. Qed.
Lemma clear_fold_next l x : next (foldl (clear_one gen) x l) = next x.
Proof. revert x. induction l as [|p l IH]; intros x; [done|]. cbn. by rewrite IH, clear_one_next. Qed.

Lemma clear_fold_packages l x sha q :
  packages (foldl (clear_one gen) x l) !! sha = Some q ↔
  packages x !! sha = Some q ∧ ¬ ∃ p, p ∈ l ∧ SHA256 p = sha ∧ ptr p = ptr q.
Proof.
  revert x. induction l as [|p l IH]; intros x; cbn.
  { split; [|tauto]. intros. split; [done|]. by intros (? & ?%elem_of_nil & _). }
  rewrite IH, clear_one_packages. setoid_rewrite elem_of_cons. destruct (packages x !! sha) as [cur|]; [|naive_solver].
  destruct (decide _) as [[]|]; naive_solver.
Qed.

Lemma clear_fold_repo l x r f q :
  GetByRepoAndPath r f (foldl (clear_one gen) x l) = Some q ↔
  GetByRepoAndPath r f x = Some q ∧ ¬ ∃ p, p ∈ l ∧ Repo p = r ∧ Filename p = f ∧ ptr p = ptr q.
Proof.
  revert x. induction l as [|p l IH]; intros x; cbn [foldl].
  { split; [|tauto]. intros. split; [done|]. by intros (? & ?%elem_of_nil & _). }
  rewrite IH, clear_one_repo. setoid_rewrite elem_of_cons. destruct (GetByRepoAndPath r f x) as [cur|]; [|naive_solver].
  destruct (decide _) as [(? & ? & ?)|]; naive_solver.
Qed.

Lemma filter_filter_idem {A} (f : A → bool) l : List.filter f (List.filter f l) = List.filter f l.
Proof. induction l as [|a l IH]; [done|]. cbn. destruct (f a) eqn:Hf; cbn; [|done]. by rewrite Hf, IH. Qed.

Lemma clear_fold_base l x b :
  base_list (foldl (clear_one gen) x l) b =
  if decide (Exists (has_base b) l) then List.filter (λ q, negb (is_old gen q)) (base_list x b) else base_list x b.
Proof.
  revert x. induction l as [|p l IH]; intros x; cbn [foldl].
  { rewrite decide_False; [done|]. by intros ?%Exists_nil. }
  rewrite IH, clear_one_base.
  destruct (decide (has_base b p)) as [Hp|Hp], (decide (Exists (has_base b) l)) as [Hl|Hl];
    destruct (decide (Exists (has_base b) (p :: l))) as [Hpl|Hpl]; rewrite Exists_cons in Hpl;
    try tauto; [apply filter_filter_idem|done..].
Qed.
End clear_fold.

Lemma list_filter_std {A} (f : A → bool) l : List.filter f l = filter (λ a, f a = true) l.
Proof. induction l as [|a l IH]; [done|]. rewrite filter_cons, <- IH. cbn [List.filter]. by destruct (f a). Qed.

Lemma list_filter_none {A} (P : A → Prop) `{∀ a, Decision (P a)} (l : list A) : (∀ a, a ∈ l → ¬ P a) → filter P l = [].
Proof.
  induction l as [|a l IH]; intros Hl; [done|]. rewrite filter_cons, decide_False by (apply Hl; left).
  apply IH. intros b Hb. apply Hl. by right.
Qed.

Lemma list_filter_every {A} (P : A → Prop) `{∀ a, Decision (P a)} (l : list A) : (∀ a, a ∈ l → P a) → filter P l = l.
Proof.
  induction l as [|a l IH]; intros Hl; [done|]. rewrite filter_cons, decide_True by (apply Hl; left).
  f_equal. apply IH. intros b Hb. apply Hl. by right.
Qed.

Lemma is_old_spec gen q : is_old gen q = true ↔ ∃ p, p ∈ gen ∧ ptr q = ptr p.
Proof.
  unfold is_old. rewrite existsb_exists. setoid_rewrite <- list_elem_of_In. by setoid_rewrite same_ptr_spec.
Qed.

(** Clearing a file removes its generation from every map and nothing else. *)
Lemma wf_clear_fold G k gen x :
  wf G x → G !! k = Some gen → wf (delete k G) (foldl (clear_one gen) x gen).
Proof.
  intros [Hgen Hptr Hpk Hrp Hbn] Hk.
  assert (∀ p, listed (delete k G) p → listed G p) as Hsub.
  { intros p (k' & g & Hk' & Hp). apply lookup_delete_Some in Hk' as [_ Hk']. by exists k', g. }
  assert (∀ p, listed G p → ¬ is_old gen p → listed (delete k G) p) as Hkeep.
  { intros p (k' & g & Hk' & Hp) Hnot. destruct (decide (k = k')) as [<-|Hne].
    - simplify_eq. destruct Hnot. apply Is_true_true, is_old_spec. eauto.
    - exists k', g. by rewrite lookup_delete_ne. }
  split.
  - intros p Hp. rewrite clear_fold_next. auto.
  - intros k1 g1 k2 g2 p q [_ H1]%lookup_delete_Some [_ H2]%lookup_delete_Some. by eapply Hptr.
  - intros sha p [Hp Hnot]%clear_fold_packages. destruct (Hpk _ _ Hp) as [<- Hl]. split; [done|].
    apply Hkeep; [done|]. intros (q & Hq & Heq)%Is_true_true%is_old_spec. destruct Hl as (k' & g & Hk' & Hp').
    destruct (Hptr _ _ _ _ _ _ Hk' Hk Hp' Hq Heq) as [_ ->]. naive_solver.
  - intros r f p [Hp Hnot]%clear_fold_repo. destruct (Hrp _ _ _ Hp) as (<- & <- & Hf & Hl). split_and!; [done..|].
    apply Hkeep; [done|]. intros (q & Hq & Heq)%Is_true_true%is_old_spec. destruct Hl as (k' & g & Hk' & Hp').
    destruct (Hptr _ _ _ _ _ _ Hk' Hk Hp' Hq Heq) as [_ ->]. naive_solver.
  - intros b. rewrite clear_fold_base.
    assert (List.filter (λ q, negb (is_old gen q)) (base_list x b) ≡ₚ filter (has_base b) (entries (delete k G))) as Hf.
    { rewrite list_filter_std, Hbn, (entries_delete k gen G Hk), filter_app, filter_app.
      rewrite (list_filter_none _ (filter (has_base b) gen)), (list_filter_every _ (filter _ (entries _))); [done|..].
      - intros q [_ Hq]%list_elem_of_filter. apply negb_true_iff, not_true_is_false.
        intros (p & Hp & Heq)%is_old_spec. apply elem_of_entries in Hq as (k' & g & [Hne Hk']%lookup_delete_Some & Hq).
        by destruct (Hptr _ _ _ _ _ _ Hk' Hk Hq Hp Heq).
      - intros q [_ Hq]%list_elem_of_filter. rewrite negb_true_iff, not_false_iff_true. apply is_old_spec. eauto. }
    destruct (decide _) as [_|Hno]; [done|]. rewrite Hbn, (entries_delete k gen G Hk), filter_app.
    rewrite (list_filter_none _ gen); [done|]. intros q Hq Hb. apply Hno, Exists_exists. eauto.
Qed.

(** ** Parsing keeps the invariant *)

Lemma wf_same G x x' :
  wf G x → packages x' = packages x → (∀ r f, GetByRepoAndPath r f x' = GetByRepoAndPath r f x) →
  byBasename x' = byBasename x → (next x <= next x')%nat → wf G x'.
Proof.
  intros [Hgen Hptr Hpk Hrp Hbn] Hp Hr Hb Hn. split; try done.
  - intros p Hl. destruct (Hgen p Hl). split; [done|lia].
  - by rewrite Hp.
  - intros r f. rewrite Hr. apply Hrp.
  - unfold base_list. by rewrite Hb.
Qed.

Lemma wf_generations G G' x :
  (∀ k g p, p ∈ g → G !! k = Some g ↔ G' !! k = Some g) → entries G ≡ₚ entries G' → wf G x → wf G' x.
Proof.
  intros Hl Hent [Hgen Hptr Hpk Hrp Hbn].
  assert (∀ p, listed G p ↔ listed G' p) as Hli by (intros p; by rewrite <- !elem_of_entries, Hent).
  split.
  - intros p Hp. by apply Hgen, Hli.
  - intros k1 g1 k2 g2 p q H1 H2 Hp Hq. rewrite <- (Hl _ _ p) in H1 by done. rewrite <- (Hl _ _ q) in H2 by done.
    by apply (Hptr k1 g1 k2 g2).
  - intros sha p. rewrite <- Hli. apply Hpk.
  - intros r f p. rewrite <- Hli. apply Hrp.
  - intros b. by rewrite Hbn, Hent.
Qed.

(** A file without entries has no generation. *)
Lemma wf_insert_nil k F x : F !! k = None → wf (<[k := []]> F) x ↔ wf F x.
Proof.
  intros Hk.
  assert (∀ k' g p, p ∈ g → <[k := []]> F !! k' = Some g ↔ F !! k' = Some g) as Hl.
  { intros k' g p Hp. destruct (decide (k = k')) as [<-|Hne]; [|by rewrite lookup_insert_ne].
    rewrite lookup_insert_eq, Hk. split; [|done]. intros [= <-]. by apply elem_of_nil in Hp. }
  assert (entries (<[k := []]> F) ≡ₚ entries F) as Hent by (by rewrite entries_insert, delete_id).
  split; apply wf_generations; try done. intros k' g p Hp. symmetry. by eapply Hl.
Qed.

Section parsing.
Context `{GoUnicode}.

(** The generation [gen] of the file [k] is being built on top of [F]. *)
Definition building (k : string) (F : gmap string (list PackageInfo)) (x : Index) (gen : list PackageInfo) : Prop :=
  wf (<[k := gen]> F) x ∧ byIndexFile x = F ∧ F !! k = None.

(** [p] is not yet listed, or is what was inserted last. *)
Definition insertable k (F : gmap string (list PackageInfo)) gen (p : PackageInfo) : Prop :=
  ∀ k' g q, <[k := gen]> F !! k' = Some g → q ∈ g → ptr q = ptr p → k' = k ∧ q = p.

Definition unlisted k (F : gmap string (list PackageInfo)) gen (p : PackageInfo) : Prop :=
  ∀ q, listed (<[k := gen]> F) q → ptr q ≠ ptr p.

Lemma unlisted_insertable k F gen p : unlisted k F gen p → insertable k F gen p.
Proof. intros Hu k' g q Hk Hq Heq. destruct (Hu q); [|done]. by exists k', g. Qed.

Lemma building_insert k F x gen repo p :
  building k F x gen → SHA256 p ≠ "" → Repo p = repo → (ptr p < next x)%nat → insertable k F gen p →
  building k F (insert_entry repo p x) (gen ++ [p]) ∧ insertable k F (gen ++ [p]) p.
Proof.
  intros (Hwf & Hf & Hk) Hsha Hrepo Hlt Hins. pose proof (wf_insert_entry k gen F repo p x Hwf Hsha Hrepo Hlt Hins) as Hwf'.
  split; [split_and!; [done|by rewrite insert_entry_files|done]|].
  intros k' g q Hk' Hq Heq. by eapply (wf_ptr _ _ Hwf'); [exact Hk'|apply lookup_insert_eq|..|exact Heq]; [|set_solver].
Qed.

Lemma building_start k repo x :
  inv x → building k (delete k (byIndexFile x)) (ensureRepo repo (clearIndexFileLocked k x)) [].
Proof.
  intros [Hwf Hne].
  assert (wf (delete k (byIndexFile x)) (clearIndexFileLocked k x) ∧
          byIndexFile (clearIndexFileLocked k x) = delete k (byIndexFile x)) as [Hw Hb].
  { unfold clearIndexFileLocked. destruct (byIndexFile x !! k) as [gen|] eqn:Hk; cbn [from_option].
    - destruct gen as [|p gen]; [by destruct (Hne k [] Hk)|].
      cbv [id]. cbv zeta. cbn [byIndexFile set_byIndexFile]. rewrite clear_fold_files. split; [|done]. eapply wf_same; [by apply wf_clear_fold|done..].
    - by rewrite delete_id. }
  assert (wf (delete k (byIndexFile x)) (ensureRepo repo (clearIndexFileLocked k x))) as Hw'.
  { eapply wf_same; [exact Hw|..]; unfold ensureRepo, GetByRepoAndPath; try by case_match.
    intros r f. destruct (byRepo _ !! repo) eqn:Hr; [done|]. cbn [byRepo set_byRepo].
    destruct (decide (repo = r)) as [<-|]; [by rewrite lookup_insert_eq, Hr|by rewrite lookup_insert_ne]. }
  split_and!; [apply wf_insert_nil; [apply lookup_delete_eq|done]| |apply lookup_delete_eq].
  unfold ensureRepo. by case_match.
Qed.

(** What a finished parse leaves. *)
Lemma building_finish k x0 x gen ok :
  inv x0 → building k (delete k (byIndexFile x0)) x gen →
  inv (finish k x gen ok).1 ∧
  byIndexFile (finish k x gen ok).1 = match gen with [] => delete k (byIndexFile x0) | _ => <[k := gen]> (byIndexFile x0) end.
Proof.
  intros [_ Hne] (Hwf & Hf & Hk). unfold finish. destruct gen as [|p gen]; cbn [fst byIndexFile set_byIndexFile].
  - rewrite wf_insert_nil in Hwf by done. split; [|done]. unfold inv. rewrite Hf. split; [done|].
    intros k' g [_ Hg]%lookup_delete_Some. by eapply Hne.
  - rewrite Hf, insert_delete_eq. rewrite insert_delete_eq in Hwf. split; [|done].
    unfold inv. cbn [byIndexFile set_byIndexFile]. split.
    + by eapply wf_same; [exact Hwf|..].
    + intros k' g [[_ <-]|[_ Hg]]%lookup_insert_Some; [done|]. by eapply Hne.
Qed.

(** *** The Packages loop *)

Lemma set_Repo_fields repo p :
  ptr (set_Repo repo p) = ptr p ∧ SHA256 (set_Repo repo p) = SHA256 p ∧ Repo (set_Repo repo p) = repo.
Proof. by destruct p. Qed.

Lemma set_Repo_idem repo p : set_Repo repo (set_Repo repo p) = set_Repo repo p.
Proof. by destruct p. Qed.

Lemma set_field_ptr p f v : ptr (set_field p f v) = ptr p.
Proof. unfold set_field. destruct p. by repeat case_match. Qed.

Definition pending (P : PackageInfo → Prop) (o : option PackageInfo) : Prop :=
  match o with Some p => P p | None => True end.

Lemma flush_building k F repo st :
  building k F (p_idx st) (p_generation st) →
  pending (λ p, (ptr p < next (p_idx st))%nat ∧ insertable k F (p_generation st) (set_Repo repo p)) (p_pkg st) →
  let st' := flush_pkg repo st in
  building k F (p_idx st') (p_generation st') ∧
  pending (λ p, (ptr p < next (p_idx st'))%nat ∧ insertable k F (p_generation st') (set_Repo repo p)) (p_pkg st').
Proof.
  intros Hb Hp. unfold flush_pkg. destruct (p_pkg st) as [p|] eqn:Hpkg; cbn [pending] in *; [|by rewrite Hpkg].
  destruct Hp as [Hlt Hins]. destruct (String.eqb_spec (SHA256 p) "") as [He|Hne]; [by rewrite Hpkg|].
  cbn [p_idx p_generation p_pkg]. destruct (set_Repo_fields repo p) as (Hp1 & Hp2 & Hp3).
  destruct (building_insert k F _ _ repo (set_Repo repo p) Hb) as [Hb' Hi']; rewrite ?Hp1, ?Hp2; try done.
  split; [done|]. cbn [pending]. by rewrite insert_entry_next, Hp1, set_Repo_idem.
Qed.

Lemma parse_loop_building k F repo lines st :
  building k F (p_idx st) (p_generation st) →
  pending (λ p, (ptr p < next (p_idx st))%nat ∧ unlisted k F (p_generation st) p) (p_pkg st) →
  let st' := parse_loop repo lines st in
  building k F (p_idx st') (p_generation st') ∧
  pending (λ p, (ptr p < next (p_idx st'))%nat ∧ insertable k F (p_generation st') (set_Repo repo p)) (p_pkg st').
Proof.
  assert (∀ gen p, unlisted k F gen p → insertable k F gen (set_Repo repo p)) as Hui.
  { intros gen p Hu. apply unlisted_insertable. intros q Hq. destruct (set_Repo_fields repo p) as [-> _]. auto. }
  revert st. induction lines as [|line lines IH]; intros st Hb Hp.
  { split; [done|]. cbn [parse_loop]. destruct (p_pkg st) as [p|]; cbn in *; [|done]. naive_solver. }
  cbn [parse_loop]. destruct (String.eqb line "").
  - destruct (flush_building k F repo st Hb) as [Hb' Hp'].
    { destruct (p_pkg st) as [p|]; cbn in *; [|done]. naive_solver. }
    case_match; [done|]. by apply IH.
  - apply IH; unfold field_line; destruct (p_pkg st) as [p|] eqn:Hpkg; cbn [p_idx p_generation p_pkg pending] in *.
    + done.
    + destruct Hb as (Hwf & Hf & Hk). split_and!; [|done|done]. eapply wf_same; [exact Hwf|done..|cbn; lia].
    + destruct (split_field line) as [[f v]|]; [|done]. unfold unlisted. by rewrite set_field_ptr.
    + assert (∀ p, ptr p = next (p_idx st) → (ptr p < next (set_next (S (next (p_idx st))) (p_idx st)))%nat ∧
        unlisted k F (p_generation st) p) as Hnew.
      { intros p Heq. cbn [next set_next]. split; [lia|]. intros q Hq. destruct Hb as (Hwf & _ & _).
        destruct (wf_gen _ _ Hwf q Hq). lia. }
      destruct (split_field line) as [[f v]|]; apply Hnew; [by rewrite set_field_ptr|done].
Qed.

Lemma parseForRepo_building reader repo k x :
  inv x →
  let st := flush_pkg repo (parse_loop repo (scan maxTokenSize reader.1 reader.2).1
                              (mkP (ensureRepo repo (clearIndexFileLocked k x)) [] None 0)) in
  building k (delete k (byIndexFile x)) (p_idx st) (p_generation st).
Proof.
  intros Hinv. apply flush_building; apply parse_loop_building; try done; by apply building_start.
Qed.

(** *** The Sources loop *)

Lemma emit_files_building k F repo src dir files x gen count :
  building k F x gen →
  let '(x', gen', _, _) := emit_files repo src dir files x gen count in building k F x' gen'.
Proof.
  revert x gen count. induction files as [|fe files IH]; intros x gen count Hb; cbn [emit_files]; [done|].
  destruct (String.eqb_spec (fe_sha256 fe) "") as [|Hsha]; cbn [orb]; [by apply IH|].
  destruct (String.eqb (fe_name fe) ""); [by apply IH|].
  set (p := mkPkg _ _ _ _ _ _ _ _).
  assert (building k F (insert_entry repo p (set_next (S (next x)) x)) (gen ++ [p])) as Hb'.
  { destruct Hb as (Hwf & Hf & Hk). apply building_insert; try done.
    - split_and!; [|done|done]. eapply wf_same; [exact Hwf|done..|cbn; lia].
    - cbn. lia.
    - apply unlisted_insertable. intros q Hq. destruct (wf_gen _ _ Hwf q Hq). subst p. cbn. lia. }
  destruct (_ <=? _); [done|by apply IH].
Qed.

Lemma emit_building k F repo st :
  building k F (s_idx st) (s_generation st) →
  building k F (s_idx (emit repo st).1) (s_generation (emit repo st).1).
Proof.
  intros Hb. unfold emit. destruct (String.eqb _ ""); [done|].
  pose proof (emit_files_building k F repo (s_srcName st) (s_directory st) (s_files st) _ _ (s_count st) Hb) as He.
  by destruct (emit_files _ _ _ _ _ _ _) as [[[x gen] c] ok].
Qed.

Lemma source_line_idx line st :
  s_idx (source_line line st) = s_idx st ∧ s_generation (source_line line st) = s_generation st.
Proof. unfold source_line. destruct st. by repeat case_match. Qed.

Lemma sources_loop_building k F repo lines st :
  building k F (s_idx st) (s_generation st) →
  building k F (s_idx (sources_loop repo lines st).1) (s_generation (sources_loop repo lines st).1).
Proof.
  revert st. induction lines as [|line lines IH]; intros st Hb; cbn [sources_loop]; [done|].
  destruct (String.eqb line "").
  - pose proof (emit_building k F repo st Hb) as He. destruct (emit repo st) as [st' []]; [by apply IH|done].
  - apply IH. destruct (source_line_idx line st) as [-> ->]. done.
Qed.

Lemma parseForRepo_inv reader repo k x : inv x → inv (parseForRepo reader repo k x).1.
Proof.
  intros Hinv. pose proof (parseForRepo_building reader repo k x Hinv) as Hb. unfold parseForRepo.
  destruct (scan _ _ _) as [lines ok]. by eapply building_finish.
Qed.

Lemma parseSourcesForRepo_inv reader repo k x : inv x → inv (parseSourcesForRepo reader repo k x).1.
Proof.
  intros Hinv. unfold parseSourcesForRepo. destruct (scan _ _ _) as [lines ok].
  pose proof (sources_loop_building k _ repo lines (mkS _ [] 0 "" "" [] false) (building_start k repo x Hinv)) as Hb.
  destruct (sources_loop _ _ _) as [st tr]. eapply building_finish; [done|].
  destruct tr; [done|]. by apply emit_building.
Qed.

(** ** What a parse lists *)

(** An entry without its address. *)
Definition strip (p : PackageInfo) : PackageInfo :=
  let '(mkPkg _ pk v ar fn sz sha r) := p in mkPkg 0 pk v ar fn sz sha r.

Definition contents (x : Index) : gmap string (list PackageInfo) := map strip <$> byIndexFile x.

(** The abstract operation: the entries of one index file are replaced. *)
Definition replace_file (k : string) (es : list PackageInfo) (a : gmap string (list PackageInfo)) :=
  match es with [] => delete k a | _ => <[k := es]> a end.

(** The lines between blank lines. *)
Fixpoint stanzas (lines : list string) : list (list string) :=
  match lines with
  | [] => [[]]
  | line :: rest =>
      if String.eqb line "" then [] :: stanzas rest
      else match stanzas rest with [] => [[line]] | s :: ss => (line :: s) :: ss end
  end.

Definition blank : PackageInfo := mkPkg 0 "" "" "" "" 0 "" "".

Definition apply_line (p : PackageInfo) (line : string) : PackageInfo :=
  match split_field line with Some (f, v) => set_field p f v | None => p end.

Definition keep_entry (repo : string) (p : PackageInfo) : option PackageInfo :=
  if String.eqb (SHA256 p) "" then None else Some (set_Repo repo p).

(** A Packages file lists one entry per stanza that has a hash. *)
Definition packages_spec (repo : string) (lines : list string) : list PackageInfo :=
  omap (λ st, keep_entry repo (foldl apply_line blank st)) (stanzas lines).

Lemma stanzas_cons lines : ∃ s ss, stanzas lines = s :: ss.
Proof. destruct lines as [|l ls]; cbn; [eauto|]. repeat case_match; eauto. Qed.

(** The same with the first stanza continued from [p]. *)
Definition packages_from (repo : string) (p : PackageInfo) (lines : list string) : list PackageInfo :=
  match stanzas lines with
  | [] => []
  | s :: ss => option_list (keep_entry repo (foldl apply_line p s)) ++
               omap (λ st, keep_entry repo (foldl apply_line blank st)) ss
  end.

Lemma packages_from_blank repo lines : packages_from repo blank lines = packages_spec repo lines.
Proof.
  unfold packages_from, packages_spec. destruct (stanzas_cons lines) as (s & ss & ->). cbn.
  by destruct (keep_entry _ _).
Qed.

Lemma packages_from_blank_line repo p lines :
  packages_from repo p ("" :: lines) = option_list (keep_entry repo p) ++ packages_from repo blank lines.
Proof. rewrite packages_from_blank. reflexivity. Qed.

Lemma packages_from_line repo p line lines :
  line ≠ "" → packages_from repo p (line :: lines) = packages_from repo (apply_line p line) lines.
Proof.
  intros Hl. unfold packages_from. cbn [stanzas]. destruct (String.eqb_spec line "") as [|_]; [done|].
  by destruct (stanzas_cons lines) as (s & ss & ->).
Qed.

Lemma strip_set_field p f v : strip (set_field p f v) = set_field (strip p) f v.
Proof. destruct p. unfold set_field. cbn [strip]. by repeat case_match. Qed.

Lemma strip_keep repo p : strip <$> keep_entry repo p = keep_entry repo (strip p).
Proof. unfold keep_entry. destruct p. cbn. by case_match. Qed.

Definition cur_pkg (o : option PackageInfo) : PackageInfo := match o with Some p => strip p | None => blank end.

Lemma flush_generation repo st :
  map strip (p_generation (flush_pkg repo st)) =
    map strip (p_generation st) ++ option_list (keep_entry repo (cur_pkg (p_pkg st))) ∧
  p_count (flush_pkg repo st) = p_count st + Z.of_nat (length (option_list (keep_entry repo (cur_pkg (p_pkg st))))) ∧
  (flushes st = true → p_count (flush_pkg repo st) = p_count st + 1).
Proof.
  unfold flush_pkg, flushes, keep_entry. destruct (p_pkg st) as [p|]; cbn [cur_pkg].
  2: { cbn. by rewrite app_nil_r, Z.add_0_r. }
  replace (SHA256 (strip p)) with (SHA256 p) by by destruct p.
  destruct (String.eqb (SHA256 p) ""); cbn [negb p_generation p_count option_list length].
  - by rewrite app_nil_r, Z.add_0_r.
  - rewrite map_app. split_and!; [|done..]. by destruct p.
Qed.

(** Below the limit the loop lists what the specification lists. *)
Lemma parse_loop_generation repo lines st :
  p_count st + Z.of_nat (length (packages_from repo (cur_pkg (p_pkg st)) lines)) < maxPackagesPerRepo →
  map strip (p_generation (flush_pkg repo (parse_loop repo lines st))) =
  map strip (p_generation st) ++ packages_from repo (cur_pkg (p_pkg st)) lines.
Proof.
  revert st. induction lines as [|line lines IH]; intros st Hlim.
  { cbn [parse_loop]. destruct (flush_generation repo st) as [-> _]. unfold packages_from. cbn. by rewrite app_nil_r. }
  cbn [parse_loop]. destruct (String.eqb_spec line "") as [->|Hne].
  - rewrite packages_from_blank_line in *. destruct (flush_generation repo st) as (Hg & Hc & Hf).
    rewrite length_app, Nat2Z.inj_add in Hlim.
    destruct (flushes st && _) eqn:Hstop.
    + apply andb_prop in Hstop as [Hfl Hstop]. rewrite Hc in Hstop. lia.
    + rewrite IH; cbn [p_generation p_pkg p_count cur_pkg]; [|lia]. by rewrite Hg, app_assoc.
  - rewrite packages_from_line in * by done.
    assert (cur_pkg (p_pkg (field_line line st)) = apply_line (cur_pkg (p_pkg st)) line) as Hcur.
    { unfold field_line, apply_line. destruct (p_pkg st) as [p|]; cbn [p_pkg cur_pkg];
        destruct (split_field line) as [[f v]|]; rewrite ?strip_set_field; done. }
    assert (p_generation (field_line line st) = p_generation st ∧ p_count (field_line line st) = p_count st) as [Hg Hc].
    { unfold field_line. by destruct (p_pkg st). }
    rewrite IH; rewrite Hcur, ?Hg, ?Hc; done.
Qed.

Lemma parseForRepo_contents reader repo k x :
  inv x →
  let es := packages_spec repo (scan maxTokenSize reader.1 reader.2).1 in
  Z.of_nat (length es) < maxPackagesPerRepo →
  contents (parseForRepo reader repo k x).1 = replace_file k es (contents x).
Proof.
  intros Hinv es Hlim. pose proof (parseForRepo_building reader repo k x Hinv) as Hb. cbv zeta in Hb.
  pose proof (parse_loop_generation repo (scan maxTokenSize reader.1 reader.2).1
    (mkP (ensureRepo repo (clearIndexFileLocked k x)) [] None 0)) as Hg.
  cbn [p_pkg p_generation p_count cur_pkg] in Hg. rewrite packages_from_blank in Hg. specialize (Hg Hlim).
  unfold parseForRepo. destruct (scan _ _ _) as [lines ok]. cbn [fst] in *. fold es in Hg.
  destruct (building_finish k x _ _ ok Hinv Hb) as [_ Hfin]. unfold contents. rewrite Hfin.
  unfold replace_file. cbn [map app] in Hg. rewrite <- Hg. destruct (p_generation _) as [|p gen]; cbn [map app].
  - by rewrite fmap_delete.
  - by rewrite fmap_insert.
Qed.

(** *** Sources files *)

Definition blank_source : sstate := mkS New [] 0 "" "" [] false.

(** What a stanza has collected, apart from the index. *)
Definition collected (st : sstate) : sstate :=
  mkS New [] 0 (s_srcName st) (s_directory st) (s_files st) (s_inChecksums st).

Definition artifact (repo src dir : string) (fe : fileEntry) : option PackageInfo :=
  if String.eqb (fe_sha256 fe) "" || String.eqb (fe_name fe) "" then None
  else Some (mkPkg 0 src "" "" (dir +:+ "/" +:+ fe_name fe) (fe_size fe) (fe_sha256 fe) repo).

(** One entry per checksum line of a stanza that has a directory. *)
Definition artifacts (repo : string) (st : sstate) : list PackageInfo :=
  if String.eqb (s_directory st) "" then []
  else omap (artifact repo (s_srcName st) (s_directory st)) (s_files st).

Definition sources_spec (repo : string) (lines : list string) : list PackageInfo :=
  concat (map (λ s, artifacts repo (foldl (λ st line, source_line line st) blank_source s)) (stanzas lines)).

Definition sources_from (repo : string) (st : sstate) (lines : list string) : list PackageInfo :=
  match stanzas lines with
  | [] => []
  | s :: ss => artifacts repo (foldl (λ st line, source_line line st) (collected st) s) ++
      concat (map (λ s, artifacts repo (foldl (λ st line, source_line line st) blank_source s)) ss)
  end.

Lemma collected_line line st : collected (source_line line st) = source_line line (collected st).
Proof. unfold source_line. destruct st. cbn [collected s_srcName s_directory s_files s_inChecksums]. by repeat case_match. Qed.

Lemma sources_from_blank_line repo st lines :
  sources_from repo st ("" :: lines) = artifacts repo st ++ sources_spec repo lines.
Proof. reflexivity. Qed.

Lemma sources_from_line repo st line lines :
  line ≠ "" → sources_from repo st (line :: lines) = sources_from repo (source_line line st) lines.
Proof.
  intros Hl. unfold sources_from. cbn [stanzas]. destruct (String.eqb_spec line "") as [|_]; [done|].
  destruct (stanzas_cons lines) as (s & ss & ->). by rewrite collected_line.
Qed.

Lemma sources_from_reset repo x gen c lines : sources_from repo (mkS x gen c "" "" [] false) lines = sources_spec repo lines.
Proof. unfold sources_from, sources_spec. by destruct (stanzas_cons lines) as (s & ss & ->). Qed.

Lemma emit_files_generation repo src dir files x gen count :
  count + Z.of_nat (length (omap (artifact repo src dir) files)) < maxPackagesPerRepo →
  let '(_, gen', count', ok) := emit_files repo src dir files x gen count in
  map strip gen' = map strip gen ++ omap (artifact repo src dir) files ∧
  count' = count + Z.of_nat (length (omap (artifact repo src dir) files)) ∧ ok = true.
Proof.
  revert x gen count. induction files as [|fe files IH]; intros x gen count Hlim.
  { cbn. by rewrite app_nil_r, Z.add_0_r. }
  cbn [emit_files omap list_omap] in *. destruct (artifact repo src dir fe) as [a|] eqn:Ha; unfold artifact in Ha;
    destruct (_ || _); try done; [|by apply IH]. injection Ha as <-.
  cbn [length] in *.
  replace (_ <=? _) with false by (symmetry; blia).
  specialize (IH (insert_entry repo (mkPkg (next x) src "" "" (dir +:+ "/" +:+ fe_name fe) (fe_size fe) (fe_sha256 fe) repo)
    (set_next (S (next x)) x)) (gen ++ [mkPkg (next x) src "" "" (dir +:+ "/" +:+ fe_name fe) (fe_size fe) (fe_sha256 fe) repo])
    (count + 1) ltac:(lia)).
  destruct (emit_files _ _ _ _ _ _ _) as [[[x' gen'] count'] ok]. destruct IH as (-> & -> & ->).
  rewrite map_app, <- app_assoc. split_and!; [done|lia|done].
Qed.

Lemma emit_generation repo st :
  s_count st + Z.of_nat (length (artifacts repo st)) < maxPackagesPerRepo →
  map strip (s_generation (emit repo st).1) = map strip (s_generation st) ++ artifacts repo st ∧
  s_count (emit repo st).1 = s_count st + Z.of_nat (length (artifacts repo st)) ∧ (emit repo st).2 = true ∧
  ∃ x gen c, (emit repo st).1 = mkS x gen c "" "" [] false.
Proof.
  unfold emit, artifacts. destruct (String.eqb (s_directory st) ""); intros Hlim.
  { cbn. rewrite app_nil_r, Z.add_0_r. naive_solver. }
  pose proof (emit_files_generation repo (s_srcName st) (s_directory st) (s_files st) (s_idx st) (s_generation st)
    (s_count st) Hlim) as He.
  destruct (emit_files _ _ _ _ _ _ _) as [[[x' gen'] count'] ok]. cbn. naive_solver.
Qed.

Lemma sources_loop_generation repo lines st :
  s_count st + Z.of_nat (length (sources_from repo st lines)) < maxPackagesPerRepo →
  let r := sources_loop repo lines st in
  r.2 = false ∧ map strip (s_generation (emit repo r.1).1) = map strip (s_generation st) ++ sources_from repo st lines.
Proof.
  revert st. induction lines as [|line lines IH]; intros st Hlim.
  { unfold sources_from in *. cbn [stanzas foldl map concat sources_loop fst snd] in *. rewrite app_nil_r in *.
    destruct (emit_generation repo st) as (Hg & _); [|by split]. by destruct st. }
  cbn [sources_loop]. destruct (String.eqb_spec line "") as [->|Hne].
  - rewrite sources_from_blank_line in *. rewrite length_app, Nat2Z.inj_add in Hlim.
    destruct (emit_generation repo st) as (Hg & Hc & Hok & x & gen & c & Heq); [lia|].
    destruct (emit repo st) as [st' ok]. cbn [fst snd] in *. subst st' ok. cbn [s_generation s_count] in *.
    destruct (IH (mkS x gen c "" "" [] false)) as [H1 H2].
    { rewrite sources_from_reset. cbn [s_count]. lia. }
    split; [done|]. rewrite H2, sources_from_reset. cbn [s_generation]. by rewrite Hg, app_assoc.
  - rewrite sources_from_line in * by done. destruct (IH (source_line line st)) as [H1 H2].
    { replace (s_count (source_line line st)) with (s_count st); [done|]. unfold source_line. destruct st. by repeat case_match. }
    split; [done|]. rewrite H2. by destruct (source_line_idx line st) as [_ ->].
Qed.

Lemma parseSourcesForRepo_contents reader repo k x :
  inv x →
  let es := sources_spec repo (scan maxTokenSize reader.1 reader.2).1 in
  Z.of_nat (length es) < maxPackagesPerRepo →
  contents (parseSourcesForRepo reader repo k x).1 = replace_file k es (contents x).
Proof.
  intros Hinv es Hlim. unfold parseSourcesForRepo, es in *. destruct (scan _ _ _) as [lines ok]. cbn [fst] in *.
  set (st0 := mkS _ [] 0 "" "" [] false).
  pose proof (emit_building k _ repo _ (sources_loop_building k _ repo lines st0 (building_start k repo x Hinv))) as Hb.
  destruct (sources_loop_generation repo lines st0) as [Htr Hg].
  { subst st0. by rewrite sources_from_reset. }
  destruct (sources_loop _ _ _) as [st tr]. cbn [fst snd] in *. subst tr.
  destruct (building_finish k x _ _ ok Hinv Hb) as [_ Hfin]. unfold contents. rewrite Hfin.
  subst st0. rewrite sources_from_reset in Hg. cbn [map app s_generation] in Hg. unfold replace_file. rewrite <- Hg.
  destruct (s_generation _) as [|p gen]; cbn [map].
  - by rewrite fmap_delete.
  - by rewrite fmap_insert.
Qed.

(** *** At or above the limit

    Whatever its length, a parse records only entries of the text. *)

Definition within (es gen : list PackageInfo) : Prop := ∀ p, p ∈ gen → strip p ∈ es.

Lemma within_map es gen : within es gen ↔ map strip gen ⊆ es.
Proof.
  unfold within. split.
  - intros Hw q Hq. apply list_elem_of_fmap in Hq as (p & -> & Hp). auto.
  - intros Hs p Hp. apply Hs. by apply list_elem_of_fmap_2.
Qed.

Lemma parse_loop_within repo lines st :
  map strip (p_generation (flush_pkg repo (parse_loop repo lines st)))
    ⊆ map strip (p_generation st) ++ packages_from repo (cur_pkg (p_pkg st)) lines.
Proof.
  revert st. induction lines as [|line lines IH]; intros st.
  { cbn [parse_loop]. destruct (flush_generation repo st) as [-> _]. unfold packages_from. cbn. by rewrite app_nil_r. }
  cbn [parse_loop]. destruct (String.eqb_spec line "") as [->|Hne].
  - rewrite packages_from_blank_line. destruct (flush_generation repo st) as (Hg & _ & _).
    destruct (flushes st && _) eqn:Hstop.
    + destruct (flush_generation repo (flush_pkg repo st)) as (-> & _). rewrite Hg.
      assert (keep_entry repo (cur_pkg (p_pkg (flush_pkg repo st))) = keep_entry repo (cur_pkg (p_pkg st))) as ->; [|set_solver].
      unfold flush_pkg. destruct (p_pkg st) as [p|] eqn:Hp; [|by rewrite Hp].
      destruct (String.eqb _ ""); [by rewrite Hp|]. cbn [p_pkg cur_pkg]. by destruct p.
    + etrans; [apply IH|]. cbn [p_generation p_pkg cur_pkg]. by rewrite Hg, packages_from_blank, app_assoc.
  - rewrite packages_from_line by done.
    assert (cur_pkg (p_pkg (field_line line st)) = apply_line (cur_pkg (p_pkg st)) line) as Hcur.
    { unfold field_line, apply_line. destruct (p_pkg st) as [p|]; cbn [p_pkg cur_pkg];
        destruct (split_field line) as [[f v]|]; rewrite ?strip_set_field; done. }
    assert (p_generation (field_line line st) = p_generation st) as Hg.
    { unfold field_line. by destruct (p_pkg st). }
    etrans; [apply IH|]. by rewrite Hcur, Hg.
Qed.

Lemma emit_files_within repo src dir files x gen count :
  map strip (emit_files repo src dir files x gen count).1.1.2 ⊆ map strip gen ++ omap (artifact repo src dir) files.
Proof.
  revert x gen count. induction files as [|fe files IH]; intros x gen count; [cbn; by rewrite app_nil_r|].
  cbn [emit_files omap list_omap]. destruct (artifact repo src dir fe) as [a|] eqn:Ha; unfold artifact in Ha;
    destruct (_ || _); try done. injection Ha as <-.
  destruct (_ <=? _); cbn [fst snd].
  - rewrite map_app. cbn. set_solver.
  - etrans; [apply IH|]. rewrite map_app. cbn. set_solver.
Qed.

Lemma emit_within repo st :
  map strip (s_generation (emit repo st).1) ⊆ map strip (s_generation st) ++ artifacts repo st ∧
  ∃ x gen c, (emit repo st).1 = mkS x gen c "" "" [] false.
Proof.
  unfold emit, artifacts. destruct (String.eqb (s_directory st) ""); [cbn; rewrite app_nil_r; naive_solver|].
  pose proof (emit_files_within repo (s_srcName st) (s_directory st) (s_files st) (s_idx st) (s_generation st) (s_count st)).
  destruct (emit_files _ _ _ _ _ _ _) as [[[x' gen'] count'] ok]. cbn. naive_solver.
Qed.

Lemma sources_loop_within repo lines st :
  let r := sources_loop repo lines st in
  map strip (s_generation (if r.2 then r.1 else (emit repo r.1).1)) ⊆ map strip (s_generation st) ++ sources_from repo st lines.
Proof.
  revert st. induction lines as [|line lines IH]; intros st.
  { unfold sources_from. cbn [stanzas foldl map concat sources_loop fst snd]. rewrite app_nil_r. by destruct (emit_within repo st), st. }
  cbn [sources_loop]. destruct (String.eqb_spec line "") as [->|Hne].
  - rewrite sources_from_blank_line. destruct (emit_within repo st) as (Hg & x & gen & c & Heq).
    destruct (emit repo st) as [st' [|]]; cbn [fst snd] in *; subst st'; cbn [s_generation] in *; [|set_solver].
    etrans; [apply (IH (mkS x gen c "" "" [] false))|]. rewrite sources_from_reset. cbn [s_generation]. set_solver.
  - rewrite sources_from_line by done. etrans; [apply (IH (source_line line st))|]. by destruct (source_line_idx line st) as [_ ->].
Qed.

(** The files of the index after a parse: one replaced by entries of the text. *)
Definition reparsed (k : string) (es : list PackageInfo) (x x' : Index) : Prop :=
  inv x' ∧ (∀ k', k' ≠ k → byIndexFile x' !! k' = byIndexFile x !! k') ∧
  ∀ gen, byIndexFile x' !! k = Some gen → within es gen.

Lemma reparsed_finish k es x0 x gen ok :
  inv x0 → building k (delete k (byIndexFile x0)) x gen → map strip gen ⊆ es → reparsed k es x0 (finish k x gen ok).1.
Proof.
  intros Hinv Hb Hes. destruct (building_finish k x0 x gen ok Hinv Hb) as [Hi Hf].
  split; [done|]. rewrite Hf. destruct gen as [|p gen].
  - split; [by intros k' Hk; rewrite lookup_delete_ne|]. intros g. by rewrite lookup_delete_eq.
  - split; [by intros k' Hk; rewrite lookup_insert_ne|]. intros g. rewrite lookup_insert_eq. intros [= <-]. by apply within_map.
Qed.

Lemma parseForRepo_reparsed reader repo k x :
  inv x → reparsed k (packages_spec repo (scan maxTokenSize reader.1 reader.2).1) x (parseForRepo reader repo k x).1.
Proof.
  intros Hinv. pose proof (parseForRepo_building reader repo k x Hinv) as Hb. cbv zeta in Hb.
  pose proof (parse_loop_within repo (scan maxTokenSize reader.1 reader.2).1
    (mkP (ensureRepo repo (clearIndexFileLocked k x)) [] None 0)) as Hg.
  cbn [p_pkg p_generation cur_pkg map app] in Hg. rewrite packages_from_blank in Hg.
  unfold parseForRepo. destruct (scan _ _ _) as [lines ok]. cbn [fst] in *. by apply reparsed_finish.
Qed.

Lemma parseSourcesForRepo_reparsed reader repo k x :
  inv x → reparsed k (sources_spec repo (scan maxTokenSize reader.1 reader.2).1) x (parseSourcesForRepo reader repo k x).1.
Proof.
  intros Hinv. unfold parseSourcesForRepo. destruct (scan _ _ _) as [lines ok]. cbn [fst].
  set (st0 := mkS _ [] 0 "" "" [] false).
  pose proof (sources_loop_building k _ repo lines st0 (building_start k repo x Hinv)) as Hb.
  pose proof (sources_loop_within repo lines st0) as Hg. cbv zeta in Hg. subst st0. rewrite sources_from_reset in Hg.
  destruct (sources_loop _ _ _) as [st tr]. cbn [fst snd s_generation map app] in *.
  apply reparsed_finish; [done| |by destruct tr]. destruct tr; [done|]. by apply emit_building.
Qed.

(** ** The latest parse owns the repository's paths *)

Definition last_file (f : string) (gen : list PackageInfo) : option PackageInfo :=
  last (filter (λ p, Filename p ≠ "" ∧ Filename p = f) gen).

Definition owns (repo : string) (x : Index) (gen : list PackageInfo) : Prop :=
  ∀ f p, last_file f gen = Some p → GetByRepoAndPath repo f x = Some p.

Lemma owns_insert repo x gen p : owns repo x gen → owns repo (insert_entry repo p x) (gen ++ [p]).
Proof.
  intros Ho f q. unfold last_file. rewrite insert_entry_repo, filter_app, filter_cons, filter_nil.
  destruct (decide (Filename p ≠ "" ∧ Filename p = f)) as [[]|Hn].
  - rewrite last_app. cbn. intros [= <-]. by rewrite decide_True.
  - rewrite app_nil_r, decide_False by tauto. apply Ho.
Qed.

Lemma flush_owns repo st : owns repo (p_idx st) (p_generation st) →
  owns repo (p_idx (flush_pkg repo st)) (p_generation (flush_pkg repo st)).
Proof.
  intros Ho. unfold flush_pkg. destruct (p_pkg st); [|done]. case_match; [done|]. by apply owns_insert.
Qed.

Lemma parse_loop_owns repo lines st : owns repo (p_idx st) (p_generation st) →
  owns repo (p_idx (parse_loop repo lines st)) (p_generation (parse_loop repo lines st)).
Proof.
  revert st. induction lines as [|line lines IH]; intros st Ho; [done|]. cbn [parse_loop].
  destruct (String.eqb line "").
  - apply flush_owns in Ho. case_match; [done|]. by apply IH.
  - apply IH. unfold field_line. by destruct (p_pkg st).
Qed.

Lemma last_map {A B} (f : A → B) l : last (map f l) = f <$> last l.
Proof. induction l as [|a [|b l] IH]; done. Qed.

Lemma last_file_strip f gen : last_file f (map strip gen) = strip <$> last_file f gen.
Proof.
  unfold last_file. rewrite <- last_map. f_equal. induction gen as [|p gen IH]; [done|]. cbn [map].
  rewrite !filter_cons, IH. replace (Filename (strip p)) with (Filename p) by by destruct p. by case_decide.
Qed.

Lemma parseForRepo_owns reader repo k x f e :
  let es := packages_spec repo (scan maxTokenSize reader.1 reader.2).1 in
  Z.of_nat (length es) < maxPackagesPerRepo → last_file f es = Some e →
  ∃ p, GetByRepoAndPath repo f (parseForRepo reader repo k x).1 = Some p ∧ strip p = e.
Proof.
  cbv zeta. intros Hlim Hlast. unfold parseForRepo. destruct (scan _ _ _) as [lines ok]. cbn [fst] in *.
  set (st0 := mkP _ [] None 0).
  assert (owns repo (p_idx st0) (p_generation st0)) as Ho by done.
  apply (parse_loop_owns repo lines), flush_owns in Ho.
  pose proof (parse_loop_generation repo lines st0) as Hg. subst st0. cbn [p_pkg p_generation p_count cur_pkg] in Hg.
  rewrite packages_from_blank in Hg. specialize (Hg Hlim). cbn [map app] in Hg. rewrite <- Hg, last_file_strip in Hlast.
  apply fmap_Some in Hlast as (p & Hp & ->). exists p. split; [|done]. apply Ho in Hp.
  unfold finish. by destruct (p_generation _).
Qed.

(** ** Loading and looking up *)

Context `{Decompressors} `{GoRange}.

Inductive step : Index → Index → Prop :=
| step_data data url x : step x (LoadFromData data url x).1
| step_sources_data data url x : step x (LoadSourcesFromData data url x).1
| step_file open path x : step x (LoadFromFile open path x).1
| step_file_repo open path repo x : step x (LoadFromFileWithRepo open path repo x).1
| step_sources_file open path repo x : step x (LoadSourcesFromFileWithRepo open path repo x).1
| step_url get url x : step x (LoadFromURL get url x).1
| step_clear x : step x (Clear x).

Lemma inv_empty n : inv (mkIndex ∅ ∅ ∅ ∅ n).
Proof.
  split; [split|]; cbn.
  - intros p (k & g & Hk & _). by rewrite lookup_empty in Hk.
  - intros k1 g1 k2 g2 p q Hk. by rewrite lookup_empty in Hk.
  - intros sha p Hp. by rewrite lookup_empty in Hp.
  - intros r f p. unfold GetByRepoAndPath. cbn. by rewrite lookup_empty.
  - done.
  - intros k g Hk. by rewrite lookup_empty in Hk.
Qed.

Lemma with_reader_inv r parse x :
  (∀ r x, inv x → inv (parse r x).1) → inv x → inv (with_reader r parse x).1.
Proof. intros Hp Hx. destruct r; [by apply Hp|done]. Qed.

Lemma load_step_inv x x' : step x x' → inv x → inv x'.
Proof.
  intros [] Hinv; try (apply with_reader_inv; [|done]; intros; by first [apply parseForRepo_inv|apply parseSourcesForRepo_inv]).
  - unfold LoadFromURL. repeat case_match; try done. apply with_reader_inv; [|done]. intros. by apply parseForRepo_inv.
  - apply inv_empty.
Qed.

Definition reachable (x : Index) : Prop := rtc step New x.

Lemma reachable_inv x : reachable x → inv x.
Proof.
  intros Hx. unfold reachable in Hx. pattern x. eapply rtc_ind_r; [apply inv_empty| |exact Hx].
  intros y z _ Hyz Hy. by eapply load_step_inv.
Qed.

Lemma first_match_Some {A B} (f : A → option B) l b : first_match f l = Some b → ∃ a, a ∈ l ∧ f a = Some b.
Proof. intros Hh%head_Some_elem_of. by apply list_elem_of_omap in Hh. Qed.

Lemma base_list_elem x b p : inv x → p ∈ base_list x b ↔ listed (byIndexFile x) p ∧ has_base b p.
Proof.
  intros [Hwf _]. rewrite (wf_byBasename _ _ Hwf), list_elem_of_filter, elem_of_entries. tauto.
Qed.

Lemma head_None_nil {A} (l : list A) : head l = None → l = [].
Proof. by destruct l. Qed.

Lemma GetByPath_sound path x p : inv x → GetByPath path x = Some p →
  listed (byIndexFile x) p ∧ has_base (filepath_Base path) p.
Proof.
  intros Hinv. unfold GetByPath. destruct (first_match _ _) as [q|] eqn:Hf.
  - intros [= ->]. apply first_match_Some in Hf as ([r m] & Hr & Hp). rewrite go_range_perm in Hr.
    apply elem_of_map_to_list in Hr. cbn in Hp.
    destruct (wf_byRepo _ _ (proj1 Hinv) r path p) as (_ & <- & Hne & Hl); [|done].
    unfold GetByRepoAndPath. by rewrite Hr.
  - intros Hh%head_Some_elem_of. by apply (base_list_elem x _ p Hinv).
Qed.

Lemma GetByPath_complete path x p : inv x → listed (byIndexFile x) p → Filename p = path → path ≠ "" →
  is_Some (GetByPath path x).
Proof.
  intros Hinv Hl Hf Hne. unfold GetByPath. destruct (first_match _ _); [by eexists|].
  destruct (head _) eqn:Hh; [by eexists|]. apply head_None_nil in Hh.
  assert (p ∈ base_list x (filepath_Base path)) as Hp.
  { apply base_list_elem; [done|]. split; [done|]. split; by rewrite Hf. }
  unfold base_list in Hp. rewrite Hh in Hp. by apply elem_of_nil in Hp.
Qed.

Lemma GetByURLPath_path url x : ExtractRepoFromURL url ≠ "" → ExtractPathFromURL url ≠ "" →
  GetByURLPath url x = match GetByRepoAndPath (ExtractRepoFromURL url) (ExtractPathFromURL url) x with
                       | Some pkg => Some pkg | None => GetByPath (ExtractPathFromURL url) x end.
Proof.
  intros Hr Hp. unfold GetByURLPath.
  destruct (String.eqb_spec (ExtractRepoFromURL url) "") as [|_]; [done|].
  by destruct (String.eqb_spec (ExtractPathFromURL url) "").
Qed.

(** *** Percent-encoded URLs *)

(** [e] is a percent-encoding of [s]: any bytes may be escaped, in either case. *)
Inductive pct : string → string → Prop :=
| pct_nil : pct "" ""
| pct_literal a e s : a ≠ "%"%char → pct e s → pct (String a e) (String a s)
| pct_escape h l vh vl e s : unhex h = Some vh → unhex l = Some vl → pct e s →
    pct (String "%" (String h (String l e))) (String (byte_of (vh * 16 + vl)) s).

Lemma pct_unescape e s : pct e s → PathUnescape e = Some s.
Proof.
  unfold PathUnescape. induction 1 as [|a e s Ha _ IH|h l vh vl e s Hh Hl _ IH]; cbn [unescape]; [done|..].
  - rewrite (proj2 (Ascii.eqb_neq a "%")) by done. by rewrite IH.
  - rewrite Ascii.eqb_refl, Hh, Hl, IH. done.
Qed.

Lemma HasPrefix_app_long s t m : (String.length m <= String.length s)%nat → HasPrefix (s +:+ t) m = HasPrefix s m.
Proof.
  unfold HasPrefix. revert s. induction m as [|c m IH]; intros [|a s]; cbn [String.length]; intros Hlen; try lia.
  - by destruct t.
  - done.
  - cbn [String.append String.prefix]. destruct (ascii_dec c a); [apply IH; lia|done].
Qed.

Lemma HasPrefix_length s m : HasPrefix s m = true → (String.length m <= String.length s)%nat.
Proof.
  unfold HasPrefix. revert s. induction m as [|c m IH]; intros [|a s]; cbn [String.length String.prefix]; try done; try lia.
  destruct (ascii_dec c a); [|done]. intros ?%IH. lia.
Qed.

Lemma Index_fits s m i : GoStd.Index s m = Some i → (i + String.length m <= String.length s)%nat.
Proof.
  revert i. induction s as [|a s IH]; intros i; cbn [GoStd.Index].
  - destruct (HasPrefix "" m) eqn:Hp; [|done]. intros [= <-]. by apply HasPrefix_length in Hp.
  - destruct (HasPrefix _ m) eqn:Hp; [intros [= <-]; by apply HasPrefix_length in Hp|].
    intros (j & Hj & ->)%fmap_Some. apply IH in Hj. cbn. lia.
Qed.

(** The first occurrence does not depend on what follows it. *)
Lemma Index_app s t m i : GoStd.Index s m = Some i → GoStd.Index (s +:+ t) m = Some i.
Proof.
  revert i. induction s as [|a s IH]; intros i Hi.
  - pose proof (Index_fits _ _ _ Hi) as Hlen. destruct m; [|cbn in Hlen; lia].
    cbn in Hi. injection Hi as <-. by destruct t.
  - pose proof (Index_fits _ _ _ Hi) as Hlen. cbn [GoStd.Index String.append] in *.
    rewrite <- (HasPrefix_app_long (String a s) t m) in Hi by lia. cbn [String.append] in Hi.
    destruct (HasPrefix _ m); [done|]. apply fmap_Some in Hi as (j & Hj & ->). by rewrite (IH _ Hj).
Qed.

Lemma Index_skip a s m i : GoStd.Index (a +:+ s) m = Some (String.length a + i)%nat → GoStd.Index s m = Some i.
Proof.
  induction a as [|c a IH]; [done|]. cbn [String.append GoStd.Index String.length].
  destruct (HasPrefix _ m); [done|]. intros (j & Hj & [= Heq])%fmap_Some. rewrite <- Heq in Hj. auto.
Qed.

Definition is_scheme (scheme : string) : Prop := scheme = "http://" ∨ scheme = "https://".

(** The repository and path of a package URL, when the repository's own path
    holds neither marker. *)
Lemma pool_url scheme repo rest f :
  is_scheme scheme →
  GoStd.Index (scheme +:+ repo +:+ "/pool/") "/pool/" = Some (String.length (scheme +:+ repo)) →
  GoStd.Index (repo +:+ "/pool/" +:+ rest) "/dists/" = None →
  pct rest f →
  ExtractRepoFromURL (scheme +:+ repo +:+ "/pool/" +:+ rest) = repo ∧
  ExtractPathFromURL (scheme +:+ repo +:+ "/pool/" +:+ rest) = "pool/" +:+ f.
Proof.
  intros Hs Hpool Hdists Hpct. rewrite str_length_app in Hpool. split.
  - unfold ExtractRepoFromURL.
    assert (∀ t, (if HasPrefix (scheme +:+ t) "https://" then str_drop 8 (scheme +:+ t)
      else if HasPrefix (scheme +:+ t) "http://" then str_drop 7 (scheme +:+ t) else scheme +:+ t) = t) as ->.
    { intros [|c t]; by destruct Hs as [-> | ->]. }
    cbn [first_marker]. rewrite Hdists. apply Index_skip, (Index_app _ rest) in Hpool.
    rewrite str_app_assoc in Hpool. rewrite Hpool. apply str_take_app.
  - unfold ExtractPathFromURL. cbn [first_marker]. apply (Index_app _ rest) in Hpool.
    rewrite !str_app_assoc in Hpool. rewrite Hpool.
    replace (str_drop _ _) with ("pool/" +:+ rest).
    { assert (pct ("pool/" +:+ rest) ("pool/" +:+ f)) as Hp by (repeat (apply pct_literal; [done|]); exact Hpct).
      by rewrite (pct_unescape _ _ Hp). }
    set (before := (scheme +:+ repo) +:+ "/").
    replace (scheme +:+ repo +:+ "/pool/" +:+ rest) with (before +:+ ("pool/" +:+ rest))
      by (subst before; by rewrite !str_app_assoc).
    replace (String.length scheme + String.length repo + 1)%nat with (String.length before)
      by (subst before; rewrite !str_length_app; done).
    by rewrite str_drop_app.
Qed.

(** *** Printed Packages files *)

(** Visible ASCII, as package names, versions, paths and digests are. *)
Definition visible (v : string) : Prop :=
  str_forallb visible_char v = true ∧ Z.of_nat (String.length v) < 1000000.

Definition print_field (label value : string) : string := label +:+ ":" +:+ " " +:+ value.

Definition print_stanza (e : PackageInfo) : list string :=
  [print_field "Package" (Package e); print_field "Version" (Version e);
   print_field "Architecture" (Architecture e); print_field "Filename" (Filename e);
   print_field "Size" (Itoa (Size e)); print_field "SHA256" (SHA256 e); ""].

(** The text of a Packages file that lists the entries. *)
Definition print_packages (es : list PackageInfo) : string := unlines (concat (map print_stanza es)).

Definition printable (repo : string) (e : PackageInfo) : Prop :=
  ptr e = 0%nat ∧ Repo e = repo ∧ SHA256 e ≠ "" ∧ 0 <= Size e < 2 ^ 63 ∧
  visible (Package e) ∧ visible (Version e) ∧ visible (Architecture e) ∧ visible (Filename e) ∧ visible (SHA256 e).

Lemma Index_byte label rest : str_no ":" label = true →
  GoStd.Index (label +:+ String ":" rest) ":" = Some (String.length label).
Proof.
  induction label as [|a l IH]; intros Hno.
  - cbn [String.append GoStd.Index]. unfold HasPrefix. cbn. by destruct rest.
  - unfold str_no in Hno. cbn [str_forallb] in Hno. apply andb_prop in Hno as [Ha Hl].
    cbn [String.append GoStd.Index String.length]. rewrite IH by done.
    unfold HasPrefix. cbn [String.prefix]. destruct (ascii_dec ":" a) as [<-|]; [|done].
    by rewrite Ascii.eqb_refl in Ha.
Qed.

Lemma visible_TrimSpace v : visible v → TrimSpace (" " +:+ v) = v.
Proof.
  intros Hv. unfold TrimSpace. replace (isASCII (" " +:+ v)) with true.
  - cbn [String.append trim_left]. change (ascii_space " ") with true. cbv iota.
    by destruct (trim_visible v (proj1 Hv)) as [-> ->].
  - symmetry. unfold isASCII. cbn [String.append str_forallb]. change (code " " <? 128) with true.
    apply isASCII_visible, Hv.
Qed.

Lemma print_field_split label v :
  str_no ":" label = true → visible v → split_field (print_field label v) = Some (label, v).
Proof.
  intros Hl Hv. unfold split_field, print_field. cbn [String.append]. rewrite Index_byte by done.
  rewrite str_take_app. f_equal. f_equal.
  replace (label +:+ String ":" (String " " v)) with ((label +:+ ":") +:+ (" " +:+ v)) by (by rewrite str_app_assoc).
  replace (String.length label + 1)%nat with (String.length (label +:+ ":")) by (rewrite str_length_app; done).
  rewrite str_drop_app. by apply visible_TrimSpace.
Qed.

Lemma visible_no c v : visible v → code c < 33 → str_no c v = true.
Proof.
  intros [Hv _] Hc. eapply str_forallb_impl; [|exact Hv]. intros a Ha. apply negb_true_iff, Ascii.eqb_neq.
  intros ->. unfold visible_char in Ha. blia.
Qed.

Definition plain_label (label : string) : Prop :=
  str_no ":" label = true ∧ str_no LF label = true ∧ str_no CR label = true ∧ (String.length label < 100)%nat.

Lemma print_field_scannable label v : plain_label label → visible v → scannable maxTokenSize (print_field label v).
Proof.
  intros (Hc & Hn & Hr & Hlen) Hv. unfold print_field.
  assert (∀ c, str_no c label = true → code c < 32 → str_no c (label +:+ ":" +:+ " " +:+ v) = true) as Hno.
  { intros c Hl Hcc. unfold str_no in *. rewrite !str_forallb_app, Hl.
    change (str_forallb _ v) with (str_no c v). rewrite visible_no by (done || lia). cbn [str_forallb andb].
    rewrite !andb_true_r. apply andb_true_intro; split; apply negb_true_iff, Ascii.eqb_neq; intros <-; vm_compute in Hcc; done. }
  split_and!.
  - apply Hno; [done|by vm_compute].
  - apply dropCR_no, Hno; [done|by vm_compute].
  - rewrite !str_length_app. destruct Hv as [_ Hv]. unfold maxTokenSize. cbn [String.length]. lia.
Qed.

Lemma visible_Itoa n : 0 <= n < 2 ^ 63 → visible (Itoa n).
Proof.
  intros Hn. unfold Itoa. replace (n <? 0) with false by (symmetry; blia). split.
  - eapply str_forallb_impl; [|by apply (itoa_go_digits 20 n "")]. intros a. cbv beta. unfold visible_char. intros. blia.
  - assert (∀ fuel m acc, (String.length (itoa_go fuel m acc) <= fuel + String.length acc)%nat) as Hlen.
    { induction fuel as [|fuel IH]; intros m acc; cbn [itoa_go]; [lia|]. case_match; [cbn [String.length]; lia|].
      etransitivity; [apply IH|]. cbn [String.length]. lia. }
    specialize (Hlen 20%nat n ""). cbn [String.length] in Hlen. lia.
Qed.

Ltac plain_label := repeat split; vm_compute; (reflexivity || lia).

Lemma print_stanza_scannable repo e : printable repo e → Forall (scannable maxTokenSize) (print_stanza e).
Proof.
  intros (_ & _ & _ & Hsz & ? & ? & ? & ? & ?). unfold print_stanza.
  repeat first [apply Forall_nil_2|apply Forall_cons_2]; try (apply print_field_scannable; [plain_label|done]).
  - apply print_field_scannable; [plain_label|by apply visible_Itoa].
  - repeat split.
Qed.

Lemma set_fields pk v ar fn sz sha n : ParseInt sz = (n, true) →
  set_field (set_field (set_field (set_field (set_field (set_field blank "Package" pk) "Version" v) "Architecture" ar)
    "Filename" fn) "Size" sz) "SHA256" sha = mkPkg 0 pk v ar fn n sha "".
Proof. intros Hn. unfold set_field, blank. cbn. by rewrite Hn. Qed.

Lemma print_stanza_entry repo e rest :
  printable repo e → packages_spec repo (print_stanza e ++ rest) = e :: packages_spec repo rest.
Proof.
  intros (Hptr & Hrepo & Hsha & Hsz & Hv1 & Hv2 & Hv3 & Hv4 & Hv5).
  rewrite <- packages_from_blank. unfold print_stanza. cbn [app].
  rewrite !packages_from_line by done. rewrite packages_from_blank_line, packages_from_blank.
  assert (∀ p label v, plain_label label → visible v → apply_line p (print_field label v) = set_field p label v) as Happ.
  { intros p label v (Hc & _) Hv. unfold apply_line. by rewrite print_field_split. }
  rewrite !Happ by (first [assumption|apply visible_Itoa; assumption|plain_label]).
  rewrite (set_fields _ _ _ _ _ _ _ (ParseInt_Itoa _ Hsz)).
  unfold keep_entry. cbn [SHA256]. rewrite (proj2 (String.eqb_neq _ _) Hsha). cbn [option_list app set_Repo].
  f_equal. destruct e. cbn in *. by subst.
Qed.

Lemma print_packages_entries repo es :
  Forall (printable repo) es → packages_spec repo (concat (map print_stanza es)) = es.
Proof.
  induction 1 as [|e es He Hes IH]; [done|]. cbn [map concat]. by rewrite print_stanza_entry, IH.
Qed.

Lemma print_packages_scan repo es :
  Forall (printable repo) es → scan maxTokenSize (print_packages es) true = (concat (map print_stanza es), true).
Proof.
  intros Hes. apply scan_unlines. induction Hes; [constructor|]. cbn [map concat].
  apply Forall_app. split; [by eapply print_stanza_scannable|done].
Qed.

Lemma basename_listed x b p : inv x → p ∈ default [] (byBasename x !! b) → listed (byIndexFile x) p.
Proof.
  intros Hinv Hp. change (p ∈ base_list x b) in Hp. rewrite (wf_byBasename _ _ (proj1 Hinv) b) in Hp.
  apply list_elem_of_filter in Hp as [_ Hp]. by apply elem_of_entries.
Qed.

(** Whatever the URL, an entry found for it is one of a loaded index file. *)
Lemma GetByURLPath_listed x url p : inv x → GetByURLPath url x = Some p → listed (byIndexFile x) p.
Proof.
  intros Hinv. unfold GetByURLPath. destruct (String.eqb _ ""); [done|]. destruct (String.eqb _ "").
  - destruct (String.eqb _ ""); [done|]. unfold GetByBasename. intros Hp. eapply basename_listed; [done|].
    destruct (String.eqb _ ""); [|destruct (List.find _ _) as [q|] eqn:Hf].
    + by apply head_Some_elem_of in Hp.
    + injection Hp as ->. apply find_some in Hf as [Hf _]. by apply list_elem_of_In.
    + by apply head_Some_elem_of in Hp.
  - destruct (GetByRepoAndPath _ _ x) as [q|] eqn:Hq; [|intros Hp; by apply GetByPath_sound in Hp as [? _]].
    intros [= ->]. by destruct (wf_byRepo _ _ (proj1 Hinv) _ _ _ Hq) as (_ & _ & _ & Hl).
Qed.

(** ** Main theorems *)

(** C8: loading an index file refines the replacement of one file's entries: a
    file whose decompressor cannot be set up changes nothing and fails; otherwise
    the invariant is kept and, below the package limit, the entries recorded for
    the file's key are exactly those of the stanzas of its text (for a Packages
    file one per stanza with a hash, for a Sources file one per checksum line of
    a stanza with a directory), whatever was recorded for it before, and the
    entries of every other file stay. *)
Theorem load_refines x data url :
  inv x →
  match decompressByMagic data with
  | None => LoadFromData data url x = (x, false) ∧ LoadSourcesFromData data url x = (x, false)
  | Some r =>
      let repo := ExtractRepoFromURL url in
      let lines := (scan maxTokenSize r.1 r.2).1 in
      inv (LoadFromData data url x).1 ∧ inv (LoadSourcesFromData data url x).1 ∧
      (Z.of_nat (length (packages_spec repo lines)) < maxPackagesPerRepo →
       contents (LoadFromData data url x).1 =
       replace_file (indexFileKey url) (packages_spec repo lines) (contents x)) ∧
      (Z.of_nat (length (sources_spec repo lines)) < maxPackagesPerRepo →
       contents (LoadSourcesFromData data url x).1 =
       replace_file (indexFileKey url) (sources_spec repo lines) (contents x))
  end.
Proof.
  intros Hinv. unfold LoadFromData, LoadSourcesFromData. destruct (decompressByMagic data) as [r|]; [|done].
  cbn [with_reader]. split_and!.
  - by apply parseForRepo_inv.
  - by apply parseSourcesForRepo_inv.
  - by apply parseForRepo_contents.
  - by apply parseSourcesForRepo_contents.
Qed.

(** C9: in every state reached by loads and clears, a lookup by hash returns only
    an entry with that hash that a loaded index file lists; a lookup by URL returns
    only a listed entry with the URL's file name, and finds one whenever some
    loaded file lists the URL's path; and the basename index holds each listed entry
    exactly as often as it is listed, so that re-parsing accumulates nothing. *)
Theorem index_lookups x :
  reachable x →
  (∀ sha p, GetBySHA256 sha x = Some p → SHA256 p = sha ∧ listed (byIndexFile x) p) ∧
  (∀ b, base_list x b ≡ₚ filter (has_base b) (entries (byIndexFile x))) ∧
  (∀ url, ExtractRepoFromURL url ≠ "" → ExtractPathFromURL url ≠ "" →
     let path := ExtractPathFromURL url in
     (∀ p, GetByURLPath url x = Some p → listed (byIndexFile x) p ∧ has_base (filepath_Base path) p) ∧
     ((∃ p, listed (byIndexFile x) p ∧ Filename p = path) → is_Some (GetByURLPath url x))).
Proof.
  intros Hinv%reachable_inv. split_and!.
  - apply (wf_packages _ _ (proj1 Hinv)).
  - apply (wf_byBasename _ _ (proj1 Hinv)).
  - intros url Hr Hp. cbv zeta. rewrite GetByURLPath_path by done. split.
    + intros p. destruct (GetByRepoAndPath _ _ x) as [q|] eqn:Hq; [|by apply GetByPath_sound].
      intros [= ->]. destruct (wf_byRepo _ _ (proj1 Hinv) _ _ _ Hq) as (_ & <- & Hne & Hl). done.
    + intros (p & Hl & Hf). destruct (GetByRepoAndPath _ _ x); [by eexists|]. by eapply GetByPath_complete.
Qed.

(** Once a Packages file of a repository is loaded, the URL of a file it lists,
    with any of its bytes percent-encoded, looks up that file's entry (the last
    one in the text that has this file name). *)
Theorem url_finds_entry x data iurl r scheme repo rest f e :
  decompressByMagic data = Some r → ExtractRepoFromURL iurl = repo → repo ≠ "" →
  let es := packages_spec repo (scan maxTokenSize r.1 r.2).1 in
  Z.of_nat (length es) < maxPackagesPerRepo → last_file ("pool/" +:+ f) es = Some e →
  is_scheme scheme →
  GoStd.Index (scheme +:+ repo +:+ "/pool/") "/pool/" = Some (String.length (scheme +:+ repo)) →
  GoStd.Index (repo +:+ "/pool/" +:+ rest) "/dists/" = None →
  pct rest f →
  ∃ p, GetByURLPath (scheme +:+ repo +:+ "/pool/" +:+ rest) (LoadFromData data iurl x).1 = Some p ∧ strip p = e.
Proof.
  intros Hdec Hrepo Hne es Hlim Hlast Hs Hpool Hdists Hpct.
  destruct (pool_url scheme repo rest f Hs Hpool Hdists Hpct) as [Hr Hp].
  rewrite GetByURLPath_path by (rewrite ?Hr, ?Hp; done). rewrite Hr, Hp.
  unfold LoadFromData. rewrite Hdec, Hrepo. cbn [with_reader].
  destruct (parseForRepo_owns r repo (indexFileKey iurl) x _ _ Hlim Hlast) as (p & -> & Hp'). by exists p.
Qed.

(** C27: loading the text of a Packages file gives back the entries it was printed
    from, in order and with every field. *)
Theorem packages_roundtrip x url es :
  inv x → es ≠ [] → Forall (printable (ExtractRepoFromURL url)) es → Z.of_nat (length es) < maxPackagesPerRepo →
  let r := LoadFromData (print_packages es) url x in
  r.2 = true ∧ contents r.1 !! indexFileKey url = Some es ∧ HasIndexFile url r.1 = true.
Proof.
  intros Hinv Hne Hes Hlim. cbv zeta.
  assert (decompressByMagic (print_packages es) = Some (print_packages es, true)) as Hdec by (by destruct es).
  assert (contents (LoadFromData (print_packages es) url x).1 !! indexFileKey url = Some es) as Hc.
  { unfold LoadFromData. rewrite Hdec. cbn [with_reader].
    rewrite parseForRepo_contents; cbn [fst snd]; rewrite ?(print_packages_scan _ _ Hes); cbn [fst snd];
      rewrite ?(print_packages_entries _ _ Hes); [|done..].
    unfold replace_file. destruct es; [done|]. apply lookup_insert_eq. }
  split_and!; [|done|].
  - unfold LoadFromData, parseForRepo. rewrite Hdec. cbn [with_reader fst snd].
    rewrite (print_packages_scan _ _ Hes). done.
  - unfold HasIndexFile. unfold contents in Hc. rewrite lookup_fmap in Hc.
    apply fmap_Some in Hc as (gen & Hg & ->). rewrite Hg. by destruct gen.
Qed.

(** At the package limit the loop is left with the last entry still current, and
    the code after the loop inserts it a second time. *)
Lemma limit_lists_last_twice repo rest st p :
  p_pkg st = Some p → SHA256 p ≠ "" → maxPackagesPerRepo <= p_count st + 1 →
  let st' := flush_pkg repo (parse_loop repo ("" :: rest) st) in
  p_generation st' = p_generation st ++ [set_Repo repo p] ++ [set_Repo repo p] ∧ p_count st' = p_count st + 2.
Proof.
  intros Hp Hsha Hlim. cbn [parse_loop]. change (String.eqb "" "") with true. cbv iota.
  assert (∀ st q, p_pkg st = Some q → SHA256 q ≠ "" → flush_pkg repo st =
    mkP (insert_entry repo (set_Repo repo q) (p_idx st)) (p_generation st ++ [set_Repo repo q]) (Some (set_Repo repo q))
      (p_count st + 1)) as Hflush.
  { intros st0 q Hq Hs. unfold flush_pkg. rewrite Hq. by rewrite (proj2 (String.eqb_neq _ _) Hs). }
  rewrite (Hflush st p Hp Hsha). unfold flushes. rewrite Hp, (proj2 (String.eqb_neq _ _) Hsha).
  cbn [negb andb p_count]. rewrite (proj2 (Z.leb_le _ _) Hlim).
  rewrite (Hflush _ (set_Repo repo p)); [|done|by destruct (set_Repo_fields repo p) as (_ & -> & _)].
  cbn [p_generation p_count]. rewrite set_Repo_idem, <- app_assoc. split; [done|lia].
Qed.
End parsing.

(** ** Evaluations *)
#[local] Existing Instance ascii_only.
#[local] Existing Instance range_id.

Definition no_codecs : Decompressors := {|
  gzip_NewReader := Some; xz_NewReader := Some; zstd_NewReader := Some; lz4_NewReader := id; bzip2_NewReader := id |}.
#[local] Existing Instance no_codecs.

Definition ex_entry (repo sha : string) : PackageInfo :=
  mkPkg 0 "vim" "2:9.0+deb12" "amd64" "pool/main/v/vim/vim_9.0+deb12_amd64.deb" 1234 sha repo.
Definition deb := "deb.debian.org/debian".
Definition ex_url (dist : string) := "http://deb.debian.org/debian/dists/" +:+ dist +:+ "/main/binary-amd64/Packages".
Definition other_url := "http://mirror.example.org/debian/dists/x/main/binary-amd64/Packages".

Definition load (es : list PackageInfo) (url : string) (x : Index) : Index := (LoadFromData (print_packages es) url x).1.

Lemma ex_printable repo sha : visible sha → sha ≠ "" → printable repo (ex_entry repo sha).
Proof. intros Hv Hne. split_and!; try done; repeat split; vm_compute; reflexivity. Qed.

Lemma load_refines_witness :
  contents (load [ex_entry deb "aa"] (ex_url "bookworm") New) =
  {[ "http://deb.debian.org/debian/dists/bookworm/main/binary-amd64/Packages" := [ex_entry deb "aa"] ]}.
Proof.
  pose proof (load_refines New (print_packages [ex_entry deb "aa"]) (ex_url "bookworm") (inv_empty 0)) as Href.
  destruct Href as (_ & _ & Href & _). unfold load. rewrite Href; [vm_compute; reflexivity|vm_compute; reflexivity].
Defined.

Definition ex_loaded : Index := load [ex_entry deb "aa"] (ex_url "bookworm") New.

Lemma index_lookups_witness :
  reachable ex_loaded ∧ is_Some (GetByURLPath "http://deb.debian.org/debian/pool/main/v/vim/vim_9.0%2Bdeb12_amd64.deb" ex_loaded).
Proof.
  assert (reachable ex_loaded) as Hr by (apply rtc_once, step_data). split; [exact Hr|].
  destruct (index_lookups ex_loaded Hr) as (_ & _ & Hurl).
  apply Hurl; [vm_compute; discriminate|vm_compute; discriminate|].
  exists (mkPkg 0 "vim" "2:9.0+deb12" "amd64" "pool/main/v/vim/vim_9.0+deb12_amd64.deb" 1234 "aa" deb).
  split; [|vm_compute; reflexivity].
  exists (ex_url "bookworm"). eexists. split; [vm_compute; reflexivity|left].
Defined.

Lemma url_finds_entry_witness :
  ∃ p, GetByURLPath "https://deb.debian.org/debian/pool/main/v/vim/vim_9.0%2bdeb12_amd64.deb" ex_loaded = Some p ∧
       strip p = ex_entry deb "aa".
Proof.
  apply (url_finds_entry New (print_packages [ex_entry deb "aa"]) (ex_url "bookworm")
    (print_packages [ex_entry deb "aa"], true) "https://" deb "main/v/vim/vim_9.0%2bdeb12_amd64.deb"
    "main/v/vim/vim_9.0+deb12_amd64.deb"); [vm_compute; reflexivity|vm_compute; reflexivity|discriminate|
    vm_compute; reflexivity|vm_compute; reflexivity|by right|vm_compute; reflexivity|vm_compute; reflexivity|].
  repeat first [apply pct_nil|apply pct_literal; [discriminate|]|refine (pct_escape "2" "b" 2 11 _ _ eq_refl eq_refl _)].
Defined.

Lemma packages_roundtrip_witness :
  contents (load [ex_entry deb "aa"] (ex_url "sid") New) !! indexFileKey (ex_url "sid") = Some [ex_entry deb "aa"].
Proof.
  apply (packages_roundtrip New (ex_url "sid") [ex_entry deb "aa"]); [apply inv_empty|discriminate| |vm_compute; reflexivity].
  repeat constructor; vm_compute; first [reflexivity|discriminate].
Defined.

(** Two index files of a repository list the same path; the one parsed last is
    parsed again and no longer lists it.  The entry of the first file is still
    recorded for it, but neither the lookup by hash nor the one by repository and
    path finds it, and the URL resolves to another repository's file of the same
    name, whose hash differs. *)
Example reparse_hides_listed_entry :
  let x := load [] (ex_url "updates") (load [ex_entry deb "aa"] (ex_url "updates")
             (load [ex_entry deb "aa"] (ex_url "bookworm")
                (load [ex_entry "mirror.example.org/debian" "bb"] other_url New))) in
  contents x !! indexFileKey (ex_url "bookworm") = Some [ex_entry deb "aa"] ∧
  GetBySHA256 "aa" x = None ∧
  SHA256 <$> GetByURLPath "http://deb.debian.org/debian/pool/main/v/vim/vim_9.0+deb12_amd64.deb" x = Some "bb".
Proof. split_and!; vm_compute; reflexivity. Qed.

(** [ClearRepo] walks the paths still in [byRepo]; an entry hidden as above stays in the
    basename index although no index file lists it any more. *)
Example ClearRepo_leaves_basename :
  let x := load [] (ex_url "updates") (load [ex_entry deb "aa"] (ex_url "updates")
             (load [ex_entry deb "aa"] (ex_url "bookworm") New)) in
  byIndexFile (ClearRepo deb x) = ∅ ∧
  Repo <$> GetByBasename "vim_9.0+deb12_amd64.deb" "" (ClearRepo deb x) = Some deb.
Proof. split; vm_compute; reflexivity. Qed.
End PkgIndexSys.
