(* ===== verification/AptLocal.v ===== *)
(** * internal/aptlists/watcher.go and internal/aptarchives/importer.go

    What debswarm takes from APT's own directories: the package lists, scanned at
    the start and again when they change, and the archives, imported into the
    cache.  The directories, the files and the notifications of the file system
    are given by the surroundings; log lines are left out. *)

From S2P Require Import Prelude GoStd GoText HashUtil Sql Cache PkgIndex.
From Stdlib Require Import Ascii.
Open Scope Z_scope.
Open Scope go_scope.

(** [strings.ReplaceAll] of one byte by another. *)
Fixpoint ReplaceByte (old new : ascii) (s : string) : string :=
  match s with
  | EmptyString => EmptyString
  | String a s => String (if Ascii.eqb a old then new else a) (ReplaceByte old new s)
  end.

(** What [os.Stat] and [IsDir] say of a path. *)
Inductive Stat := StatNotExist | StatError | StatFile | StatDir.

(** An entry of [os.ReadDir]: its name, and whether it is a directory. *)
Definition DirEntry : Type := string * bool.

Module AptLists.
Section lists.
Context `{GoUnicode, Decompressors, GoRange}.

Definition DefaultAPTListsPath : string := "/var/lib/apt/lists".

(** [timer]: a reparse is scheduled. *)
Record Watcher := mkWatcher { listsPath : string; pendingFiles : gset string; timer : bool }.

Definition New (cfg : option string) : Watcher :=
  mkWatcher (match cfg with
             | Some p => if String.eqb p "" then DefaultAPTListsPath else p
             | None => DefaultAPTListsPath
             end) ∅ false.

Definition listExts : list string := [".gz"; ".xz"; ".lz4"; ".bz2"; ".zst"].

Definition isPackagesFile (name : string) : bool :=
  if HasSuffix name ".partial" then false
  else let base := foldl TrimSuffix name listExts in HasSuffix base "_Packages" || Contains base "_binary-".

Definition isSourcesFile (name : string) : bool :=
  if HasSuffix name ".partial" then false
  else let base := foldl TrimSuffix name listExts in HasSuffix base "_Sources" || Contains base "_source_".

Definition extractRepoFromFilename (filename : string) : string :=
  let name := foldl TrimSuffix filename listExts in
  match PkgIndex.first_marker ["_dists_"; "_pool_"] name with
  | Some i => ReplaceByte "_" "/" (str_take i name)
  | None =>
      match GoStd.Index name "_" with
      | Some i => ReplaceByte "_" "/" (str_take i name)
      | None => filename
      end
  end.

(** [open]: the files, each with whether it can be read to its end. *)
Context (open : string → option stream).

Definition parseFile (path : string) (x : PkgIndex.Index) : PkgIndex.Index * bool :=
  PkgIndex.LoadFromFileWithRepo open path (extractRepoFromFilename (filepath_Base path)) x.

Definition parseSourcesFile (path : string) (x : PkgIndex.Index) : PkgIndex.Index * bool :=
  PkgIndex.LoadSourcesFromFileWithRepo open path (extractRepoFromFilename (filepath_Base path)) x.

(** One entry of the scan: the number of files parsed and the index. *)
Definition scanEntry (dir : string) (acc : Z * PkgIndex.Index) (e : DirEntry) : Z * PkgIndex.Index :=
  let '(count, x) := acc in
  let parsed r := let '(x, ok) := r in ((if (ok : bool) then count + 1 else count), x) in
  if e.2 then (count, x)
  else if isPackagesFile e.1 then parsed (parseFile (filepath_Join [dir; e.1]) x)
  else if isSourcesFile e.1 then parsed (parseSourcesFile (filepath_Join [dir; e.1]) x)
  else (count, x).

(** [None] when the directory cannot be read. *)
Definition scanAll (entries : option (list DirEntry)) (w : Watcher) (x : PkgIndex.Index) : option Z * PkgIndex.Index :=
  match entries with
  | None => (None, x)
  | Some l => let '(count, x) := foldl (scanEntry (listsPath w)) (0, x) l in (Some count, x)
  end.

(** [Start]: whether its error is nil, whether the directory is watched, the index.
    [notify]: whether the watcher can be made, and the directory added to it. *)
Definition Start (stat : Stat) (entries : option (list DirEntry)) (notify : bool * bool) (w : Watcher) (x : PkgIndex.Index)
  : bool * bool * PkgIndex.Index :=
  match stat with
  | StatNotExist => (true, false, x)
  | StatError => (false, false, x)
  | StatFile => (true, false, x)
  | StatDir => (true, notify.1 && notify.2, (scanAll entries w x).2)
  end.

Definition scheduleReparse (path : string) (w : Watcher) : Watcher :=
  mkWatcher (listsPath w) ({[path]} ∪ pendingFiles w) true.

(** One event of the watched directory; [written]: a write or a creation. *)
Definition watchEvent (name : string) (written : bool) (w : Watcher) : Watcher :=
  if negb written then w
  else
    let base := filepath_Base name in
    if negb (isPackagesFile base) && negb (isSourcesFile base) then w else scheduleReparse name w.

Definition reparse (x : PkgIndex.Index) (path : string) : PkgIndex.Index :=
  let base := filepath_Base path in
  if isPackagesFile base then (parseFile path x).1
  else if isSourcesFile base then (parseSourcesFile path x).1
  else x.

(** The timer fires. *)
Definition processPendingFiles (w : Watcher) (x : PkgIndex.Index) : Watcher * PkgIndex.Index :=
  (mkWatcher (listsPath w) ∅ false, foldl reparse x (go_range (elements (pendingFiles w)))).
End lists.
End AptLists.

Module AptArchives.
Section archives.
Context `{GoUnicode, SqlOrder, Sha256, GoRange}.

Definition DefaultAPTArchivesPath : string := "/var/cache/apt/archives".

Definition archivesPath (cfg : option string) : string :=
  match cfg with
  | Some p => if String.eqb p "" then DefaultAPTArchivesPath else p
  | None => DefaultAPTArchivesPath
  end.

Record ImportResult := mkImport { Scanned : Z; Imported : Z; Skipped : Z; Unverified : Z; Errors : Z }.

Inductive importStatus := statusImported | statusSkipped | statusUnverified | statusError.

(** A file of the archives: whether it can be stat'ed, its bytes when it is hashed,
    and what is read when it is opened again and put into the cache. *)
Record Archive := mkArchive { a_stat : bool; a_hashed : option string; a_put : option Cache.PutData; a_io : Cache.IO }.

Definition importPackage (f : Archive) (path : string) (x : PkgIndex.Index) (c : Cache.Cache) : importStatus * Cache.Cache :=
  let filename := filepath_Base path in
  if negb (a_stat f) then (statusError, c)
  else
    match HashReader (a_hashed f) with
    | None => (statusError, c)
    | Some hash =>
        if Cache.Has c hash then (statusSkipped, c)
        else
          let pkg :=
            match PkgIndex.GetBySHA256 hash x with
            | Some pkg => Some pkg
            | None =>
                match PkgIndex.GetByPath filename x with
                | Some pkg => if String.eqb (PkgIndex.SHA256 pkg) hash then Some pkg else None
                | None => None
                end
            end in
          match pkg with
          | None => (statusUnverified, c)
          | Some pkg =>
              match a_put f with
              | None => (statusError, c)
              | Some pd =>
                  let cacheFilename := if String.eqb (PkgIndex.Filename pkg) "" then filename else PkgIndex.Filename pkg in
                  match Cache.Put (a_io f) pd hash cacheFilename c with
                  | (Ok _, c) => (statusImported, c)
                  | (Err _, c) => (statusError, c)
                  end
              end
          end
    end.

Definition count (s : importStatus) (r : ImportResult) : ImportResult :=
  match s with
  | statusImported => mkImport (Scanned r + 1) (Imported r + 1) (Skipped r) (Unverified r) (Errors r)
  | statusSkipped => mkImport (Scanned r + 1) (Imported r) (Skipped r + 1) (Unverified r) (Errors r)
  | statusUnverified => mkImport (Scanned r + 1) (Imported r) (Skipped r) (Unverified r + 1) (Errors r)
  | statusError => mkImport (Scanned r + 1) (Imported r) (Skipped r) (Unverified r) (Errors r + 1)
  end.

(** [canceled i]: the context is done before the i-th entry. *)
Fixpoint importEntries (files : string → Archive) (canceled : nat → bool) (i : nat) (dir : string) (l : list DirEntry)
    (x : PkgIndex.Index) (r : ImportResult) (c : Cache.Cache) : ImportResult * bool * Cache.Cache :=
  match l with
  | [] => (r, true, c)
  | (name, isDir) :: l =>
      if canceled i then (r, false, c)
      else if isDir || negb (HasSuffix name ".deb") then importEntries files canceled (S i) dir l x r c
      else
        let path := filepath_Join [dir; name] in
        let '(status, c) := importPackage (files path) path x c in
        importEntries files canceled (S i) dir l x (count status r) c
  end.

(** [Import]: the result ([None] for nil), whether the error is nil, the cache. *)
Definition Import (stat : Stat) (entries : option (list DirEntry)) (files : string → Archive) (canceled : nat → bool)
    (dir : string) (x : PkgIndex.Index) (c : Cache.Cache) : option ImportResult * bool * Cache.Cache :=
  let none := mkImport 0 0 0 0 0 in
  match stat with
  | StatNotExist | StatFile => (Some none, true, c)
  | StatError => (None, false, c)
  | StatDir =>
      match entries with
      | None => (None, false, c)
      | Some l => let '(r, ok, c) := importEntries files canceled 0 dir l x none c in (Some r, ok, c)
      end
  end.
End archives.
End AptArchives.
