(* ===== verification/AptLocalSys.v ===== *)
(** * Properties of what is taken from APT's directories

    The repository read off the name of a list file is the one read off the URL
    the list came from; scanning and reparsing add nothing to the index but
    entries of list files; importing adds nothing to the cache but packages the
    index lists, and counts every archive once. *)

From S2P Require Import Prelude GoStd GoText HashUtil Sql Cache CacheFacts CacheSys SecuritySys PkgIndex PkgIndexSys AptLocal.
From Stdlib Require Import Ascii.
Open Scope Z_scope.
Open Scope go_scope.

Module AptLocalSys.
Import AptLists SecuritySys PkgIndexSys.

(** ** Names of list files *)
Section names.

(** The name APT gives to the list of a URL: the URL without its scheme, each slash
    an underscore. *)
Definition list_name (rest : string) : string := ReplaceByte "/" "_" rest.

Definition us (a : ascii) : ascii := if Ascii.eqb a "/" then "_"%char else a.

Lemma list_name_app a b : list_name (a +:+ b) = list_name a +:+ list_name b.
Proof. unfold list_name. induction a; [done|]. cbn [ReplaceByte String.append]. by rewrite IHa. Qed.

Lemma us_slash a : Ascii.eqb a "_" = false → Ascii.eqb "_" (us a) = Ascii.eqb "/" a.
Proof.
  intros Hu. unfold us. rewrite (Ascii.eqb_sym "/" a). destruct (Ascii.eqb a "/"); [done|]. by rewrite Ascii.eqb_sym.
Qed.

Lemma us_letter c a : c ≠ "/"%char → c ≠ "_"%char → Ascii.eqb c (us a) = Ascii.eqb c a.
Proof.
  intros H1 H2. unfold us. destruct (Ascii.eqb_spec a "/") as [->|]; [|done].
  destruct (Ascii.eqb_spec c "_"), (Ascii.eqb_spec c "/"); congruence.
Qed.

Lemma no_cons c a s : str_no c (String a s) = true → Ascii.eqb a c = false ∧ str_no c s = true.
Proof. unfold str_no. cbn [str_forallb]. rewrite andb_true_iff, negb_true_iff. done. Qed.

Lemma HasPrefix_nil s : HasPrefix s "" = true.
Proof. by destruct s. Qed.

(** Comparisons of the first bytes of a name and of its URL. *)
Ltac front :=
  unfold list_name; cbn [String.append ReplaceByte];
  repeat match goal with |- context [if Ascii.eqb ?a "/" then "_"%char else ?a] =>
    is_var a; change (if Ascii.eqb a "/" then "_"%char else a) with (us a) end;
  rewrite !HasPrefix_cons;
  repeat match goal with
  | |- context [Ascii.eqb "_" (us ?a)] => rewrite (us_slash a) by done
  | |- context [Ascii.eqb ?c (us ?a)] => rewrite (us_letter c a) by done
  end;
  repeat match goal with |- context [Ascii.eqb ?c ?a] => is_var a; destruct (Ascii.eqb c a) end; rewrite ?HasPrefix_nil; reflexivity.

(** A marker begins at the front of the name exactly where it does in the URL. *)
Lemma marker_front rp :
  str_no "_" rp = true →
  HasPrefix (list_name (rp +:+ "/dists/")) "_dists_" = HasPrefix (rp +:+ "/dists/") "/dists/".
Proof.
  intros Hno.
  do 7 (destruct rp as [|? rp]; [front|apply no_cons in Hno as [? Hno]]). front.
Qed.

Lemma marker_index rp :
  str_no "_" rp = true →
  GoStd.Index (list_name (rp +:+ "/dists/")) "_dists_" = GoStd.Index (rp +:+ "/dists/") "/dists/".
Proof.
  induction rp as [|a rp IH]; intros Hno; [done|]. pose proof (marker_front _ Hno) as Hf. apply no_cons in Hno as [_ Hno].
  specialize (IH Hno). unfold list_name in *. cbn [String.append ReplaceByte GoStd.Index] in *. by rewrite Hf, IH.
Qed.

Lemma list_name_back rp : str_no "_" rp = true → ReplaceByte "_" "/" (list_name rp) = rp.
Proof.
  unfold list_name. induction rp as [|a rp IH]; intros Hno; [done|]. apply no_cons in Hno as [Ha Hno]. cbn [ReplaceByte].
  rewrite (IH Hno). destruct (Ascii.eqb_spec a "/") as [->|]; [done|]. by rewrite Ha.
Qed.

Lemma list_name_length s : String.length (list_name s) = String.length s.
Proof. unfold list_name. induction s as [|a s IH]; [done|]. cbn [ReplaceByte String.length]. by rewrite IH. Qed.

Lemma list_name_take n s : str_take n (list_name s) = list_name (str_take n s).
Proof. unfold list_name. revert s. induction n; intros [|a s]; [done..|]. cbn [ReplaceByte str_take]. by rewrite IHn. Qed.

(** Cutting an extension leaves everything up to an underscore. *)
Lemma TrimSuffix_keeps x y ext : str_no "_" ext = true → ∃ y', TrimSuffix (x +:+ "_" +:+ y) ext = x +:+ "_" +:+ y'.
Proof.
  intros Hno. unfold TrimSuffix. destruct (HasSuffix _ ext) eqn:Hs; [|by exists y]. apply HasSuffix_inv in Hs as (z & Hz).
  rewrite Hz, str_length_app.
  replace (String.length z + String.length ext - String.length ext)%nat with (String.length z) by lia. rewrite str_take_app.
  revert z Hz. induction x as [|a x IH]; intros [|b z] Hz; cbn [String.append] in *.
  - rewrite <- Hz in Hno. by apply no_cons in Hno as [? _].
  - injection Hz as <- _. by exists z.
  - rewrite <- Hz in Hno. exfalso. clear -Hno. unfold str_no in Hno. cbn [str_forallb] in Hno.
    rewrite str_forallb_app in Hno. apply andb_true_iff in Hno as [_ Hno]. apply andb_true_iff in Hno as [_ Hno].
    by apply andb_true_iff in Hno as [Hno _].
  - injection Hz as <- Hz. destruct (IH _ Hz) as (y' & ->). by exists y'.
Qed.

Lemma exts_keep x y exts : Forall (λ e, str_no "_" e = true) exts →
  ∃ y', foldl TrimSuffix (x +:+ "_" +:+ y) exts = x +:+ "_" +:+ y'.
Proof.
  intros He. revert y. induction He as [|e exts Hno _ IH]; intros y; [by exists y|]. cbn [foldl].
  destruct (TrimSuffix_keeps x y e Hno) as (y1 & ->). apply IH.
Qed.

Lemma Index_exists a m : is_Some (GoStd.Index (a +:+ m) m).
Proof.
  induction a as [|c a IH]; cbn [String.append].
  - assert (HasPrefix m m = true) as Hm by (induction m; [done|]; rewrite HasPrefix_cons, Ascii.eqb_refl; done).
    destruct m; cbn [GoStd.Index]; rewrite Hm; by eexists.
  - cbn [GoStd.Index]. destruct (HasPrefix _ m); [by eexists|]. destruct IH as [j ->]. by eexists.
Qed.

(** The two ways to name a repository agree: the repository that the watcher reads
    off the name of a list file, whatever its compression, is the one the proxy
    reads off the URL the list was fetched from, so packages of a list that never
    went through the proxy are found for the URLs that do. *)
Theorem list_names_agree scheme rp rest :
  is_scheme scheme → str_no "_" rp = true →
  extractRepoFromFilename (list_name (rp +:+ "/dists/" +:+ rest)) = PkgIndex.ExtractRepoFromURL (scheme +:+ rp +:+ "/dists/" +:+ rest).
Proof.
  intros Hs Hno. destruct (Index_exists rp "/dists/") as [i Hi]. pose proof (Index_fits _ _ _ Hi) as Hle.
  rewrite str_length_app in Hle. cbn [String.length] in Hle.
  assert (str_take i (rp +:+ "/dists/" +:+ rest) = str_take i rp) as Htake.
  { rewrite <- (str_take_drop i rp) at 1. rewrite str_app_assoc.
    rewrite <- (str_length_take i rp) at 1 by lia. by rewrite str_take_app. }
  assert (PkgIndex.ExtractRepoFromURL (scheme +:+ rp +:+ "/dists/" +:+ rest) = str_take i rp) as ->.
  { unfold PkgIndex.ExtractRepoFromURL. rewrite <- Htake. pose proof (Index_app _ rest _ _ Hi) as Hj. rewrite str_app_assoc in Hj.
    set (t := rp +:+ "/dists/" +:+ rest) in *. clearbody t.
    destruct Hs as [-> | ->]; cbn [String.append]; rewrite !HasPrefix_cons, !HasPrefix_nil; cbn [PkgIndex.first_marker str_drop andb Ascii.eqb Bool.eqb];
      by rewrite Hj. }
  unfold extractRepoFromFilename. rewrite !list_name_app. change (list_name "/dists/") with ("_dists" +:+ "_").
  rewrite str_app_assoc, <- (str_app_assoc (list_name rp)).
  destruct (exts_keep (list_name rp +:+ "_dists") (list_name rest) listExts ltac:(by repeat constructor)) as (y & ->).
  assert (GoStd.Index ((list_name rp +:+ "_dists") +:+ "_" +:+ y) "_dists_" = Some i) as Hm.
  { rewrite <- (str_app_assoc _ "_" y), (str_app_assoc (list_name rp) "_dists" "_"). apply Index_app.
    change ("_dists" +:+ "_") with (list_name "/dists/"). by rewrite <- list_name_app, marker_index. }
  cbn [PkgIndex.first_marker]. rewrite Hm, str_app_assoc.
  rewrite <- (list_name_back (str_take i rp)) by by apply str_forallb_take. f_equal. rewrite <- list_name_take.
  rewrite <- (str_take_drop i (list_name rp)) at 1. rewrite str_app_assoc, list_name_take.
  assert (String.length (list_name (str_take i rp)) = i) as Hl.
  { rewrite <- list_name_take, str_length_take; [done|]. rewrite list_name_length. lia. }
  rewrite <- Hl at 1. by rewrite str_take_app.
Qed.
End names.

(** ** Scanning *)
Section scanning.
Context `{GoUnicode, Decompressors, GoRange}.

(** The contents list files had at some time. *)
Context (lists : string → stream → Prop).

Definition list_lines (r : stream) : list string := (scan PkgIndex.maxTokenSize r.1 r.2).1.

(** An entry of a list file. *)
Definition local (p : PkgIndex.PackageInfo) : Prop :=
  ∃ path f r, lists path f ∧ PkgIndex.decompressByName f path = Some r ∧
    let repo := extractRepoFromFilename (filepath_Base path) in
    PkgIndexSys.strip p ∈ packages_spec repo (list_lines r) ++ sources_spec repo (list_lines r).

(** Nothing but entries of list files is added. *)
Definition loads (x x' : PkgIndex.Index) : Prop :=
  PkgIndexSys.inv x' ∧ ∀ p, listed (PkgIndex.byIndexFile x') p → listed (PkgIndex.byIndexFile x) p ∨ local p.

Lemma loads_trans x y z : loads x y → loads y z → loads x z.
Proof. intros [_ Hy] [Hz Hp]. split; [done|]. intros p [Hl|]%Hp; auto. Qed.

Lemma reparsed_loads path f r x x' es :
  lists path f → PkgIndex.decompressByName f path = Some r →
  es ⊆ packages_spec (extractRepoFromFilename (filepath_Base path)) (list_lines r) ++
       sources_spec (extractRepoFromFilename (filepath_Base path)) (list_lines r) →
  PkgIndexSys.reparsed (PkgIndex.indexFileKey path) es x x' → loads x x'.
Proof.
  intros Hl Hd Hes (Hi & Hother & Hnew). split; [done|]. intros p (k & gen & Hk & Hp).
  destruct (decide (k = PkgIndex.indexFileKey path)) as [->|Hne].
  - right. exists path, f, r. split; [done|]. split; [done|]. by apply Hes, (Hnew gen).
  - left. exists k, gen. by rewrite <- Hother.
Qed.

Context (open : string → option stream) (Hopen : ∀ path f, open path = Some f → lists path f).

Lemma parseFile_loads path x : PkgIndexSys.inv x → loads x (parseFile open path x).1.
Proof using Hopen.
  intros Hi. unfold parseFile, PkgIndex.LoadFromFileWithRepo. destruct (open path) as [f|] eqn:Ho; cbn [mbind option_bind]; [|by split; auto].
  destruct (PkgIndex.decompressByName f path) as [r|] eqn:Hd; [|by split; auto]. cbn [PkgIndex.with_reader].
  eapply reparsed_loads; [by apply Hopen|done| |by apply PkgIndexSys.parseForRepo_reparsed]. set_solver.
Qed.

Lemma parseSourcesFile_loads path x : PkgIndexSys.inv x → loads x (parseSourcesFile open path x).1.
Proof using Hopen.
  intros Hi. unfold parseSourcesFile, PkgIndex.LoadSourcesFromFileWithRepo.
  destruct (open path) as [f|] eqn:Ho; cbn [mbind option_bind]; [|by split; auto].
  destruct (PkgIndex.decompressByName f path) as [r|] eqn:Hd; [|by split; auto]. cbn [PkgIndex.with_reader].
  eapply reparsed_loads; [by apply Hopen|done| |by apply PkgIndexSys.parseSourcesForRepo_reparsed]. set_solver.
Qed.

Lemma reparse_loads x path : PkgIndexSys.inv x → loads x (reparse open x path).
Proof using Hopen.
  intros Hi. unfold reparse. destruct (isPackagesFile _); [by apply parseFile_loads|].
  destruct (isSourcesFile _); [by apply parseSourcesFile_loads|by split; auto].
Qed.

Lemma processPending_loads w x : PkgIndexSys.inv x → loads x (processPendingFiles open w x).2.
Proof using Hopen.
  intros Hi. unfold processPendingFiles. cbn [snd]. revert x Hi. induction (go_range _) as [|path l IH]; intros x Hi; [by split; auto|].
  cbn [foldl]. pose proof (reparse_loads x path Hi) as Hr. eapply loads_trans; [exact Hr|]. apply IH, Hr.
Qed.

Lemma scanAll_loads entries w x : PkgIndexSys.inv x → loads x (scanAll open entries w x).2.
Proof using Hopen.
  intros Hi. unfold scanAll. destruct entries as [l|]; [|by split; auto].
  assert (∀ n, loads x (foldl (scanEntry open (listsPath w)) (n, x) l).2) as Hl.
  { revert x Hi. induction l as [|[name d] l IH]; intros x Hi n; [by split; auto|]. cbn [foldl scanEntry fst snd].
    destruct d; [by apply IH|].
    destruct (isPackagesFile name); [|destruct (isSourcesFile name); [|by apply IH]].
    - pose proof (parseFile_loads (filepath_Join [listsPath w; name]) x Hi) as Hp. destruct (parseFile _ _ _) as [x1 ok].
      eapply loads_trans; [exact Hp|]. destruct ok; apply IH, Hp.
    - pose proof (parseSourcesFile_loads (filepath_Join [listsPath w; name]) x Hi) as Hp. destruct (parseSourcesFile _ _ _) as [x1 ok].
      eapply loads_trans; [exact Hp|]. destruct ok; apply IH, Hp. }
  specialize (Hl 0). by destruct (foldl _ _ _) as [n x1].
Qed.
End scanning.

(** ** Importing *)
Section importing.
Context `{GoUnicode, SqlOrder, Sha256, GoRange}.
Import AptArchives.

Lemma moveIntoPlace_has io p h c h' d :
  valid_hash h = true → valid_hash h' = true →
  Cache.moveIntoPlace io p (Cache.packagePath c h) (Cache.disk c) = Some d →
  is_Some (d !! Cache.packagePath c h') → h' = h ∨ Cache.Has c h' = true.
Proof.
  intros Hvh Hv. unfold Cache.moveIntoPlace, Cache.os_Remove, Cache.Has. destruct (Cache.disk c !! Cache.packagePath c h).
  - destruct (Cache.disk c !! p); [|intros [= <-] [? ->]; auto]. destruct (Cache.fs io _); intros [= <-]; [|intros [? ->]; auto].
    rewrite lookup_delete. case_decide; [by intros []|intros [? ->]; auto].
  - destruct (Cache.disk c !! p); [|done]. destruct (Cache.fs io _); [|done]. intros [= <-].
    destruct (decide (Cache.packagePath c h' = Cache.packagePath c h)) as [He|Hne]; [left; by eapply CacheFacts.packagePath_inj|].
    rewrite lookup_insert_ne by done. rewrite lookup_delete. case_decide; [by intros []|intros [? ->]; auto].
Qed.

Lemma commit_has io p h f sz c h' :
  valid_hash h = true → valid_hash h' = true →
  Cache.Has (Cache.commitVerifiedFile io p h f sz c).2 h' = true → h' = h ∨ Cache.Has c h' = true.
Proof.
  intros Hvh Hv. pose proof (CacheFacts.commit_cases io p h f sz c) as Hcc.
  destruct (CacheFacts.ensureSpace_removes io sz c) as [Hbe _ _ _ _ Hd].
  destruct (CacheFacts.flushAccess_frame io c) as (Hb1 & _ & _ & Hd1 & _).
  destruct (Cache.ensureSpace io sz c) as [r1 c1]. destruct (Cache.commitVerifiedFile _ _ _ _ _ _) as [r c2]. cbn [snd] in *.
  assert (Cache.Has c1 h' = true → Cache.Has c h' = true) as Hev.
  { unfold Cache.Has. rewrite (CacheFacts.packagePath_base c1 c) by congruence.
    destruct (Hd (Cache.packagePath c h')) as [->|[-> _]]; [|done]. by rewrite Hd1. }
  assert (∀ d c2, Cache.moveIntoPlace io p (Cache.packagePath c1 h) (Cache.disk c1) = Some d → Cache.disk c2 = d →
            Cache.basePath c2 = Cache.basePath c1 → Cache.Has c2 h' = true → h' = h ∨ Cache.Has c h' = true) as Hmv.
  { intros d c3 Hm Hd3 Hb3 Hhas. destruct (moveIntoPlace_has io p h c1 h' d Hvh Hv Hm) as [|Hc1]; auto. unfold Cache.Has in Hhas.
    rewrite Hd3, (CacheFacts.packagePath_base c3 c1 h' Hb3) in Hhas. by destruct (d !! _). }
  destruct Hcc as [(e & _ & -> & _)|(_ & d & Hm & [(_ & _ & ->)|(_ & ->)])]; [auto|by apply (Hmv d)..].
Qed.

(** Storing a package makes room and adds nothing but that package. *)
Lemma Put_has io pd h f c h' :
  valid_hash h = true → valid_hash h' = true →
  Cache.Has (Cache.Put io pd h f c).2 h' = true → h' = h ∨ Cache.Has c h' = true.
Proof.
  intros Hvh Hv. unfold Cache.Put. destruct (negb (Cache.createTemp io h)); [auto|].
  set (p := Cache.pendingPath c h (Cache.pd_rand pd)). destruct (io_Copy _ _ _ _ _) as [[hw sz] ok].
  set (c1 := Cache.set_disk (<[p := hw_out hw]> (Cache.disk c)) c).
  assert (∀ c2, Cache.Has (Cache.remove_pending io p c2) h' = true → Cache.Has c2 h' = true) as Hrm.
  { intros c2. unfold Cache.Has, Cache.remove_pending, Cache.os_Remove. destruct (Cache.disk c2 !! p); [|done].
    destruct (Cache.fs io _); [|done]. cbn [fst Cache.disk Cache.set_disk]. rewrite lookup_delete. by case_decide. }
  assert (Cache.Has c1 h' = true → Cache.Has c h' = true) as Hc1.
  { unfold Cache.Has. change (Cache.packagePath c1 h') with (Cache.packagePath c h'). cbn [c1 Cache.disk Cache.set_disk].
    rewrite lookup_insert_ne; [done|]. apply not_eq_sym. by apply CacheFacts.packagePath_not_pending. }
  destruct (negb ok); [intros ?; right; by apply Hc1, Hrm|]. destruct (negb _); [intros ?; right; by apply Hc1, Hrm|].
  destruct (negb _); [intros ?; right; by apply Hc1, Hrm|].
  pose proof (commit_has io p h f sz c1 h' Hvh Hv) as Hcm.
  destruct (Cache.commitVerifiedFile _ _ _ _ _ _) as [[u|e] c2]; cbn [snd] in *.
  - intros [|]%Hcm; auto.
  - intros [|]%Hrm%Hcm; auto.
Qed.

Context (files : string → Archive).

Section held.
Context {P : Prop} (Hdb : P → ∀ path h, Cache.db (a_io (files path)) (Cache.DbSelectSize h) = true).

(** What importing may do to the cache. *)
Definition imports (x : PkgIndex.Index) (l : list Cache.trackedReader) (c c' : Cache.Cache) : Prop :=
  CacheFacts.Held P c' l ∧ ∀ h, valid_hash h = true → Cache.Has c' h = true →
    Cache.Has c h = true ∨ ∃ p, listed (PkgIndex.byIndexFile x) p ∧ PkgIndex.SHA256 p = h.

Lemma importPackage_imports path x l c :
  PkgIndexSys.inv x → CacheFacts.Held P c l →
  let '(status, c') := importPackage (files path) path x c in
  imports x l c c' ∧ (status = statusImported → ∃ h, Cache.Has c h = false ∧ HashReader (a_hashed (files path)) = Some h).
Proof using Hdb.
  intros Hix Hi. assert (imports x l c c) as Hsame by (split; auto). unfold importPackage. cbv zeta.
  destruct (negb _); [done|]. destruct (a_hashed (files path)) as [data|]; cbn [HashReader]; [|done].
  fold (HashBytes data). set (h := HashBytes data). destruct (Cache.Has c h) eqn:Hhas; [done|].
  set (pkg := match PkgIndex.GetBySHA256 h x with Some _ => _ | None => _ end).
  assert (∀ p, pkg = Some p → listed (PkgIndex.byIndexFile x) p ∧ PkgIndex.SHA256 p = h) as Hpkg.
  { subst pkg. intros p. destruct (PkgIndex.GetBySHA256 h x) as [q|] eqn:Hq.
    - intros [= <-]. by destruct (PkgIndexSys.wf_packages _ _ (proj1 Hix) _ _ Hq).
    - destruct (PkgIndex.GetByPath _ x) as [q|] eqn:Hgp; [|done]. destruct (String.eqb_spec (PkgIndex.SHA256 q) h); [|done].
      intros [= <-]. by apply GetByPath_sound in Hgp as [? _]. }
  clearbody pkg. destruct pkg as [p|]; [|done]. destruct (Hpkg p eq_refl) as [Hl Hsha].
  destruct (a_put (files path)) as [pd|]; [|done]. set (fn := if String.eqb _ "" then _ else _).
  assert (imports x l c (Cache.Put (a_io (files path)) pd h fn c).2) as Hput.
  { split; [apply CacheFacts.Put_inv; [done|auto]|]. intros h' Hv Hh'. apply Put_has in Hh' as [->|]; [right; by exists p|auto|apply HashBytes_valid|done]. }
  destruct (Cache.Put _ _ _ _ _) as [[u|e] c']; [|done]. split; [done|]. intros _. by exists h.
Qed.

Lemma importEntries_imports canceled i dir entries x l r c :
  PkgIndexSys.inv x → CacheFacts.Held P c l →
  let '(r', ok, c') := importEntries files canceled i dir entries x r c in
  imports x l c c' ∧
  Scanned r' - Scanned r = (Imported r' - Imported r) + (Skipped r' - Skipped r) + (Unverified r' - Unverified r) + (Errors r' - Errors r) ∧
  (ok = true → Scanned r' - Scanned r = Z.of_nat (length (List.filter (λ e : DirEntry, negb e.2 && HasSuffix e.1 ".deb") entries))).
Proof using Hdb.
  intros Hix. revert i r c. induction entries as [|[name d] entries IH]; intros i r c Hi; cbn [importEntries].
  { split; [split; auto|]. cbn. lia. }
  destruct (canceled i); [split; [split; auto|]; split; [lia|done]|]. cbn [List.filter fst snd].
  destruct d; cbn [orb negb andb]; [by apply IH|]. destruct (HasSuffix name ".deb"); cbn [negb]; [|by apply IH].
  set (path := filepath_Join [dir; name]). pose proof (importPackage_imports path x l c Hix Hi) as Hp.
  destruct (importPackage _ _ _ _) as [status c1]. destruct Hp as [[Hi1 Hp] _].
  specialize (IH (S i) (count status r) c1 Hi1). destruct (importEntries _ _ _ _ _ _ _ _) as [[r' ok] c2].
  destruct IH as ([Hi2 Hn] & Hsum & Hcnt). split; [split; [done|]|].
  - intros h Hv [|]%Hn; auto.
  - cbn [length]. destruct status; cbn [Scanned Imported Skipped Unverified Errors count] in *; (split; [lia|intros Hok; specialize (Hcnt Hok); lia]).
Qed.

End held.

Context (Hdb : ∀ path h, Cache.db (a_io (files path)) (Cache.DbSelectSize h) = true).

(** C28: importing APT's archives is safe and accounted for: whatever the files hold, and
    if they change while they are read, the cache keeps its invariant and gains
    nothing but packages that the index lists under the hash of their bytes; every
    archive that was looked at counts as exactly one of imported, skipped,
    unverified and failed, and all archives of the directory are looked at unless
    the import is canceled. *)
Theorem import_accounted entries canceled dir x l c :
  PkgIndexSys.inv x → CacheFacts.Inv c l →
  ∃ r ok c', Import StatDir (Some entries) files canceled dir x c = (Some r, ok, c') ∧
    CacheFacts.Inv c' l ∧
    (∀ h, valid_hash h = true → Cache.Has c' h = true →
       Cache.Has c h = true ∨ ∃ p, listed (PkgIndex.byIndexFile x) p ∧ PkgIndex.SHA256 p = h) ∧
    Scanned r = Imported r + Skipped r + Unverified r + Errors r ∧
    (ok = true → Scanned r = Z.of_nat (length (List.filter (λ e : DirEntry, negb e.2 && HasSuffix e.1 ".deb") entries))).
Proof using Hdb.
  intros Hix Hi. unfold Import. pose proof (importEntries_imports (λ _, Hdb) canceled 0 dir entries x l (mkImport 0 0 0 0 0) c Hix Hi) as He.
  destruct (importEntries _ _ _ _ _ _ _ _) as [[r ok] c']. destruct He as ([Hi' Hn] & Hsum & Hcnt).
  exists r, ok, c'. cbn [Scanned Imported Skipped Unverified Errors] in *.
  split_and!; [done..|lia|]. intros Hok. specialize (Hcnt Hok). lia.
Qed.
End importing.

(** ** The theorems at concrete inputs *)
#[local] Existing Instance ascii_only.
#[local] Existing Instance toy_sha.
#[local] Existing Instance isort_order.
#[local] Existing Instance range_id.
#[local] Existing Instance no_codecs.

Example jammy_list :
  let f := "archive.ubuntu.com_ubuntu_dists_jammy_main_binary-amd64_Packages.lz4" in
  (isPackagesFile f, isSourcesFile f, extractRepoFromFilename f) = (true, false, "archive.ubuntu.com/ubuntu").
Proof. vm_compute. reflexivity. Qed.

Lemma list_names_agree_witness :
  extractRepoFromFilename (list_name "h/debian/dists/sid/main/binary-amd64/Packages.xz") = "h/debian".
Proof.
  exact (list_names_agree "http://" "h/debian" "sid/main/binary-amd64/Packages.xz" (or_introl eq_refl) eq_refl).
Defined.

(** An archive the index lists, one it does not, one with a listed name but other
    bytes, and a partial download. *)
Definition good_io : Cache.IO := Cache.mkIO 1000 None (λ _, true) (λ _, true).
Definition archive_of (data : string) : AptArchives.Archive :=
  AptArchives.mkArchive true (Some data) (Some (Cache.mkPutData [data] true (λ _, None) "r")) good_io.
Definition ex_files (path : string) : AptArchives.Archive :=
  if HasSuffix path "/vim_9.0+deb12_amd64.deb" then archive_of "alpha" else archive_of "other".
Definition ex_dir : list DirEntry :=
  [("lock", false); ("partial", true); ("evil_1_amd64.deb", false); ("vim_9.0+deb12_amd64.deb", false)].
Definition ex_index : PkgIndex.Index :=
  (PkgIndex.LoadFromData (print_packages [ex_entry "h/debian" (HashBytes "alpha")]) "http://h/debian/dists/sid/main/binary-amd64/Packages" PkgIndex.New).1.
Definition ex_cache : Cache.Cache := Cache.mkCache "/c" 100 0 0 ∅ ∅ ∅ ∅ 0.

Lemma ex_index_inv : PkgIndexSys.inv ex_index.
Proof. eapply load_step_inv; [apply step_data|apply inv_empty]. Qed.

Lemma empty_cache_inv : CacheFacts.Inv ex_cache [].
Proof.
  constructor.
  - done.
  - intros h x _. cbn [ex_cache Cache.disk]. by rewrite lookup_empty.
  - intros h r. cbn [ex_cache Cache.packages]. by rewrite lookup_empty.
  - split; [|by intros tr ?%elem_of_nil]. intros h. done.
Qed.

Example one_imported :
  (AptArchives.Import StatDir (Some ex_dir) ex_files (λ _, false) "/var/cache/apt/archives" ex_index ex_cache).1
  = (Some (AptArchives.mkImport 2 1 0 1 0), true).
Proof. vm_compute. reflexivity. Qed.

Lemma import_accounted_witness :
  ∃ r ok c', AptArchives.Import StatDir (Some ex_dir) ex_files (λ _, false) "/var/cache/apt/archives" ex_index ex_cache = (Some r, ok, c') ∧
    CacheFacts.Inv c' [].
Proof.
  destruct (import_accounted ex_files ltac:(intros path h; unfold ex_files; destruct (HasSuffix path _); reflexivity)
    ex_dir (λ _, false) "/var/cache/apt/archives" ex_index [] ex_cache ex_index_inv empty_cache_inv) as (r & ok & c' & He & Hi & _).
  exists r, ok, c'. split; [exact He|exact Hi].
Defined.
End AptLocalSys.
