(* ===== verification/Release.v ===== *)
(** * internal/release and internal/gpg: signed Release files

    release.go parses the body of a Release file into the hashes it vouches for;
    gpg/verify.go checks the signature of an InRelease or a detached Release.gpg.
    The OpenPGP library is a parameter, and so is [time.Parse], whose result for a
    zone abbreviation depends on the local time zone. *)

From S2P Require Import Prelude GoStd GoText.
From Stdlib Require Import Ascii.
Open Scope Z_scope.

(** ** Parsing *)
Module Release.

Record FileHash := mkFileHash { fh_SHA256 : string; fh_Size : Z }.

(** The zero time of [ValidUntil] is [None]. *)
Record Release := mkRelease {
  Origin : string; Suite : string; Codename : string; ValidUntil : option Z; AcquireByHash : bool;
  SHA256 : gmap string FileHash;
  hashSet : gset string;
}.

Inductive ParseErr := EScanner | ErrNoSHA256.

Definition maxReleaseSize : Z := 32 * 1024 * 1024.

Class GoTime := { time_Parse : string → string → option Z }.

(** [strings.EqualFold] with an ASCII [t]: besides the other case, the long s and
    the Kelvin sign fold to a letter of [t]. *)
Fixpoint EqualFold (s t : string) : bool :=
  match t with
  | EmptyString => String.eqb s ""
  | String b t =>
      match s with
      | EmptyString => false
      | String a s' =>
          (Ascii.eqb (ascii_lower a) (ascii_lower b) && EqualFold s' t)
          || (Ascii.eqb (ascii_lower b) "s" && HasPrefix s (String (byte_of 197) (String (byte_of 191) ""))
              && EqualFold (str_drop 2 s) t)
          || (Ascii.eqb (ascii_lower b) "k"
              && HasPrefix s (String (byte_of 226) (String (byte_of 132) (String (byte_of 170) "")))
              && EqualFold (str_drop 3 s) t)
      end
  end.

Example EqualFold_ex : map (λ s, EqualFold s "yes") ["yes"; "YeS"; "no"; "yess"; "ye"] = [true; true; false; false; false].
Proof. reflexivity. Qed.

Section parse.
Context `{GoUnicode, GoTime}.

Definition releaseTimeLayouts : list string :=
  ["Mon, 02 Jan 2006 15:04:05 MST"; "Mon, 02 Jan 2006 15:04:05 -0700"; "02 Jan 2006 15:04:05 MST"].

Definition parseReleaseTime (v : string) : option Z := head (omap (λ layout, time_Parse layout v) releaseTimeLayouts).

Definition HasHash (hexSHA256 : string) (r : Release) : bool := bool_decide (ToLower hexSHA256 ∈ hashSet r).

(** The key and value of a line with a colon. *)
Definition splitField (line : string) : option (string * string) :=
  let '(before, after, found) := Cut ":" line in
  if found then Some (TrimSpace before, TrimSpace after) else None.

Definition indented (line : string) : bool :=
  match line with String c _ => Ascii.eqb c " " || Ascii.eqb c TAB | EmptyString => false end.

(** The path and hash of an entry line of a hash section. *)
Definition entry_of (line : string) : option (string * FileHash) :=
  match Fields line with
  | f0 :: f1 :: f2 :: _ => Some (f2, mkFileHash (ToLower f0) (ParseInt f1).1)
  | _ => None
  end.

Definition add_entry (e : string * FileHash) (r : Release) : Release :=
  mkRelease (Origin r) (Suite r) (Codename r) (ValidUntil r) (AcquireByHash r)
    (<[e.1 := e.2]> (SHA256 r)) ({[fh_SHA256 e.2]} ∪ hashSet r).

Definition set_header (key val : string) (r : Release) : Release :=
  let '(mkRelease o s c v a m h) := r in
  if String.eqb key "Origin" then mkRelease val s c v a m h
  else if String.eqb key "Suite" then mkRelease o val c v a m h
  else if String.eqb key "Codename" then mkRelease o s val v a m h
  else if String.eqb key "Acquire-By-Hash" then mkRelease o s c v (EqualFold val "yes") m h
  else if String.eqb key "Valid-Until" then
    mkRelease o s c (match parseReleaseTime val with Some t => Some t | None => v end) a m h
  else r.

(** One line; the flag is [inSHA256]. *)
Definition parse_line (st : bool * Release) (line : string) : bool * Release :=
  let '(inSHA256, r) := st in
  if String.eqb line "" then st
  else if indented line then
    (inSHA256, if inSHA256 then match entry_of line with Some e => add_entry e r | None => r end else r)
  else
    match splitField line with
    | None => (false, r)
    | Some (key, val) => if String.eqb key "SHA256" then (true, r) else (false, set_header key val r)
    end.

Definition empty_release : Release := mkRelease "" "" "" None false ∅ ∅.

Definition Parse (body : string) : res ParseErr Release :=
  let '(lines, ok) := scan maxReleaseSize body true in
  let '(_, r) := foldl parse_line (false, empty_release) lines in
  if negb ok then Err EScanner
  else if decide (SHA256 r = ∅) then Err ErrNoSHA256
  else Ok r.

(** ** What a Release lists

    An entry is an indented line below a [SHA256] header with only blank and
    indented lines in between. *)

Definition continues (line : string) : bool := String.eqb line "" || indented line.

Definition is_header (line : string) : bool :=
  negb (continues line) && match splitField line with Some (k, _) => String.eqb k "SHA256" | None => false end.

Definition in_section (lines : list string) (i : nat) : Prop :=
  ∃ j l, (j < i)%nat ∧ lines !! j = Some l ∧ is_header l = true ∧
    ∀ k l', (j < k < i)%nat → lines !! k = Some l' → continues l' = true.

Definition entry_at (lines : list string) (i : nat) (e : string * FileHash) : Prop :=
  ∃ l, lines !! i = Some l ∧ indented l = true ∧ entry_of l = Some e ∧ in_section lines i.

Lemma set_header_lists key val r : SHA256 (set_header key val r) = SHA256 r ∧ hashSet (set_header key val r) = hashSet r.
Proof. destruct r. unfold set_header. by repeat case_match. Qed.

Lemma indented_nonempty l : indented l = true → l ≠ "".
Proof. by destruct l. Qed.

(** What is true of the state after some lines. *)
Record lists (lines : list string) (st : bool * Release) : Prop := {
  li_flag : st.1 = true ↔ in_section lines (length lines);
  li_hashes : ∀ h, h ∈ hashSet st.2 ↔ ∃ i e, entry_at lines i e ∧ fh_SHA256 e.2 = h;
  li_files : ∀ p fh, SHA256 st.2 !! p = Some fh ↔
    ∃ i, entry_at lines i (p, fh) ∧ ∀ i' fh', entry_at lines i' (p, fh') → (i' <= i)%nat;
}.

Lemma in_section_prefix lines l i : (i <= length lines)%nat → in_section (lines ++ [l]) i ↔ in_section lines i.
Proof.
  intros Hi. split; intros (j & h & Hj & Hl & Hh & Hk); exists j, h; split_and!; try done.
  - by rewrite lookup_app_l in Hl by lia.
  - intros k l' Hkk Hl'. eapply Hk; [done|]. by rewrite lookup_app_l by lia.
  - by rewrite lookup_app_l by lia.
  - intros k l' Hkk Hl'. rewrite lookup_app_l in Hl' by lia. eauto.
Qed.

(** The section after one more line. *)
Lemma in_section_snoc lines l :
  in_section (lines ++ [l]) (length (lines ++ [l])) ↔
  is_header l = true ∨ (continues l = true ∧ in_section lines (length lines)).
Proof.
  rewrite length_app. cbn [length]. split.
  - intros (j & h & Hj & Hl & Hh & Hk). destruct (decide (j = length lines)) as [->|Hne].
    { rewrite lookup_app_r, Nat.sub_diag in Hl by lia. injection Hl as <-. by left. }
    right. split.
    + apply (Hk (length lines)); [lia|]. by rewrite lookup_app_r, Nat.sub_diag by lia.
    + rewrite lookup_app_l in Hl by lia. exists j, h. split_and!; [lia|done|done|].
      intros k l' Hkk Hl'. apply (Hk k); [lia|]. by rewrite lookup_app_l by lia.
  - intros [Hh|[Hc (j & h & Hj & Hl & Hh & Hk)]].
    + exists (length lines), l. split_and!; [lia|by rewrite lookup_app_r, Nat.sub_diag by lia|done|lia].
    + exists j, h. split_and!; [lia|by rewrite lookup_app_l by lia|done|].
      intros k l' Hkk Hl'. destruct (decide (k = length lines)) as [->|Hne].
      * rewrite lookup_app_r, Nat.sub_diag in Hl' by lia. by injection Hl' as <-.
      * rewrite lookup_app_l in Hl' by lia. apply (Hk k); [lia|done].
Qed.

Lemma entry_at_snoc lines l i e :
  entry_at (lines ++ [l]) i e ↔
  entry_at lines i e ∨ (i = length lines ∧ indented l = true ∧ entry_of l = Some e ∧ in_section lines i).
Proof.
  unfold entry_at. split.
  - intros (l' & Hl & Hind & He & Hs). destruct (decide (i < length lines)%nat) as [Hi|Hi].
    + left. exists l'. rewrite lookup_app_l in Hl by done. rewrite in_section_prefix in Hs by lia. done.
    + right. rewrite lookup_app_r in Hl by lia. apply list_lookup_singleton_Some in Hl as [Hz <-].
      assert (i = length lines) as -> by lia. rewrite in_section_prefix in Hs by done. done.
  - intros [(l' & Hl & Hind & He & Hs)|(-> & Hind & He & Hs)].
    + pose proof (lookup_lt_Some _ _ _ Hl). exists l'. rewrite lookup_app_l, in_section_prefix by lia. done.
    + exists l. rewrite lookup_app_r, Nat.sub_diag, in_section_prefix by lia. done.
Qed.

Lemma entry_at_bound lines i e : entry_at lines i e → (i < length lines)%nat.
Proof. intros (l & Hl & _). by eapply lookup_lt_Some. Qed.

(** A line that is not an entry of the section adds none. *)
Lemma lists_skip lines l st b r :
  lists lines st → hashSet r = hashSet st.2 → SHA256 r = SHA256 st.2 →
  (b = true ↔ in_section (lines ++ [l]) (length (lines ++ [l]))) →
  (∀ e, indented l = true → entry_of l = Some e → in_section lines (length lines) → False) →
  lists (lines ++ [l]) (b, r).
Proof.
  intros [Hf Hh Hs] Hrh Hrs Hb Hno. constructor; cbn [fst snd]; [done| |].
  - intros h. rewrite Hrh, Hh. setoid_rewrite entry_at_snoc. naive_solver.
  - intros p fh. rewrite Hrs, Hs. setoid_rewrite entry_at_snoc. naive_solver.
Qed.

Lemma lists_entry lines l st e :
  lists lines st → st.1 = true → indented l = true → entry_of l = Some e →
  lists (lines ++ [l]) (true, add_entry e st.2).
Proof.
  intros [Hf Hh Hs] Hin Hind He. pose proof (proj1 Hf Hin) as Hsec.
  assert (continues l = true) as Hc by (unfold continues; by rewrite Hind, orb_true_r).
  constructor; cbn [fst snd add_entry hashSet SHA256].
  - rewrite in_section_snoc. naive_solver.
  - intros h. rewrite elem_of_union, elem_of_singleton, Hh. setoid_rewrite entry_at_snoc. naive_solver.
  - intros p fh. destruct e as [p0 f0]. cbn [fst snd]. rewrite lookup_insert_Some, Hs. split.
    + intros [[-> ->]|[Hne (i & Hi & Hmax)]].
      * exists (length lines). rewrite entry_at_snoc. split; [by right|].
        intros i' fh' [Hi'%entry_at_bound|(-> & _)]%entry_at_snoc; lia.
      * exists i. rewrite entry_at_snoc. split; [by left|].
        intros i' fh' [Hi'|(-> & _ & He' & _)]%entry_at_snoc; [eauto|congruence].
    + intros (i & Hi%entry_at_snoc & Hmax). destruct (decide (p0 = p)) as [->|Hne].
      * left. split; [done|]. destruct Hi as [Hi|(-> & _ & He' & _)]; [|congruence].
        pose proof (entry_at_bound _ _ _ Hi).
        assert (length lines <= i)%nat; [|lia]. apply (Hmax _ f0). apply entry_at_snoc. by right.
      * right. split; [done|]. destruct Hi as [Hi|(-> & _ & He' & _)]; [|congruence].
        exists i. split; [done|]. intros i' fh' Hi'. apply (Hmax _ fh'). apply entry_at_snoc. by left.
Qed.

Lemma lists_line lines l st : lists lines st → lists (lines ++ [l]) (parse_line st l).
Proof.
  intros Hst. pose proof (li_flag _ _ Hst) as Hf. destruct st as [b r]. cbn [fst] in Hf. unfold parse_line.
  destruct (String.eqb_spec l "") as [->|Hl].
  { eapply lists_skip; [done..| |done]. rewrite in_section_snoc, Hf. naive_solver. }
  destruct (indented l) eqn:Hind.
  - assert (continues l = true) as Hc by (unfold continues; by rewrite Hind, orb_true_r).
    assert (b = true ↔ in_section (lines ++ [l]) (length (lines ++ [l]))) as Hb.
    { rewrite in_section_snoc, Hf. unfold is_header. rewrite Hc. naive_solver. }
    destruct b; [destruct (entry_of l) as [e|] eqn:He|].
    + by apply (lists_entry lines l (true, r)).
    + eapply lists_skip; [done..|naive_solver].
    + eapply lists_skip; [done..|]. intros e _ _ Hs. by apply Hf in Hs.
  - assert (continues l = false) as Hc.
    { unfold continues. rewrite Hind. by rewrite (proj2 (String.eqb_neq _ _) Hl). }
    destruct (splitField l) as [[k v]|] eqn:Hsp; [destruct (String.eqb k "SHA256") eqn:Hk|].
    all: eapply lists_skip; [done|try apply set_header_lists; done|try apply set_header_lists; done| |congruence].
    all: rewrite in_section_snoc; unfold is_header; rewrite Hc, Hsp, ?Hk; naive_solver.
Qed.

Lemma lists_all lines : lists lines (foldl parse_line (false, empty_release) lines).
Proof.
  induction lines as [|l lines IH] using rev_ind; [|rewrite foldl_app; by apply lists_line].
  constructor; cbn.
  - split; [done|]. intros (j & l & Hj & _). lia.
  - intros h. split; [set_solver|]. by intros (i & e & (l & Hl & _) & _).
  - intros p fh. split; [by rewrite lookup_empty|]. by intros (i & (l & Hl & _) & _).
Qed.

Lemma Parse_Ok body r :
  Parse body = Ok r →
  let lines := (scan maxReleaseSize body true).1 in
  (scan maxReleaseSize body true).2 = true ∧ r = (foldl parse_line (false, empty_release) lines).2 ∧ SHA256 r ≠ ∅.
Proof.
  unfold Parse. destruct (scan _ _ _) as [lines ok]. cbn [fst snd].
  destruct (foldl _ _ _) as [b r0]. destruct ok; [|done]. cbn [negb]. case_decide; [done|]. by intros [= ->].
Qed.

Lemma Parse_lists body r :
  Parse body = Ok r →
  let lines := (scan maxReleaseSize body true).1 in
  (∀ h, HasHash h r = true ↔ ∃ i e, entry_at lines i e ∧ fh_SHA256 e.2 = ToLower h) ∧
  (∀ p fh, SHA256 r !! p = Some fh ↔
     ∃ i, entry_at lines i (p, fh) ∧ ∀ i' fh', entry_at lines i' (p, fh') → (i' <= i)%nat).
Proof.
  intros (_ & Hr & _)%Parse_Ok lines. destruct (lists_all lines) as [_ Hh Hs]. fold lines in Hr. rewrite <- Hr in *.
  split; [|done]. intros h. unfold HasHash. by rewrite bool_decide_eq_true, Hh.
Qed.

(** C21: what the parser of Release files makes of a body is what the body says: a hash
    is known exactly when a line of a SHA256 section starts with it (in either
    case), whatever the MD5Sum or SHA1 sections contain, and a path maps to the
    last such line that names it. *)
Theorem release_lists body r :
  Parse body = Ok r →
  let lines := (scan maxReleaseSize body true).1 in
  (∀ h, HasHash h r = true ↔ ∃ i e, entry_at lines i e ∧ fh_SHA256 e.2 = ToLower h) ∧
  (∀ p fh, SHA256 r !! p = Some fh ↔
     ∃ i, entry_at lines i (p, fh) ∧ ∀ i' fh', entry_at lines i' (p, fh') → (i' <= i)%nat).
Proof. apply Parse_lists. Qed.

(** A listed path's hash is one of the listed hashes. *)
Lemma listed_hash body r p fh : Parse body = Ok r → SHA256 r !! p = Some fh → fh_SHA256 fh ∈ hashSet r.
Proof.
  intros (_ & Hr & _)%Parse_Ok Hp. destruct (lists_all (scan maxReleaseSize body true).1) as [_ Hh Hs].
  rewrite <- Hr in *. apply Hh. apply Hs in Hp as (i & Hi & _). by exists i, (p, fh).
Qed.
End parse.

#[local] Existing Instance ascii_only.

Lemma release_lists_witness :
  let time := {| time_Parse _ _ := None |} in
  ∃ r, @Parse ascii_only time (unlines ["MD5Sum:"; " 00 1 a"; "SHA256:"; " AB 7 main/Packages"; ""; " cd 8 a"; "SHA512:"; " ee 9 a"]) = Ok r ∧
       HasHash "ab" r = true ∧ HasHash "CD" r = true ∧ HasHash "ee" r = false ∧ HasHash "00" r = false ∧
       ∃ i, @entry_at ascii_only ["MD5Sum:"; " 00 1 a"; "SHA256:"; " AB 7 main/Packages"; ""; " cd 8 a"; "SHA512:"; " ee 9 a"] i
              ("main/Packages", mkFileHash "ab" 7).
Proof.
  intros time.
  set (lines := ["MD5Sum:"; " 00 1 a"; "SHA256:"; " AB 7 main/Packages"; ""; " cd 8 a"; "SHA512:"; " ee 9 a"]).
  destruct (@Parse ascii_only time (unlines lines)) as [r|] eqn:Hp; [|vm_compute in Hp; discriminate].
  destruct (@release_lists ascii_only time (unlines lines) r Hp) as [_ Hf]. exists r. split; [reflexivity|].
  assert (@Parse ascii_only time (unlines lines) = Ok r ∧ scan maxReleaseSize (unlines lines) true = (lines, true)) as [Hr Hs]
    by (split; [exact Hp|vm_compute; reflexivity]).
  rewrite Hs in Hf. vm_compute in Hr. injection Hr as <-. split_and!; try (vm_compute; reflexivity).
  destruct (proj1 (Hf "main/Packages" (mkFileHash "ab" 7)) ltac:(vm_compute; reflexivity)) as (i & Hi & _). by exists i.
Defined.

End Release.

(** ** internal/gpg: keyrings and signatures *)
Module Gpg.

(** The OpenPGP library: the keys of a file, the text and signature of a
    clearsigned message, and whether a signature over a text is by one of the
    keys. *)
Class OpenPGP := {
  Entity : Type;
  ReadKeyRing : string → option (list Entity);
  ReadArmoredKeyRing : string → option (list Entity);
  clearsign_Decode : string → option (string * string);
  CheckDetachedSignature : list Entity → string → string → bool;
  CheckArmoredDetachedSignature : list Entity → string → string → bool;
}.

(** What the file system answers: whether a path is a directory, the entries of a
    directory (and whether each is one), the content of a file. *)
Record FS := mkFS {
  os_Stat : string → option bool;
  os_ReadDir : string → option (list (string * bool));
  os_ReadFile : string → option string;
}.

(** [filepath.Ext]: from the last dot of the last element. *)
Definition filepath_Ext (p : string) : string :=
  let last := match LastIndexByte slash p with Some i => str_drop (S i) p | None => p end in
  match LastIndexByte "." last with Some i => str_drop i last | None => "" end.

Fixpoint TrimLeft (cutset : ascii → bool) (s : string) : string :=
  match s with
  | EmptyString => EmptyString
  | String a s' => if cutset a then TrimLeft cutset s' else s
  end.

Definition isArmored (data : string) : bool :=
  HasPrefix (TrimLeft (λ a, Ascii.eqb a " " || Ascii.eqb a TAB || Ascii.eqb a CR || Ascii.eqb a LF) data) "-----BEGIN PGP".

Definition DefaultAPTKeyringPaths : list string :=
  ["/etc/apt/trusted.gpg"; "/etc/apt/trusted.gpg.d"; "/usr/share/keyrings"; "/etc/apt/keyrings"].

Section keyring.
Context `{GoUnicode, OpenPGP}.

(** A nil keyring is [None]. *)
Abbreviation Keyring := (option (list Entity)).

Definition Empty (k : Keyring) : bool := match k with Some (_ :: _) => false | _ => true end.
Definition Count (k : Keyring) : Z := match k with Some es => Z.of_nat (length es) | None => 0 end.
Definition Entities (k : Keyring) : list Entity := default [] k.

Definition keyFileExt (ext : string) : bool := existsb (String.eqb ext) [".gpg"; ".asc"; ".pgp"; ".pub"].

Definition key_files (fs : FS) (p : string) : list string :=
  match os_Stat fs p with
  | None => []
  | Some false => [p]
  | Some true =>
      match os_ReadDir fs p with
      | None => []
      | Some entries =>
          (λ e, filepath_Join [p; e.1]) <$>
            List.filter (λ e : string * bool, negb e.2 && keyFileExt (ToLower (filepath_Ext e.1))) entries
      end
  end.

Definition collectKeyFiles (fs : FS) (paths : list string) : list string := concat (key_files fs <$> paths).

(** The entities of a file; [None] is an error. *)
Definition file_keys (fs : FS) (path : string) : option (list Entity) :=
  match os_ReadFile fs path with
  | None => None
  | Some data =>
      if String.eqb data "" then Some []
      else if isArmored data then ReadArmoredKeyRing data else ReadKeyRing data
  end.

Definition loadFile (fs : FS) (path : string) (k : list Entity) : option Z * list Entity :=
  match file_keys fs path with
  | None => (None, k)
  | Some el => (Some (Z.of_nat (length el)), k ++ el)
  end.

Definition Load (fs : FS) (paths : list string) : Keyring :=
  Some (foldl (λ k f, (loadFile fs f k).2) [] (collectKeyFiles fs paths)).

Definition LoadAPT (fs : FS) (extra : list string) : Keyring :=
  Load fs (DefaultAPTKeyringPaths ++ List.filter (λ e, negb (String.eqb (TrimSpace e) "")) extra).

Inductive VerifyErr := ErrNoKeys | ErrNotClearsigned | EBadSignature.

Definition VerifyClearsigned (data : string) (k : Keyring) : res VerifyErr string :=
  if Empty k then Err ErrNoKeys
  else match clearsign_Decode data with
       | None => Err ErrNotClearsigned
       | Some (text, sig) => if CheckDetachedSignature (Entities k) text sig then Ok text else Err EBadSignature
       end.

Definition VerifyDetached (body sig : string) (k : Keyring) : res VerifyErr unit :=
  if Empty k then Err ErrNoKeys
  else if (if isArmored sig then CheckArmoredDetachedSignature (Entities k) body sig
           else CheckDetachedSignature (Entities k) body sig)
       then Ok tt else Err EBadSignature.

(** A text the keys of the keyring have signed. *)
Definition signed (k : Keyring) (text : string) : Prop :=
  ∃ sig, CheckDetachedSignature (Entities k) text sig = true ∨ CheckArmoredDetachedSignature (Entities k) text sig = true.

Lemma VerifyClearsigned_signed data k text : VerifyClearsigned data k = Ok text → Empty k = false ∧ signed k text.
Proof.
  unfold VerifyClearsigned. destruct (Empty k); [done|]. destruct (clearsign_Decode data) as [[t s]|]; [|done].
  destruct (CheckDetachedSignature _ t s) eqn:Hs; [|done]. intros [= <-]. split; [done|]. exists s. by left.
Qed.

Lemma VerifyDetached_signed body sig k : VerifyDetached body sig k = Ok tt → Empty k = false ∧ signed k body.
Proof.
  unfold VerifyDetached. destruct (Empty k); [done|].
  destruct (isArmored sig); (destruct (_ : bool) eqn:Hs; [|done]); intros _; (split; [done|]); exists sig; auto.
Qed.

(** One unreadable or malformed file does not keep the keys of the others out. *)
Lemma Load_entities fs paths :
  Entities (Load fs paths) = concat ((λ f, default [] (file_keys fs f)) <$> collectKeyFiles fs paths).
Proof.
  unfold Load. cbn [Entities default]. generalize (collectKeyFiles fs paths). intros files.
  assert (∀ k, foldl (λ k f, (loadFile fs f k).2) k files = k ++ concat ((λ f, default [] (file_keys fs f)) <$> files))
    as Hg; [|apply Hg].
  induction files as [|f files IH]; intros k; cbn; [by rewrite app_nil_r|]. rewrite IH.
  unfold loadFile. destruct (file_keys fs f); cbn; [by rewrite <- app_assoc|done].
Qed.
End keyring.
End Gpg.
