(* ===== verification/Timeouts.v ===== *)
(** * internal/timeouts: adaptive timeouts

    timeouts.go: the manager's per-operation timeouts and how successes,
    failures and the periodic decay move them, the timeouts for a transfer of a
    given size, and the ring buffer of observed durations.  Durations are int64
    nanoseconds; the clock is an argument. *)

From S2P Require Import Prelude GoNum.
From Stdlib Require Import SpecFloat.
Open Scope Z_scope.
Open Scope go_scope.

Module Timeouts.

Definition DefaultDHTLookup : Z := 100 * Millisecond.
Definition DefaultDHTLookupFull : Z := 5 * Second.
Definition DefaultPeerConnect : Z := 2 * Second.
Definition DefaultPeerFirstByte : Z := 5 * Second.
Definition DefaultPeerStall : Z := 10 * Second.
Definition DefaultMirrorFallback : Z := 200 * Millisecond.
Definition MinTimeout : Z := 50 * Millisecond.
Definition MaxTimeout : Z := 60 * Second.
Definition BytesPerSecondBase : Z := 1024 * 1024.

Definition OpDHTLookup := "dht_lookup".
Definition OpDHTLookupFull := "dht_lookup_full".
Definition OpPeerConnect := "peer_connect".
Definition OpPeerFirstByte := "peer_first_byte".
Definition OpPeerTransfer := "peer_transfer".
Definition OpMirrorFetch := "mirror_fetch".
Definition OpChunkDownload := "chunk_download".
Definition OpTunnelConnect := "tunnel_connect".
Definition OpTunnelIdle := "tunnel_idle".

Record Config := mkConfig {
  DHTLookup : Z; DHTLookupFull : Z; PeerConnect : Z; PeerFirstByte : Z; PeerStall : Z; MirrorFallback : Z;
  AdaptiveEnabled : bool; BytesPerSecond : Z;
}.

Definition DefaultConfig : Config :=
  mkConfig DefaultDHTLookup DefaultDHTLookupFull DefaultPeerConnect DefaultPeerFirstByte DefaultPeerStall
           DefaultMirrorFallback true BytesPerSecondBase.

Record adaptiveTimeout := mkTimeout {
  baseTimeout : Z; currentTimeout : Z; avgDuration : Z;
  successCount : Z; failureCount : Z; timeoutCount : Z; lastUpdated : Z;
}.

Record Manager := mkManager { timeouts : gmap string adaptiveTimeout; config : Config }.

Definition initTimeout (now : Z) (m : gmap string adaptiveTimeout) (e : string * Z) : gmap string adaptiveTimeout :=
  <[e.1 := mkTimeout e.2 e.2 0 0 0 0 now]> m.

Definition NewManager (cfg : option Config) (now : Z) : Manager :=
  let cfg := default DefaultConfig cfg in
  mkManager
    (foldl (initTimeout now) ∅
       [(OpDHTLookup, DHTLookup cfg); (OpDHTLookupFull, DHTLookupFull cfg); (OpPeerConnect, PeerConnect cfg);
        (OpPeerFirstByte, PeerFirstByte cfg); (OpPeerTransfer, PeerStall cfg); (OpMirrorFetch, 30 * Second);
        (OpChunkDownload, 30 * Second); (OpTunnelConnect, 10 * Second); (OpTunnelIdle, 120 * Second)])
    cfg.

Definition Get (op : string) (m : Manager) : Z :=
  match timeouts m !! op with Some t => currentTimeout t | None => 30 * Second end.

Definition clampTimeout (d : Z) : Z :=
  if d <? MinTimeout then MinTimeout else if MaxTimeout <? d then MaxTimeout else d.

Definition max (a b : Z) : Z := if b <? a then a else b.

Section float.
Context `{FloatConv}.

(** [time.Duration(float64(d) * c)]. *)
Definition scale (d : Z) (c : float64) : Z := f_to_int64 (fmul (f_of_Z d) c).

Definition GetForSize (op : string) (sizeBytes : Z) (m : Manager) : Z :=
  let base := Get op m in
  if (sizeBytes <=? 0) || (BytesPerSecond (config m) <=? 0) then base
  else
    let sizeTimeout := f_to_int64 (fmul (fdiv (f_of_Z sizeBytes) (f_of_Z (BytesPerSecond (config m)))) (f_of_Z Second)) in
    clampTimeout (scale (base +₆₄ sizeTimeout) (f_dec 15 10)).

(** The update of one operation's record, under the lock. *)
Definition update (op : string) (f : adaptiveTimeout → adaptiveTimeout) (m : Manager) : Manager :=
  if AdaptiveEnabled (config m) then mkManager (alter f op (timeouts m)) (config m) else m.

Definition recordSuccess (duration now : Z) (t : adaptiveTimeout) : adaptiveTimeout :=
  let avg := if avgDuration t =? 0 then duration
             else f_to_int64 (fadd (fmul (f_dec 2 10) (f_of_Z duration)) (fmul (f_dec 8 10) (f_of_Z (avgDuration t)))) in
  let cur := if duration <? Z.quot (currentTimeout t) 2 then scale (currentTimeout t) (f_dec 9 10) else currentTimeout t in
  let avgWithMargin := scale avg (f_of_Z 2) in
  let minTimeout := if baseTimeout t <? avgWithMargin then avgWithMargin else baseTimeout t in
  mkTimeout (baseTimeout t) (clampTimeout (max cur minTimeout)) avg
            (successCount t +₆₄ 1) (failureCount t) (timeoutCount t) now.

Definition RecordSuccess (op : string) (duration now : Z) : Manager → Manager := update op (recordSuccess duration now).

Definition recordFailure (now : Z) (t : adaptiveTimeout) : adaptiveTimeout :=
  mkTimeout (baseTimeout t) (clampTimeout (scale (currentTimeout t) (f_dec 15 10))) (avgDuration t)
            (successCount t) (failureCount t +₆₄ 1) (timeoutCount t) now.

Definition RecordFailure (op : string) (now : Z) : Manager → Manager := update op (recordFailure now).

Definition recordTimeout (now : Z) (t : adaptiveTimeout) : adaptiveTimeout :=
  mkTimeout (baseTimeout t) (clampTimeout (scale (currentTimeout t) (f_of_Z 2))) (avgDuration t)
            (successCount t) (failureCount t) (timeoutCount t +₆₄ 1) now.

Definition RecordTimeout (op : string) (now : Z) : Manager → Manager := update op (recordTimeout now).

Definition Reset (now : Z) (m : Manager) : Manager :=
  mkManager ((λ t, mkTimeout (baseTimeout t) (baseTimeout t) 0 0 0 0 now) <$> timeouts m) (config m).

Definition decay (factor : float64) (t : adaptiveTimeout) : adaptiveTimeout :=
  let diff := f_of_Z (currentTimeout t -₆₄ baseTimeout t) in
  mkTimeout (baseTimeout t) (clampTimeout (f_to_int64 (fsub (f_of_Z (currentTimeout t)) (fmul diff factor))))
            (avgDuration t) (successCount t) (failureCount t) (timeoutCount t) (lastUpdated t).

Definition ResetDecay (factor : float64) (m : Manager) : Manager :=
  let factor := if SFleb factor (f_of_Z 0) || SFleb (f_of_Z 1) factor then f_dec 1 10 else factor in
  mkManager (decay factor <$> timeouts m) (config m).

Definition CalculateTransferTimeout (sizeBytes bytesPerSecond : Z) (margin : float64) : Z :=
  let bytesPerSecond := if bytesPerSecond <=? 0 then BytesPerSecondBase else bytesPerSecond in
  let margin := if SFleb margin (f_of_Z 0) then f_of_Z 2 else margin in
  let seconds := fdiv (f_of_Z sizeBytes) (f_of_Z bytesPerSecond) in
  clampTimeout (f_to_int64 (fmul (fmul seconds margin) (f_of_Z Second)) +₆₄ 5 * Second).
End float.

(** [GetStats]: a copy of an operation's record. *)
Definition GetStats (op : string) (m : Manager) : option (string * adaptiveTimeout) := (op,.) <$> timeouts m !! op.
Definition GetAllStats (m : Manager) : list (string * adaptiveTimeout) := map_to_list (timeouts m).

(** ** DurationTracker *)

Record DurationTracker := mkTracker { durations : list Z; maxSamples : Z; writeIdx : Z }.

Definition NewDurationTracker (max : Z) : DurationTracker := mkTracker [] (if max <=? 0 then 100 else max) 0.

Definition Record_ (d : Z) (dt : DurationTracker) : DurationTracker :=
  mkTracker (if Z.of_nat (length (durations dt)) <? maxSamples dt then durations dt ++ [d]
             else <[Z.to_nat (writeIdx dt) := d]> (durations dt))
            (maxSamples dt) ((writeIdx dt + 1) mod maxSamples dt).

(** The inner loop: the element at [j] is swapped down while the one before it
    is larger. *)
Fixpoint sift (j : nat) (l : list Z) : list Z :=
  match j with
  | O => l
  | S j' =>
      match l !! j', l !! S j' with
      | Some a, Some b => if b <? a then sift j' (<[j' := b]> (<[S j' := a]> l)) else l
      | _, _ => l
      end
  end.

(** The outer loop, from [i] to the end. *)
Definition insertion_sort (l : list Z) : list Z := foldl (λ l i, sift i l) l (seq 1 (length l - 1)).

(** An index out of range panics ([None]). *)
Definition Percentile (p : float64) (dt : DurationTracker) : option Z :=
  match durations dt with
  | [] => Some 0
  | l =>
      let sorted := insertion_sort l in
      let idx := f_floor (fmul (fdiv p (f_of_Z 100)) (f_of_Z (Z.of_nat (length sorted) - 1))) in
      if idx <? 0 then None else sorted !! Z.to_nat idx
  end.

Definition SuggestedTimeout `{FloatConv} (margin : float64) (dt : DurationTracker) : option Z :=
  match Percentile (f_of_Z 95) dt with
  | None => None
  | Some p95 =>
      if p95 =? 0 then Some 0
      else Some (f_to_int64 (fmul (f_of_Z p95) (if SFleb margin (f_of_Z 0) then f_dec 15 10 else margin)))
  end.
End Timeouts.
