(* ===== verification/TimeoutsSys.v ===== *)
(** * Correctness of the adaptive timeouts *)

From S2P Require Import Prelude GoNum Timeouts.
From Stdlib Require Import SpecFloat Sorting.Sorted.
Open Scope Z_scope.
Open Scope go_scope.

Module TimeoutsSys.
Import Timeouts.

(** ** The bounds *)

Definition bounded (d : Z) : Prop := MinTimeout <= d <= MaxTimeout.

Lemma clampTimeout_bounded d : bounded (clampTimeout d).
Proof. unfold clampTimeout, bounded, MinTimeout, MaxTimeout, Millisecond, Second. repeat case_match; blia. Qed.

Lemma clampTimeout_id d : bounded d → clampTimeout d = d.
Proof. unfold clampTimeout, bounded. intros. repeat case_match; blia. Qed.

Lemma clampTimeout_mono a b : a <= b → clampTimeout a <= clampTimeout b.
Proof. unfold clampTimeout, MinTimeout, MaxTimeout, Millisecond, Second. intros. repeat case_match; blia. Qed.

Section bounds.
Context `{FloatConv}.

Inductive step : Manager → Manager → Prop :=
| step_success op d now m : step m (RecordSuccess op d now m)
| step_failure op now m : step m (RecordFailure op now m)
| step_timeout op now m : step m (RecordTimeout op now m)
| step_reset now m : step m (Reset now m)
| step_decay f m : step m (ResetDecay f m).

(** A timeout is its base value or within the bounds. *)
Definition sane (bases : gmap string Z) (m : Manager) : Prop :=
  (baseTimeout <$> timeouts m) = bases ∧
  map_Forall (λ _ t, currentTimeout t = baseTimeout t ∨ bounded (currentTimeout t)) (timeouts m).

Lemma sane_alter bases m op f :
  (∀ t, baseTimeout (f t) = baseTimeout t ∧ bounded (currentTimeout (f t))) →
  sane bases m → sane bases (update op f m).
Proof.
  intros Hf [Hb Hm]. unfold update. destruct (AdaptiveEnabled _); [|done]. split; cbn [timeouts].
  - rewrite <- Hb. apply map_eq. intros k. rewrite !lookup_fmap. destruct (decide (op = k)) as [<-|Hne].
    + rewrite lookup_alter_eq. destruct (timeouts m !! op) as [t|]; [cbn; f_equal; apply Hf|done].
    + by rewrite lookup_alter_ne.
  - intros k t Hk. destruct (decide (op = k)) as [<-|Hne].
    + rewrite lookup_alter_eq in Hk. apply fmap_Some in Hk as (t0 & _ & ->). right. apply Hf.
    + rewrite lookup_alter_ne in Hk by done. by eapply Hm.
Qed.

Lemma sane_fmap bases m (f : adaptiveTimeout → adaptiveTimeout) :
  (∀ t, baseTimeout (f t) = baseTimeout t ∧ (currentTimeout (f t) = baseTimeout t ∨ bounded (currentTimeout (f t)))) →
  sane bases m → sane bases (mkManager (f <$> timeouts m) (config m)).
Proof.
  intros Hf [Hb Hm]. split; cbn [timeouts].
  - rewrite <- Hb, <- map_fmap_compose. apply map_fmap_ext. intros k t _. apply Hf.
  - intros k t Hk. rewrite lookup_fmap in Hk. apply fmap_Some in Hk as (t0 & _ & ->).
    destruct (Hf t0) as [-> ?]. done.
Qed.

Lemma step_sane bases m m' : step m m' → sane bases m → sane bases m'.
Proof.
  intros []; try (apply sane_alter; intros t; split; [done|apply clampTimeout_bounded]);
    apply sane_fmap; intros t; split; cbn; try done; [by left|right; apply clampTimeout_bounded].
Qed.

Definition bases_of (m : Manager) : gmap string Z := baseTimeout <$> timeouts m.

Lemma NewManager_sane cfg now : sane (bases_of (NewManager cfg now)) (NewManager cfg now).
Proof.
  split; [done|]. unfold NewManager. cbn [timeouts].
  set (l := [_; _; _; _; _; _; _; _; _]). assert (∀ m, map_Forall (λ _ t, currentTimeout t = baseTimeout t ∨ bounded (currentTimeout t)) m →
    map_Forall (λ _ t, currentTimeout t = baseTimeout t ∨ bounded (currentTimeout t)) (foldl (initTimeout now) m l)) as Hl.
  { clearbody l. induction l as [|e l IH]; intros m Hm; [done|]. cbn [foldl]. apply IH.
    apply map_Forall_insert_2; [by left|done]. }
  apply Hl, map_Forall_empty.
Qed.

Lemma reachable_sane cfg now m :
  rtc step (NewManager cfg now) m → sane (bases_of (NewManager cfg now)) m.
Proof.
  intros Hm. pattern m. eapply rtc_ind_r; [apply NewManager_sane| |exact Hm].
  intros y z _ Hyz Hy. by eapply step_sane.
Qed.

(** Whatever is recorded and however often timeouts are reset or decay, each
    operation keeps its base timeout, and its timeout is the base or between
    50 ms and 60 s; with the default configuration it is between 50 ms and 60 s for
    every operation but the tunnel's idle timeout (which starts at 120 s); and
    the timeout for a transfer of known size always is. *)
Theorem timeouts_bounded cfg now m :
  rtc step (NewManager cfg now) m →
  bases_of m = bases_of (NewManager cfg now) ∧
  (∀ op t, timeouts m !! op = Some t → currentTimeout t = baseTimeout t ∨ bounded (currentTimeout t)) ∧
  (cfg = None → ∀ op, op ≠ OpTunnelIdle → bounded (Get op m)) ∧
  (∀ op size, 0 < size → 0 < BytesPerSecond (config m) → bounded (GetForSize op size m)).
Proof.
  intros Hm. destruct (reachable_sane _ _ _ Hm) as [Hb Hs]. split_and!; [done|exact Hs| |].
  - intros -> op Hop. unfold Get. destruct (timeouts m !! op) as [t|] eqn:Ht; [|by vm_compute].
    destruct (Hs op t Ht) as [->|]; [|done].
    assert (bases_of (NewManager None now) !! op = Some (baseTimeout t)) as Hbase.
    { rewrite <- Hb, lookup_fmap, Ht. done. }
    revert Hbase. unfold bases_of. rewrite lookup_fmap. unfold NewManager. cbn [timeouts foldl initTimeout fst snd default].
    intros (t0 & Ht0 & ->)%fmap_Some. unfold initTimeout in Ht0. cbn [fst snd] in Ht0.
    repeat (apply lookup_insert_Some in Ht0 as [[Hk <-]|[_ Ht0]]; [first [congruence|split; vm_compute; discriminate]|]).
    by rewrite lookup_empty in Ht0.
  - intros op size Hsz Hbps. unfold GetForSize.
    replace (_ || _) with false by (symmetry; apply orb_false_intro; blia). apply clampTimeout_bounded.
Qed.

(** After a success the timeout is at least the base, as far as the bounds allow. *)
Lemma success_keeps_base d now t :
  Z.min (baseTimeout t) MaxTimeout <= currentTimeout (recordSuccess d now t).
Proof.
  cbn [recordSuccess currentTimeout]. set (cur := if _ <? Z.quot _ 2 then _ else _). set (lo := if baseTimeout t <? _ then _ else _).
  assert (baseTimeout t <= max cur lo) as Hle.
  { unfold max. subst lo. repeat case_match; blia. }
  apply clampTimeout_mono in Hle. etransitivity; [|exact Hle].
  unfold clampTimeout, MinTimeout, MaxTimeout, Millisecond, Second. repeat case_match; blia.
Qed.
End bounds.

(** ** Insertion sort *)

Definition sorted_upto (n : nat) (l : list Z) : Prop :=
  ∀ i j a b, (i < j < n)%nat → l !! i = Some a → l !! j = Some b → a <= b.

Lemma sift_length j l : length (sift j l) = length l.
Proof.
  revert l. induction j as [|j IH]; intros l; cbn [sift]; [done|]. repeat case_match; try done.
  by rewrite IH, !length_insert.
Qed.

Lemma swap_perm (l : list Z) i a b :
  l !! i = Some a → l !! S i = Some b → <[i := b]> (<[S i := a]> l) ≡ₚ l.
Proof.
  intros Ha Hb. rewrite <- (take_drop_middle l i a Ha) at 2.
  assert (drop (S i) l = b :: drop (S (S i)) l) as Hd by (by apply drop_S).
  pose proof (lookup_lt_Some _ _ _ Ha). pose proof (lookup_lt_Some _ _ _ Hb).
  rewrite <- (take_drop_middle (<[i := b]> (<[S i := a]> l)) i b).
  2: { apply list_lookup_insert_eq. rewrite length_insert. lia. }
  rewrite take_insert_ge by lia. rewrite take_insert_ge by lia. apply Permutation_app_head.
  rewrite (drop_insert_lt _ (S i) i) by lia. rewrite Hd.
  assert (drop (S i) (<[S i := a]> l) = a :: drop (S (S i)) l) as ->.
  { rewrite <- (drop_insert_lt l (S (S i)) (S i) a) by lia. apply drop_S, list_lookup_insert_eq. lia. }
  apply Permutation_swap.
Qed.

Lemma sift_perm j l : sift j l ≡ₚ l.
Proof.
  revert l. induction j as [|j IH]; intros l; cbn [sift]; [done|].
  destruct (l !! j) as [a|] eqn:Ha; [|done]. destruct (l !! S j) as [b|] eqn:Hb; [|done].
  destruct (b <? a); [|done]. by rewrite IH, swap_perm.
Qed.

(** While the element sinks, all before [n] but it are in order, and it is not
    above what it has passed. *)
Lemma sift_sorted n j l :
  (n <= length l)%nat → (j < n)%nat →
  (∀ i k a b, (i < k < n)%nat → k ≠ j → l !! i = Some a → l !! k = Some b → i ≠ j → a <= b) →
  (∀ k a b, (j < k < n)%nat → l !! j = Some a → l !! k = Some b → a <= b) →
  sorted_upto n (sift j l).
Proof.
  revert l. induction j as [|j IH]; intros l Hn Hj Hoth Hpass.
  { cbn [sift]. intros i k a b Hik Hi Hk. destruct (decide (i = 0)%nat) as [->|]; [by eapply Hpass; [|exact Hi|exact Hk]; lia|].
    eapply (Hoth i k); try done; lia. }
  cbn [sift]. destruct (lookup_lt_is_Some_2 l j) as [a Ha]; [lia|]. destruct (lookup_lt_is_Some_2 l (S j)) as [b Hb]; [lia|].
  rewrite Ha, Hb. destruct (b <? a) eqn:Hba.
  - assert (∀ x, <[j := b]> (<[S j := a]> l) !! x = if decide (x = j) then Some b else if decide (x = S j) then Some a else l !! x)
      as Hlk.
    { intros x. destruct (decide (x = j)) as [->|]; [apply list_lookup_insert_eq; rewrite length_insert; lia|].
      rewrite list_lookup_insert_ne by done. destruct (decide (x = S j)) as [->|]; [apply list_lookup_insert_eq; lia|].
      by rewrite list_lookup_insert_ne. }
    apply IH; rewrite ?length_insert; [lia|lia|..].
    + intros i k x y Hik Hkj. rewrite !Hlk. rewrite (decide_False _ _ (P := k = j)) by done. intros Hx Hy Hij.
      rewrite (decide_False _ _ (P := i = j)) in Hx by done.
      destruct (decide (i = S j)) as [->|]; destruct (decide (k = S j)) as [->|]; simplify_eq; try lia.
      * eapply (Hoth j k); try done; lia.
      * eapply (Hoth i j); try done; lia.
      * eapply (Hoth i k); try done.
    + intros k x y Hk. rewrite !Hlk. rewrite decide_True by done. rewrite (decide_False _ _ (P := k = j)) by lia.
      intros [= <-]. destruct (decide (k = S j)) as [->|].
      * intros [= <-]. blia.
      * intros Hy. eapply (Hpass k); try done. lia.
  - intros i k x y Hik Hx Hy.
    destruct (decide (k = S j)) as [->|]; destruct (decide (i = S j)) as [->|]; try lia.
    + simplify_eq. destruct (decide (i = j)) as [->|]; [simplify_eq; blia|].
      assert (x <= a) by (eapply (Hoth i j); try done; lia). blia.
    + eapply (Hpass k); try done; lia.
    + eapply (Hoth i k); try done.
Qed.

Lemma insertion_sort_spec l :
  insertion_sort l ≡ₚ l ∧ StronglySorted Z.le (insertion_sort l).
Proof.
  assert (∀ n, (n < length l)%nat → let r := foldl (λ l i, sift i l) l (seq 1 n) in
    r ≡ₚ l ∧ length r = length l ∧ sorted_upto (S n) r) as Hloop.
  { induction n as [|n IH]; intros Hn; cbv zeta.
    { split_and!; [done|done|]. intros i j a b ?. lia. }
    destruct IH as (Hp & Hl & Hs); [lia|]. rewrite seq_S, foldl_snoc. cbn [Nat.add].
    split_and!; [by rewrite sift_perm|by rewrite sift_length|]. apply sift_sorted; [lia|lia|..].
    - intros i k a b Hik Hk Hi Hk' Hij. eapply Hs; [|exact Hi|exact Hk']. lia.
    - intros k a b Hk. lia. }
  unfold insertion_sort. destruct l as [|x l]; [split; [done|constructor]|].
  destruct (Hloop (length (x :: l) - 1)%nat) as (Hp & Hl & Hs); [cbn; lia|]. split; [done|].
  set (r := foldl _ _ _) in *. replace (S _) with (length r) in Hs by (rewrite Hl; cbn; lia).
  clearbody r. clear -Hs. induction r as [|y r IH]; [constructor|]. constructor.
  - apply IH. intros i j a b Hij Hi Hj. by eapply (Hs (S i) (S j)); [cbn; lia|..].
  - apply Forall_forall. intros z (j & Hj)%list_elem_of_lookup. eapply (Hs 0%nat (S j)); [|done|done].
    apply lookup_lt_Some in Hj. cbn. lia.
Qed.

(** ** The ring buffer *)

(** The last [n] of the recorded durations. *)
Definition window (n : nat) (ds : list Z) : list Z := drop (length ds - n) ds.

(** The buffer read from the write position. *)
Definition in_order (dt : DurationTracker) : list Z :=
  drop (Z.to_nat (writeIdx dt)) (durations dt) ++ take (Z.to_nat (writeIdx dt)) (durations dt).

Definition recorded (max : Z) (ds : list Z) : DurationTracker := foldl (λ dt d, Record_ d dt) (NewDurationTracker max) ds.

Definition ring (n : nat) (ds : list Z) (dt : DurationTracker) : Prop :=
  maxSamples dt = Z.of_nat n ∧
  ((length ds < n)%nat ∧ durations dt = ds ∧ writeIdx dt = Z.of_nat (length ds) ∨
   (n <= length ds)%nat ∧ length (durations dt) = n ∧ 0 <= writeIdx dt < Z.of_nat n ∧ in_order dt = window n ds).

Lemma window_snoc n ds d : (0 < n <= length ds)%nat → window n (ds ++ [d]) = drop 1 (window n ds) ++ [d].
Proof.
  intros Hn. unfold window. rewrite length_app, drop_drop, drop_app_le by (cbn; lia). f_equal. f_equal. cbn. lia.
Qed.

Lemma ring_record n ds dt d : (0 < n)%nat → ring n ds dt → ring n (ds ++ [d]) (Record_ d dt).
Proof.
  intros Hn [Hmax Hr]. split; [done|]. unfold Record_. cbn [durations maxSamples writeIdx]. rewrite Hmax.
  destruct Hr as [(Hlt & Hd & Hw)|(Hge & Hlen & Hw & Hord)].
  - rewrite Hd, Hw. replace (Z.of_nat (length ds) <? Z.of_nat n) with true by (symmetry; blia).
    destruct (decide (S (length ds) < n)%nat) as [Hs|Hs].
    + left. rewrite length_app. cbn [length]. split_and!; [lia|done|]. rewrite Z.mod_small by lia. lia.
    + right. assert (S (length ds) = n) as Hn' by lia. rewrite length_app. cbn [length].
      replace (Z.of_nat (length ds) + 1) with (Z.of_nat n) by lia. rewrite Z.mod_same by lia.
      split_and!; [lia|lia|lia|lia|]. unfold in_order, window. cbn [writeIdx durations]. rewrite length_app. cbn [length].
      replace (length ds + 1 - n)%nat with 0%nat by lia. cbn. by rewrite take_0, app_nil_r.
  - rewrite Hlen. replace (Z.of_nat n <? Z.of_nat n) with false by (symmetry; blia). right.
    set (w := Z.to_nat (writeIdx dt)) in *. assert (w < n)%nat as Hwn by lia.
    assert (writeIdx dt = Z.of_nat w) as Hwz by lia.
    rewrite length_app, length_insert. split_and!; [cbn; lia|done|apply Z.mod_pos_bound; lia|apply Z.mod_pos_bound; lia|].
    rewrite window_snoc by lia. rewrite <- Hord. unfold in_order. cbn [writeIdx durations]. fold w.
    destruct (lookup_lt_is_Some_2 (durations dt) w) as [x Hx]; [lia|].
    rewrite (drop_S _ _ _ Hx).
    change (drop 1 ((x :: drop (S w) (durations dt)) ++ take w (durations dt)))
      with (drop (S w) (durations dt) ++ take w (durations dt)). rewrite <- app_assoc.
    destruct (decide (S w < n)%nat) as [Hs|Hs].
    + rewrite Z.mod_small by lia. replace (Z.to_nat (writeIdx dt + 1)) with (S w) by lia.
      rewrite drop_insert_lt by lia. f_equal. rewrite (take_S_r _ _ d) by (apply list_lookup_insert_eq; lia).
      by rewrite take_insert_ge by lia.
    + replace (writeIdx dt + 1) with (Z.of_nat n) by lia. rewrite Z.mod_same by lia. cbn [Z.to_nat].
      rewrite drop_0, take_0, app_nil_r. rewrite (drop_ge (durations dt)) by lia. cbn [app].
      rewrite <- (take_drop w (<[w := d]> _)), take_insert_ge by lia. f_equal.
      rewrite (drop_S _ d) by (apply list_lookup_insert_eq; lia). f_equal. apply drop_ge. rewrite length_insert. lia.
Qed.

Lemma recorded_ring max ds : 0 < max → ring (Z.to_nat max) ds (recorded max ds).
Proof.
  intros Hmax. induction ds as [|d ds IH] using rev_ind.
  - unfold recorded, NewDurationTracker. cbn. replace (max <=? 0) with false by (symmetry; blia).
    split; cbn; [lia|]. left. split_and!; [lia|done|done].
  - unfold recorded in *. rewrite foldl_snoc. apply ring_record; [lia|done].
Qed.

Lemma recorded_window max ds : 0 < max → durations (recorded max ds) ≡ₚ window (Z.to_nat max) ds.
Proof.
  intros Hmax. destruct (recorded_ring max ds Hmax) as [_ [(Hlt & -> & _)|(_ & _ & _ & <-)]].
  - unfold window. by replace (length ds - Z.to_nat max)%nat with 0%nat by lia.
  - unfold in_order. by rewrite Permutation_app_comm, take_drop.
Qed.

(** For the sample counts in use the 95th percentile has a valid index. *)
Lemma p95_index n : 1 <= n <= 1000 → 0 <= f_floor (fmul (fdiv (f_of_Z 95) (f_of_Z 100)) (f_of_Z (n - 1))) < n.
Proof.
  intros Hn.
  assert (forallb (λ n, let i := f_floor (fmul (fdiv (f_of_Z 95) (f_of_Z 100)) (f_of_Z (n - 1))) in (0 <=? i) && (i <? n))
    (seqZ 1 1000) = true) as Hall by (vm_compute; reflexivity).
  rewrite forallb_forall in Hall. specialize (Hall n). rewrite <- list_elem_of_In, elem_of_seqZ in Hall.
  specialize (Hall ltac:(lia)). cbv zeta in Hall. blia.
Qed.

(** The tracker holds exactly the durations recorded last, up to its
    capacity, and the 95th percentile does not panic: it is one of them,
    taken at its rank from a sorted arrangement of them. *)
Theorem percentile_of_window max ds :
  0 < max <= 1000 → ds ≠ [] →
  ∃ sorted i v, sorted ≡ₚ window (Z.to_nat max) ds ∧ StronglySorted Z.le sorted ∧
    Percentile (f_of_Z 95) (recorded max ds) = Some v ∧ sorted !! i = Some v ∧
    Z.of_nat i = f_floor (fmul (fdiv (f_of_Z 95) (f_of_Z 100)) (f_of_Z (Z.of_nat (length sorted) - 1))).
Proof.
  intros Hmax Hds. pose proof (recorded_window max ds ltac:(lia)) as Hw.
  destruct (insertion_sort_spec (durations (recorded max ds))) as [Hp Hs].
  set (srt := insertion_sort _) in *. set (idx := f_floor (fmul (fdiv (f_of_Z 95) (f_of_Z 100)) (f_of_Z (Z.of_nat (length srt) - 1)))).
  assert (1 <= Z.of_nat (length srt) <= 1000) as Hlen.
  { rewrite Hp, Hw. unfold window. rewrite length_drop. destruct ds; [done|]. cbn [length]. lia. }
  pose proof (p95_index _ Hlen) as Hidx. fold idx in Hidx.
  destruct (lookup_lt_is_Some_2 srt (Z.to_nat idx)) as [v Hv]; [lia|].
  exists srt, (Z.to_nat idx), v. split_and!; [by rewrite Hp|done| |done|lia].
  unfold Percentile. destruct (durations (recorded max ds)) as [|x l] eqn:Hd.
  { assert (length srt = 0%nat) by (by rewrite Hp). lia. }
  fold srt. fold idx. replace (idx <? 0) with false by (symmetry; blia). done.
Qed.

(** ** Evaluations *)
Section examples.
#[local] Existing Instance amd64.

Lemma timeouts_bounded_witness :
  bounded (Get OpPeerConnect (RecordTimeout OpPeerConnect 9 (RecordSuccess OpPeerConnect (3 * Second) 7 (NewManager None 5)))).
Proof.
  set (m := RecordTimeout _ _ _).
  assert (rtc step (NewManager None 5) m) as Hm.
  { eapply rtc_l; [apply step_success|]. eapply rtc_l; [apply step_timeout|]. apply rtc_refl. }
  clearbody m. destruct (timeouts_bounded None 5 m Hm) as (_ & _ & Hb & _). exact (Hb eq_refl OpPeerConnect ltac:(discriminate)).
Defined.

Lemma percentile_witness :
  ∃ sorted i v, sorted ≡ₚ [4; 9; 7] ∧ StronglySorted Z.le sorted ∧
    Percentile (f_of_Z 95) (recorded 3 [1; 4; 9; 7]) = Some v ∧ sorted !! i = Some v ∧
    Z.of_nat i = f_floor (fmul (fdiv (f_of_Z 95) (f_of_Z 100)) (f_of_Z (Z.of_nat (length sorted) - 1))).
Proof. apply (percentile_of_window 3 [1; 4; 9; 7]); [lia|discriminate]. Defined.

(** The maintenance loop's decay clamps the tunnel's idle timeout of 120 s to 60 s,
    although nothing was recorded for it. *)
Example decay_halves_tunnel_idle :
  Get OpTunnelIdle (NewManager None 0) = 120 * Second ∧
  Get OpTunnelIdle (ResetDecay (f_dec 1 10) (NewManager None 0)) = 60 * Second.
Proof. split; vm_compute; reflexivity. Qed.

(** The largest transfer gets 60 s, not the 765 s its size asks for. *)
Example largest_transfer_timeout :
  GetForSize OpPeerTransfer (500 * 1024 * 1024) (NewManager None 0) = 60 * Second ∧
  scale (10 * Second + 500 * Second) (f_dec 15 10) = 765 * Second.
Proof. split; vm_compute; reflexivity. Qed.

(** A percentile above 100 indexes past the end. *)
Example percentile_panics : Percentile (f_of_Z 200) (recorded 3 [1; 2; 3]) = None.
Proof. vm_compute. reflexivity. Qed.
End examples.
End TimeoutsSys.
