(* ===== verification/Scorer.v ===== *)
(** * internal/peers/scorer.go: peer scores and selection

    The scorer's record per peer, how transfers update it, the cached score, and
    the selection of peers.  Times are nanoseconds given by the caller; a score is
    a float64; [math.Exp] is a parameter. *)

From S2P Require Import Prelude GoNum.
From Stdlib Require Import SpecFloat.
Open Scope Z_scope.
Open Scope go_scope.

Class MathExp := { math_Exp : float64 → float64 }.

Module Scorer.

Definition MinSamples : Z := 3.
Definition MaxPeerAge : Z := 24 * Hour.
Definition ScoreCacheTTL : Z := 5 * Minute.
Definition EMAAlpha : float64 := f_dec 3 10.
Definition ScoreExcellent : float64 := f_dec 8 10.
Definition ScoreGood : float64 := f_dec 6 10.
Definition ScoreFair : float64 := f_dec 4 10.
Definition ScorePoor : float64 := f_dec 2 10.
Definition ScoreBlacklist : float64 := f_dec 1 10.

Record PeerScore := mkPeer {
  AvgLatencyMs : float64; AvgThroughput : float64; SuccessRate : float64;
  TotalRequests : Z; SuccessCount : Z; FailureCount : Z; BytesDownloaded : Z; BytesUploaded : Z;
  FirstSeen : Z; LastSeen : Z; LastSuccess : option Z; LastFailure : option Z;
  Blacklisted : bool; BlacklistReason : string; BlacklistUntil : Z; IsMDNS : bool;
  cachedScore : float64; scoreCachedAt : option Z;    (* [None] is the zero Time *)
}.

(** The peers, by ID, and the reference values. *)
Record Scorer := mkScorer { peers : gmap string PeerScore; refLatencyMs : float64; refThroughput : float64 }.

Definition NewScorer : Scorer := mkScorer ∅ (f_of_Z 100) (f_of_Z (1024 * 1024 * 10)).

Definition newPeer (now : Z) : PeerScore :=
  mkPeer (f_of_Z 0) (f_of_Z 0) (f_of_Z 0) 0 0 0 0 0 now now None None false "" 0 false (f_of_Z 0) None.

Definition getOrCreate (now : Z) (id : string) (s : Scorer) : PeerScore := default (newPeer now) (peers s !! id).

Definition put (id : string) (ps : PeerScore) (s : Scorer) : Scorer :=
  mkScorer (<[id := ps]> (peers s)) (refLatencyMs s) (refThroughput s).

Definition ema (old new alpha : float64) : float64 :=
  fadd (fmul alpha new) (fmul (fsub (f_of_Z 1) alpha) old).

Section scores.
Context `{MathExp}.

Definition clamp01 (x : float64) : float64 :=
  let x := if SFltb x (f_of_Z 0) then f_of_Z 0 else x in
  if SFltb (f_of_Z 1) x then f_of_Z 1 else x.

(** The score from the peer's data, without the cache. *)
Definition freshScore (now : Z) (s : Scorer) (ps : PeerScore) : float64 :=
  if TotalRequests ps <? MinSamples then if IsMDNS ps then f_dec 65 100 else f_dec 5 10
  else if Blacklisted ps && (now <? BlacklistUntil ps) then f_of_Z 0
  else
    let latencyScore := fdiv (refLatencyMs s) (fadd (refLatencyMs s) (AvgLatencyMs ps)) in
    let throughputScore := fdiv (AvgThroughput ps) (fadd (AvgThroughput ps) (refThroughput s)) in
    let throughputScore := if SFltb (f_of_Z 1) throughputScore then f_of_Z 1 else throughputScore in
    let freshnessScore := math_Exp (fdiv (SFopp (Hours (now - LastSeen ps))) (f_of_Z 24)) in
    let proximityScore := if IsMDNS ps then f_of_Z 1 else f_dec 3 10 in
    clamp01 (fadd (fadd (fadd (fadd (fmul (f_dec 25 100) latencyScore) (fmul (f_dec 25 100) throughputScore))
                              (fmul (f_dec 20 100) (SuccessRate ps)))
                        (fmul (f_dec 15 100) freshnessScore))
                  (fmul (f_dec 15 100) proximityScore)).

Definition cacheValid (now : Z) (ps : PeerScore) : bool :=
  match scoreCachedAt ps with Some t => now - t <? ScoreCacheTTL | None => false end.

Definition computeScore (now : Z) (s : Scorer) (ps : PeerScore) : float64 :=
  if cacheValid now ps then cachedScore ps else freshScore now s ps.

(** The end of both [Record] operations: the score is computed and cached. *)
Definition cacheScore (now : Z) (s : Scorer) (ps : PeerScore) : PeerScore :=
  mkPeer (AvgLatencyMs ps) (AvgThroughput ps) (SuccessRate ps) (TotalRequests ps) (SuccessCount ps) (FailureCount ps)
    (BytesDownloaded ps) (BytesUploaded ps) (FirstSeen ps) (LastSeen ps) (LastSuccess ps) (LastFailure ps)
    (Blacklisted ps) (BlacklistReason ps) (BlacklistUntil ps) (IsMDNS ps) (computeScore now s ps) (Some now).

Definition successUpdate (now bytes : Z) (latencyMs throughput : float64) (ps : PeerScore) : PeerScore :=
  let total := TotalRequests ps +₆₄ 1 in
  let succ := SuccessCount ps +₆₄ 1 in
  let expired := Blacklisted ps && (BlacklistUntil ps <? now) in
  mkPeer (if total =? 1 then latencyMs else ema (AvgLatencyMs ps) latencyMs EMAAlpha)
    (if total =? 1 then throughput else ema (AvgThroughput ps) throughput EMAAlpha)
    (fdiv (f_of_Z succ) (f_of_Z total)) total succ (FailureCount ps)
    (BytesDownloaded ps +₆₄ bytes) (BytesUploaded ps) (FirstSeen ps) now (Some now) (LastFailure ps)
    (if expired then false else Blacklisted ps) (if expired then "" else BlacklistReason ps) (BlacklistUntil ps)
    (IsMDNS ps) (cachedScore ps) (scoreCachedAt ps).

Definition RecordSuccess (now : Z) (id : string) (bytes : Z) (latencyMs throughput : float64) (s : Scorer) : Scorer :=
  put id (cacheScore now s (successUpdate now bytes latencyMs throughput (getOrCreate now id s))) s.

Definition failureUpdate (now : Z) (ps : PeerScore) : PeerScore :=
  let total := TotalRequests ps +₆₄ 1 in
  mkPeer (AvgLatencyMs ps) (AvgThroughput ps) (fdiv (f_of_Z (SuccessCount ps)) (f_of_Z total))
    total (SuccessCount ps) (FailureCount ps +₆₄ 1)
    (BytesDownloaded ps) (BytesUploaded ps) (FirstSeen ps) now (LastSuccess ps) (Some now)
    (Blacklisted ps) (BlacklistReason ps) (BlacklistUntil ps) (IsMDNS ps) (cachedScore ps) (scoreCachedAt ps).

Definition RecordFailure (now : Z) (id : string) (s : Scorer) : Scorer :=
  put id (cacheScore now s (failureUpdate now (getOrCreate now id s))) s.

Definition RecordUpload (now : Z) (id : string) (bytes : Z) (s : Scorer) : Scorer :=
  let ps := getOrCreate now id s in
  put id (mkPeer (AvgLatencyMs ps) (AvgThroughput ps) (SuccessRate ps) (TotalRequests ps) (SuccessCount ps)
    (FailureCount ps) (BytesDownloaded ps) (BytesUploaded ps +₆₄ bytes) (FirstSeen ps) now (LastSuccess ps)
    (LastFailure ps) (Blacklisted ps) (BlacklistReason ps) (BlacklistUntil ps) (IsMDNS ps) (cachedScore ps)
    (scoreCachedAt ps)) s.

Definition Blacklist (now : Z) (id reason : string) (duration : Z) (s : Scorer) : Scorer :=
  let ps := getOrCreate now id s in
  put id (mkPeer (AvgLatencyMs ps) (AvgThroughput ps) (SuccessRate ps) (TotalRequests ps) (SuccessCount ps)
    (FailureCount ps) (BytesDownloaded ps) (BytesUploaded ps) (FirstSeen ps) (LastSeen ps) (LastSuccess ps)
    (LastFailure ps) true reason (now + duration) (IsMDNS ps) (f_of_Z 0) (Some now)) s.

Definition MarkAsMDNSPeer (now : Z) (id : string) (s : Scorer) : Scorer :=
  let ps := getOrCreate now id s in
  put id (mkPeer (AvgLatencyMs ps) (AvgThroughput ps) (SuccessRate ps) (TotalRequests ps) (SuccessCount ps)
    (FailureCount ps) (BytesDownloaded ps) (BytesUploaded ps) (FirstSeen ps) (LastSeen ps) (LastSuccess ps)
    (LastFailure ps) (Blacklisted ps) (BlacklistReason ps) (BlacklistUntil ps) true (cachedScore ps) None) s.

Definition IsMDNSPeer (id : string) (s : Scorer) : bool :=
  match peers s !! id with Some ps => IsMDNS ps | None => false end.

(** [IsBlacklisted] and [isBlacklistedLocked]. *)
Definition IsBlacklisted (now : Z) (id : string) (s : Scorer) : bool :=
  match peers s !! id with
  | None => false
  | Some ps => Blacklisted ps && negb (BlacklistUntil ps <? now)
  end.

Definition GetScore (now : Z) (id : string) (s : Scorer) : float64 :=
  match peers s !! id with None => f_dec 5 10 | Some ps => computeScore now s ps end.

(** ** Selection

    A candidate is a peer's ID and addresses.  [make] of a negative length panics
    ([None]). *)
Context `{GoSort} {Addr : Type}.
Abbreviation AddrInfo := (string * Addr)%type.

Definition eligible (now : Z) (s : Scorer) (c : AddrInfo) : bool :=
  negb (IsBlacklisted now c.1 s) && SFleb ScoreBlacklist (GetScore now c.1 s).

Definition scoredPeers (now : Z) (s : Scorer) (candidates : list AddrInfo) : list (AddrInfo * float64) :=
  (λ c, (c, GetScore now c.1 s)) <$> List.filter (eligible now s) candidates.

Definition SelectBest (now : Z) (candidates : list AddrInfo) (n : Z) (s : Scorer) : option (list AddrInfo) :=
  match candidates with
  | [] => Some []
  | _ =>
      let sorted := sort_Slice (λ a b, SFltb b.2 a.2) (scoredPeers now s candidates) in
      let n := if Z.of_nat (length sorted) <? n then Z.of_nat (length sorted) else n in
      if n <? 0 then None else Some (fst <$> take (Z.to_nat n) sorted)
  end.

(** [for i := 0; i < len(l) && len(result) < n; i += step]; the fuel is the length. *)
Fixpoint explore (fuel : nat) (l : list AddrInfo) (step : nat) (n : Z) (result : list AddrInfo) : list AddrInfo :=
  match fuel, l with
  | S fuel, x :: _ =>
      if Z.of_nat (length result) <? n then explore fuel (drop step l) step n (result ++ [x]) else result
  | _, _ => result
  end.

(** [n*2] and [n*7] wrap as int64; slicing out of range panics. *)
Definition SelectDiverse (now : Z) (candidates : list AddrInfo) (n : Z) (s : Scorer) : option (list AddrInfo) :=
  match candidates with
  | [] => Some []
  | _ =>
      match SelectBest now candidates (wrap64 (n * 2)) s with
      | None => None
      | Some best =>
          if Z.of_nat (length best) <=? n then Some best
          else
            let numBest := Z.quot (wrap64 (n * 7)) 10 in
            let numBest := if numBest <? 1 then 1 else numBest in
            let numExplore := n - numBest in
            if n <? 0 then None
            else if Z.of_nat (length best) <? numBest then None
            else
              let result := take (Z.to_nat numBest) best in
              if (0 <? numExplore) && (numBest <? Z.of_nat (length best)) then
                let exploratory := drop (Z.to_nat numBest) best in
                let step := Z.quot (Z.of_nat (length exploratory)) numExplore in
                let step := if step <? 1 then 1 else step in
                Some (explore (length exploratory) exploratory (Z.to_nat step) n result)
              else Some result
      end
  end.

Definition withScore (now : Z) (s : Scorer) (ps : PeerScore) : PeerScore :=
  mkPeer (AvgLatencyMs ps) (AvgThroughput ps) (SuccessRate ps) (TotalRequests ps) (SuccessCount ps) (FailureCount ps)
    (BytesDownloaded ps) (BytesUploaded ps) (FirstSeen ps) (LastSeen ps) (LastSuccess ps) (LastFailure ps)
    (Blacklisted ps) (BlacklistReason ps) (BlacklistUntil ps) (IsMDNS ps) (computeScore now s ps) (scoreCachedAt ps).

Definition GetStats (now : Z) (id : string) (s : Scorer) : option PeerScore := withScore now s <$> peers s !! id.
Definition GetAllStats (now : Z) (s : Scorer) : list PeerScore := withScore now s <$> (snd <$> map_to_list (peers s)).
Definition PeerCount (s : Scorer) : nat := size (peers s).
End scores.

(** ** Cleanup *)

Definition clearExpired (now : Z) (ps : PeerScore) : PeerScore :=
  if Blacklisted ps && (BlacklistUntil ps <? now) then
    mkPeer (AvgLatencyMs ps) (AvgThroughput ps) (SuccessRate ps) (TotalRequests ps) (SuccessCount ps) (FailureCount ps)
      (BytesDownloaded ps) (BytesUploaded ps) (FirstSeen ps) (LastSeen ps) (LastSuccess ps) (LastFailure ps)
      false "" (BlacklistUntil ps) (IsMDNS ps) (cachedScore ps) (scoreCachedAt ps)
  else ps.

Definition Cleanup (now : Z) (s : Scorer) : nat * Scorer :=
  let kept := filter (λ kv, (LastSeen kv.2 <? now - MaxPeerAge) = false) (peers s) in
  ((size (peers s) - size kept)%nat, mkScorer (clearExpired now <$> kept) (refLatencyMs s) (refThroughput s)).

Definition ScoreCategory (score : float64) : string :=
  if SFleb ScoreExcellent score then "excellent"
  else if SFleb ScoreGood score then "good"
  else if SFleb ScoreFair score then "fair"
  else if SFleb ScorePoor score then "poor" else "bad".
End Scorer.
