(* ===== verification/ScorerSys.v ===== *)
(** * Correctness of peer scoring and selection *)

From S2P Require Import Prelude GoNum Sql Scorer.
From Stdlib Require Import SpecFloat.
Open Scope Z_scope.
Open Scope go_scope.

Module ScorerSys.
Import Scorer.

Section scorer.
Context `{MathExp}.

(** ** Operations *)

Inductive op :=
| OpSuccess (id : string) (bytes : Z) (latencyMs throughput : float64)
| OpFailure (id : string)
| OpUpload (id : string) (bytes : Z)
| OpBlacklist (id reason : string) (duration : Z)
| OpMDNS (id : string)
| OpCleanup.

Definition exec (now : Z) (o : op) (s : Scorer) : Scorer :=
  match o with
  | OpSuccess id b l t => RecordSuccess now id b l t s
  | OpFailure id => RecordFailure now id s
  | OpUpload id b => RecordUpload now id b s
  | OpBlacklist id r d => Blacklist now id r d s
  | OpMDNS id => MarkAsMDNSPeer now id s
  | OpCleanup => (Cleanup now s).2
  end.

Definition run (s : Scorer) (ops : list (Z * op)) : Scorer := foldl (λ s e, exec e.1 e.2 s) s ops.

Definition target (o : op) : option string :=
  match o with
  | OpSuccess id _ _ _ | OpFailure id | OpUpload id _ | OpBlacklist id _ _ | OpMDNS id => Some id
  | OpCleanup => None
  end.

(** What an operation does to its peer's record. *)
Definition update (now : Z) (s : Scorer) (o : op) (ps : PeerScore) : PeerScore :=
  default ps (peers (exec now o (mkScorer {[ default "" (target o) := ps ]} (refLatencyMs s) (refThroughput s)))
                !! default "" (target o)).

Lemma exec_lookup now o s id :
  peers (exec now o s) !! id =
  match target o with
  | Some id' => if decide (id' = id) then Some (update now s o (getOrCreate now id s)) else peers s !! id
  | None => clearExpired now <$> (peers s !! id ≫= λ ps, if LastSeen ps <? now - MaxPeerAge then None else Some ps)
  end.
Proof.
  destruct (target o) as [id'|] eqn:Ht.
  - destruct (decide (id' = id)) as [->|Hne].
    + unfold update. rewrite Ht. cbn [default]. destruct o; cbn in Ht; simplify_eq; cbn [exec];
        unfold RecordSuccess, RecordFailure, RecordUpload, Blacklist, MarkAsMDNSPeer, put; cbn [peers];
        rewrite !lookup_insert_eq; cbn [default]; unfold getOrCreate; cbn [peers]; rewrite lookup_singleton_eq; done.
    + destruct o; cbn in Ht; simplify_eq; cbn [exec];
        unfold RecordSuccess, RecordFailure, RecordUpload, Blacklist, MarkAsMDNSPeer, put; cbn [peers];
        by rewrite lookup_insert_ne.
  - destruct o; try done. cbn [exec Cleanup snd peers]. rewrite lookup_fmap. f_equal.
    rewrite map_lookup_filter. destruct (peers s !! id) as [ps|]; [|done]. cbn.
    destruct (LastSeen ps <? _) eqn:Hl; cbn; [by rewrite option_guard_False|by rewrite option_guard_True].
Qed.

(** The request counters add up, also when they wrap around. *)
Definition counts_ok (ps : PeerScore) : Prop := TotalRequests ps = wrap64 (SuccessCount ps + FailureCount ps).

Lemma update_counts now s o ps : counts_ok ps → counts_ok (update now s o ps).
Proof.
  unfold counts_ok, update. intros Hc. destruct o; cbn [target default exec];
    unfold RecordSuccess, RecordFailure, RecordUpload, Blacklist, MarkAsMDNSPeer, put, getOrCreate; cbn [peers];
    rewrite ?lookup_insert_eq, ?lookup_singleton_eq; cbn; try done.
  - rewrite Hc, wrap64_add_l, wrap64_add_l. f_equal. lia.
  - rewrite Hc, wrap64_add_l, wrap64_add_r. f_equal. lia.
  - destruct (_ !! _) as [q|] eqn:Hq; [|done]. revert Hq. rewrite lookup_fmap. intros (q0 & Hq0 & ->)%fmap_Some.
    apply map_lookup_filter_Some in Hq0 as [Hq0 _]. apply lookup_singleton_Some in Hq0 as [_ <-].
    unfold clearExpired. by case_match.
Qed.

Lemma run_counts ops : map_Forall (λ _ ps, counts_ok ps) (peers (run NewScorer ops)).
Proof.
  induction ops as [|[now o] ops IH] using rev_ind.
  { cbn. apply map_Forall_empty. }
  unfold run. rewrite foldl_snoc. fold (run NewScorer ops). set (s := run NewScorer ops) in *. cbn [fst snd].
  assert (∀ id, counts_ok (getOrCreate now id s)) as Hgc.
  { intros id. unfold getOrCreate. destruct (peers s !! id) eqn:Hps; [by eapply IH|done]. }
  intros id ps Hps. rewrite exec_lookup in Hps. destruct (target o) as [id'|].
  - destruct (decide (id' = id)); [|by eapply IH]. simplify_eq. by apply update_counts.
  - apply fmap_Some in Hps as (q & Hq & ->). apply bind_Some in Hq as (q0 & Hq0 & Hq). case_match; [done|]. simplify_eq.
    specialize (IH _ _ Hq0). unfold clearExpired. by case_match.
Qed.

(** ** The cached score *)

(** Transfers of one peer, each within the cache's lifetime of the one before. *)
Fixpoint spaced (id : string) (last : Z) (ops : list (Z * op)) : Prop :=
  match ops with
  | [] => True
  | (now, o) :: ops =>
      now - last < ScoreCacheTTL ∧ (match o with OpSuccess id' _ _ _ | OpFailure id' => id' = id | _ => False end) ∧
      spaced id now ops
  end.

Fixpoint last_time (t : Z) (ops : list (Z * op)) : Z :=
  match ops with [] => t | (now, _) :: ops => last_time now ops end.

Definition cached (id : string) (c : float64) (t : Z) (s : Scorer) : Prop :=
  ∃ ps, peers s !! id = Some ps ∧ cachedScore ps = c ∧ scoreCachedAt ps = Some t.

Lemma cached_transfer id c t now o s :
  cached id c t s → now - t < ScoreCacheTTL →
  (match o with OpSuccess id' _ _ _ | OpFailure id' => id' = id | _ => False end) →
  cached id c now (exec now o s).
Proof.
  intros (ps & Hps & Hc & Ht) Hnow Ho. unfold cached. rewrite exec_lookup.
  destruct o; try done; subst; cbn [target]; rewrite decide_True by done; eexists; (split; [done|]);
    unfold update; cbn [target default exec]; unfold RecordSuccess, RecordFailure, put, getOrCreate;
    cbn [peers]; rewrite lookup_insert_eq, lookup_singleton_eq, Hps; cbn;
    unfold computeScore, cacheValid; cbn; rewrite Ht; by rewrite (proj2 (Z.ltb_lt _ _) Hnow).
Qed.

(** As long as a peer's transfers follow each other within five minutes, its
    score does not change, whether they succeed or fail: each of them caches again
    the score that was already cached.  A peer whose score was cached when its
    transfers succeeded keeps it through any number of failures. *)
Theorem active_score_frozen id c t s ops now :
  cached id c t s → spaced id t ops → now - last_time t ops < ScoreCacheTTL →
  GetScore now id (run s ops) = c.
Proof.
  revert t s. induction ops as [|[n o] ops IH]; intros t s Hc Hsp Hnow.
  - destruct Hc as (ps & Hps & Hc & Ht). cbn [run foldl last_time] in *. unfold GetScore. rewrite Hps.
    unfold computeScore, cacheValid. by rewrite Ht, (proj2 (Z.ltb_lt _ _) Hnow).
  - destruct Hsp as (Hgap & Ho & Hsp). cbn [run foldl fst snd last_time] in *.
    eapply IH; [|exact Hsp|exact Hnow]. by eapply cached_transfer.
Qed.

(** ** Blacklisting *)

Definition listed_until (id : string) (t0 u : Z) (s : Scorer) : Prop :=
  ∃ ps, peers s !! id = Some ps ∧ Blacklisted ps = true ∧ BlacklistUntil ps = u ∧ t0 <= LastSeen ps.

Lemma exec_listed id t0 u now o s :
  listed_until id t0 u s → t0 <= now <= u → u - MaxPeerAge <= t0 → (∀ r d, o ≠ OpBlacklist id r d) →
  listed_until id t0 u (exec now o s).
Proof.
  intros (ps & Hps & Hb & Hu & Hs) Hnow Hage Ho. unfold listed_until. rewrite exec_lookup.
  destruct (target o) as [id'|] eqn:Ht.
  - destruct (decide (id' = id)) as [->|]; [|by exists ps]. eexists. split; [done|].
    unfold getOrCreate, update. rewrite Hps, Ht. cbn [default].
    destruct o; cbn in Ht; simplify_eq; cbn [exec];
      unfold RecordSuccess, RecordFailure, RecordUpload, MarkAsMDNSPeer, put, getOrCreate; cbn [peers];
      rewrite ?lookup_insert_eq, ?lookup_singleton_eq; cbn; try (split_and!; done || lia).
    + replace (Blacklisted ps && _) with false; [split_and!; done || lia|].
      symmetry. rewrite Hb. blia.
    + by destruct (Ho reason duration).
  - rewrite Hps. cbn [mbind option_bind]. replace (LastSeen ps <? _) with false by (symmetry; blia).
    exists ps. cbn. unfold clearExpired. replace (Blacklisted ps && _) with false; [done|]. symmetry. rewrite Hb. blia.
Qed.

Lemma run_listed id t0 u ops s :
  listed_until id t0 u s → u - MaxPeerAge <= t0 →
  Forall (λ e, t0 <= e.1 <= u ∧ ∀ r d, e.2 ≠ OpBlacklist id r d) ops → listed_until id t0 u (run s ops).
Proof.
  intros Hl Hage Hops. revert s Hl. induction Hops as [|[now o] ops [Hn Ho] _ IH]; intros s Hl; [done|].
  apply IH. by apply exec_listed.
Qed.

(** ** Selection *)

Context `{GoSort} {Addr : Type}.

Definition eligibles (now : Z) (s : Scorer) (cs : list (string * Addr)) : list (string * Addr) :=
  List.filter (eligible now s) cs.

(** Candidates in the order of their scores, best first. *)
Definition by_score (now : Z) (s : Scorer) (l : list (string * Addr)) : Prop :=
  StronglySorted (λ a b, SFltb (GetScore now a.1 s) (GetScore now b.1 s) = false) l.

Lemma sorted_candidates now s cs :
  ∃ l, sort_Slice (λ a b, SFltb b.2 a.2) (scoredPeers now s cs) = (λ c, (c, GetScore now c.1 s)) <$> l ∧
       l ≡ₚ eligibles now s cs ∧ by_score now s l.
Proof.
  set (sorted := sort_Slice _ _). exists (fst <$> sorted).
  assert (sorted ≡ₚ scoredPeers now s cs) as Hp by apply sort_Slice_perm.
  assert (∀ x, x ∈ sorted → x = (x.1, GetScore now x.1.1 s) ∧ is_nan x.2 = false) as Hx.
  { intros x Hx. rewrite Hp in Hx. apply list_elem_of_fmap in Hx as (c & -> & Hc). split; [done|].
    rewrite list_elem_of_In in Hc. apply filter_In in Hc as [_ He]. apply andb_prop in He as [_ He]. cbn.
    by destruct (GetScore now c.1 s). }
  split_and!.
  - rewrite <- list_fmap_compose. symmetry. rewrite <- (list_fmap_id sorted) at 2. apply list_fmap_ext.
    intros i x Hi%list_elem_of_lookup_2. symmetry. apply (Hx x Hi).
  - rewrite Hp. unfold scoredPeers, eligibles. by rewrite <- list_fmap_compose, list_fmap_id.
  - assert (StronglySorted (λ x y, SFltb x.2 y.2 = false) sorted) as Hs.
    { apply (sort_Slice_sorted (λ a b : string * Addr * float64, SFltb b.2 a.2)).
      - intros x y _ _. apply SFltb_asym.
      - intros x y z Hx1 Hy1 Hz1 Hyx Hzy. rewrite <- Hp in Hx1, Hy1, Hz1.
        eapply (SFltb_neg_trans z.2 y.2 x.2); try done; by apply Hx. }
    clear Hp. unfold by_score. induction Hs as [|x l Hl IH Hall]; cbn; [constructor|]. constructor.
    + apply IH. intros y Hy. apply Hx. by right.
    + rewrite Forall_fmap. apply Forall_forall. intros y Hy. cbn.
      destruct (Hx x ltac:(left)) as [Hx1 _], (Hx y ltac:(by right)) as [Hy1 _].
      rewrite Forall_forall in Hall. specialize (Hall y Hy). rewrite Hx1, Hy1 in Hall. exact Hall.
Qed.

Lemma SelectBest_spec now cs n s :
  0 <= n → ∃ l, l ≡ₚ eligibles now s cs ∧ by_score now s l ∧ SelectBest now cs n s = Some (take (Z.to_nat n) l).
Proof.
  intros Hn. destruct (sorted_candidates now s cs) as (l & Hl & Hp & Hs). exists l. split_and!; [done|done|].
  unfold SelectBest. destruct cs as [|c cs]; [by apply Permutation_nil_r in Hp as ->; rewrite take_nil|].
  rewrite Hl, length_fmap. destruct (Z.of_nat (length l) <? n) eqn:Hlen.
  - replace (_ <? 0) with false by (symmetry; blia). rewrite <- fmap_take, <- list_fmap_compose, list_fmap_id.
    rewrite !take_ge by blia. done.
  - replace (_ <? 0) with false by (symmetry; blia). by rewrite <- fmap_take, <- list_fmap_compose, list_fmap_id.
Qed.

(** The loop appends a subsequence, of [k] elements when the list reaches that far. *)
Lemma explore_spec fuel (l : list (string * Addr)) step n result :
  (0 < step)%nat →
  ∃ r, explore fuel l step n result = result ++ r ∧ r `sublist_of` l ∧
    (∀ k, n = Z.of_nat (length result + k) → (length l <= fuel)%nat → (k = 0 ∨ (k - 1) * step < length l)%nat →
          length r = k).
Proof.
  intros Hstep. revert l result. induction fuel as [|fuel IH]; intros l result.
  { exists []. rewrite app_nil_r. split_and!; [by destruct l|apply sublist_nil_l|]. intros k _ Hl Hk.
    destruct Hk as [->|Hk]; [done|lia]. }
  destruct l as [|x l]; cbn [explore].
  { exists []. rewrite app_nil_r. split_and!; [done|done|]. intros k _ _ [->|Hk]; [done|cbn in Hk; lia]. }
  destruct (_ <? n) eqn:Hn.
  - destruct (IH (drop step (x :: l)) (result ++ [x])) as (r & -> & Hr & Hk).
    exists (x :: r). rewrite <- app_assoc. split_and!; [done|..].
    + destruct step as [|step]; [lia|]. cbn [drop] in Hr. apply sublist_skip. etrans; [exact Hr|apply sublist_drop].
    + intros k Hnk Hl Hkk. rewrite length_app in Hk. cbn [length] in *. destruct k as [|k]; [lia|].
      f_equal. apply Hk; [lia|rewrite length_drop; cbn [length]; lia|].
      destruct k as [|k]; [by left|]. right. rewrite length_drop. cbn [length]. destruct Hkk as [|Hkk]; [lia|].
      cbn [Nat.sub] in *. rewrite Nat.sub_0_r in *. cbn [Nat.mul] in Hkk. lia.
  - exists []. rewrite app_nil_r. split_and!; [done|apply sublist_nil_l|]. intros k Hnk _ _. destruct k; [done|]. blia.
Qed.

Lemma eligibles_ok now s (cs r : list (string * Addr)) : r ⊆+ eligibles now s cs →
  Forall (λ c, IsBlacklisted now c.1 s = false ∧ SFleb ScoreBlacklist (GetScore now c.1 s) = true) r.
Proof.
  intros Hr. apply Forall_forall. intros c Hc. eapply (elem_of_submseteq _ _ c) in Hr; [|done].
  rewrite list_elem_of_In in Hr. apply filter_In in Hr as [_ He]. unfold eligible in He.
  apply andb_prop in He as [Hb ?]. by apply negb_true_iff in Hb.
Qed.

(** With at most [n] of the best left, they are the result; otherwise the best part
    is followed by explored peers. *)
Lemma diverse_cases now cs n s l :
  0 <= n < 2 ^ 58 → l ≡ₚ eligibles now s cs → SelectBest now cs (n * 2) s = Some (take (Z.to_nat (n * 2)) l) →
  let nb := Z.min n (Z.max 1 (n * 7 / 10)) in
  ∃ r', SelectDiverse now cs n s = Some (take (Z.to_nat nb) l ++ r') ∧ r' ⊆+ drop (Z.to_nat nb) l ∧
    Z.of_nat (length (take (Z.to_nat nb) l ++ r')) = Z.min n (Z.of_nat (length l)).
Proof.
  intros Hn Hp Hbest nb. unfold SelectDiverse.
  rewrite !wrap64_id by (unfold int64_range; lia). rewrite Hbest.
  assert (0 <= nb <= n) as Hnb by (subst nb; lia).
  assert (cs = [] ∨ Z.of_nat (length (take (Z.to_nat (n * 2)) l)) <= n →
    ∃ r', Some (take (Z.to_nat n) l) = Some (take (Z.to_nat nb) l ++ r') ∧ r' ⊆+ drop (Z.to_nat nb) l ∧
      Z.of_nat (length (take (Z.to_nat nb) l ++ r')) = Z.min n (Z.of_nat (length l))) as Hsmall.
  { intros _. exists (take (Z.to_nat n - Z.to_nat nb) (drop (Z.to_nat nb) l)).
    assert (take (Z.to_nat n) l = take (Z.to_nat nb) l ++ take (Z.to_nat n - Z.to_nat nb) (drop (Z.to_nat nb) l)) as Heq.
    { rewrite <- (take_drop (Z.to_nat nb) l) at 1. rewrite take_app, take_take, length_take.
      f_equal; [f_equal; lia|]. destruct (decide (Z.to_nat nb <= length l)%nat); [f_equal; lia|].
      rewrite drop_ge by lia. by rewrite !take_nil. }
    rewrite <- Heq. split_and!; [done|apply sublist_submseteq, sublist_take|rewrite length_take; lia]. }
  destruct cs as [|c cs].
  { apply Permutation_nil_r in Hp as ->. rewrite (take_nil (Z.to_nat n)) in Hsmall. apply Hsmall. by left. }
  rewrite length_take in *. destruct (Z.of_nat _ <=? n) eqn:Hle.
  { replace (take (Z.to_nat (n * 2)) l) with (take (Z.to_nat n) l); [apply Hsmall; right; blia|].
    destruct (decide (n = 0)) as [->|]; [done|]. by rewrite !take_ge by blia. }
  assert (0 < n) as Hpos by blia. rewrite Z.quot_div_nonneg by lia.
  replace (if n * 7 / 10 <? 1 then 1 else n * 7 / 10) with nb.
  2: { subst nb. pose proof (Z.div_le_upper_bound (n * 7) 10 n). destruct (_ <? 1) eqn:H7; blia. }
  clear Hsmall. clearbody nb. apply Z.leb_gt in Hle.
  replace (n <? 0) with false by (symmetry; blia). rewrite (proj2 (Z.ltb_ge _ nb)) by lia.
  rewrite take_take. replace (Z.to_nat nb `min` Z.to_nat (n * 2))%nat with (Z.to_nat nb) by lia.
  destruct (0 <? n - nb) eqn:Hx; cbn [andb].
  2: { exists []. rewrite app_nil_r. split_and!; [done|apply submseteq_nil_l|rewrite length_take; blia]. }
  apply Z.ltb_lt in Hx. rewrite (proj2 (Z.ltb_lt nb _)) by lia.
  set (expl := drop (Z.to_nat nb) _). assert (length expl = Nat.min (Z.to_nat (n * 2)) (length l) - Z.to_nat nb)%nat as Hexpl.
  { subst expl. by rewrite length_drop, length_take. }
  set (q := Z.quot _ _). set (st := if q <? 1 then 1 else q).
  assert (1 <= q ∧ q * (n - nb) <= Z.of_nat (length expl)) as [Hq1 Hq2].
  { subst q. rewrite Z.quot_div_nonneg by blia. split.
    - apply Z.div_le_lower_bound; blia.
    - rewrite Z.mul_comm. apply Z.mul_div_le. blia. }
  assert (st = q) as Hst by (subst st; destruct (q <? 1) eqn:H1; blia).
  destruct (explore_spec (length expl) expl (Z.to_nat st) n (take (Z.to_nat nb) l)) as (r' & -> & Hsub & Hlen); [lia|].
  exists r'. split_and!; [done|..].
  - transitivity expl; [by apply sublist_submseteq|]. subst expl.
    apply sublist_submseteq. rewrite skipn_firstn_comm. apply sublist_take.
  - rewrite length_app, (Hlen (Z.to_nat (n - nb))); rewrite ?length_take; try blia.
Qed.

Lemma take_app_submseteq {A} k (l r : list A) : r ⊆+ drop k l → take k l ++ r ⊆+ l.
Proof. intros Hr. rewrite <- (take_drop k l) at 2. by apply submseteq_skips_l. Qed.

Lemma SelectDiverse_total now (cs : list (string * Addr)) n s :
  0 <= n < 2 ^ 58 →
  ∃ r, SelectDiverse now cs n s = Some r ∧
    Forall (λ c, IsBlacklisted now c.1 s = false ∧ SFleb ScoreBlacklist (GetScore now c.1 s) = true) r.
Proof.
  intros Hn. destruct (SelectBest_spec now cs (n * 2) s ltac:(lia)) as (l & Hp & Hs & Hbest).
  destruct (diverse_cases now cs n s l Hn Hp Hbest) as (r' & Hr & Hsub & Hlen). eexists. split; [exact Hr|].
  eapply eligibles_ok. rewrite <- Hp. by apply take_app_submseteq.
Qed.

Lemma SelectDiverse_bounded now (cs : list (string * Addr)) n s :
  0 <= n < 2 ^ 58 →
  ∃ r, SelectDiverse now cs n s = Some r ∧ (∀ c, c ∈ r → c ∈ cs) ∧ Z.of_nat (length r) <= n ∧
    Forall (λ c, IsBlacklisted now c.1 s = false ∧ SFleb ScoreBlacklist (GetScore now c.1 s) = true) r.
Proof.
  intros Hn. destruct (SelectBest_spec now cs (n * 2) s ltac:(lia)) as (l & Hp & Hs & Hbest).
  destruct (diverse_cases now cs n s l Hn Hp Hbest) as (r' & Hr & Hsub & Hlen).
  assert (∀ k, take k l ++ r' ⊆+ l → take k l ++ r' ⊆+ eligibles now s cs) as Hel by (intros k; by rewrite <- Hp).
  apply take_app_submseteq, Hel in Hsub. eexists. split_and!; [exact Hr| |rewrite Hlen; lia|by eapply eligibles_ok].
  intros c Hc. eapply elem_of_submseteq in Hsub; [|exact Hc]. rewrite list_elem_of_In in *.
  by apply filter_In in Hsub as [? _].
Qed.

(** C34: peer selection for a download of up to [n] peers neither panics nor
    loops: it returns exactly [n] of the eligible candidates, or all of them if
    there are fewer; none of them is blacklisted or below the score limit, none
    is taken more often than it was offered, and the first seven tenths (at least one)
    are the best by score. *)
Theorem SelectDiverse_spec now (cs : list (string * Addr)) n s :
  0 <= n < 2 ^ 58 →
  ∃ r, SelectDiverse now cs n s = Some r ∧
    r ⊆+ eligibles now s cs ∧ Z.of_nat (length r) = Z.min n (Z.of_nat (length (eligibles now s cs))) ∧
    Forall (λ c, IsBlacklisted now c.1 s = false ∧ SFleb ScoreBlacklist (GetScore now c.1 s) = true) r ∧
    ∃ l, l ≡ₚ eligibles now s cs ∧ by_score now s l ∧
      take (Z.to_nat (Z.min n (Z.max 1 (n * 7 / 10)))) r = take (Z.to_nat (Z.min n (Z.max 1 (n * 7 / 10)))) l.
Proof.
  intros Hn. destruct (SelectBest_spec now cs (n * 2) s ltac:(lia)) as (l & Hp & Hs & Hbest).
  destruct (diverse_cases now cs n s l Hn Hp Hbest) as (r' & Hr & Hsub & Hlen).
  set (nb := Z.min n _) in *. exists (take (Z.to_nat nb) l ++ r').
  assert (take (Z.to_nat nb) l ++ r' ⊆+ eligibles now s cs) as Hel.
  { rewrite <- Hp. by apply take_app_submseteq. }
  split_and!; [done|done|by rewrite Hlen, Hp|by eapply eligibles_ok|].
  exists l. split_and!; [done|done|]. rewrite take_app, take_take, Nat.min_id, length_take.
  destruct (decide (Z.to_nat nb <= length l)%nat).
  - replace (_ - _)%nat with 0%nat by lia. by rewrite take_0, app_nil_r.
  - rewrite (drop_ge l) in Hsub by lia. apply submseteq_nil_r in Hsub as ->. by rewrite take_nil, app_nil_r.
Qed.

(** A peer that is blacklisted for a time is reported so and never
    selected until that time is over, whatever else is recorded for it or for
    others in the meantime, cleanups included, if the blacklisting ends within 24
    hours of when the peer was last seen; afterwards it is not blacklisted. *)
Theorem blacklist_holds id reason d t0 s ops now (cs : list (string * Addr)) n :
  0 <= d → t0 + d - MaxPeerAge <= LastSeen (getOrCreate t0 id s) → d <= MaxPeerAge →
  Forall (λ e, t0 <= e.1 <= t0 + d ∧ ∀ r d', e.2 ≠ OpBlacklist id r d') ops → 0 <= n < 2 ^ 58 →
  let s' := run (Blacklist t0 id reason d s) ops in
  (t0 <= now <= t0 + d →
     IsBlacklisted now id s' = true ∧ ∃ r, SelectDiverse now cs n s' = Some r ∧ id ∉ r.*1) ∧
  (t0 + d < now → IsBlacklisted now id s' = false).
Proof.
  intros Hd Hseen Hage Hops Hn s'.
  assert (listed_until id (t0 + d - MaxPeerAge) (t0 + d) s') as (ps & Hps & Hb & Hu & _).
  { apply run_listed; [|lia|].
    - eexists. split; [apply lookup_insert_eq|]. done.
    - eapply Forall_impl; [exact Hops|]. intros [t o] [Ht Ho]. split; [cbn in *; lia|done]. }
  assert (∀ b, negb (t0 + d <? now) = b → IsBlacklisted now id s' = b) as Hbl.
  { intros b <-. unfold IsBlacklisted. by rewrite Hps, Hb, Hu. }
  split.
  - intros Hnow. assert (IsBlacklisted now id s' = true) as Hyes by (apply Hbl; blia). split; [done|].
    destruct (SelectDiverse_total now cs n s' Hn) as (r & Hr & Hel). exists r. split; [done|].
    intros ([id' a] & Heq & Hin)%list_elem_of_fmap. cbn in Heq. subst id'.
    rewrite Forall_forall in Hel. destruct (Hel _ Hin) as [Hno _]. cbn in Hno. congruence.
  - intros Hnow. apply Hbl. blia.
Qed.
End scorer.

(** ** Evaluations *)
Section examples.
#[local] Existing Instance insertion_Slice.
Definition exp_one : MathExp := {| math_Exp _ := f_of_Z 1 |}.
#[local] Existing Instance exp_one.

(** Three good transfers, and later one more that caches their score. *)
Definition ex_scorer : Scorer :=
  run NewScorer [(0, OpSuccess "p" 10 (f_of_Z 20) (f_of_Z 5000000)); (1, OpSuccess "p" 10 (f_of_Z 20) (f_of_Z 5000000));
                 (2, OpSuccess "p" 10 (f_of_Z 20) (f_of_Z 5000000))].

Definition failures : list (Z * op) := (λ i, (Minute * Z.of_nat i, OpFailure "p")) <$> seq 1 50.

Lemma active_score_frozen_witness : GetScore (51 * Minute) "p" (run ex_scorer failures) = f_dec 5 10.
Proof.
  apply (active_score_frozen "p" (f_dec 5 10) 2 ex_scorer failures); [|vm_compute; repeat split; reflexivity|vm_compute; reflexivity].
  eexists. split; [vm_compute; reflexivity|]. split; vm_compute; reflexivity.
Defined.

(** Computed from its data the score after these fifty failures would be lower. *)
Example frozen_above_fresh :
  match peers (run ex_scorer failures) !! "p" with
  | Some ps => SFltb (freshScore (51 * Minute) NewScorer ps) (f_dec 5 10)
  | None => false
  end = true.
Proof. vm_compute. reflexivity. Qed.

Lemma SelectDiverse_witness :
  ∃ r, SelectDiverse 5 [("a", tt); ("b", tt); ("p", tt)] 2 ex_scorer = Some r ∧
    Z.of_nat (length r) = Z.min 2 (Z.of_nat (length (eligibles 5 ex_scorer [("a", tt); ("b", tt); ("p", tt)]))).
Proof.
  destruct (SelectDiverse_spec 5 [("a", tt); ("b", tt); ("p", tt)] 2 ex_scorer) as (r & Hr & _ & Hl & _); [lia|].
  exists r. split; [exact Hr|exact Hl].
Defined.

Lemma blacklist_witness :
  IsBlacklisted (Hour + 10) "p" (run (Blacklist 3 "p" "hash mismatch" (24 * Hour - 1) ex_scorer)
    [(5, OpSuccess "p" 1 (f_of_Z 1) (f_of_Z 1)); (Hour, OpCleanup)]) = true.
Proof.
  destruct (blacklist_holds "p" "hash mismatch" (24 * Hour - 1) 3 ex_scorer
    [(5, OpSuccess "p" 1 (f_of_Z 1) (f_of_Z 1)); (Hour, OpCleanup)] (Hour + 10) [("p", tt)] 1) as [H1 _];
    [vm_compute; discriminate|vm_compute; discriminate|vm_compute; discriminate| |lia|].
  - repeat constructor; try (vm_compute; discriminate); intros; discriminate.
  - destruct H1 as [H1 _]; [vm_compute; split; discriminate|]. exact H1.
Defined.

(** An infinite throughput (a transfer that took no measurable time) makes the
    averages infinite for good and the score NaN, which excludes the peer from
    every selection although all its transfers succeeded. *)
Example infinite_throughput_excludes :
  let inf := fdiv (f_of_Z 10) (Seconds 0) in
  let s := run NewScorer [(0, OpSuccess "p" 10 (f_of_Z 0) inf); (1, OpSuccess "p" 10 (f_of_Z 20) (f_of_Z 5000000));
                          (2, OpSuccess "p" 10 (f_of_Z 20) (f_of_Z 5000000))] in
  is_nan (GetScore Hour "p" s) = true ∧ SelectBest Hour [("p", tt)] 1 s = Some [].
Proof. split; vm_compute; reflexivity. Qed.
End examples.
End ScorerSys.
