(* ===== verification/Mirror.v ===== *)
(** * internal/mirror/fetcher.go: fetching from HTTP mirrors

    The HTTP client is a parameter: for each request of a fetcher, in order, the
    response or a transport error.  A response's body ends normally or with an
    error (a stall aborts it with one).  Requests are retried by [Retry.Do]. *)

From S2P Require Import Prelude GoStd GoText GoNum GoNet Security Retry.
From Stdlib Require Import Ascii SpecFloat.
Open Scope Z_scope.
Open Scope go_scope.

Module Mirror.
Import Retry.

Record Stats := mkStats {
  st_URL : string; AvgLatencyMs : float64; AvgThroughputBps : float64; ErrorCount : Z; SuccessCount : Z; LastContact : Z;
}.

Definition DefaultMaxResponseSize : Z := 500 * 1024 * 1024.

Record MirrorConfig := mkMirrorConfig { c_Timeout : Z; c_MaxRetries : Z; c_MaxResponseSize : Z }.
Definition DefaultConfig : MirrorConfig := mkMirrorConfig (60 * GoNum.Second) 3 DefaultMaxResponseSize.

Record Fetcher := mkFetcher { stats : gmap string Stats; maxRetries : Z; maxResponseSize : Z; stallWindow : Z }.

Definition NewFetcher (cfg : option MirrorConfig) : Fetcher :=
  let cfg := default DefaultConfig cfg in
  mkFetcher ∅ (c_MaxRetries cfg)
    (if c_MaxResponseSize cfg <=? 0 then DefaultMaxResponseSize else c_MaxResponseSize cfg)
    (if c_Timeout cfg <=? 0 then 60 * GoNum.Second else c_Timeout cfg).

Definition set_stats m f := mkFetcher m (maxRetries f) (maxResponseSize f) (stallWindow f).

(** ** Statistics *)

(** The index of the first slash or colon. *)
Definition extractHost (url : string) : string :=
  let rest := if (8 <? String.length url)%nat && HasPrefix url "https://" then str_drop 8 url
              else if (7 <? String.length url)%nat && HasPrefix url "http://" then str_drop 7 url else url in
  until_any (λ a, Ascii.eqb a slash || Ascii.eqb a ":") rest.

Definition zeroStats (host : string) : Stats := mkStats host (f_of_Z 0) (f_of_Z 0) 0 0 0.

Definition recordError (now : Z) (url : string) (m : gmap string Stats) : gmap string Stats :=
  let host := extractHost url in
  let s := default (zeroStats host) (m !! host) in
  <[host := mkStats (st_URL s) (AvgLatencyMs s) (AvgThroughputBps s) (ErrorCount s +₆₄ 1) (SuccessCount s) now]> m.

Definition recordSuccess (now : Z) (url : string) (bytes duration : Z) (m : gmap string Stats) : gmap string Stats :=
  let host := extractHost url in
  let s := default (zeroStats host) (m !! host) in
  let count := SuccessCount s +₆₄ 1 in
  let n := f_of_Z count in
  let avg x v := fadd (fdiv (fmul x (fsub n (f_of_Z 1))) n) (fdiv v n) in
  let latencyMs := f_of_Z (Z.quot duration Millisecond) in
  let thr := if 0 <? duration then avg (AvgThroughputBps s) (fdiv (f_of_Z bytes) (Seconds duration))
             else AvgThroughputBps s in
  <[host := mkStats (st_URL s) (avg (AvgLatencyMs s) latencyMs) thr (ErrorCount s) count now]> m.

Definition GetMirrorStats (url : string) (f : Fetcher) : option Stats := stats f !! extractHost url.
Definition GetStats (f : Fetcher) : list Stats := snd <$> map_to_list (stats f).

(** ** Responses *)

Record Response := mkResponse {
  StatusCode : Z; Body : stream; ContentLength : Z; h_LastModified : string; h_ETag : string }.

(** [Some e]: the redirect is refused. *)
Definition checkRedirectSafety `{GoUnicode} (scheme reqURL : string) (via : nat) : option string :=
  if (10 <=? via)%nat then Some "stopped after 10 redirects"
  else if negb (String.eqb scheme "http") && negb (String.eqb scheme "https") then Some "redirect to disallowed scheme"
  else if Security.IsBlockedHost reqURL then Some "redirect to blocked host"
  else None.

Definition http_error (code : Z) : error := EOpaque ("http " +:+ Itoa code).

(** A status that is not accepted; client errors are not retried. *)
Definition statusError (code : Z) : error :=
  if (400 <=? code) && (code <? 500) then ENonRetryable (http_error code) else http_error code.

Definition readError : error := EOpaque "read error".

Definition ReadAll (r : stream) : res error string := if r.2 then Ok r.1 else Err readError.

(** ** Requests

    The net answers request [n] (with the given Range header) of the fetcher, and
    gives the time after it. *)
Record net := mkNet { n_do : nat → option string → option Response; n_now : nat → Z }.

(** The state of a fetch: how many requests were made, and the statistics. *)
Abbreviation fetching := (nat * gmap string Stats)%type.

(** One attempt: [handle] reads an accepted response. *)
Definition attempt (w : net) (url : string) (header : option string) (accept : Z → bool)
    (handle : Response → res error string) (s : fetching) : res error string * fetching :=
  let '(n, m) := s in
  let failed := (S n, recordError (n_now w n) url m) in
  match n_do w n header with
  | None => (Err (EOpaque "transport error"), failed)
  | Some resp =>
      if accept (StatusCode resp) then
        match handle resp with
        | Ok data => (Ok data, (S n, m))
        | Err e => (Err e, failed)
        end
      else (Err (statusError (StatusCode resp)), failed)
  end.

(** The retries around an attempt, and the statistics after a success. *)
Definition fetchWith (w : net) (canceled : Z → bool) (url : string) (att : fetching → res error string * fetching)
    (n : nat) (f : Fetcher) : res error string * nat * Fetcher :=
  let '(out, (n', m), _) := Do canceled (mkConfig (maxRetries f) (Some (Exponential Second))) att (n, stats f) in
  match out with
  | Ok data =>
      (Ok data, n', set_stats (recordSuccess (n_now w n') url (Z.of_nat (String.length data)) (n_now w n' - n_now w n) m) f)
  | Err e => (Err e, n', set_stats m f)
  end.

Definition isOK (code : Z) : bool := code =? 200.

Definition readBody (max : Z) (resp : Response) : res error string :=
  match ReadAll (LimitReader (Body resp) (max + 1)) with
  | Ok data =>
      if max <? Z.of_nat (String.length data) then Err (ENonRetryable (EOpaque "response size exceeds maximum allowed"))
      else Ok data
  | Err e => Err e
  end.

Definition Fetch (w : net) (canceled : Z → bool) (url : string) (n : nat) (f : Fetcher) : res error string * nat * Fetcher :=
  fetchWith w canceled url (attempt w url None isOK (readBody (maxResponseSize f))) n f.

(** [FetchToWriter]: no retry; what was written stays written. *)
Definition FetchToWriter (w : net) (url : string) (n : nat) (f : Fetcher) : string * res error Z * Fetcher :=
  let failed := set_stats (recordError (n_now w n) url (stats f)) f in
  match n_do w n None with
  | None => ("", Err (EOpaque "transport error"), failed)
  | Some resp =>
      if negb (isOK (StatusCode resp)) then ("", Err (http_error (StatusCode resp)), failed)
      else
        let r := LimitReader (Body resp) (maxResponseSize f + 1) in
        let written := Z.of_nat (String.length r.1) in
        if negb r.2 then (r.1, Err readError, failed)
        else if maxResponseSize f <? written then (r.1, Err (EOpaque "response size exceeds maximum allowed"), failed)
        else (r.1, Ok written, set_stats (recordSuccess (n_now w (S n)) url written (n_now w (S n) - n_now w n) (stats f)) f)
  end.

Definition Stream (w : net) (url : string) (n : nat) (f : Fetcher) : res error (stream * Z) * Fetcher :=
  let failed := set_stats (recordError (n_now w n) url (stats f)) f in
  match n_do w n None with
  | None => (Err (EOpaque "transport error"), failed)
  | Some resp => if isOK (StatusCode resp) then (Ok (Body resp, ContentLength resp), f)
                 else (Err (http_error (StatusCode resp)), failed)
  end.

Record ConditionalResult := mkCond {
  cond_Body : option stream; cond_Size : Z; NotModified : bool; cond_LastModified : string; cond_ETag : string }.

(** [n_do] here answers the request that carries the given revalidation values. *)
Definition StreamConditional (w : net) (url : string) (n : nat) (f : Fetcher) : res error ConditionalResult * Fetcher :=
  let failed := set_stats (recordError (n_now w n) url (stats f)) f in
  match n_do w n None with
  | None => (Err (EOpaque "transport error"), failed)
  | Some resp =>
      if StatusCode resp =? 304 then
        (Ok (mkCond None (ContentLength resp) true (h_LastModified resp) (h_ETag resp)), f)
      else if StatusCode resp =? 200 then
        (Ok (mkCond (Some (Body resp)) (ContentLength resp) false (h_LastModified resp) (h_ETag resp)), f)
      else (Err (http_error (StatusCode resp)), failed)
  end.

(** ** Ranges *)

Definition rangeHeader (rangeStart rangeEnd : Z) : string :=
  if rangeEnd <? 0 then "bytes=" +:+ Itoa rangeStart +:+ "-"
  else "bytes=" +:+ Itoa rangeStart +:+ "-" +:+ Itoa rangeEnd.

(** The rest of a stream after [io.CopyN(io.Discard, r, n)]; [None] when it ends first. *)
Definition discard (n : Z) (r : stream) : option stream :=
  if Z.of_nat (String.length r.1) <? n then None else Some (str_drop (Z.to_nat n) r.1, r.2).

(** A limit that is not positive reads nothing. *)
Definition handleNonRangeResponse (max : Z) (resp : Response) (start end_ : Z) : res error string :=
  match (if 0 <? start then discard start (Body resp) else Some (Body resp)) with
  | None => Err (EOpaque "failed to skip bytes")
  | Some r =>
      let toRead := if end_ <? 0 then max else end_ - start + 1 in
      ReadAll (LimitReader r toRead)
  end.

Definition readPartial (max : Z) (resp : Response) (rangeStart rangeEnd : Z) : res error string :=
  let expectedSize := if rangeEnd <? 0 then max else rangeEnd - rangeStart + 1 in
  ReadAll (LimitReader (Body resp) (expectedSize + 1)).

Definition FetchRange (w : net) (canceled : Z → bool) (url : string) (rangeStart rangeEnd : Z) (n : nat) (f : Fetcher)
  : res error string * nat * Fetcher :=
  if (rangeStart =? 0) && (rangeEnd <? 0) then Fetch w canceled url n f
  else
    fetchWith w canceled url
      (attempt w url (Some (rangeHeader rangeStart rangeEnd)) (λ c, (c =? 200) || (c =? 206))
         (λ resp, if StatusCode resp =? 200 then handleNonRangeResponse (maxResponseSize f) resp rangeStart rangeEnd
                  else readPartial (maxResponseSize f) resp rangeStart rangeEnd)) n f.

(** The mirror as a source of chunks: the downloader's end is exclusive, the range
    header's inclusive. *)
Definition mirrorSourceFetch (w : net) (canceled : Z → bool) (url : string) (start end_ : Z) (n : nat) (f : Fetcher) :=
  FetchRange w canceled url start (if 0 <? end_ then end_ - 1 else end_) n f.
End Mirror.
