(* ===== verification/MirrorSys.v ===== *)
(** * Correctness of the mirror fetcher *)

From S2P Require Import Prelude GoStd GoText GoNum GoNet Security Retry Mirror.
From Stdlib Require Import Ascii.
Open Scope Z_scope.

Module MirrorSys.
Import Retry Mirror.

Section fetch.
Variables (w : net) (url : string) (header : option string) (accept : Z → bool) (handle : Response → res error string).

Lemma attempt_count s : (attempt w url header accept handle s).2.1 = S s.1.
Proof. destruct s as [n m]. unfold attempt. by repeat case_match. Qed.

Lemma state_after_count i s : (state_after (attempt w url header accept handle) i s).1 = (i + s.1)%nat.
Proof. induction i as [|i IH]; [done|]. cbn. rewrite attempt_count. f_equal. exact IH. Qed.

(** The outcome of request [i], which depends on its response only. *)
Definition answer (o : option Response) : res error string :=
  match o with
  | None => Err (EOpaque "transport error")
  | Some resp => if accept (StatusCode resp) then handle resp else Err (statusError (StatusCode resp))
  end.

Lemma attempt_outcome i n m :
  outcome (attempt w url header accept handle) i (n, m) = answer (n_do w (n + i) header).
Proof.
  unfold outcome. pose proof (state_after_count i (n, m)) as Hn. cbn [fst] in Hn.
  destruct (state_after _ i (n, m)) as [n' m']. cbn [fst] in Hn. subst n'.
  unfold attempt. rewrite Nat.add_comm. unfold answer. by repeat case_match.
Qed.

(** A successful fetch returns what some request was answered with, after at most
    [maxRetries] requests, the earlier ones of which failed retryably. *)
Lemma fetchWith_Ok canceled n f data n' f' :
  fetchWith w canceled url (attempt w url header accept handle) n f = (Ok data, n', f') →
  ∃ k, (n <= k)%nat ∧ n' = S k ∧ Z.of_nat (n' - n) <= Z.max 1 (maxRetries f) ∧
    answer (n_do w k header) = Ok data ∧
    (∀ i, (n <= i < k)%nat → retryable (answer (n_do w i header))).
Proof.
  unfold fetchWith. set (cfg := mkConfig _ _).
  pose proof (Do_explained canceled cfg (attempt w url header accept handle) (n, stats f)) as Hd. cbv zeta in Hd.
  destruct (Do _ _ _ _) as [[out [n1 m1]] r]. destruct Hd as (Hk & Hs & _ & Hpre & Hex).
  pose proof (f_equal fst Hs) as Hn1. rewrite state_after_count in Hn1. cbn [fst] in Hn1.
  destruct out as [v|e]; [|done]. intros [= <- <- <-]. cbn [explains] in Hex. rewrite attempt_outcome in Hex.
  exists (n + (calls r - 1))%nat. split_and!; [lia|lia| |done|].
  - subst cfg. cbn [MaxAttempts] in Hk. lia.
  - intros i Hi. specialize (Hpre (i - n)%nat ltac:(lia)). rewrite attempt_outcome in Hpre.
    by replace (n + (i - n))%nat with i in Hpre by lia.
Qed.

(** A fetch that is not cancelled returns the first good answer, if there are
    fewer failures than attempts. *)
Lemma fetchWith_reaches n f j data :
  (∀ i, (i < j)%nat → retryable (answer (n_do w (n + i) header))) →
  answer (n_do w (n + j) header) = Ok data → Z.of_nat j < Z.max 1 (maxRetries f) →
  (fetchWith w (λ _, false) url (attempt w url header accept handle) n f).1.1 = Ok data.
Proof.
  intros Hpre Hj Hlt. unfold fetchWith. set (cfg := mkConfig _ _).
  destruct (Do_reaches (λ _, false) cfg (attempt w url header accept handle) (n, stats f) j data) as (r & ->).
  - done.
  - intros i Hi. rewrite attempt_outcome. by apply Hpre.
  - by rewrite attempt_outcome.
  - cbn [MaxAttempts cfg]. lia.
  - by destruct (state_after _ _ _).
Qed.
End fetch.

(** A successful [Fetch] returns the complete body of a response with status
    200, of at most the maximal size, after at most [maxRetries] requests. *)
Theorem Fetch_sound w canceled url n f data n' f' :
  0 <= maxResponseSize f →
  Fetch w canceled url n f = (Ok data, n', f') →
  Z.of_nat (String.length data) <= maxResponseSize f ∧ Z.of_nat (n' - n) <= Z.max 1 (maxRetries f) ∧
  ∃ resp, n_do w (n' - 1) None = Some resp ∧ StatusCode resp = 200 ∧ Body resp = (data, true).
Proof.
  intros Hmax (k & Hk & -> & Hle & Hans & _)%fetchWith_Ok. cbn [Nat.sub]. rewrite Nat.sub_0_r.
  destruct (n_do w k None) as [resp|]; [|done]. cbn [answer] in Hans. unfold isOK in Hans.
  destruct (StatusCode resp =? 200) eqn:Hst; [|done]. unfold readBody, ReadAll in Hans.
  destruct (LimitReader _ _) as [s ok] eqn:Hlim. cbn [fst snd] in Hans. destruct ok; [|done].
  destruct (maxResponseSize f <? _) eqn:Hsz; [done|]. injection Hans as ->.
  assert (Body resp = (data, true)) as Hb.
  { unfold LimitReader in Hlim. destruct (_ <? maxResponseSize f + 1) eqn:Hc; [by rewrite Hlim|].
    injection Hlim as <-. rewrite str_length_take in Hsz by blia. blia. }
  split_and!; [blia|done|]. exists resp. split_and!; [done|blia|done].
Qed.

(** What a mirror that has [content] may answer to a range request. *)
Definition honest (content : string) (a b : Z) (resp : Response) : Prop :=
  (StatusCode resp = 206 ∧ Body resp = (substr content a (b + 1), true)) ∨
  (StatusCode resp = 200 ∧ Body resp = (content, true)).

Lemma FetchRange_slice_after w url n f content a b j resp :
  0 <= a <= b → b < Z.of_nat (String.length content) → Z.of_nat j < Z.max 1 (maxRetries f) →
  (∀ i, (i < j)%nat → match n_do w (n + i) (Some (rangeHeader a b)) with
                       | None => True
                       | Some r => 500 <= StatusCode r < 600
                       end) →
  n_do w (n + j) (Some (rangeHeader a b)) = Some resp → honest content a b resp →
  (FetchRange w (λ _, false) url a b n f).1.1 = Ok (substr content a (b + 1)).
Proof.
  intros Hab Hb Hj Hpre Hresp Hh. unfold FetchRange.
  replace ((a =? 0) && (b <? 0)) with false by (symmetry; apply andb_false_intro2; blia).
  apply (fetchWith_reaches w url (Some (rangeHeader a b)) _ _ n f j); [|rewrite Hresp|done].
  - intros i Hi. specialize (Hpre i Hi). destruct (n_do w (n + i) _) as [r|]; [|by eexists].
    cbn [answer]. replace (_ || _) with false by (symmetry; apply orb_false_intro; blia).
    unfold statusError. replace (_ && _) with false by (symmetry; apply andb_false_intro2; blia). by eexists.
  - cbn [answer]. destruct Hh as [[-> Hbody]|[-> Hbody]].
    + change ((206 =? 200) || (206 =? 206)) with true. change (206 =? 200) with false. cbv iota.
      unfold readPartial. replace (b <? 0) with false by (symmetry; blia). rewrite Hbody.
      rewrite LimitReader_all; [done|]. cbn [fst]. rewrite substr_length; lia.
    + change ((200 =? 200) || (200 =? 206)) with true. change (200 =? 200) with true. cbv iota.
      unfold handleNonRangeResponse. replace (b <? 0) with false by (symmetry; blia). rewrite Hbody.
      assert ((if 0 <? a then discard a (content, true) else Some (content, true)) =
        Some (str_drop (Z.to_nat a) content, true)) as ->.
      { destruct (0 <? a) eqn:Ha.
        - unfold discard. cbn [fst snd]. by rewrite (proj2 (Z.ltb_ge _ _)) by lia.
        - by replace (Z.to_nat a) with 0%nat by blia. }
      rewrite LimitReader_cut; [|rewrite str_length_drop; lia].
      unfold ReadAll, substr. cbn [fst snd]. do 2 f_equal. lia.
Qed.

Lemma FetchRange_slice_from w url n f content a b resp :
  0 <= a <= b → b < Z.of_nat (String.length content) →
  n_do w n (Some (rangeHeader a b)) = Some resp → honest content a b resp →
  (FetchRange w (λ _, false) url a b n f).1.1 = Ok (substr content a (b + 1)).
Proof.
  intros Hab Hb Hdo Hh. apply (FetchRange_slice_after w url n f content a b 0 resp); try done; try lia.
  by rewrite Nat.add_0_r.
Qed.

(** When a mirror answers one of the attempts honestly, whether it supports
    ranges (206 with the range) or not (200 with the whole file), and the attempts
    before it failed with transport or server errors, [FetchRange] returns exactly
    the bytes [a] to [b] of the file. *)
Theorem FetchRange_slice w url n f content a b j resp :
  0 <= a <= b → b < Z.of_nat (String.length content) → Z.of_nat j < Z.max 1 (maxRetries f) →
  (∀ i, (i < j)%nat → match n_do w (n + i) (Some (rangeHeader a b)) with
                       | None => True
                       | Some r => 500 <= StatusCode r < 600
                       end) →
  n_do w (n + j) (Some (rangeHeader a b)) = Some resp → honest content a b resp →
  (FetchRange w (λ _, false) url a b n f).1.1 = Ok (substr content a (b + 1)).
Proof. apply FetchRange_slice_after. Qed.

(** Whatever the server sends, a closed range yields at most one byte more than
    was asked for, and an open one at most one byte more than the maximum; a body
    that is longer is cut without an error. *)
Lemma FetchRange_bound w canceled url a b n f data n' f' :
  0 < a ∨ 0 <= b → 0 <= maxResponseSize f → a <= b + 1 ∨ b < 0 →
  FetchRange w canceled url a b n f = (Ok data, n', f') →
  Z.of_nat (String.length data) <= (if b <? 0 then maxResponseSize f else b - a + 1) + 1.
Proof.
  intros Hab Hmax Hle. unfold FetchRange.
  replace ((a =? 0) && (b <? 0)) with false by (symmetry; destruct Hab; [apply andb_false_intro1|apply andb_false_intro2]; blia).
  intros (k & _ & -> & _ & Hans & _)%fetchWith_Ok. destruct (n_do w k _) as [resp|]; [|done]. cbn [answer] in Hans.
  assert (∀ r limit s, 0 <= limit → ReadAll (LimitReader r limit) = Ok s → Z.of_nat (String.length s) <= limit) as Hlim.
  { intros r limit s Hl. unfold ReadAll, LimitReader. destruct (_ <? limit) eqn:Hc.
    - destruct r as [s0 []]; cbn [fst snd] in *; [|done]. intros [= <-]. blia.
    - cbn [fst snd]. intros [= <-]. rewrite str_length_take_le. lia. }
  destruct (_ || _); [|done]. destruct (StatusCode resp =? 200).
  - unfold handleNonRangeResponse in Hans. destruct (if 0 <? a then _ else _); [|done].
    apply Hlim in Hans; destruct (b <? 0) eqn:Hb; blia.
  - unfold readPartial in Hans. apply Hlim in Hans; destruct (b <? 0) eqn:Hb; blia.
Qed.

Lemma redirect_refused `{GoUnicode} scheme u via :
  checkRedirectSafety scheme u via = None →
  (via < 10)%nat ∧ (scheme = "http" ∨ scheme = "https") ∧ Security.IsBlockedHost u = false.
Proof.
  unfold checkRedirectSafety. destruct (10 <=? via)%nat eqn:Hv; [done|]. apply Nat.leb_gt in Hv.
  destruct (String.eqb_spec scheme "http") as [->|]; [|destruct (String.eqb_spec scheme "https") as [->|]]; cbn [negb andb];
    try done; destruct (Security.IsBlockedHost u); try done; auto.
Qed.

(** ** Evaluations *)

Definition ok_resp (code : Z) (body : string) : Response := mkResponse code (body, true) (-1) "" "".

(** The first request fails, the second gets a 503, the third the whole file. *)
Definition ex_net : net :=
  mkNet (λ n _, match n with 0%nat => None | 1%nat => Some (ok_resp 503 "") | _ => Some (ok_resp 200 "abcdefgh") end)
        (λ n, Z.of_nat n * GoNum.Second).

Lemma Fetch_sound_witness :
  ∃ resp, n_do ex_net 2 None = Some resp ∧ StatusCode resp = 200 ∧ Body resp = ("abcdefgh", true).
Proof.
  destruct (Fetch_sound ex_net (λ _, false) "http://m/x" 0 (NewFetcher None) "abcdefgh" 3
    (Fetch ex_net (λ _, false) "http://m/x" 0 (NewFetcher None)).2) as (_ & _ & Hr);
    [vm_compute; discriminate|vm_compute; reflexivity|exact Hr].
Defined.

Lemma FetchRange_witness :
  (FetchRange ex_net (λ _, false) "http://m/x" 2 4 0 (NewFetcher None)).1.1 = Ok "cde".
Proof.
  apply (FetchRange_slice ex_net "http://m/x" 0 (NewFetcher None) "abcdefgh" 2 4 2 (ok_resp 200 "abcdefgh"));
    [lia|cbn; lia|cbn; lia| |reflexivity|right; split; reflexivity].
  intros i Hi. destruct i as [|[|i]]; [exact I|cbn; lia|lia].
Defined.

(** A server may send a byte more than the range it was asked for. *)
Example range_one_more :
  (FetchRange (mkNet (λ _ _, Some (ok_resp 206 "abcdefgh")) (λ _, 0)) (λ _, false) "http://m/x" 0 3 0 (NewFetcher None)).1.1
  = Ok "abcde".
Proof. vm_compute. reflexivity. Qed.

(** An open range that is longer than the maximum is cut, not refused. *)
Example open_range_cut :
  (FetchRange (mkNet (λ _ _, Some (ok_resp 200 "abcdefgh")) (λ _, 0)) (λ _, false) "http://m/x" 1 (-1) 0
     (NewFetcher (Some (mkMirrorConfig 0 1 4)))).1.1 = Ok "bcde".
Proof. vm_compute. reflexivity. Qed.
End MirrorSys.
