(* ===== verification/Node.v ===== *)
(** * internal/p2p: the node's transfers

    node.go's transfer protocol (both ends), its upload slots and provider
    search; relay.go's decisions about relayed transfers and the relay service;
    psk.go and identity.go's key files.  libp2p (connections, streams, the DHT) is
    a parameter: what it answers is part of each operation's environment. *)

From S2P Require Import Prelude GoStd GoText GoNum GoNet FleetMsg Security Scorer Timeouts.
From Stdlib Require Import Ascii.
Open Scope Z_scope.
Open Scope go_scope.

Module Node.
Import FleetMsg.

Definition MaxTransferSize : Z := 500 * 1024 * 1024.
Definition MaxConcurrentUploads : Z := 20.
Definition MaxUploadsPerPeer : Z := 4.
Definition rangeRequestLen : nat := 81.
Definition maxRequestSize : Z := 256.
Definition maxInitialAlloc : Z := 10 * 1024 * 1024.

Inductive proto := ProtocolTransfer | ProtocolTransferRange.

(** ** Frames *)

(** A hash that is shorter is padded with zero bytes, a longer one overwritten. *)
Definition copy64 (s : string) : string :=
  str_take 64 (s +:+ Nat.iter 64 (String (byte_of 0)) "").

Definition encodeRangeRequest (sha256Hash : string) (start end_ : Z) : string :=
  copy64 sha256Hash +:+ be 8 (if start <? 0 then 0 else start) +:+ be 8 (if end_ <? 0 then 0 else end_)
  +:+ String LF "".

(** The reader is the bytes it delivers before its end. *)
Definition decodeRangeRequest (r : string) : option (string * Z * Z) :=
  match readFull rangeRequestLen r with
  | Err _ => None
  | Ok (buf, _) =>
      let startU64 := unbe (str_take 8 (str_drop 64 buf)) in
      let endU64 := unbe (str_take 8 (str_drop 72 buf)) in
      if (2 ^ 63 - 1 <? startU64) || (2 ^ 63 - 1 <? endU64) then None
      else Some (str_take 64 buf, startU64, endU64)
  end.

(** ** Upload slots *)

Record slots := mkSlots { activeUploads : Z; uploadsPerPeer : gmap string Z; maxConcurrentUploads : Z }.

Definition newSlots (configured : Z) : slots :=
  mkSlots 0 ∅ (if configured <=? 0 then MaxConcurrentUploads else configured).

Definition perPeer (p : string) (u : slots) : Z := default 0 (uploadsPerPeer u !! p).

Definition tryAcceptUpload (p : string) (u : slots) : bool * slots :=
  if maxConcurrentUploads u <=? activeUploads u then (false, u)
  else if MaxUploadsPerPeer <=? perPeer p u then (false, u)
  else (true, mkSlots (activeUploads u + 1) (<[p := perPeer p u + 1]> (uploadsPerPeer u)) (maxConcurrentUploads u)).

Definition trackUploadEnd (p : string) (u : slots) : slots :=
  let left := perPeer p u - 1 in
  mkSlots (activeUploads u - 1)
          (if left <=? 0 then delete p (uploadsPerPeer u) else <[p := left]> (uploadsPerPeer u))
          (maxConcurrentUploads u).

(** ** Serving a request *)

(** What [getContent] returns: the reader, whether it can seek (and if so whether
    seeking works), and the size. *)
Record content := mkContent { c_reader : stream; c_seeker : option bool; c_totalSize : Z }.

(** The server's side of the world: the request's bytes, the content getter
    ([None] is a nil function), and how the stream takes the answer: whether the
    size is written, and after how many content bytes a write fails. *)
Record serverEnv := mkServerEnv {
  se_deadlineOK : bool; se_request : stream; se_getContent : option (string → option content);
  se_sizeOK : bool; se_bodyCut : option nat;
}.

Definition sizeBytes (size : Z) : string := be 8 (if size <? 0 then 0 else size).

(** The answer: the bytes sent, and the count of an upload that completed. *)
Definition refuse (e : serverEnv) : string * option Z := (if se_sizeOK e then sizeBytes 0 else "", None).

(** [bufReader.ReadBytes('\n')] without the newline. *)
Definition readLine (r : string) : option string :=
  let '(line, _, found) := Cut LF r in if found then Some line else None.

Definition readRequest (rangeSupport : bool) (e : serverEnv) : option (string * Z * Z) :=
  let r := (LimitReader (se_request e) maxRequestSize).1 in
  if rangeSupport then decodeRangeRequest r else (λ h, (h, 0, -1)) <$> readLine r.

Definition skipTo (start : Z) (c : content) : option string :=
  if 0 <? start then
    match c_seeker c with
    | Some true => Some (str_drop (Z.to_nat start) (c_reader c).1)
    | Some false => None
    | None => if Z.of_nat (String.length (c_reader c).1) <? start then None
              else Some (str_drop (Z.to_nat start) (c_reader c).1)
    end
  else Some (c_reader c).1.

(** [io.CopyN(writer, reader, n)]: what is written, and whether all of it was. *)
Definition copyBody (e : serverEnv) (n : Z) (data : string) : string * bool :=
  let body := str_take (Z.to_nat n) data in
  match se_bodyCut e with
  | Some k => if (k <? String.length body)%nat then (str_take k body, false)
              else (body, Z.of_nat (String.length body) =? n)
  | None => (body, Z.of_nat (String.length body) =? n)
  end.

Definition sendContent (e : serverEnv) (c : content) (start end_ : Z) : string * option Z :=
  let end_ := if (end_ <=? 0) || (c_totalSize c <? end_) then c_totalSize c else end_ in
  let start := if start <? 0 then 0 else start in
  if end_ <? start then refuse e
  else if c_totalSize c <=? start then refuse e
  else
    let responseSize := end_ - start in
    match skipTo start c with
    | None => refuse e
    | Some data =>
        if negb (se_sizeOK e) then ("", None)
        else
          let '(body, all) := copyBody e responseSize data in
          (sizeBytes responseSize +:+ body, if all then Some responseSize else None)
    end.

(** The request once it has a slot. *)
Definition serveRequest (rangeSupport : bool) (e : serverEnv) : string * option Z :=
  match readRequest rangeSupport e with
  | None => ("", None)
  | Some (sha256Hash, start, end_) =>
      if negb (String.length sha256Hash =? 64)%nat then refuse e
      else match DecodeString sha256Hash with
      | None => refuse e
      | Some _ =>
          match se_getContent e with
          | None => refuse e
          | Some get => match get sha256Hash with None => refuse e | Some c => sendContent e c start end_ end
          end
      end
  end.

(** The handler: the slot is released when it returns, and a completed upload is
    recorded for the peer. *)
Definition handleTransferRequest (now : Z) (rangeSupport : bool) (peerID : string) (e : serverEnv)
    (u : slots) (sc : Scorer.Scorer) : string * slots * Scorer.Scorer :=
  if negb (se_deadlineOK e) then ("", u, sc)
  else
    let '(ok, u1) := tryAcceptUpload peerID u in
    if negb ok then ((refuse e).1, u1, sc)
    else
      let '(sent, done) := serveRequest rangeSupport e in
      (sent, trackUploadEnd peerID u1,
       match done with Some n => Scorer.RecordUpload now peerID n sc | None => sc end).

(** ** Relayed transfers *)

Definition relayedTransferSkipped (relayed : bool) (maxBytes : Z) : bool := relayed && (maxBytes <=? 0).
Definition relayedSizeExceeded (relayed : bool) (size maxBytes : Z) : bool := relayed && (maxBytes <? size).

(** [conns]: for each connection to the peer, whether it is limited. *)
Definition onlyRelayedConn (conns : list bool) : bool :=
  match conns with [] => false | _ => forallb id conns end.

(** ** Downloading a range *)

(** The client's side: the connections, whether connecting, opening the stream
    and sending the request work, what the peer answers, whether the context is
    done when something fails, and the times at which the call starts, the
    connection attempt starts and ends, and the call ends. *)
Record clientEnv := mkClientEnv {
  ce_connected : bool; ce_connectOK : bool; ce_conns : list bool; ce_streamOK : bool; ce_writeOK : bool;
  ce_response : string; ce_ctxDone : bool;
  ce_start : Z; ce_connectStart : Z; ce_connectEnd : Z; ce_end : Z;
}.

Inductive dlError :=
| EConnect | ERelayDisabled | EStream | EInvalidRange | EWrite | EReadSize | ESizeOverflow | ENotFound | ETooLarge
| ERelayedTooLarge | EReadData | EContext.

Section client.
Context `{FloatConv} `{Scorer.MathExp}.

(** The peers' scores and the timeouts the node updates. *)
Abbreviation nodeState := (Scorer.Scorer * Timeouts.Manager)%type.

Definition recordPeerFailure (e : clientEnv) (p : string) (st : nodeState) : nodeState :=
  (Scorer.RecordFailure (ce_end e) p st.1, st.2).

(** A failure of the transfer counts against the peer unless the context is done. *)
Definition transferFailure (e : clientEnv) (p : string) (err : dlError) (st : nodeState)
  : res dlError string * nodeState :=
  if ce_ctxDone e then (Err EContext, st) else (Err err, recordPeerFailure e p st).

Definition connect (e : clientEnv) (p : string) (st : nodeState) : bool * nodeState :=
  if ce_connected e then (true, st)
  else if ce_connectOK e then
    (true, (st.1, Timeouts.RecordSuccess Timeouts.OpPeerConnect (ce_connectEnd e - ce_connectStart e) (ce_connectEnd e) st.2))
  else
    (false, (Scorer.RecordFailure (ce_connectEnd e) p st.1,
             Timeouts.RecordFailure Timeouts.OpPeerConnect (ce_connectEnd e) st.2)).

Definition chooseProto (start end_ : Z) : proto :=
  if (0 <? start) || (0 <? end_) then ProtocolTransferRange else ProtocolTransfer.

Definition request (sha256Hash : string) (start end_ : Z) : option string :=
  match chooseProto start end_ with
  | ProtocolTransferRange =>
      if start <? 0 then None else if end_ <? -1 then None else Some (encodeRangeRequest sha256Hash start end_)
  | ProtocolTransfer => Some (sha256Hash +:+ String LF "")
  end.

(** Reading the content, in one piece or in two. *)
Definition readContent (size : Z) (r : string) : res DecErr string :=
  let allocSize := Z.min size maxInitialAlloc in
  match readFull (Z.to_nat allocSize) r with
  | Err e => Err e
  | Ok (data, r) =>
      if size <=? maxInitialAlloc then Ok data
      else match readFull (Z.to_nat (size - maxInitialAlloc)) r with
           | Err e => Err e
           | Ok (tail, _) => Ok (data +:+ tail)
           end
  end.

Definition recordTransfer (e : clientEnv) (p : string) (size : Z) (st : nodeState) : nodeState :=
  let duration := ce_end e - ce_start e in
  (Scorer.RecordSuccess (ce_end e) p size (f_of_Z (Z.quot duration Millisecond)) (fdiv (f_of_Z size) (Seconds duration)) st.1,
   Timeouts.RecordSuccess Timeouts.OpPeerTransfer duration (ce_end e) st.2).

(** The answer, once the request is sent. *)
Definition receive (e : clientEnv) (p : string) (relayed : bool) (relayedTransferMax : Z) (st : nodeState)
  : res dlError string * nodeState :=
  match readFull 8 (ce_response e) with
  | Err _ => transferFailure e p EReadSize st
  | Ok (sizeBuf, r) =>
      let size := unbe sizeBuf in
      if 2 ^ 63 - 1 <? size then (Err ESizeOverflow, st)
      else if size =? 0 then (Err ENotFound, st)
      else if MaxTransferSize <? size then (Err ETooLarge, st)
      else if relayedSizeExceeded relayed size relayedTransferMax then (Err ERelayedTooLarge, st)
      else match readContent size r with
      | Err _ => transferFailure e p EReadData st
      | Ok data => (Ok data, recordTransfer e p size st)
      end
  end.

Definition DownloadRange (e : clientEnv) (p sha256Hash : string) (start end_ relayedTransferMax : Z) (st : nodeState)
  : res dlError string * nodeState :=
  let '(ok, st) := connect e p st in
  if negb ok then (Err EConnect, st)
  else
    let relayed := onlyRelayedConn (ce_conns e) in
    if relayedTransferSkipped relayed relayedTransferMax then (Err ERelayDisabled, st)
    else if negb (ce_streamOK e) then (Err EStream, recordPeerFailure e p st)
    else match request sha256Hash start end_ with
    | None => (Err EInvalidRange, st)
    | Some _ =>
        if negb (ce_writeOK e) then transferFailure e p EWrite st
        else receive e p relayed relayedTransferMax st
    end.

Definition Download (e : clientEnv) (p sha256Hash : string) (relayedTransferMax : Z) (st : nodeState) :=
  DownloadRange e p sha256Hash 0 (-1) relayedTransferMax st.

(** ** Finding providers *)

Abbreviation AddrInfo := (string * list (option Security.Multiaddr))%type.

(** The loop over the DHT's answers; it stops at the limit. *)
Fixpoint collect (now : Z) (self : string) (sc : Scorer.Scorer) (limit : Z) (found : list AddrInfo)
    (providers : list AddrInfo) : list AddrInfo :=
  match found with
  | [] => providers
  | p :: rest =>
      if String.eqb p.1 self then collect now self sc limit rest providers
      else if Scorer.IsBlacklisted now p.1 sc then collect now self sc limit rest providers
      else
        let providers := providers ++ [p] in
        if limit <=? Z.of_nat (length providers) then providers else collect now self sc limit rest providers
  end.

Context `{GoUnicode}.

Definition allowedOnly (providers : list AddrInfo) : list AddrInfo :=
  omap (λ p, match Security.FilterBlockedAddrs p.2 with [] => None | addrs => Some (p.1, addrs) end) providers.

(** [found]: the peers the DHT search yields, or an error. *)
Definition FindProviders (now duration : Z) (self : string) (found : option (list AddrInfo)) (limit : Z) (st : nodeState)
  : option (list AddrInfo) * nodeState :=
  match found with
  | None => (None, (st.1, Timeouts.RecordFailure Timeouts.OpDHTLookup now st.2))
  | Some found =>
      let providers := collect now self st.1 limit found [] in
      (Some (allowedOnly providers), (st.1, Timeouts.RecordSuccess Timeouts.OpDHTLookup duration now st.2))
  end.

Context `{GoSort}.

(** The outer option is a panic. *)
Definition FindProvidersRanked (now duration : Z) (self : string) (found : option (list AddrInfo)) (limit : Z)
    (st : nodeState) : option (option (list AddrInfo)) * nodeState :=
  let '(r, st') := FindProviders now duration self found (wrap64 (limit * 2)) st in
  (match r with
   | None => Some None
   | Some providers => Some <$> Scorer.SelectDiverse now providers limit st'.1
   end, st').

(** Announcing a package; [None] in a private swarm, where nothing is announced. *)
Definition Provide (now duration : Z) (privateSwarm : bool) (advertise : string → bool) (sha256Hash : string) (st : nodeState)
  : bool * option string * nodeState :=
  if privateSwarm then (true, None, st)
  else
    let key := "/debswarm/pkg/" +:+ sha256Hash in
    if advertise key then (true, Some key, (st.1, Timeouts.RecordSuccess Timeouts.OpDHTLookup duration now st.2))
    else (false, Some key, (st.1, Timeouts.RecordFailure Timeouts.OpDHTLookup now st.2)).

(** A peer found by mDNS is marked, unless it is this node. *)
Definition HandlePeerFound (now : Z) (self id : string) (sc : Scorer.Scorer) : Scorer.Scorer :=
  if String.eqb id self then sc else Scorer.MarkAsMDNSPeer now id sc.

(** The maintenance tick. *)
Definition maintain (now : Z) (st : nodeState) : nodeState :=
  ((Scorer.Cleanup now st.1).2, Timeouts.ResetDecay (f_dec 1 10) st.2).

(** ** The mode of the relay service *)

Inductive RelayMode := RelayServiceAuto | RelayServiceOn | RelayServiceOff.

Definition relayServiceMode (mode : string) : RelayMode :=
  let m := ToLower (TrimSpace mode) in
  if String.eqb m "on" then RelayServiceOn else if String.eqb m "off" then RelayServiceOff else RelayServiceAuto.

(** ** Key files *)

Definition PSKKeySize : nat := 32.
Definition pskHeader : string := "/key/swarm/psk/1.0.0/" +:+ String LF ("/base16/" +:+ String LF "").

(** [bufio.Scanner]'s default token limit. *)
Definition MaxScanTokenSize : Z := 64 * 1024.

Definition checkKey (o : option string) : option string :=
  match o with Some k => if (String.length k =? PSKKeySize)%nat then Some k else None | None => None end.

Definition ParsePSK (r : stream) : option string :=
  match (scan MaxScanTokenSize r.1 r.2).1 with
  | l1 :: l2 :: l3 :: _ =>
      if String.eqb (TrimSpace l1) "/key/swarm/psk/1.0.0/" && String.eqb (TrimSpace l2) "/base16/"
      then checkKey (DecodeString (TrimSpace l3)) else None
  | _ => None
  end.

Definition FormatPSK (psk : string) : string := pskHeader +:+ EncodeToString psk +:+ String LF "".
Definition ParsePSKFromHex (hexStr : string) : option string := checkKey (DecodeString hexStr).

Definition identityHeader : string := "/debswarm/identity/1.0.0/ed25519/" +:+ String LF "".

Fixpoint trimWhitespace (s : string) : string :=
  match s with
  | EmptyString => EmptyString
  | String c s =>
      if Ascii.eqb c " " || Ascii.eqb c TAB || Ascii.eqb c LF || Ascii.eqb c CR then trimWhitespace s
      else String c (trimWhitespace s)
  end.

(** The key's marshalled bytes; unmarshalling them is libp2p's. *)
Definition LoadIdentity (data : string) : option string :=
  if (String.length data <? String.length identityHeader)%nat then None
  else if negb (String.eqb (str_take (String.length identityHeader) data) identityHeader) then None
  else DecodeString (trimWhitespace (str_drop (String.length identityHeader) data)).

Definition SaveIdentity (keyBytes : string) : string := identityHeader +:+ EncodeToString keyBytes +:+ String LF "".
End client.
End Node.
