(* ===== verification/NodeSys.v ===== *)
(** * Correctness of the node's transfers

    The two ends of the transfer protocol together, the accounting of upload
    slots, the provider search, and the agreement of peers and mirrors on what a
    chunk is. *)

From S2P Require Import Prelude GoStd GoText GoNum GoNet FleetMsg Security Scorer ScorerSys Timeouts Retry Mirror MirrorSys Node.
From Stdlib Require Import Ascii SpecFloat.
Open Scope Z_scope.

Module NodeSys.
Import FleetMsg ScorerSys Mirror MirrorSys Node.

(** ** Hexadecimal *)

Lemma unhex_hex_digit z : 0 <= z < 16 → unhex (hex_digit z) = Some z.
Proof.
  intros Hz. assert (forallb (λ z, bool_decide (unhex (hex_digit z) = Some z)) (seqZ 0 16) = true) as Hall
    by (vm_compute; reflexivity).
  rewrite forallb_forall in Hall. specialize (Hall z). rewrite <- list_elem_of_In, elem_of_seqZ in Hall.
  specialize (Hall ltac:(lia)). by apply bool_decide_eq_true in Hall.
Qed.

Lemma DecodeString_EncodeToString s : DecodeString (EncodeToString s) = Some s.
Proof.
  induction s as [|a s IH]; [done|]. cbn [EncodeToString DecodeString]. pose proof (code_range a).
  rewrite !unhex_hex_digit, IH.
  2: { apply Z.mod_pos_bound. lia. }
  2: { split; [apply Z.div_pos; lia|apply Z.div_lt_upper_bound; lia]. }
  do 2 f_equal. transitivity (byte_of (code a)); [|apply byte_of_code]. f_equal. pose proof (Z.div_mod (code a) 16). lia.
Qed.

(** Hexadecimal text holds no white space. *)
Definition hexish (c : ascii) : bool := match unhex c with Some _ => true | None => false end.

Lemma hexish_visible c : hexish c = true → 33 <= code c < 127.
Proof.
  unfold hexish, unhex, digit_value. destruct (_ && _) eqn:H1; [intros; blia|].
  destruct ((97 <=? _) && _) eqn:H2; [intros; blia|]. destruct ((65 <=? _) && _) eqn:H3; [intros; blia|done].
Qed.

Lemma DecodeString_hexish s : ∀ t, DecodeString s = Some t → str_forallb hexish s = true.
Proof.
  assert (∀ n s, (String.length s <= n)%nat → ∀ t, DecodeString s = Some t → str_forallb hexish s = true) as Hn.
  { induction n as [|n IH]; intros [|h [|l s']] Hlen t; cbn [String.length] in *; try done; try lia.
    cbn [DecodeString]. destruct (unhex h) eqn:Hh; [|done]. destruct (unhex l) eqn:Hl; [|done].
    destruct (DecodeString s') eqn:Hs; [|done]. intros _. cbn [str_forallb]. unfold hexish at 1 2. rewrite Hh, Hl.
    eapply IH; [lia|done]. }
  by eapply Hn.
Qed.

Lemma hexish_no c s : str_forallb hexish s = true → code c < 33 → str_no c s = true.
Proof.
  intros Hs Hc. eapply str_forallb_impl; [|exact Hs]. intros a Ha%hexish_visible.
  apply negb_true_iff, Ascii.eqb_neq. intros ->. lia.
Qed.

(** ** Frames *)

Lemma copy64_id h : String.length h = 64%nat → copy64 h = h.
Proof. intros Hh. unfold copy64. rewrite <- Hh at 1. apply str_take_app. Qed.

Lemma encodeRangeRequest_length h start end_ : String.length h = 64%nat →
  String.length (encodeRangeRequest h start end_) = rangeRequestLen.
Proof. intros Hh. unfold encodeRangeRequest. by rewrite !str_length_app, !be_length, copy64_id, Hh. Qed.

Lemma range_frame h start end_ rest :
  String.length h = 64%nat → 0 <= start < 2 ^ 63 → end_ < 2 ^ 63 →
  decodeRangeRequest (encodeRangeRequest h start end_ +:+ rest) = Some (h, start, Z.max 0 end_).
Proof.
  intros Hh Hs He. unfold decodeRangeRequest.
  rewrite <- (encodeRangeRequest_length h start end_ Hh), readFull_app.
  unfold encodeRangeRequest. rewrite copy64_id by done.
  replace (start <? 0) with false by (symmetry; blia).
  replace (if end_ <? 0 then 0 else end_) with (Z.max 0 end_) by (destruct (end_ <? 0) eqn:?; blia).
  set (e := Z.max 0 end_). assert (0 <= e < 2 ^ 63) as He' by lia. clearbody e.
  assert (∀ z, 0 <= z < 2 ^ 63 → unbe (be 8 z) = z) as Hbe.
  { intros z Hz. rewrite unbe_be. apply Z.mod_small. change (256 ^ Z.of_nat 8) with (2 ^ 64). lia. }
  assert (∀ a b n, String.length a = n → str_drop n (a +:+ b) = b) as Hdrop.
  { intros a b n <-. apply str_drop_app. }
  assert (∀ a b n, String.length a = n → str_take n (a +:+ b) = a) as Htake.
  { intros a b n <-. apply str_take_app. }
  rewrite (Htake h) by done. rewrite (Hdrop h) by done. rewrite (Htake (be 8 start)) by apply be_length.
  assert (str_drop 72 (h +:+ be 8 start +:+ be 8 e +:+ String LF "") = be 8 e +:+ String LF "") as ->.
  { rewrite <- str_app_assoc. apply Hdrop. by rewrite str_length_app, be_length, Hh. }
  rewrite (Htake (be 8 e)) by apply be_length. rewrite !Hbe by lia.
  replace (_ || _) with false; [done|]. symmetry. apply orb_false_intro; blia.
Qed.

(** ** The two ends together *)

(** The range a request is answered with. *)
Definition served_end (c : string) (end_ : Z) : Z :=
  let size := Z.of_nat (String.length c) in if (end_ <=? 0) || (size <? end_) then size else end_.

(** A server that has the content, and whose stream takes the whole answer. *)
Definition has_content (h c : string) (seeker : option bool) (e : serverEnv) : Prop :=
  se_getContent e = Some (λ h', if String.eqb h' h then Some (mkContent (c, true) seeker (Z.of_nat (String.length c))) else None) ∧
  seeker ≠ Some false ∧ se_sizeOK e = true ∧ se_bodyCut e = None.

Definition is_range (start end_ : Z) : bool :=
  match chooseProto start end_ with ProtocolTransferRange => true | ProtocolTransfer => false end.

Lemma serve_reply h c seeker e start end_ req :
  (∃ b, DecodeString h = Some b) → String.length h = 64%nat → 0 <= start < 2 ^ 63 → -1 <= end_ < 2 ^ 63 →
  request h start end_ = Some req → se_request e = (req, true) → has_content h c seeker e →
  start < served_end c end_ →
  serveRequest (is_range start end_) e =
  (be 8 (served_end c end_ - start) +:+ substr c start (served_end c end_), Some (served_end c end_ - start)).
Proof.
  intros [b Hhex] Hlen Hs He Hreq Hse (Hget & Hseek & Hsz & Hcut) Hlt.
  assert (readRequest (is_range start end_) e =
    Some (h, start, if is_range start end_ then Z.max 0 end_ else -1)) as Hread.
  { unfold readRequest. rewrite Hse. unfold request in Hreq. unfold is_range in *.
    destruct (chooseProto start end_) eqn:Hp.
    - injection Hreq as <-. rewrite LimitReader_all.
      2: { cbn [fst]. rewrite str_length_app, Hlen. by vm_compute. }
      cbn [fst]. unfold readLine. rewrite Cut_spec by (eapply hexish_no; [by eapply DecodeString_hexish|by vm_compute]).
      unfold chooseProto in Hp. destruct (0 <? start) eqn:H0; [done|]. cbn. do 3 f_equal. blia.
    - replace (start <? 0) with false in Hreq by (symmetry; blia).
      replace (end_ <? -1) with false in Hreq by (symmetry; blia). injection Hreq as <-.
      rewrite LimitReader_all.
      2: { cbn [fst]. rewrite encodeRangeRequest_length by done. by vm_compute. }
      cbn [fst]. rewrite <- (str_app_nil_r (encodeRangeRequest h start end_)). apply range_frame; lia || done. }
  unfold serveRequest. rewrite Hread, Hlen. cbn [Nat.eqb negb]. rewrite Hhex, Hget, String.eqb_refl.
  unfold sendContent. cbn [c_totalSize c_reader].
  set (en := if is_range start end_ then _ else _).
  assert ((if (en <=? 0) || (Z.of_nat (String.length c) <? en) then Z.of_nat (String.length c) else en) = served_end c end_) as ->.
  { subst en. unfold served_end, is_range, chooseProto. destruct (0 <? start) eqn:H0; cbn [orb].
    - destruct (decide (end_ <= 0)).
      + replace (end_ <=? 0) with true by (symmetry; blia). by replace (Z.max 0 end_ <=? 0) with true by (symmetry; blia).
      + by rewrite Z.max_r by lia.
    - destruct (0 <? end_) eqn:H1; [by rewrite Z.max_r by blia|].
      by replace (end_ <=? 0) with true by (symmetry; blia). }
  replace (start <? 0) with false by (symmetry; blia). clear en.
  assert (served_end c end_ <= Z.of_nat (String.length c)) as Hle.
  { unfold served_end. destruct ((end_ <=? 0) || _) eqn:Ho; [lia|]. apply orb_false_elim in Ho as [_ Ho]. blia. }
  set (en := served_end c end_) in *. clearbody en.
  replace (en <? start) with false by (symmetry; blia).
  replace (Z.of_nat (String.length c) <=? start) with false by (symmetry; blia).
  assert (skipTo start (mkContent (c, true) seeker (Z.of_nat (String.length c))) = Some (str_drop (Z.to_nat start) c)) as ->.
  { unfold skipTo. cbn [c_seeker c_reader fst]. destruct (0 <? start) eqn:H0.
    - destruct seeker as [[]|]; [done|done|]. by replace (_ <? start) with false by (symmetry; blia).
    - by replace (Z.to_nat start) with 0%nat by blia. }
  rewrite Hsz. cbn [negb]. unfold copyBody. rewrite Hcut.
  change (str_take (Z.to_nat (en - start)) (str_drop (Z.to_nat start) c)) with (substr c start en).
  rewrite substr_length by lia. rewrite Z.eqb_refl. unfold sizeBytes.
  by replace (en - start <? 0) with false by (symmetry; blia).
Qed.

Lemma readContent_exact body rest :
  readContent (Z.of_nat (String.length body)) (body +:+ rest) = Ok body.
Proof.
  unfold readContent. set (n := Z.of_nat (String.length body)).
  destruct (decide (n <= maxInitialAlloc)) as [Hle|Hgt].
  - rewrite Z.min_l by done. subst n. rewrite Nat2Z.id, readFull_app. by rewrite (proj2 (Z.leb_le _ _) Hle).
  - assert (0 <= maxInitialAlloc) by (by vm_compute).
    rewrite Z.min_r by lia. set (k := Z.to_nat maxInitialAlloc). assert (k <= String.length body)%nat as Hk by lia.
    rewrite <- (str_take_drop k body) at 1. rewrite str_app_assoc.
    rewrite <- (str_length_take k body Hk) at 1. rewrite readFull_app.
    replace (n <=? maxInitialAlloc) with false by (symmetry; blia).
    replace (Z.to_nat (n - maxInitialAlloc)) with (String.length (str_drop k body)) by (rewrite str_length_drop; lia).
    rewrite readFull_app. by rewrite str_take_drop.
Qed.

Lemma readContent_length size r data :
  0 <= size → readContent size r = Ok data → Z.of_nat (String.length data) = size.
Proof.
  assert (0 <= maxInitialAlloc) by (by vm_compute). intros Hs. unfold readContent.
  destruct (readFull _ r) as [[d r1]|] eqn:H1; [|done]. apply readFull_inv in H1 as [_ H1].
  destruct (size <=? maxInitialAlloc) eqn:Hle; [intros [= <-]; blia|].
  destruct (readFull _ r1) as [[t r2]|] eqn:H2; [|done]. apply readFull_inv in H2 as [_ H2].
  intros [= <-]. rewrite str_length_app. blia.
Qed.

Section transfer.
Context `{FloatConv} `{Scorer.MathExp}.

Lemma receive_reply e p relayed cap st body :
  0 < Z.of_nat (String.length body) <= MaxTransferSize →
  (relayed = true → Z.of_nat (String.length body) <= cap) →
  ce_response e = be 8 (Z.of_nat (String.length body)) +:+ body →
  receive e p relayed cap st = (Ok body, recordTransfer e p (Z.of_nat (String.length body)) st).
Proof.
  intros Hsz Hcap Hresp. unfold receive. rewrite Hresp.
  rewrite <- (be_length 8 (Z.of_nat (String.length body))) at 1. rewrite readFull_app.
  set (n := Z.of_nat (String.length body)) in *.
  assert (unbe (be 8 n) = n) as ->.
  { rewrite unbe_be. apply Z.mod_small. change (256 ^ Z.of_nat 8) with (2 ^ 64). unfold MaxTransferSize in Hsz. lia. }
  replace (2 ^ 63 - 1 <? n) with false by (symmetry; unfold MaxTransferSize in Hsz; blia).
  replace (n =? 0) with false by (symmetry; blia). replace (MaxTransferSize <? n) with false by (symmetry; blia).
  replace (relayedSizeExceeded relayed n cap) with false.
  2: { symmetry. unfold relayedSizeExceeded. destruct relayed; [|done]. specialize (Hcap eq_refl). cbn. blia. }
  subst n. rewrite <- (str_app_nil_r body) at 2. by rewrite readContent_exact.
Qed.

(** The client of an honest peer. *)
Definition reaches (e : clientEnv) : Prop :=
  (ce_connected e = true ∨ ce_connectOK e = true) ∧ ce_streamOK e = true ∧ ce_writeOK e = true.

Lemma download_range_served e se p h c seeker start end_ cap req st :
  (∃ b, DecodeString h = Some b) → String.length h = 64%nat → 0 <= start < 2 ^ 63 → -1 <= end_ < 2 ^ 63 →
  start < served_end c end_ → served_end c end_ - start <= MaxTransferSize →
  reaches e → request h start end_ = Some req → se_request se = (req, true) → has_content h c seeker se →
  (onlyRelayedConn (ce_conns e) = true → 0 < cap ∧ served_end c end_ - start <= cap) →
  ce_response e = (serveRequest (is_range start end_) se).1 →
  (DownloadRange e p h start end_ cap st).1 = Ok (substr c start (served_end c end_)).
Proof.
  intros Hhex Hlen Hs He Hlt Hmax (Hconn & Hstream & Hwrite) Hreq Hse Hcont Hrel Hresp.
  rewrite (serve_reply h c seeker se start end_ req) in Hresp by done. cbn [fst] in Hresp.
  assert (Z.of_nat (String.length (substr c start (served_end c end_))) = served_end c end_ - start) as Hsub.
  { apply substr_length; [lia|]. unfold served_end. destruct ((end_ <=? 0) || _) eqn:Ho; [lia|].
    apply orb_false_elim in Ho as [_ Ho]. blia. }
  unfold DownloadRange. unfold connect.
  assert (∃ st', (if ce_connected e then (true, st) else if ce_connectOK e then (true, (st.1, Timeouts.RecordSuccess
    Timeouts.OpPeerConnect (ce_connectEnd e - ce_connectStart e) (ce_connectEnd e) st.2)) else (false,
    (Scorer.RecordFailure (ce_connectEnd e) p st.1, Timeouts.RecordFailure Timeouts.OpPeerConnect (ce_connectEnd e) st.2)))
    = (true, st')) as (st' & ->).
  { destruct (ce_connected e); [by eexists|]. destruct Hconn as [|Hok]; [done|]. rewrite Hok. by eexists. }
  cbn [negb]. rewrite Hstream, Hwrite, Hreq. cbn [negb].
  replace (relayedTransferSkipped _ cap) with false.
  2: { symmetry. unfold relayedTransferSkipped. destruct (onlyRelayedConn _); [|done]. destruct (Hrel eq_refl). cbn. blia. }
  rewrite (receive_reply e p _ cap st' (substr c start (served_end c end_))); [done|lia| |by rewrite Hsub].
  intros Hr. destruct (Hrel Hr). lia.
Qed.

(** C15: a download from a peer that has the package returns exactly the bytes
    from [start] up to but not including [end_] of it (up to the end of the file when
    [end_] is not positive or beyond it): for every hash of 64 hexadecimal digits, every range that is not empty
    and at most 500 MB, both protocols, and seekable content or not.  It needs what a
    transfer needs: the peer is connected or can be connected to, the stream opens, the
    request goes through whole and the content can be read; the peer has an upload slot
    left, fewer than its maximum (20 unless configured) in all and fewer than 4 for the
    one that asks; and over a relay the range is within the configured limit. *)
Theorem transfer_delivers e se u sc now self p h c seeker start end_ cap req st :
  (∃ b, DecodeString h = Some b) → String.length h = 64%nat → 0 <= start < 2 ^ 63 → -1 <= end_ < 2 ^ 63 →
  start < served_end c end_ → served_end c end_ - start <= MaxTransferSize →
  reaches e → request h start end_ = Some req → se_request se = (req, true) → has_content h c seeker se →
  (onlyRelayedConn (ce_conns e) = true → 0 < cap ∧ served_end c end_ - start <= cap) →
  se_deadlineOK se = true → activeUploads u < maxConcurrentUploads u → perPeer self u < 4 →
  ce_response e = (handleTransferRequest now (is_range start end_) self se u sc).1.1 →
  (DownloadRange e p h start end_ cap st).1 = Ok (substr c start (served_end c end_)).
Proof.
  intros Hhex Hlen Hs He Hlt Hmax Hr Hreq Hse Hcont Hrel Hdl Hslot Hpeer Hresp.
  eapply download_range_served; try done. rewrite Hresp. unfold handleTransferRequest. rewrite Hdl. cbn [negb].
  assert ((tryAcceptUpload self u).1 = true) as Hacc.
  { unfold tryAcceptUpload, MaxUploadsPerPeer. by rewrite (proj2 (Z.leb_gt _ _) Hslot), (proj2 (Z.leb_gt _ _) Hpeer). }
  destruct (tryAcceptUpload self u) as [ok u']. cbn [fst] in Hacc. subst ok. cbn [negb].
  by destruct (serveRequest _ se).
Qed.

Lemma request_chunk h start end_ : 0 <= start < end_ → ∃ req, request h start end_ = Some req ∧ is_range start end_ = true.
Proof.
  intros Hr. unfold request, is_range, chooseProto. replace (0 <? end_) with true by (symmetry; blia).
  rewrite orb_true_r. replace (start <? 0) with false by (symmetry; blia).
  replace (end_ <? -1) with false by (symmetry; blia). by eexists.
Qed.

(** For a chunk of a package, a peer that has the package and a mirror that
    serves it give the downloader the same bytes, those of the chunk, although
    the peer protocol's end is exclusive and HTTP's is inclusive, and whether or
    not the mirror supports ranges. *)
Theorem chunk_sources_agree e se p h c seeker start end_ cap st w url n f resp :
  (∃ b, DecodeString h = Some b) → String.length h = 64%nat →
  0 <= start < end_ → end_ <= Z.of_nat (String.length c) → end_ < 2 ^ 63 → end_ - start <= MaxTransferSize →
  reaches e → onlyRelayedConn (ce_conns e) = false → has_content h c seeker se →
  Some (se_request se) = (λ req, (req, true)) <$> request h start end_ →
  ce_response e = (serveRequest true se).1 →
  n_do w n (Some (rangeHeader start (end_ - 1))) = Some resp → honest c start (end_ - 1) resp →
  (DownloadRange e p h start end_ cap st).1 = Ok (substr c start end_) ∧
  (mirrorSourceFetch w (λ _, false) url start end_ n f).1.1 = Ok (substr c start end_).
Proof.
  intros Hhex Hlen Hr Hend H63 Hmax Hre Hrel Hcont Hreq Hresp Hdo Hh.
  destruct (request_chunk h start end_ Hr) as (req & Heq & Hp). rewrite Heq in Hreq. injection Hreq as Hse.
  assert (served_end c end_ = end_) as Hserved.
  { unfold served_end. replace (_ || _) with false; [done|]. symmetry. apply orb_false_intro; blia. }
  split.
  - rewrite <- Hserved at 2. eapply download_range_served; rewrite ?Hserved, ?Hp; try done; try lia. by rewrite Hrel.
  - unfold mirrorSourceFetch. replace (0 <? end_) with true by (symmetry; blia).
    rewrite (FetchRange_slice_from w url n f c start (end_ - 1) resp); try done; try lia.
    by replace (end_ - 1 + 1) with end_ by lia.
Qed.

(** Whatever the peer sends, a download that succeeds has as many bytes as the
    peer announced, at most 500 MB, and over a relay at most the configured
    limit, which must be positive; a failure while the context is done changes no
    score. *)
Theorem DownloadRange_bound e p h start end_ cap st :
  match DownloadRange e p h start end_ cap st with
  | (Ok data, _) =>
      0 < Z.of_nat (String.length data) <= MaxTransferSize ∧
      Z.of_nat (String.length data) = unbe (str_take 8 (ce_response e)) ∧
      (onlyRelayedConn (ce_conns e) = true → 0 < cap ∧ Z.of_nat (String.length data) <= cap)
  | (Err err, st') => err = EContext → st'.1 = st.1
  end.
Proof.
  unfold DownloadRange.
  destruct (connect e p st) as [ok st1] eqn:Hconn. destruct ok; cbn [negb]; [|done].
  assert (st1.1 = st.1) as Hst1.
  { unfold connect in Hconn. destruct (ce_connected e); [by simplify_eq|]. destruct (ce_connectOK e); by simplify_eq/=. }
  destruct (relayedTransferSkipped _ cap) eqn:Hskip; [done|].
  destruct (ce_streamOK e); cbn [negb]; [|done]. destruct (request _ _ _); [|done].
  assert (∀ err, match transferFailure e p err st1 with (Ok _, _) => False | (Err err', st') => err' = EContext → err ≠ EContext → st'.1 = st.1 end)
    as Hfail.
  { intros err. unfold transferFailure. destruct (ce_ctxDone e); [done|]. by intros ->. }
  destruct (ce_writeOK e); cbn [negb]; [|specialize (Hfail EWrite); destruct (transferFailure _ _ _ _) as [[] ?]; naive_solver].
  unfold receive. destruct (readFull 8 _) as [[buf r]|] eqn:Hrd;
    [|specialize (Hfail EReadSize); destruct (transferFailure _ _ _ _) as [[] ?]; naive_solver].
  apply readFull_inv in Hrd as [Hr Hbuf].
  destruct (_ <? unbe buf) eqn:Hov; [done|]. destruct (unbe buf =? 0) eqn:Hz; [done|].
  destruct (MaxTransferSize <? _) eqn:Hbig; [done|]. destruct (relayedSizeExceeded _ _ _) eqn:Hex; [done|].
  destruct (readContent _ _) as [data|] eqn:Hc;
    [|specialize (Hfail EReadData); destruct (transferFailure _ _ _ _) as [[] ?]; naive_solver].
  pose proof (unbe_range buf) as Hub. rewrite Hbuf in Hub.
  assert (Z.of_nat (String.length data) = unbe buf) as Hlen by (eapply readContent_length; [lia|done]).
  rewrite Hlen. split_and!; [blia|blia| |].
  - f_equal. rewrite Hr, <- Hbuf. by rewrite str_take_app.
  - intros Hrel. rewrite Hrel in Hskip, Hex. unfold relayedTransferSkipped in Hskip. unfold relayedSizeExceeded in Hex.
    cbn [andb] in *. blia.
Qed.
End transfer.

(** ** Upload slots *)

(** Uploads begin and end in any interleaving; the list is the peers of those
    under way. *)
Inductive slot_step : slots * list string → slots * list string → Prop :=
| slot_begin p u u' l : tryAcceptUpload p u = (true, u') → slot_step (u, l) (u', p :: l)
| slot_refuse p u u' l : tryAcceptUpload p u = (false, u') → slot_step (u, l) (u', l)
| slot_end p u l1 l2 : slot_step (u, l1 ++ p :: l2) (trackUploadEnd p u, l1 ++ l2).

Definition count (p : string) (l : list string) : Z := Z.of_nat (length (filter (λ q, q = p) l)).

Definition slots_ok (max : Z) (s : slots * list string) : Prop :=
  maxConcurrentUploads s.1 = max ∧ activeUploads s.1 = Z.of_nat (length s.2) ∧ activeUploads s.1 <= max ∧
  ∀ p, uploadsPerPeer s.1 !! p = (if decide (count p s.2 = 0) then None else Some (count p s.2)) ∧
       count p s.2 <= MaxUploadsPerPeer.

Lemma count_cons p q l : count p (q :: l) = if decide (q = p) then count p l + 1 else count p l.
Proof. unfold count. rewrite filter_cons. destruct (decide (q = p)); cbn [length]; lia. Qed.

Lemma count_nonneg p l : 0 <= count p l.
Proof. unfold count. lia. Qed.

Lemma count_middle p q l1 l2 : count p (l1 ++ q :: l2) = count p (q :: l1 ++ l2).
Proof. unfold count. by rewrite <- Permutation_middle. Qed.

Lemma slots_ok_perPeer max u l p : slots_ok max (u, l) → perPeer p u = count p l.
Proof.
  intros (_ & _ & _ & Hp). destruct (Hp p) as [Hl _]. cbn [fst snd] in Hl. unfold perPeer. rewrite Hl.
  by destruct (decide (count p l = 0)).
Qed.

Lemma slot_step_ok max s s' : slots_ok max s → slot_step s s' → slots_ok max s'.
Proof.
  intros Hok Hstep. destruct Hstep as [p u u' l Hacc|p u u' l Hacc|p u l1 l2].
  - pose proof (slots_ok_perPeer max u l p Hok) as Hpp. destruct Hok as (Hm & Ha & Hle & Hp). cbn [fst snd] in *.
    unfold tryAcceptUpload in Hacc. rewrite Hpp in Hacc. destruct (_ <=? activeUploads u) eqn:H1; [done|].
    destruct (MaxUploadsPerPeer <=? _) eqn:H2; [done|]. injection Hacc as <-.
    split_and!; cbn [fst snd maxConcurrentUploads activeUploads uploadsPerPeer length]; [done|lia|blia|].
    intros q. pose proof (count_nonneg q l). rewrite count_cons. destruct (decide (p = q)) as [<-|Hne].
    + rewrite lookup_insert_eq, decide_False by lia. split; [done|blia].
    + rewrite lookup_insert_ne by done. apply Hp.
  - unfold tryAcceptUpload in Hacc. repeat case_match; by simplify_eq.
  - pose proof (slots_ok_perPeer max u _ p Hok) as Hpp. destruct Hok as (Hm & Ha & Hle & Hp). cbn [fst snd] in *.
    rewrite length_app in Ha. cbn [length] in Ha. rewrite count_middle, count_cons, decide_True in Hpp by done.
    unfold trackUploadEnd. split_and!; cbn [fst snd maxConcurrentUploads activeUploads uploadsPerPeer];
      [done|rewrite length_app; lia|lia|].
    intros q. destruct (Hp q) as [Hq Hq4]. rewrite count_middle, count_cons in Hq, Hq4. rewrite Hpp.
    pose proof (count_nonneg q (l1 ++ l2)). replace (count p (l1 ++ l2) + 1 - 1) with (count p (l1 ++ l2)) by lia.
    destruct (decide (p = q)) as [<-|Hne].
    + split; [|lia]. destruct (_ <=? 0) eqn:Hz.
      * by rewrite lookup_delete_eq, decide_True by blia.
      * by rewrite lookup_insert_eq, decide_False by blia.
    + split; [|done]. destruct (_ <=? 0); [by rewrite lookup_delete_ne|by rewrite lookup_insert_ne].
Qed.

(** C17: under every interleaving of uploads that begin and end, the node counts
    exactly the uploads under way, in all and for each peer; there are never
    more than the configured number of them (20 by default), nor more than four for one
    peer; peers without uploads leave no entry; and a request is refused only when
    one of the limits is reached. *)
Theorem upload_slots configured u l :
  rtc slot_step (newSlots configured, []) (u, l) →
  activeUploads u = Z.of_nat (length l) ∧
  activeUploads u <= (if configured <=? 0 then MaxConcurrentUploads else configured) ∧
  (∀ p, uploadsPerPeer u !! p = (if decide (count p l = 0) then None else Some (count p l)) ∧ count p l <= 4) ∧
  (∀ p, (tryAcceptUpload p u).1 = false ↔
        Z.of_nat (length l) = (if configured <=? 0 then MaxConcurrentUploads else configured) ∨ count p l = 4).
Proof.
  set (max := if configured <=? 0 then _ else _). intros Hsteps.
  assert (slots_ok max (u, l)) as Hok.
  { pattern (u, l). eapply rtc_ind_r; [| |exact Hsteps].
    - split_and!; cbn; [done|done|subst max; destruct (configured <=? 0) eqn:?; [by vm_compute|blia]|].
      intros p. rewrite lookup_empty. split; [done|by vm_compute].
    - intros y z _ Hyz Hy. by eapply slot_step_ok. }
  pose proof Hok as (Hm & Ha & Hle & Hp). cbn [fst snd] in *. split_and!; [done|done|exact Hp|].
  intros p. destruct (Hp p) as [_ H4]. unfold tryAcceptUpload. rewrite (slots_ok_perPeer max u l p Hok), Hm, Ha.
  unfold MaxUploadsPerPeer in *. destruct (max <=? _) eqn:H1; [split; [left; blia|done]|].
  destruct (4 <=? _) eqn:H2; cbn [fst]; [split; [right; blia|done]|split; [done|intros [|]; blia]].
Qed.

(** ** Providers *)
Section providers.
Context `{FloatConv} `{Scorer.MathExp} `{GoUnicode} `{GoSort}.

Definition usable (now : Z) (self : string) (sc : Scorer.Scorer) (p : string * list (option Security.Multiaddr)) : Prop :=
  p.1 ≠ self ∧ Scorer.IsBlacklisted now p.1 sc = false.

Lemma collect_spec now self sc limit found acc :
  Forall (usable now self sc) acc →
  Forall (λ p, usable now self sc p ∧ (p ∈ acc ∨ p ∈ found)) (collect now self sc limit found acc).
Proof.
  revert acc. induction found as [|p rest IH]; intros acc Hacc; cbn [collect].
  { apply Forall_forall. intros q Hq. rewrite Forall_forall in Hacc. auto. }
  assert (∀ acc', Forall (usable now self sc) acc' → (∀ q, q ∈ acc' → q ∈ acc ∨ q = p) →
    Forall (λ q, usable now self sc q ∧ (q ∈ acc ∨ q ∈ p :: rest)) (collect now self sc limit rest acc')) as Hrec.
  { intros acc' Hu Hsub. eapply Forall_impl; [by apply IH|]. intros q [Hq Hin]. split; [done|]. rewrite elem_of_cons.
    destruct Hin as [Hin|]; [apply Hsub in Hin as [|]|]; auto. }
  destruct (String.eqb_spec p.1 self) as [|Hself]; [apply Hrec; auto|].
  destruct (Scorer.IsBlacklisted now p.1 sc) eqn:Hbl; [apply Hrec; auto|].
  assert (Forall (usable now self sc) (acc ++ [p])) as Hacc'.
  { apply Forall_app. split; [done|]. by repeat constructor. }
  assert (∀ q, q ∈ acc ++ [p] → q ∈ acc ∨ q = p) as Hsub by set_solver.
  destruct (limit <=? _); [|by apply Hrec].
  apply Forall_forall. intros q Hq. rewrite Forall_forall in Hacc'. split; [auto|]. rewrite elem_of_cons.
  destruct (Hsub q Hq); auto.
Qed.

(** The ranked provider search never panics for a positive limit, fails only
    if the DHT search does, and returns at most that many peers: none is this node,
    none is blacklisted, none has a score below the limit, and each has at least one
    address, none of them in a blocked range and all among those the search found. *)
Theorem providers_safe now duration self found limit st :
  0 < limit < 2 ^ 57 →
  ∃ r st', FindProvidersRanked now duration self found limit st = (Some r, st') ∧ st'.1 = st.1 ∧
  match found with
  | None => r = None
  | Some found =>
      ∃ l, r = Some l ∧ Z.of_nat (length l) <= limit ∧
        Forall (λ p, p.1 ≠ self ∧ Scorer.IsBlacklisted now p.1 st.1 = false ∧
                     SFleb Scorer.ScoreBlacklist (Scorer.GetScore now p.1 st.1) = true ∧ p.2 ≠ [] ∧
                     Forall (λ a, Security.IsBlockedMultiaddr a = false) p.2 ∧
                     ∃ q, q ∈ found ∧ q.1 = p.1 ∧ p.2 ⊆ q.2) l
  end.
Proof.
  intros Hlim. unfold FindProvidersRanked, FindProviders. destruct found as [found|]; [|by do 2 eexists].
  set (ps := allowedOnly _). cbn [fst snd].
  destruct (SelectDiverse_bounded now ps limit st.1 ltac:(lia)) as (l & -> & Hsub & Hlen & Hel).
  do 2 eexists. split; [done|]. split; [done|]. exists l. split; [done|]. split; [done|].
  apply Forall_forall. intros p Hp. rewrite Forall_forall in Hel. destruct (Hel p Hp) as [Hbl Hsc].
  assert (p ∈ ps) as Hps by (by eapply Hsub). subst ps. unfold allowedOnly in Hps.
  apply list_elem_of_omap in Hps as (q & Hq & Hqp).
  pose proof (collect_spec now self st.1 (wrap64 (limit * 2)) found [] ltac:(constructor)) as Hcol.
  rewrite Forall_forall in Hcol. destruct (Hcol q Hq) as [[Hself _] [Hin|Hin]]; [by apply elem_of_nil in Hin|].
  destruct (Security.FilterBlockedAddrs q.2) as [|a addrs] eqn:Hf; [done|]. injection Hqp as <-. cbn [fst snd] in *.
  split_and!; [done|done|done|done| |].
  - rewrite <- Hf. apply Forall_forall. intros x Hx. unfold Security.FilterBlockedAddrs in Hx.
    rewrite list_elem_of_In in Hx. apply filter_In in Hx as [_ Hx]. by apply negb_true_iff in Hx.
  - exists q. split_and!; [done|done|]. intros x Hx. rewrite <- Hf in Hx. unfold Security.FilterBlockedAddrs in Hx.
    rewrite list_elem_of_In in Hx. apply filter_In in Hx as [Hx _]. by apply list_elem_of_In.
Qed.
End providers.

(** ** Key files *)

Lemma EncodeToString_hexish s : str_forallb hexish (EncodeToString s) = true.
Proof. eapply DecodeString_hexish. apply DecodeString_EncodeToString. Qed.

Lemma hexish_visible_all s : str_forallb hexish s = true → str_forallb visible_char s = true.
Proof. apply str_forallb_impl. intros a Ha%hexish_visible. unfold visible_char. apply andb_true_intro. blia. Qed.

Lemma hex_text_length s : String.length (EncodeToString s) = (2 * String.length s)%nat.
Proof. induction s as [|a s IH]; [done|]. cbn [EncodeToString String.length]. rewrite IH. lia. Qed.

Lemma trimWhitespace_hex s : str_forallb hexish s = true → trimWhitespace s = s.
Proof.
  induction s as [|a s IH]; [done|]. cbn [str_forallb trimWhitespace]. intros [Ha Hs]%andb_prop.
  apply hexish_visible in Ha. rewrite (IH Hs).
  assert (∀ c, code c < 33 → Ascii.eqb a c = false) as Hne.
  { intros c Hc. apply Ascii.eqb_neq. intros ->. lia. }
  by rewrite !Hne by (by vm_compute).
Qed.

(** A pre-shared key of 32 bytes is read back from the file it was formatted
    to; of hexadecimal forms of keys exactly those of 32 bytes are accepted, and
    decoded; and an identity key is read back from the file it was saved to. *)
Theorem key_files_roundtrip `{GoUnicode} k id :
  String.length k = 32%nat →
  ParsePSK (FormatPSK k, true) = Some k ∧ ParsePSKFromHex (EncodeToString k) = Some k ∧
  (∀ k', String.length k' ≠ 32%nat → ParsePSKFromHex (EncodeToString k') = None) ∧
  LoadIdentity (SaveIdentity id) = Some id.
Proof.
  intros Hk. unfold ParsePSKFromHex. split_and!.
  - unfold ParsePSK. cbn [fst snd].
    assert (FormatPSK k = unlines ["/key/swarm/psk/1.0.0/"; "/base16/"; EncodeToString k]) as -> by reflexivity.
    rewrite scan_unlines.
    2: { pose proof (EncodeToString_hexish k) as Hx. repeat apply Forall_cons_2; [by vm_compute| by vm_compute| |constructor].
         split_and!; [by eapply hexish_no|apply dropCR_no; by eapply hexish_no|].
         rewrite hex_text_length, Hk. by vm_compute. }
    cbn [fst]. rewrite (TrimSpace_visible (EncodeToString k)) by apply hexish_visible_all, EncodeToString_hexish.
    rewrite !TrimSpace_visible by reflexivity. rewrite DecodeString_EncodeToString. cbn [checkKey].
    by rewrite Hk.
  - rewrite DecodeString_EncodeToString. cbn [checkKey]. by rewrite Hk.
  - intros k' Hk'. rewrite DecodeString_EncodeToString. cbn [checkKey].
    unfold PSKKeySize. by rewrite (proj2 (Nat.eqb_neq _ _) Hk').
  - unfold LoadIdentity, SaveIdentity. set (h := identityHeader).
    replace (_ <? _)%nat with false by (symmetry; apply Nat.ltb_ge; rewrite str_length_app; lia).
    rewrite str_take_app, String.eqb_refl, str_drop_app. cbn [negb].
    replace (trimWhitespace _) with (EncodeToString id).
    + apply DecodeString_EncodeToString.
    + pose proof (EncodeToString_hexish id) as Hx. revert Hx. generalize (EncodeToString id) as s0.
      intros s0 Hx. rewrite <- (trimWhitespace_hex s0 Hx) at 1. clear Hx.
      induction s0 as [|a s0 IH]; [done|]. cbn [String.append trimWhitespace]. by rewrite IH.
Qed.

(** ** Evaluations *)
Section examples.
#[local] Existing Instance amd64.
#[local] Existing Instance exp_one.
#[local] Existing Instance insertion_Slice.
#[local] Existing Instance ascii_only.

Definition ex_hash : string := EncodeToString "0123456789abcdef0123456789abcdef".
Definition ex_content : string := "hello, world".

Definition ex_server (start end_ : Z) : serverEnv :=
  mkServerEnv true (default "" (request ex_hash start end_), true)
    (Some (λ h', if String.eqb h' ex_hash then Some (mkContent (ex_content, true) None 12) else None)) true None.

Definition ex_client (start end_ : Z) : clientEnv :=
  mkClientEnv false true [false] true true
    (handleTransferRequest 0 (is_range start end_) "me" (ex_server start end_) (newSlots 0) Scorer.NewScorer).1.1
    false 0 1 2 Second.

Lemma transfer_witness :
  (DownloadRange (ex_client 7 10) "p" ex_hash 7 10 0 (Scorer.NewScorer, Timeouts.NewManager None 0)).1 = Ok "wor".
Proof.
  apply (transfer_delivers (ex_client 7 10) (ex_server 7 10) (newSlots 0) Scorer.NewScorer 0 "me" "p" ex_hash ex_content
    None 7 10 0 (default "" (request ex_hash 7 10)) (Scorer.NewScorer, Timeouts.NewManager None 0));
    try (vm_compute; reflexivity); try lia; try (vm_compute; discriminate).
  - eexists. vm_compute. reflexivity.
  - split; [by right|done].
  - split_and!; done.
Defined.

Lemma agree_witness :
  (DownloadRange (ex_client 0 5) "p" ex_hash 0 5 0 (Scorer.NewScorer, Timeouts.NewManager None 0)).1 = Ok "hello" ∧
  (mirrorSourceFetch (mkNet (λ _ _, Some (ok_resp 206 "hello")) (λ _, 0)) (λ _, false) "http://m/x" 0 5 0 (NewFetcher None)).1.1
  = Ok "hello".
Proof.
  apply (chunk_sources_agree (ex_client 0 5) (ex_server 0 5) "p" ex_hash ex_content None 0 5 0
    (Scorer.NewScorer, Timeouts.NewManager None 0) (mkNet (λ _ _, Some (ok_resp 206 "hello")) (λ _, 0)) "http://m/x" 0
    (NewFetcher None) (ok_resp 206 "hello")); try (vm_compute; reflexivity); try lia; try (vm_compute; discriminate).
  - eexists. vm_compute. reflexivity.
  - split; [by right|done].
  - split_and!; done.
  - left. split; reflexivity.
Defined.

Lemma slots_witness :
  activeUploads (tryAcceptUpload "a" (newSlots 2)).2 = Z.of_nat (length ["a"]).
Proof.
  apply (upload_slots 2 _ ["a"]). apply rtc_once, (slot_begin "a" (newSlots 2)). reflexivity.
Defined.

Lemma providers_witness :
  ∃ r st', FindProvidersRanked 0 1 "me" (Some [("me", [None]); ("p", [Some [(Security.P_IP4, "10.0.0.1")]; Some [(Security.P_IP4, "9.9.9.9")]])]) 3
    (Scorer.NewScorer, Timeouts.NewManager None 0) = (Some r, st') ∧ r = Some [("p", [Some [(Security.P_IP4, "9.9.9.9")]])].
Proof.
  destruct (providers_safe 0 1 "me" (Some [("me", [None]); ("p", [Some [(Security.P_IP4, "10.0.0.1")]; Some [(Security.P_IP4, "9.9.9.9")]])]) 3
    (Scorer.NewScorer, Timeouts.NewManager None 0)) as (r & st' & Heq & _); [lia|].
  exists r, st'. split; [exact Heq|]. vm_compute in Heq. injection Heq as <- _. reflexivity.
Defined.

Lemma key_files_witness : ParsePSK (FormatPSK "0123456789abcdef0123456789abcdef", true) = Some "0123456789abcdef0123456789abcdef".
Proof. apply (key_files_roundtrip "0123456789abcdef0123456789abcdef" "key"). reflexivity. Defined.

(** A peer that answers with fewer bytes than the range is not noticed here: the
    transfer succeeds with the size the peer announced. *)
Example short_answer_accepted :
  (DownloadRange (mkClientEnv true true [false] true true (be 8 2 +:+ "he") false 0 1 2 Second) "p" ex_hash 0 5 0
     (Scorer.NewScorer, Timeouts.NewManager None 0)).1 = Ok "he".
Proof. vm_compute. reflexivity. Qed.

End examples.
End NodeSys.
