(* ===== verification/Support.v ===== *)
(** * Request identifiers, log sanitising, connectivity and multi-source checks

    internal/requestid, internal/sanitize, internal/connectivity and
    internal/verify.  Runes are decoded from the UTF-8 bytes of a string as Go
    does it: a byte that does not start a well-formed sequence is a rune of its
    own, U+FFFD. *)

From S2P Require Import Prelude GoStd GoNum HashUtil.
From Stdlib Require Import Ascii.
Open Scope Z_scope.

(** ** internal/requestid *)
Module RequestID.

Definition byte_at (ts n : Z) : ascii := byte_of (Z.shiftr ts n).

(** The identifier for a millisecond timestamp and four random bytes. *)
Definition Generate (ts : Z) (randomBytes : string) : string :=
  EncodeToString
    (String (byte_at ts 56) (String (byte_at ts 48) (String (byte_at ts 40) (String (byte_at ts 32)
    (String (byte_at ts 24) (String (byte_at ts 16) (String (byte_at ts 8) (String (byte_at ts 0)
    (str_take 4 randomBytes))))))))).

(** [^[0-9a-f]{24}$]. *)
Definition IsValid (id : string) : bool := (String.length id =? 24)%nat && str_forallb is_lower_hex id.

(** A context carries a request ID and a logger, which is known by the ID it adds. *)
Record Context := mkCtx { c_id : option string; c_logger : option string }.

Definition WithRequestID (ctx : Context) (id : string) : Context := mkCtx (Some id) (c_logger ctx).
Definition FromContext (ctx : Context) : string := default "" (c_id ctx).
Definition WithLogger (ctx : Context) (l : string) : Context := mkCtx (c_id ctx) (Some l).
Definition LoggerFromContext (ctx : Context) (fallback : string) : string := default fallback (c_logger ctx).
Definition NewContextWithID (ctx : Context) (id : string) : Context := WithLogger (WithRequestID ctx id) id.
Definition NewContext (ctx : Context) (ts : Z) (rand : string) : Context := NewContextWithID ctx (Generate ts rand).

(** The start of [handleRequest]: a valid incoming ID is kept, else one is made. *)
Definition requestContext (incoming : string) (ts : Z) (rand : string) (ctx : Context) : Context :=
  if negb (String.eqb incoming "") && IsValid incoming then NewContextWithID ctx incoming else NewContext ctx ts rand.

Lemma Generate_valid ts rand : String.length rand = 4%nat → IsValid (Generate ts rand) = true.
Proof.
  intros Hr. unfold IsValid, Generate. rewrite EncodeToString_length, EncodeToString_hex. cbn [String.length].
  by rewrite str_length_take by lia.
Qed.

(** 24 digits, each one of 0-9 and a-f. *)
Definition hex24 (id : string) : Prop :=
  String.length id = 24%nat ∧ ∀ c, c ∈ String.list_ascii_of_string id → c ∈ String.list_ascii_of_string "0123456789abcdef".

Lemma is_lower_hex_digits c : is_lower_hex c = bool_decide (c ∈ String.list_ascii_of_string "0123456789abcdef").
Proof. destruct c as [[] [] [] [] [] [] [] []]; vm_compute; reflexivity. Qed.

Lemma IsValid_spec id : IsValid id = true ↔ hex24 id.
Proof.
  unfold IsValid, hex24. rewrite andb_true_iff, Nat.eqb_eq. apply and_iff_compat_l.
  induction id as [|c id IH]; cbn [str_forallb String.list_ascii_of_string]; [split; [by intros _ c ?%not_elem_of_nil|done]|].
  rewrite andb_true_iff, IH, is_lower_hex_digits, bool_decide_eq_true. setoid_rewrite elem_of_cons. naive_solver.
Qed.

(** *** Order *)

(** The order of strings by bytes. *)
Fixpoint str_ltb (a b : string) : bool :=
  match a, b with
  | _, EmptyString => false
  | EmptyString, String _ _ => true
  | String x a, String y b => (code x <? code y) || ((code x =? code y) && str_ltb a b)
  end.

Lemma hex_digit_mono x y : 0 <= x < 16 → 0 <= y < 16 → (code (hex_digit x) <? code (hex_digit y)) = (x <? y).
Proof.
  intros Hx Hy.
  assert (forallb (λ x, forallb (λ y, Bool.eqb (code (hex_digit x) <? code (hex_digit y)) (x <? y)) (map Z.of_nat (seq 0 16)))
    (map Z.of_nat (seq 0 16)) = true) as Hall by (vm_compute; reflexivity).
  rewrite forallb_forall in Hall. specialize (Hall x). rewrite forallb_forall in Hall.
  apply eqb_prop, Hall; rewrite in_map_iff; [exists (Z.to_nat x)|exists (Z.to_nat y)]; rewrite in_seq; lia.
Qed.

(** A byte's two digits compare as the byte does. *)
Lemma digits_ltb x y a b : 0 <= x < 256 → 0 <= y < 256 →
  str_ltb (String (hex_digit (x / 16)) (String (hex_digit (x mod 16)) a))
          (String (hex_digit (y / 16)) (String (hex_digit (y mod 16)) b)) = (x <? y) || ((x =? y) && str_ltb a b).
Proof.
  intros Hx Hy. cbn [str_ltb].
  assert (0 <= x / 16 < 16 ∧ 0 <= y / 16 < 16) as [? ?] by (split; split; [apply Z.div_pos|apply Z.div_lt_upper_bound|apply Z.div_pos|apply Z.div_lt_upper_bound]; lia).
  assert (0 <= x mod 16 < 16 ∧ 0 <= y mod 16 < 16) as [? ?] by (split; apply Z.mod_pos_bound; lia).
  assert (∀ u v, 0 <= u < 16 → 0 <= v < 16 → (code (hex_digit u) =? code (hex_digit v)) = (u =? v)) as Heq.
  { intros u v Hu Hv. pose proof (hex_digit_mono u v Hu Hv). pose proof (hex_digit_mono v u Hv Hu).
    destruct (Z.eqb_spec u v) as [->|Hne]; [apply Z.eqb_refl|]. apply Z.eqb_neq. intros Hc. rewrite Hc in *.
    destruct (Z.ltb_spec u v), (Z.ltb_spec v u); try lia; blia. }
  rewrite !hex_digit_mono, !Heq by done.
  pose proof (Z.div_mod x 16 ltac:(lia)). pose proof (Z.div_mod y 16 ltac:(lia)).
  destruct (Z.ltb_spec (x / 16) (y / 16)), (Z.eqb_spec (x / 16) (y / 16)), (Z.ltb_spec (x mod 16) (y mod 16)),
    (Z.eqb_spec (x mod 16) (y mod 16)), (Z.ltb_spec x y), (Z.eqb_spec x y); cbn [orb andb]; try done; lia.
Qed.

Lemma Encode_ltb a b : str_ltb (EncodeToString a) (EncodeToString b) = str_ltb a b.
Proof.
  revert b. induction a as [|x a IH]; intros [|y b]; try done. cbn [EncodeToString].
  rewrite digits_ltb by apply code_range. rewrite IH. done.
Qed.

(** The [k] low bytes of a number, most significant first. *)
Fixpoint big_endian (k : nat) (z : Z) (rest : string) : string :=
  match k with O => rest | S k => String (byte_at z (8 * Z.of_nat k)) (big_endian k z rest) end.

Lemma top_byte z k : z mod 256 ^ (Z.of_nat (S k)) = code (byte_at z (8 * Z.of_nat k)) * 256 ^ Z.of_nat k + z mod 256 ^ Z.of_nat k.
Proof.
  unfold byte_at. rewrite code_byte_of, Z.shiftr_div_pow2 by lia. rewrite Z.pow_mul_r by lia. change (2 ^ 8) with 256.
  rewrite Nat2Z.inj_succ, Z.pow_succ_r by lia. pose proof (Z.pow_pos_nonneg 256 (Z.of_nat k) ltac:(lia) ltac:(lia)).
  rewrite (Z.mul_comm 256), Z.rem_mul_r by lia. lia.
Qed.

Lemma big_endian_ltb k a b ra rb :
  a mod 256 ^ Z.of_nat k < b mod 256 ^ Z.of_nat k → str_ltb (big_endian k a ra) (big_endian k b rb) = true.
Proof.
  induction k as [|k IH]; intros Hlt; [rewrite !Z.mod_1_r in Hlt; lia|]. rewrite !top_byte in Hlt. cbn [big_endian str_ltb].
  pose proof (Z.pow_pos_nonneg 256 (Z.of_nat k) ltac:(lia) ltac:(lia)) as Hp.
  pose proof (Z.mod_pos_bound a _ Hp). pose proof (Z.mod_pos_bound b _ Hp).
  set (x := code (byte_at a _)) in *. set (y := code (byte_at b _)) in *. clearbody x y.
  destruct (Z.ltb_spec x y) as [|Hge]; [done|]. cbn [orb]. destruct (Z.eqb_spec x y) as [->|Hne]; [apply IH; lia|].
  assert ((y + 1) * 256 ^ Z.of_nat k <= x * 256 ^ Z.of_nat k) by (apply Z.mul_le_mono_nonneg_r; lia). lia.
Qed.

(** Identifiers made later sort later, whatever the random part. *)
Lemma Generate_sortable t1 t2 r1 r2 : 0 <= t1 < t2 → t2 < 2 ^ 63 → str_ltb (Generate t1 r1) (Generate t2 r2) = true.
Proof.
  intros Ht Hmax. unfold Generate. rewrite Encode_ltb.
  apply (big_endian_ltb 8 t1 t2 (str_take 4 r1) (str_take 4 r2)).
  change (256 ^ Z.of_nat 8) with (2 ^ 64). rewrite !Z.mod_small by lia. lia.
Qed.

(** C40: every request has a well-formed identifier: what is put into the context and
    its logger is 24 lower-case hexadecimal digits, whatever the client sent as its own
    identifier, which is kept exactly when it has that form; and of two requests that
    were given theirs here, the one of a later millisecond has the identifier that sorts
    later, whatever the random part. *)
Theorem request_id_well_formed incoming ts rand ctx :
  String.length rand = 4%nat →
  let id := FromContext (requestContext incoming ts rand ctx) in
  hex24 id ∧ c_logger (requestContext incoming ts rand ctx) = Some id ∧
  (hex24 incoming → id = incoming) ∧
  (¬ hex24 incoming → ∀ incoming' ts' rand' ctx', ¬ hex24 incoming' → 0 <= ts < ts' → ts' < 2 ^ 63 →
     str_ltb id (FromContext (requestContext incoming' ts' rand' ctx')) = true).
Proof.
  intros Hr. cbv zeta. rewrite <- !IsValid_spec.
  assert (∀ i t r c, ¬ IsValid i = true → FromContext (requestContext i t r c) = Generate t r) as Hgen.
  { intros i t r c Hi. unfold requestContext. apply not_true_is_false in Hi. rewrite Hi. by rewrite andb_false_r. }
  split_and!.
  - unfold requestContext. destruct (negb _ && IsValid incoming) eqn:Hv; [apply andb_true_iff in Hv as [_ Hv]; exact Hv|by apply Generate_valid].
  - unfold requestContext. by destruct (_ && _).
  - intros Hv. unfold requestContext. destruct (String.eqb_spec incoming "") as [->|Hne]; [done|]. by rewrite Hv.
  - intros Hv i t r c Hi Ht Hmax. rewrite <- IsValid_spec in Hi. rewrite !Hgen by done. by apply Generate_sortable.
Qed.

Lemma request_id_witness :
  let id := FromContext (requestContext "x; rm -rf" 1700000000000 "abcd" (mkCtx None None)) in
  hex24 id ∧ str_ltb id (FromContext (requestContext "" 1700000000001 "aaaa" (mkCtx None None))) = true.
Proof.
  assert (∀ i, IsValid i = false → ¬ hex24 i) as Hno by (intros i Hi Hh; apply IsValid_spec in Hh; congruence).
  destruct (request_id_well_formed "x; rm -rf" 1700000000000 "abcd" (mkCtx None None) eq_refl) as (Hv & _ & _ & Hs).
  split; [exact Hv|]. apply Hs; [apply Hno; vm_compute; reflexivity|apply Hno; vm_compute; reflexivity|lia|lia].
Defined.
End RequestID.

(** ** internal/sanitize *)
Module Sanitize.

Definition MaxLogStringLength : Z := 500.

(** *** Runes *)

Definition cont (a : ascii) : bool := (128 <=? code a) && (code a <=? 191).

(** [utf8.DecodeRuneInString]: the rune, its width and whether it is well formed;
    an ill-formed one is U+FFFD of width 1. *)
Definition decodeRune (s : string) : Z * nat :=
  let bad := (65533, 1%nat) in
  match s with
  | EmptyString => bad
  | String a s1 =>
      let x := code a in
      if x <? 128 then (x, 1%nat)
      else if (x <? 194) || (244 <? x) then bad
      else
        match s1 with
        | EmptyString => bad
        | String b s2 =>
            let y := code b in
            let lo := if x =? 224 then 160 else if x =? 240 then 144 else 128 in
            let hi := if x =? 237 then 159 else if x =? 244 then 143 else 191 in
            if (y <? lo) || (hi <? y) then bad
            else if x <? 224 then ((x - 192) * 64 + (y - 128), 2%nat)
            else
              match s2 with
              | EmptyString => bad
              | String c s3 =>
                  if negb (cont c) then bad
                  else if x <? 240 then ((x - 224) * 4096 + (y - 128) * 64 + (code c - 128), 3%nat)
                  else
                    match s3 with
                    | EmptyString => bad
                    | String d _ =>
                        if negb (cont d) then bad
                        else ((x - 240) * 262144 + (y - 128) * 4096 + (code c - 128) * 64 + (code d - 128), 4%nat)
                    end
              end
        end
  end.

(** [WriteRune] of a valid rune. *)
Definition encodeRune (r : Z) : string :=
  let b z := byte_of z in
  if r <? 128 then String (b r) ""
  else if r <? 2048 then String (b (192 + r / 64)) (String (b (128 + r mod 64)) "")
  else if r <? 65536 then
    String (b (224 + r / 4096)) (String (b (128 + r / 64 mod 64)) (String (b (128 + r mod 64)) ""))
  else String (b (240 + r / 262144)) (String (b (128 + r / 4096 mod 64))
         (String (b (128 + r / 64 mod 64)) (String (b (128 + r mod 64)) ""))).

(** [unicode.IsControl]: the C0 and C1 controls and DEL. *)
Definition IsControl (r : Z) : bool := (r <? 32) || ((127 <=? r) && (r <? 160)).

Definition hexChar (b : Z) : ascii := if b <? 10 then byte_of (48 + b) else byte_of (97 + b - 10).

Definition backslash : ascii := byte_of 92.
Definition escape (c : ascii) : string := String backslash (String c "").

Definition sanitizeRune (r : Z) : string :=
  if r =? 10 then escape "n"
  else if r =? 13 then escape "r"
  else if r =? 9 then escape "t"
  else if r =? 92 then escape backslash
  else if IsControl r then escape "x" +:+ String (hexChar (Z.shiftr r 4)) (String (hexChar (Z.land r 15)) "")
  else encodeRune r.

(** The loop over the runes; [i] is the index of the next byte. *)
Fixpoint loop (fuel : nat) (i : Z) (s : string) : string :=
  match fuel with
  | O => ""
  | S fuel =>
      match s with
      | EmptyString => ""
      | _ =>
          if MaxLogStringLength <=? i then "..."
          else let '(r, w) := decodeRune s in sanitizeRune r +:+ loop fuel (i + Z.of_nat w) (str_drop w s)
      end
  end.

(** Every rune is at least a byte wide, so the length is fuel enough. *)
Definition String_ (s : string) : string := loop (String.length s) 0 s.

Example String_ex : String_ ("a" +:+ String (byte_of 10) (String (byte_of 27) "[31m\")) = "a\n\x1b[31m\\".
Proof. vm_compute. reflexivity. Qed.

(** *** What a sanitised string contains *)

(** No control byte: printable ASCII, or part of a multi-byte rune. *)
Definition printable (a : ascii) : bool := (32 <=? code a) && negb (code a =? 127).

Lemma encodeRune_printable r : IsControl r = false → 0 <= r < 1114112 → str_forallb printable (encodeRune r) = true.
Proof.
  intros Hc Hr. unfold IsControl in Hc. apply orb_false_iff in Hc as [Hlo Hmid]. apply Z.ltb_ge in Hlo.
  assert (∀ z, 128 <= z < 256 → printable (byte_of z) = true) as Hhigh.
  { intros z Hz. unfold printable. rewrite code_byte_of, Z.mod_small by lia. blia. }
  assert (∀ z, 0 <= z → 128 <= 128 + z mod 64 < 256) as Hlow.
  { intros z Hz. pose proof (Z.mod_pos_bound z 64 ltac:(lia)). lia. }
  unfold encodeRune. destruct (Z.ltb_spec r 128).
  - cbn [str_forallb]. unfold printable. rewrite code_byte_of, Z.mod_small by lia. rewrite andb_true_r.
    destruct (Z.eqb_spec r 127) as [->|]; [done|]. blia.
  - destruct (Z.ltb_spec r 2048); [|destruct (Z.ltb_spec r 65536)]; cbn [str_forallb]; rewrite ?andb_true_iff; split_and!;
      try done; apply Hhigh; try (apply Hlow; first [lia|apply Z.div_pos; lia]).
    + assert (0 <= r / 64 < 32) by (split; [apply Z.div_pos|apply Z.div_lt_upper_bound]; lia). lia.
    + assert (0 <= r / 4096 < 16) by (split; [apply Z.div_pos|apply Z.div_lt_upper_bound]; lia). lia.
    + assert (0 <= r / 262144 < 5) by (split; [apply Z.div_pos|apply Z.div_lt_upper_bound]; lia). lia.
Qed.

Lemma hexChar_printable b : 0 <= b < 16 → printable (hexChar b) = true.
Proof.
  intros Hb. unfold printable, hexChar. destruct (Z.ltb_spec b 10); rewrite code_byte_of, Z.mod_small by lia; blia.
Qed.

Lemma sanitizeRune_printable r : 0 <= r < 1114112 → str_forallb printable (sanitizeRune r) = true.
Proof.
  intros Hr. unfold sanitizeRune. destruct (r =? 10); [reflexivity|]. destruct (r =? 13); [reflexivity|].
  destruct (r =? 9); [reflexivity|]. destruct (r =? 92); [reflexivity|].
  destruct (IsControl r) eqn:Hc; [|by apply encodeRune_printable].
  assert (r < 160) as Hlt by (unfold IsControl in Hc; apply orb_true_iff in Hc as [|[_ ]%andb_prop]; blia).
  assert (0 <= Z.shiftr r 4 < 16) as Hs.
  { rewrite Z.shiftr_div_pow2 by lia. change (2 ^ 4) with 16. split; [apply Z.div_pos|apply Z.div_lt_upper_bound]; lia. }
  assert (0 <= Z.land r 15 < 16) as Hl.
  { change 15 with (Z.ones 4). rewrite Z.land_ones by lia. apply Z.mod_pos_bound. lia. }
  rewrite str_forallb_app. cbn [str_forallb]. by rewrite !hexChar_printable.
Qed.

Lemma decodeRune_range s : 0 <= (decodeRune s).1 < 1114112.
Proof.
  unfold decodeRune, cont. destruct s as [|a s1]; [cbn; lia|]. pose proof (code_range a).
  destruct (Z.ltb_spec (code a) 128); [cbn; lia|]. destruct (Z.ltb_spec (code a) 194), (Z.ltb_spec 244 (code a)); try (cbn; lia).
  cbn [orb]. destruct s1 as [|b s2]; [cbn; lia|]. pose proof (code_range b). set (lo := if _ =? 224 then _ else _). set (hi := if _ =? 237 then _ else _).
  assert (128 <= lo ∧ hi <= 191 ∧ (code a = 244 → hi <= 143)) as (Hlo & Hhi & Hhi').
  { subst lo hi. destruct (Z.eqb_spec (code a) 224), (Z.eqb_spec (code a) 240), (Z.eqb_spec (code a) 237), (Z.eqb_spec (code a) 244); lia. }
  destruct (Z.ltb_spec (code b) lo), (Z.ltb_spec hi (code b)); try (cbn; lia). cbn [orb].
  destruct (Z.ltb_spec (code a) 224); [cbn [fst]; lia|]. destruct s2 as [|c s3]; [cbn; lia|].
  destruct (Z.leb_spec 128 (code c)), (Z.leb_spec (code c) 191); try (cbn; lia). cbn [andb negb].
  destruct (Z.ltb_spec (code a) 240); [cbn [fst]; lia|]. destruct s3 as [|d s4]; [cbn; lia|].
  destruct (Z.leb_spec 128 (code d)), (Z.leb_spec (code d) 191); cbn [andb negb fst]; lia.
Qed.

(** A sanitised string has no control characters: whatever bytes a client, a
    mirror or a peer puts into a URL, a file name or an error message, the text
    that is logged contains no newline, carriage return, escape or other byte
    below 32 and no DEL. *)
Theorem sanitized_printable s : str_forallb printable (String_ s) = true.
Proof.
  unfold String_. generalize (String.length s) 0. intros fuel i. revert i s.
  induction fuel as [|fuel IH]; intros i s; [done|]. cbn [loop]. destruct s as [|a s']; [done|].
  destruct (_ <=? i); [reflexivity|]. pose proof (decodeRune_range (String a s')) as Hr.
  destruct (decodeRune (String a s')) as [r w]. rewrite str_forallb_app, sanitizeRune_printable by exact Hr. apply IH.
Qed.
End Sanitize.

(** ** internal/connectivity *)
Module Connectivity.

Inductive Mode := ModeOnline | ModeLANOnly | ModeOffline.

#[global] Instance Mode_eq_dec : EqDecision Mode.
Proof. solve_decision. Defined.

Record Monitor := mkMonitor {
  mode : Mode; configMode : string; checkInterval : Z; checkURL : string; checkTimeout : Z;
  changes : list (Mode * Mode);    (* the calls of onModeChange *)
}.

Definition defaultURL : string := "http://deb.debian.org/debian/".

Definition NewMonitor (cfgMode : string) (interval : Z) (url : string) (timeout : Z) : Monitor :=
  mkMonitor (if String.eqb cfgMode "lan_only" then ModeLANOnly else ModeOnline) cfgMode
    (if interval <=? 0 then 30 * Second else interval) (if String.eqb url "" then defaultURL else url)
    (if timeout <=? 0 then 5 * Second else timeout) [].

(** The result of the HEAD request: any response at all; and the mDNS peers, if they
    can be counted. *)
Record probe := mkProbe { p_response : bool; p_peers : option Z }.

Definition determineOfflineMode (p : probe) : Mode :=
  match p_peers p with Some n => if 0 <? n then ModeLANOnly else ModeOffline | None => ModeOffline end.

Definition checkConnectivity (p : probe) : Mode := if p_response p then ModeOnline else determineOfflineMode p.

(** [Swap], and the callback when the mode is another one: [checkAndUpdate] and
    [ForceMode] end in it. *)
Definition swap (new : Mode) (m : Monitor) : Monitor :=
  mkMonitor new (configMode m) (checkInterval m) (checkURL m) (checkTimeout m)
    (if decide (mode m = new) then changes m else changes m ++ [(mode m, new)]).

Definition checkAndUpdate (p : probe) (m : Monitor) : Monitor := swap (checkConnectivity p) m.
Definition ForceMode (new : Mode) (m : Monitor) : Monitor := swap new m.

(** [Start] in the time until the context ends, in which the given checks are made. *)
Definition Start (probes : list probe) (m : Monitor) : Monitor :=
  if negb (String.eqb (configMode m) "auto") && negb (String.eqb (configMode m) "") then m
  else foldl (λ m p, checkAndUpdate p m) m probes.

(** The callbacks tell a connected story from one mode to another. *)
Fixpoint story (from : Mode) (l : list (Mode * Mode)) (to : Mode) : Prop :=
  match l with [] => from = to | (a, b) :: l => a = from ∧ a ≠ b ∧ story b l to end.

Lemma story_snoc from l a b : story from l a → a ≠ b → story from (l ++ [(a, b)]) b.
Proof. revert from. induction l as [|[x y] l IH]; intros from; cbn; [by intros ->|]. naive_solver. Qed.

Lemma swap_story from new m : story from (changes m) (mode m) → story from (changes (swap new m)) (mode (swap new m)).
Proof. intros Hs. unfold swap. cbn. case_decide as Hd; [by rewrite <- Hd|]. by apply story_snoc. Qed.

(** The monitor in its three configurations: static ones never change, and in auto
    mode the mode after some checks is what the last of them found; the callbacks
    follow every change and nothing else. *)
Lemma Start_spec probes cfgMode interval url timeout :
  let m0 := NewMonitor cfgMode interval url timeout in
  let m := Start probes m0 in
  story (mode m0) (changes m) (mode m) ∧
  (cfgMode = "lan_only" → mode m = ModeLANOnly) ∧ (cfgMode = "online_only" → mode m = ModeOnline) ∧
  (cfgMode = "auto" → mode m = from_option checkConnectivity ModeOnline (last probes)).
Proof.
  cbv zeta. set (m0 := NewMonitor cfgMode interval url timeout).
  assert (story (mode m0) (changes m0) (mode m0)) as Hs0 by done.
  assert (∀ m, story (mode m0) (changes m) (mode m) →
    story (mode m0) (changes (foldl (λ m p, checkAndUpdate p m) m probes)) (mode (foldl (λ m p, checkAndUpdate p m) m probes))) as Hfold.
  { induction probes as [|p ps IH]; intros m Hm; [done|]. cbn. apply IH. by apply swap_story. }
  split_and!.
  - unfold Start. destruct (_ && _); [done|]. by apply Hfold.
  - intros ->. done.
  - intros ->. done.
  - intros ->. unfold Start. cbn [configMode m0 NewMonitor String.eqb negb andb Ascii.eqb Bool.eqb].
    destruct probes as [|p ps] using rev_ind; [done|]. rewrite foldl_app, last_snoc. done.
Qed.
End Connectivity.

(** ** internal/verify *)
Module Verifier.

Record Config := mkConfig { Enabled : bool; MinProviders : Z; QueryTimeout : Z; MaxConcurrent : Z; QueryLimit : Z }.

Definition DefaultConfig : Config := mkConfig true 2 (10 * Second) 4 5.

Definition New (cfg : option Config) : Config :=
  let c := default DefaultConfig cfg in
  let pos x d := if x <=? 0 then d else x in
  mkConfig (Enabled c) (pos (MinProviders c) 2) (pos (QueryTimeout c) (10 * Second)) (pos (MaxConcurrent c) 4)
    (pos (QueryLimit c) 5).

Record Result := mkResult { r_Hash : string; r_ProviderCount : Z; r_Verified : bool; r_SelfOnly : bool; r_Error : bool }.

(** [providers]: what the finder returns, [None] for an error. *)
Definition verify (cfg : Config) (ourID hash : string) (providers : option (list string)) : Result :=
  match providers with
  | None => mkResult hash 0 false false true
  | Some ps =>
      let others := Z.of_nat (length (List.filter (λ p, negb (String.eqb p ourID)) ps)) in
      mkResult hash others (MinProviders cfg <=? others) ((others =? 0) && negb (length ps =? 0)%nat) false
  end.

(** The label of the metric, and the audit event (none for an error). *)
Definition recordMetrics (r : Result) : string :=
  if r_Error r then "error" else if r_Verified r then "verified" else if r_SelfOnly r then "unverified" else "partial".

Inductive AuditEvent := MultiSourceVerified | MultiSourceUnverified.
Definition recordAudit (r : Result) : option AuditEvent :=
  if r_Error r then None
  else Some (if r_SelfOnly r || negb (r_Verified r) then MultiSourceUnverified else MultiSourceVerified).

Definition truncateHash (hash : string) : string :=
  if (16 <? String.length hash)%nat then str_take 16 hash +:+ "..." else hash.

(** *** The worker slots: hashes being verified, results recorded, queries skipped. *)
Record Verifier := mkV { running : list string; recorded : list Result; skipped : nat }.

Section steps.
Context (cfg : Config) (hasFinder : bool) (ourID : string).

Definition VerifyAsync (hash : string) (v : Verifier) : Verifier :=
  if negb (Enabled cfg) || negb hasFinder then v
  else if Z.of_nat (length (running v)) <? MaxConcurrent cfg then mkV (hash :: running v) (recorded v) (skipped v)
  else mkV (running v) (recorded v) (S (skipped v)).

Inductive vstep : Verifier → Verifier → Prop :=
| V_start hash v : vstep v (VerifyAsync hash v)
| V_done i hash providers v : running v !! i = Some hash →
    vstep v (mkV (delete i (running v)) (recorded v ++ [verify cfg ourID hash providers]) (skipped v)).

(** At most [MaxConcurrent] queries run, every recorded result that counts as
    verified has enough other providers, and no error is recorded as verified. *)
Record v_inv (v : Verifier) : Prop := {
  vi_slots : Z.of_nat (length (running v)) <= Z.max 0 (MaxConcurrent cfg);
  vi_results : Forall (λ r, r_Verified r = true → r_Error r = false ∧ MinProviders cfg <= r_ProviderCount r) (recorded v);
}.

Lemma verify_sound hash providers :
  r_Verified (verify cfg ourID hash providers) = true →
  r_Error (verify cfg ourID hash providers) = false ∧ MinProviders cfg <= r_ProviderCount (verify cfg ourID hash providers).
Proof. destruct providers as [ps|]; cbn; [|done]. intros Hv. split; [done|blia]. Qed.

Lemma vstep_inv v v' : vstep v v' → v_inv v → v_inv v'.
Proof.
  intros [hash v0|i hash ps v0 Hi] [Hs Hr].
  - unfold VerifyAsync. destruct (_ || _); [done|]. destruct (Z.ltb_spec (Z.of_nat (length (running v0))) (MaxConcurrent cfg)).
    + constructor; cbn [running recorded length]; [lia|done].
    + by constructor.
  - constructor; cbn [running recorded].
    + pose proof (lookup_lt_Some _ _ _ Hi). rewrite length_delete by eauto. lia.
    + apply Forall_app. split; [done|]. constructor; [apply verify_sound|done].
Qed.

Lemma verifier_slots v : rtc vstep (mkV [] [] 0) v → v_inv v.
Proof.
  intros Hrun. pattern v. eapply rtc_ind_r; [|intros y z _ Hyz Hy; by eapply vstep_inv|exact Hrun].
  constructor; cbn; [lia|done].
Qed.
End steps.
End Verifier.
