(* ===== verification/AuditLog.v ===== *)
(** * internal/audit: the audit log

    Events and their constructors (event.go), their JSON lines as
    [encoding/json] writes them, and the writer with its rotation
    (json_writer.go).  A disk maps paths to contents; every system call may fail.
    Nobody else renames or removes the files of the log. *)

From S2P Require Import Prelude GoStd GoText Support.
From Stdlib Require Import Ascii.
Open Scope Z_scope.
Open Scope go_scope.

(** [time.Time.MarshalJSON] writes RFC 3339 with nanoseconds: digits and the
    characters [-], [:], [.], [+], [T] and [Z]. *)
Definition time_char (a : ascii) : bool :=
  ((48 <=? code a) && (code a <? 58)) || existsb (Ascii.eqb a) ["-"; ":"; "."; "+"; "T"; "Z"]%char.

Class TimeFormat := {
  RFC3339Nano : Z → string;
  RFC3339Nano_chars : ∀ t, str_forallb time_char (RFC3339Nano t) = true;
}.

Module AuditLog.

(** ** Events *)

Inductive EventType :=
| EventDownloadComplete | EventDownloadFailed | EventUploadComplete | EventVerificationFailed | EventCacheHit
| EventPeerBlacklisted | EventMultiSourceVerified | EventMultiSourceUnverified
| EventConnectTunnelStart | EventConnectTunnelEnd | EventConnectTunnelBlocked.

Definition type_name (t : EventType) : string :=
  match t with
  | EventDownloadComplete => "download_complete"
  | EventDownloadFailed => "download_failed"
  | EventUploadComplete => "upload_complete"
  | EventVerificationFailed => "verification_failed"
  | EventCacheHit => "cache_hit"
  | EventPeerBlacklisted => "peer_blacklisted"
  | EventMultiSourceVerified => "multi_source_verified"
  | EventMultiSourceUnverified => "multi_source_unverified"
  | EventConnectTunnelStart => "connect_tunnel_start"
  | EventConnectTunnelEnd => "connect_tunnel_end"
  | EventConnectTunnelBlocked => "connect_tunnel_blocked"
  end.

Record Event := mkEvent {
  Timestamp : Z; EType : EventType; RequestID : string; PackageHash : string; PackageName : string; PackageSize : Z; Source : string;
  PeerID : string; DurationMs : Z; BytesP2P : Z; BytesMirror : Z; ChunksTotal : Z; ChunksP2P : Z; Error : string; Reason : string;
  ProviderCount : Z; TargetHost : string; TargetPort : string; TunnelBytes : Z }.

Definition truncateHash (hash : string) : string := if (16 <? String.length hash)%nat then str_take 16 hash else hash.
Definition truncatePeerID (peerID : string) : string := if (16 <? String.length peerID)%nat then str_take 16 peerID else peerID.

Definition NewDownloadCompleteEvent (now : Z) (hash name : string) (size : Z) (source : string) (durationMs bytesP2P bytesMirror : Z) : Event :=
  mkEvent now EventDownloadComplete "" (truncateHash hash) name size source "" durationMs bytesP2P bytesMirror 0 0 "" "" 0 "" "" 0.
Definition NewDownloadFailedEvent (now : Z) (hash name err : string) : Event :=
  mkEvent now EventDownloadFailed "" (truncateHash hash) name 0 "" "" 0 0 0 0 0 err "" 0 "" "" 0.
Definition NewUploadCompleteEvent (now : Z) (hash : string) (size : Z) (peerID : string) (durationMs : Z) : Event :=
  mkEvent now EventUploadComplete "" (truncateHash hash) "" size "" (truncatePeerID peerID) durationMs 0 0 0 0 "" "" 0 "" "" 0.
Definition NewVerificationFailedEvent (now : Z) (hash name peerID : string) : Event :=
  mkEvent now EventVerificationFailed "" (truncateHash hash) name 0 "" (truncatePeerID peerID) 0 0 0 0 0 "hash mismatch" "" 0 "" "" 0.
Definition NewCacheHitEvent (now : Z) (hash name : string) (size : Z) : Event :=
  mkEvent now EventCacheHit "" (truncateHash hash) name size "cache" "" 0 0 0 0 0 "" "" 0 "" "" 0.
Definition NewPeerBlacklistedEvent (now : Z) (peerID reason : string) : Event :=
  mkEvent now EventPeerBlacklisted "" "" "" 0 "" (truncatePeerID peerID) 0 0 0 0 0 "" reason 0 "" "" 0.
Definition NewConnectTunnelStartEvent (now : Z) (host port : string) : Event :=
  mkEvent now EventConnectTunnelStart "" "" "" 0 "" "" 0 0 0 0 0 "" "" 0 host port 0.
Definition NewConnectTunnelEndEvent (now : Z) (host port : string) (tunnelBytes durationMs : Z) : Event :=
  mkEvent now EventConnectTunnelEnd "" "" "" 0 "" "" durationMs 0 0 0 0 "" "" 0 host port tunnelBytes.
Definition NewConnectTunnelBlockedEvent (now : Z) (host port reason : string) : Event :=
  mkEvent now EventConnectTunnelBlocked "" "" "" 0 "" "" 0 0 0 0 0 "" reason 0 host port 0.

Definition WithRequestID (e : Event) (id : string) : Event :=
  mkEvent (Timestamp e) (EType e) id (PackageHash e) (PackageName e) (PackageSize e) (Source e) (PeerID e) (DurationMs e) (BytesP2P e)
    (BytesMirror e) (ChunksTotal e) (ChunksP2P e) (Error e) (Reason e) (ProviderCount e) (TargetHost e) (TargetPort e) (TunnelBytes e).

(** ** encoding/json *)

Definition quote : ascii := byte_of 34.

(** A rune of a JSON string; [s] starts with its bytes.  The encoder escapes quotes,
    backslashes, controls, the characters of HTML, the two line separators of
    JavaScript, and bytes that are not UTF-8. *)
Definition escapeRune (s : string) : string * nat :=
  let '(r, w) := Sanitize.decodeRune s in
  let u (hi lo : Z) := Sanitize.escape "u" +:+ "00" +:+ String (Sanitize.hexChar hi) (String (Sanitize.hexChar lo) "") in
  let e :=
    if r <? 128 then
      if (r =? 92) || (r =? 34) then Sanitize.escape (byte_of r)
      else if r =? 8 then Sanitize.escape "b"
      else if r =? 12 then Sanitize.escape "f"
      else if r =? 10 then Sanitize.escape "n"
      else if r =? 13 then Sanitize.escape "r"
      else if r =? 9 then Sanitize.escape "t"
      else if (r <? 32) || (r =? 60) || (r =? 62) || (r =? 38) then u (Z.shiftr r 4) (Z.land r 15)
      else String (byte_of r) ""
    else if (r =? 65533) && (w =? 1)%nat then Sanitize.escape "u" +:+ "fffd"
    else if (r =? 8232) || (r =? 8233) then Sanitize.escape "u" +:+ "202" +:+ String (Sanitize.hexChar (Z.land r 15)) ""
    else str_take w s in
  (e, w).

Fixpoint escapeRunes (fuel : nat) (s : string) : string :=
  match fuel, s with
  | S fuel, String _ _ => let '(e, w) := escapeRune s in e +:+ escapeRunes fuel (str_drop w s)
  | _, _ => ""
  end.

(** A rune is at least a byte wide: the length is fuel enough. *)
Definition jsonString (s : string) : string := String quote (escapeRunes (String.length s) s +:+ String quote "").

(** The fields that are present: [omitempty] leaves out empty texts and zeros. *)
Definition text (k v : string) : list (string * string) := if String.eqb v "" then [] else [(k, jsonString v)].
Definition number (k : string) (v : Z) : list (string * string) := if v =? 0 then [] else [(k, Itoa v)].

Abbreviation Disk := (gmap string string).

Section encoder.
Context `{TimeFormat}.

Definition fields (e : Event) : list (string * string) :=
  [("timestamp", String quote (RFC3339Nano (Timestamp e) +:+ String quote "")); ("event_type", jsonString (type_name (EType e)))] ++
  text "request_id" (RequestID e) ++ text "package_hash" (PackageHash e) ++ text "package_name" (PackageName e) ++
  number "package_size" (PackageSize e) ++ text "source" (Source e) ++ text "peer_id" (PeerID e) ++ number "duration_ms" (DurationMs e) ++
  number "bytes_p2p" (BytesP2P e) ++ number "bytes_mirror" (BytesMirror e) ++ number "chunks_total" (ChunksTotal e) ++
  number "chunks_p2p" (ChunksP2P e) ++ text "error" (Error e) ++ text "reason" (Reason e) ++ number "provider_count" (ProviderCount e) ++
  text "target_host" (TargetHost e) ++ text "target_port" (TargetPort e) ++ number "tunnel_bytes" (TunnelBytes e).

Definition member (kv : string * string) : string := String quote (kv.1 +:+ String quote (":" +:+ kv.2)).
Definition Marshal (e : Event) : string := "{" +:+ Join (member <$> fields e) "," +:+ "}".

(** ** The writer *)

(** The file and what hangs on it: whether it is still open, the bytes counted by the
    [countingWriter], and whether the encoder has kept an error. *)
Record Handle := mkHandle { isOpen : bool; written : Z; encErr : bool }.

Record JSONWriter := mkWriter { path : string; maxBytes : Z; maxBackups : Z; file : option Handle }.

Record JSONWriterConfig := mkCfg { Path : string; MaxSizeMB : Z; MaxBackups : Z }.

(** What the system calls of an operation do: [write] is the number of bytes after
    which a write fails, if it does. *)
Record IO := mkIO { mkdirOk : bool; openOk : bool; statOk : bool; closeOk : bool; renameOk : string → bool; removeOk : bool; write : option nat }.

(** [os.Rename]: whether it succeeded, and whether the error is [ErrNotExist]. *)
Inductive Renamed := Moved | Missing | RenameFailed.
Definition os_Rename (io : IO) (old new : string) (d : Disk) : Renamed * Disk :=
  match d !! old with
  | None => (Missing, d)
  | Some data => if renameOk io old then (Moved, <[new := data]> (delete old d)) else (RenameFailed, d)
  end.

(** [openFile] creates the file when it is not there. *)
Definition openFile (io : IO) (w : JSONWriter) (d : Disk) : bool * JSONWriter * Disk :=
  if negb (openOk io) then (false, w, d)
  else
    let data := default "" (d !! path w) in
    let d := <[path w := data]> d in
    if negb (statOk io) then (false, w, d)
    else (true, mkWriter (path w) (maxBytes w) (maxBackups w) (Some (mkHandle true (Z.of_nat (String.length data)) false)), d).

Definition NewJSONWriter (io : IO) (cfg : JSONWriterConfig) (d : Disk) : option JSONWriter * Disk :=
  if String.eqb (Path cfg) "" then (None, d)
  else
    let size := if MaxSizeMB cfg <=? 0 then 100 else MaxSizeMB cfg in
    let backups := if MaxBackups cfg <=? 0 then 5 else MaxBackups cfg in
    if negb (mkdirOk io) then (None, d)
    else
      let '(ok, w, d) := openFile io (mkWriter (Path cfg) (wrap64 (wrap64 (size * 1024) * 1024)) backups None) d in
      ((if ok then Some w else None), d).

Definition setFile (w : JSONWriter) (h : option Handle) : JSONWriter := mkWriter (path w) (maxBytes w) (maxBackups w) h.

Definition backup (p : string) (i : Z) : string := p +:+ "." +:+ Itoa i.

(** The backups move up by one, the oldest first; errors are ignored. *)
Fixpoint shiftBackups (io : IO) (p : string) (i : nat) (d : Disk) : Disk :=
  match i with
  | O => d
  | S j => shiftBackups io p j (os_Rename io (backup p (Z.of_nat i)) (backup p (Z.of_nat i + 1)) d).2
  end.

Definition os_Remove (io : IO) (p : string) (d : Disk) : Disk := if removeOk io then delete p d else d.

(** The rest of [rotate] after the file is closed. *)
Definition rotateClosed (io : IO) (w : JSONWriter) (d : Disk) : JSONWriter * Disk :=
  let d := shiftBackups io (path w) (Z.to_nat (maxBackups w - 1)) d in
  match os_Rename io (path w) (path w +:+ ".1") d with
  | (RenameFailed, d) => let '(_, w, d) := openFile io w d in (w, d)
  | (_, d) =>
      let d := os_Remove io (backup (path w) (maxBackups w + 1)) d in
      let '(_, w, d) := openFile io w d in (w, d)
  end.

(** Closing a file that is closed fails; a file whose closing fails is closed. *)
Definition rotate (io : IO) (w : JSONWriter) (d : Disk) : JSONWriter * Disk :=
  match file w with
  | None => rotateClosed io w d
  | Some h =>
      let w := setFile w (Some (mkHandle false (written h) (encErr h))) in
      if isOpen h && closeOk io then rotateClosed io w d else (w, d)
  end.

(** [Encode] through the counting writer: an error of the writer is kept, and an
    encoder with an error writes nothing more. *)
Definition Encode (io : IO) (data : string) (w : JSONWriter) (h : Handle) (d : Disk) : JSONWriter * Disk :=
  if encErr h then (w, d)
  else if negb (isOpen h) then (setFile w (Some (mkHandle false (written h) true)), d)
  else
    let put := match write io with Some n => str_take n data | None => data end in
    let failed := match write io with Some _ => true | None => false end in
    (setFile w (Some (mkHandle true (written h +₆₄ Z.of_nat (String.length put)) failed)),
     <[path w := default "" (d !! path w) +:+ put]> d).

Definition Log (io : IO) (e : Event) (w : JSONWriter) (d : Disk) : JSONWriter * Disk :=
  match file w with
  | None => (w, d)
  | Some h =>
      let '(w, d) := if maxBytes w <=? written h then rotate io w d else (w, d) in
      match file w with
      | Some h => Encode io (Marshal e +:+ String LF "") w h d
      | None => (w, d)
      end
  end.

Definition Close (io : IO) (w : JSONWriter) : bool * JSONWriter :=
  match file w with
  | None => (true, w)
  | Some h => (isOpen h && closeOk io, setFile w None)
  end.

(** A sequence of events, each with what the system does. *)
Fixpoint LogAll (es : list (IO * Event)) (w : JSONWriter) (d : Disk) : JSONWriter * Disk :=
  match es with
  | [] => (w, d)
  | (io, e) :: es => let '(w, d) := Log io e w d in LogAll es w d
  end.
End encoder.
End AuditLog.
