(* ===== verification/AuditLogSys.v ===== *)
(** * Properties of the audit log

    An event is one line whatever its texts contain; on storage that works the log is
    a suffix of everything that was logged, in order and uncut, and its files stay
    bounded; a single write that fails silences the log. *)

From S2P Require Import Prelude GoStd GoText Support AuditLog.
From Stdlib Require Import Ascii.
Open Scope Z_scope.
Open Scope go_scope.

Module AuditLogSys.
Import AuditLog.

(** ** One event, one line *)

(** No control character. *)
Definition graphic (a : ascii) : bool := 32 <=? code a.

Lemma graphic_no_LF s : str_forallb graphic s = true → str_no LF s = true.
Proof.
  apply str_forallb_impl. intros a Ha. unfold graphic in Ha. apply Z.leb_le in Ha. apply negb_true_iff, Ascii.eqb_neq. intros ->.
  vm_compute in Ha. done.
Qed.

Lemma graphic_byte z : 32 <= z < 256 → graphic (byte_of z) = true.
Proof. intros Hz. unfold graphic. rewrite code_byte_of, Z.mod_small by lia. apply Z.leb_le; lia. Qed.

Lemma hexChar_graphic b : 0 <= b < 16 → graphic (Sanitize.hexChar b) = true.
Proof. intros Hb. unfold Sanitize.hexChar. destruct (Z.ltb_spec b 10); apply graphic_byte; lia. Qed.

(** The bytes of a rune beyond ASCII are beyond ASCII. *)
Lemma rune_bytes s r w : Sanitize.decodeRune s = (r, w) → 128 <= r → ¬ (r = 65533 ∧ w = 1%nat) →
  str_forallb graphic (str_take w s) = true.
Proof.
  assert (∀ a, 128 <= code a → graphic a = true) as Hg by (intros a Ha; apply Z.leb_le; lia).
  unfold Sanitize.decodeRune, Sanitize.cont. intros Hd Hr Hbad.
  repeat (case_match; simplify_eq; try (exfalso; naive_solver lia)); cbn [str_take str_forallb]; rewrite ?andb_true_iff; split_and!; try done;
    apply Hg; blia.
Qed.

Lemma escapeRune_graphic s : str_forallb graphic (escapeRune s).1 = true.
Proof.
  unfold escapeRune. pose proof (Sanitize.decodeRune_range s) as Hr. destruct (Sanitize.decodeRune s) as [r w] eqn:Hd. cbn [fst] in *.
  assert (0 <= Z.land r 15 < 16) as Hland by (change 15 with (Z.ones 4); rewrite Z.land_ones by lia; apply Z.mod_pos_bound; lia).
  destruct (Z.ltb_spec r 128).
  - assert (0 <= Z.shiftr r 4 < 16) as Hsh by (rewrite Z.shiftr_div_pow2 by lia; change (2 ^ 4) with 16; split; [apply Z.div_pos|apply Z.div_lt_upper_bound]; lia).
    destruct ((r =? 92) || (r =? 34)) eqn:Hq.
    { apply orb_true_iff in Hq as [->%Z.eqb_eq| ->%Z.eqb_eq]; reflexivity. }
    repeat (case_match; [reflexivity|]). case_match eqn:Hu.
    + cbn [Sanitize.escape str_forallb String.append]. rewrite ?andb_true_iff. split_and!; try done; by apply hexChar_graphic.
    + cbn [str_forallb]. rewrite graphic_byte; [done|]. blia.
  - destruct ((r =? 65533) && (w =? 1)%nat) eqn:Hb; [reflexivity|].
    destruct ((r =? 8232) || (r =? 8233)).
    + cbn [Sanitize.escape str_forallb String.append]. rewrite ?andb_true_iff. split_and!; try done; by apply hexChar_graphic.
    + apply (rune_bytes s r w Hd); [done|]. intros [-> ->]. done.
Qed.

Lemma jsonString_graphic s : str_forallb graphic (jsonString s) = true.
Proof.
  unfold jsonString. cbn [str_forallb]. rewrite str_forallb_app. rewrite andb_true_iff. split; [reflexivity|]. rewrite andb_true_iff. split; [|reflexivity].
  generalize (String.length s). intros fuel. revert s. induction fuel as [|fuel IH]; intros s; [done|]. destruct s as [|a s]; [done|].
  cbn [escapeRunes]. pose proof (escapeRune_graphic (String a s)) as He. destruct (escapeRune _) as [x w]. cbn [fst] in He.
  by rewrite str_forallb_app, He, IH.
Qed.

Lemma Itoa_graphic z : str_forallb graphic (Itoa z) = true.
Proof.
  assert (∀ n, str_forallb graphic (itoa_go 20 n "") = true) as Hg.
  { intros n. apply (str_forallb_impl (λ a, (48 <=? code a) && (code a <? 58))); [|by apply itoa_go_digits].
    intros a Ha. unfold graphic. blia. }
  unfold Itoa. destruct (z <? 0); [|apply Hg]. cbn [str_forallb]. by rewrite Hg.
Qed.

Section log.
Context `{TimeFormat}.

Definition graphic_field (kv : string * string) : Prop := str_forallb graphic kv.1 = true ∧ str_forallb graphic kv.2 = true.

Lemma text_graphic k v : str_forallb graphic k = true → Forall graphic_field (text k v).
Proof. intros Hk. unfold text. case_match; constructor; [|constructor]. split; [done|apply jsonString_graphic]. Qed.
Lemma number_graphic k v : str_forallb graphic k = true → Forall graphic_field (number k v).
Proof. intros Hk. unfold number. case_match; constructor; [|constructor]. split; [done|apply Itoa_graphic]. Qed.

Lemma fields_graphic e : Forall graphic_field (fields e).
Proof.
  unfold fields. repeat apply Forall_app_2; try (apply text_graphic; reflexivity); try (apply number_graphic; reflexivity).
  constructor; [|constructor; [|constructor]]; (split; [reflexivity|]); [|apply jsonString_graphic].
  cbn [snd str_forallb]. rewrite str_forallb_app, andb_true_iff. split; [reflexivity|]. rewrite andb_true_iff. split; [|reflexivity].
  apply (str_forallb_impl time_char); [|apply RFC3339Nano_chars]. intros a Ha. unfold time_char in Ha.
  apply orb_true_iff in Ha as [Ha|Ha]; [unfold graphic; blia|]. apply existsb_exists in Ha as (x & Hx & ->%Ascii.eqb_eq).
  cbn [In] in Hx. destruct_or?; subst; reflexivity.
Qed.

Lemma Join_graphic l : Forall (λ s, str_forallb graphic s = true) l → str_forallb graphic (Join l ",") = true.
Proof.
  unfold Join. induction 1 as [|x l Hx Hl IH]; [done|]. cbn [String.concat]. destruct l as [|y l]; [done|].
  by rewrite !str_forallb_app, Hx, IH.
Qed.

Lemma Marshal_graphic e : str_forallb graphic (Marshal e) = true.
Proof.
  unfold Marshal. rewrite !str_forallb_app, !andb_true_iff. split_and!; try reflexivity. apply Join_graphic, Forall_fmap.
  eapply Forall_impl; [apply fields_graphic|]. intros [k v] [Hk Hv]. unfold member, compose. cbn [fst snd str_forallb] in *.
  rewrite str_forallb_app, Hk. cbn [str_forallb]. rewrite str_forallb_app, Hv. reflexivity.
Qed.
(** ** The files of the log *)

(** Storage that works. *)
Definition works (io : IO) : Prop :=
  openOk io = true ∧ statOk io = true ∧ closeOk io = true ∧ (∀ p, renameOk io p = true) ∧ write io = None.

Section files.
Context (p : string).

Definition content (d : Disk) (f : string) : string := default "" (d !! f).
Abbreviation b i := (backup p (Z.of_nat i)).

(** The backups from the [n]-th down to the first: what they hold, oldest first. *)
Fixpoint backups (n : nat) (d : Disk) : string :=
  match n with
  | O => ""
  | S m => content d (b n) +:+ backups m d
  end.

(** A name of the log with room for [n] backups. *)
Definition log_file (n : nat) (f : string) : Prop := f = p ∨ ∃ i, (1 <= i <= n)%nat ∧ f = b i.

Lemma Itoa_inj x y : 0 <= x < 2 ^ 63 → 0 <= y < 2 ^ 63 → Itoa x = Itoa y → x = y.
Proof. intros Hx Hy Heq. pose proof (ParseInt_Itoa x Hx) as H1. rewrite Heq, (ParseInt_Itoa y Hy) in H1. by simplify_eq. Qed.

Lemma backup_inj i j : Z.of_nat i < 2 ^ 63 → Z.of_nat j < 2 ^ 63 → b i = b j → i = j.
Proof. intros Hi Hj Heq. apply str_app_inj_l, (str_app_inj_l ".") in Heq. apply Itoa_inj in Heq; lia. Qed.

Lemma backup_not_path i : b i ≠ p.
Proof.
  intros Heq. assert (String.length (b i) = String.length p) as Hl by by rewrite Heq. unfold backup in Hl.
  rewrite str_length_app in Hl. cbn [String.append String.length] in Hl. lia.
Qed.

Lemma backups_ext n d d' : (∀ i, (1 <= i <= n)%nat → content d' (b i) = content d (b i)) → backups n d' = backups n d.
Proof.
  intros Hc. induction n as [|n IH]; [done|]. cbn [backups]. rewrite Hc by lia. f_equal. apply IH. intros i Hi. apply Hc. lia.
Qed.

(** Moving a file. *)
Lemma rename_content io old new d f :
  old ≠ new → renameOk io old = true →
  content (os_Rename io old new d).2 f =
    if decide (f = old) then "" else if decide (f = new) then (match d !! old with Some _ => content d old | None => content d new end) else content d f.
Proof.
  intros Hne Hok. unfold os_Rename, content. destruct (d !! old) as [data|] eqn:Hold; [rewrite Hok|]; cbn [snd].
  - destruct (decide (f = old)) as [->|Hf].
    + rewrite lookup_insert_ne by done. by rewrite lookup_delete_eq.
    + destruct (decide (f = new)) as [->|Hf']; [by rewrite lookup_insert_eq|]. by rewrite lookup_insert_ne, lookup_delete_ne by done.
  - repeat case_decide; subst; [by rewrite Hold|done..].
Qed.

Lemma rename_absent io old new d : old ≠ new → renameOk io old = true → (os_Rename io old new d).2 !! old = None.
Proof.
  intros Hne Hok. unfold os_Rename. destruct (d !! old) eqn:Hold; [rewrite Hok|]; cbn [snd]; [|done].
  rewrite lookup_insert_ne by done. apply lookup_delete_eq.
Qed.

Context (io : IO) (Hio : works io).

Lemma shift_frame n d f : Z.of_nat n + 1 < 2 ^ 63 → (∀ i, (1 <= i <= S n)%nat → f ≠ b i) → shiftBackups io p n d !! f = d !! f.
Proof using Hio.
  revert d. induction n as [|n IH]; intros d Hn Hf; [done|]. cbn [shiftBackups]. rewrite IH; [|lia|intros i Hi; apply Hf; lia].
  replace (Z.of_nat (S n) + 1) with (Z.of_nat (S (S n))) by lia.
  unfold os_Rename. destruct (d !! b (S n)); [|done]. destruct (renameOk io _); [|done]. cbn [snd].
  rewrite lookup_insert_ne, lookup_delete_ne; [done|apply not_eq_sym, Hf; lia..].
Qed.

(** After the backups moved up, the first place is free. *)
Lemma shift_first n d : (1 <= n)%nat → Z.of_nat n + 1 < 2 ^ 63 → shiftBackups io p n d !! b 1 = None.
Proof using Hio.
  revert d. induction n as [|n IH]; intros d H1 Hn; [lia|]. cbn [shiftBackups]. destruct n as [|n]; [|apply IH; lia].
  cbn [shiftBackups]. apply rename_absent; [|apply Hio]. intros Heq. apply (backup_inj 1 2) in Heq; lia.
Qed.

(** The backups moved up hold what they held, in order; at most the oldest is lost. *)
Lemma shift_backups n d :
  Z.of_nat n + 1 < 2 ^ 63 →
  ∃ lost, (lost = "" ∨ (d !! b n ≠ None ∧ lost = content d (b (S n)))) ∧ lost +:+ backups (S n) (shiftBackups io p n d) = backups (S n) d.
Proof using Hio.
  revert d. induction n as [|n IH]; intros d Hn; [exists ""; auto|]. cbn [shiftBackups].
  replace (Z.of_nat (S n) + 1) with (Z.of_nat (S (S n))) by lia.
  assert (b (S n) ≠ b (S (S n))) as Hne by (intros Heq; apply backup_inj in Heq; lia).
  set (d1 := (os_Rename io (b (S n)) (b (S (S n))) d).2).
  pose proof (λ f, rename_content io _ _ d f Hne ltac:(apply Hio)) as Hc. fold d1 in Hc.
  assert (content d1 (b (S n)) = "") as Hfree by (rewrite Hc; by rewrite decide_True).
  destruct (IH d1 ltac:(lia)) as (lost & Hlost & Heq).
  assert (lost = "") as ->.
  { destruct Hlost as [->|[_ ->]]; [done|]. done. }
  cbn [String.append] in Heq.
  set (d2 := shiftBackups io p n d1) in *.
  change (backups (S (S n)) d2) with (content d2 (b (S (S n))) +:+ backups (S n) d2). rewrite Heq.
  assert (content d2 (b (S (S n))) = content d1 (b (S (S n)))) as ->.
  { unfold content, d2. rewrite shift_frame; [done|lia|]. intros i Hi He. apply backup_inj in He; lia. }
  assert (backups n d1 = backups n d) as Hlow.
  { apply backups_ext. intros i Hi. rewrite Hc, !decide_False; [done|intros He; apply backup_inj in He; lia..]. }
  cbn [backups]. rewrite Hfree, Hlow. cbn [String.append]. rewrite Hc, decide_False, decide_True by done.
  destruct (d !! b (S n)) as [x|] eqn:Hx.
  - exists (content d (b (S (S n)))). split; [right; done|done].
  - exists "". split; [auto|]. cbn [String.append]. f_equal. unfold content. by rewrite Hx.
Qed.
(** What holds of every file of the log keeps holding when one moves to the place of
    another. *)
Context (P : string → Prop) (Pempty : P "").
Definition all_files (n : nat) (d : Disk) : Prop := ∀ f, log_file n f → P (content d f).

Lemma rename_all n old new d : old ≠ new → log_file n old → log_file n new → all_files n d → all_files n (os_Rename io old new d).2.
Proof using Hio Pempty.
  intros Hne Ho Hn Hall f Hf. rewrite rename_content; [|done|apply Hio]. repeat case_match; auto.
Qed.

Lemma shift_all n k d : (S k <= n)%nat → Z.of_nat n < 2 ^ 63 → all_files n d → all_files n (shiftBackups io p k d).
Proof using Hio Pempty.
  revert d. induction k as [|k IH]; intros d Hk Hn Hall; [done|]. cbn [shiftBackups]. apply IH; [lia..|].
  replace (Z.of_nat (S k) + 1) with (Z.of_nat (S (S k))) by lia.
  apply rename_all; [intros He; apply backup_inj in He; lia|right; eexists; split; [|done]; lia..|done].
Qed.

(** The current file becomes the first backup: the order stays, and only what the
    first place held is lost. *)
Lemma current_to_first m d :
  (1 <= m)%nat → Z.of_nat m < 2 ^ 63 → (1 < m → d !! b 1 = None)%nat →
  let d' := (os_Rename io p (b 1) d).2 in
  ∃ lost, (lost = "" ∨ lost = content d (b 1)) ∧ lost +:+ backups m d' = backups m d +:+ content d p ∧ content d' p = "".
Proof using Hio.
  intros Hm Hm2 Hfree d'. pose proof (backup_not_path 1) as Hne. apply not_eq_sym in Hne.
  pose proof (λ f, rename_content io p (b 1) d f Hne ltac:(apply Hio)) as Hc. fold d' in Hc.
  assert (content d' p = "") as Hp by (rewrite Hc; by rewrite decide_True).
  assert (∀ n, (1 <= n <= m)%nat → ∃ lost, (lost = "" ∨ (m = 1%nat ∧ lost = content d (b 1))) ∧ lost +:+ backups n d' = backups n d +:+ content d p) as Hall.
  { induction n as [|n IH]; [lia|]. intros Hn. destruct n as [|n].
    - cbn [backups]. rewrite !str_app_nil_r, Hc, decide_False, decide_True by done. destruct (d !! p) as [x|] eqn:Hx.
      + destruct (decide (m = 1%nat)) as [->|]; [exists (content d (b 1)); auto|].
        exists "". split; [auto|]. unfold content at 2. rewrite Hfree by lia. done.
      + exists "". split; [auto|]. unfold content at 3. rewrite Hx. by rewrite str_app_nil_r.
    - destruct IH as (lost & Hl & Heq); [lia|]. destruct Hl as [->|[-> _]]; [|lia]. exists "". split; [auto|].
      cbn [String.append] in *. change (backups (S (S n)) ?x) with (content x (b (S (S n))) +:+ backups (S n) x).
      rewrite Heq, str_app_assoc. f_equal. rewrite Hc, !decide_False; [done|..]; [|apply backup_not_path].
      intros He. apply (backup_inj _ 1) in He; lia. }
  destruct (Hall m ltac:(lia)) as (lost & Hl & Heq). exists lost. split; [naive_solver|done].
Qed.
End files.

(** ** Rotation *)

Definition trail (w : JSONWriter) (d : Disk) : string := backups (path w) (Z.to_nat (maxBackups w)) d +:+ content d (path w).
Definition fresh : Handle := mkHandle true 0 false.

Lemma openFile_fresh io w d :
  works io → content d (path w) = "" →
  ∃ d', openFile io w d = (true, setFile w (Some fresh), d') ∧ ∀ f, content d' f = content d f.
Proof.
  intros (Ho & Hs & _) Hc. unfold openFile. rewrite Ho, Hs. unfold content in Hc. cbn [negb]. rewrite Hc. eexists. split; [done|].
  intros f. unfold content. destruct (decide (f = path w)) as [->|]; [by rewrite lookup_insert_eq, Hc|by rewrite lookup_insert_ne].
Qed.

(** The backups move up and the current file becomes the first: at most one file is
    lost. *)
Lemma files_move io p m d (P : string → Prop) :
  works io → (1 <= m)%nat → Z.of_nat m + 1 < 2 ^ 63 → P "" → all_files p P m d →
  let d2 := (os_Rename io p (backup p 1) (shiftBackups io p (m - 1) d)).2 in
  ∃ lost, (lost = "" ∨ P lost) ∧ lost +:+ backups p m d2 = backups p m d +:+ content d p ∧ content d2 p = "" ∧ all_files p P m d2.
Proof.
  intros Hio Hm Hm2 HP Hall d2. set (d1 := shiftBackups io p (m - 1) d) in *.
  assert (content d1 p = content d p) as Hcur.
  { unfold content, d1. rewrite shift_frame; [done..|lia|]. intros i Hi. apply not_eq_sym, backup_not_path. }
  assert (all_files p P m d2) as Hall2.
  { apply rename_all; try done; [apply not_eq_sym, (backup_not_path p 1)|by left|right; exists 1%nat; split; [lia|done]|].
    apply shift_all; [done..|lia|lia|done]. }
  destruct (current_to_first p io Hio m d1) as (l2 & Hl2 & He2 & Hn2); [lia..|intros; apply shift_first; [done|lia..]|].
  destruct (shift_backups p io Hio (m - 1) d) as (l1 & Hl1 & He1); [lia|]. fold d1 in He1. replace (S (m - 1)) with m in * by lia.
  assert (∀ i, (1 <= i <= m)%nat → P (content d (backup p (Z.of_nat i)))) as Hb by (intros i Hi; apply Hall; right; eauto).
  destruct (decide (m = 1)%nat) as [Hk0|Hk0].
  - exists l2. unfold d2, d1 in *. rewrite Hk0 in *. cbn [Nat.sub shiftBackups] in *. split; [|done].
    destruct Hl2 as [->| ->]; [auto|right; apply (Hb 1%nat); lia].
  - assert (l2 = "") as ->.
    { destruct Hl2 as [->| ->]; [done|]. unfold content, d1. change 1 with (Z.of_nat 1). rewrite (shift_first p io Hio); [done|lia..]. }
    exists l1. split; [|split; [|done]].
    + destruct Hl1 as [->|[_ ->]]; [auto|]. right. apply Hb. lia.
    + cbn [String.append] in He2. change (os_Rename io p (backup p (Z.of_nat 1)) d1).2 with d2 in He2. rewrite He2, <- He1, str_app_assoc, Hcur. done.
Qed.

Lemma rotateClosed_spec io w d (P : string → Prop) :
  works io → 1 <= maxBackups w < 2 ^ 63 - 1 → P "" → let m := Z.to_nat (maxBackups w) in all_files (path w) P m d →
  ∃ d' lost, rotateClosed io w d = (setFile w (Some fresh), d') ∧ (lost = "" ∨ P lost) ∧
    lost +:+ trail w d' = trail w d ∧ all_files (path w) P m d' ∧ content d' (path w) = "".
Proof.
  intros Hio Hm HP m Hall. destruct (Hio) as (Ho & Hs & Hcl & Hrn & Hw). unfold rotateClosed.
  replace (Z.to_nat (maxBackups w - 1)) with (m - 1)%nat by lia.
  destruct (files_move io (path w) m d P Hio) as (lost & Hlost & Htrail & Hnew & Hall2); [lia..|done|done|].
  change (path w +:+ ".1") with (backup (path w) 1).
  destruct (os_Rename io (path w) (backup (path w) 1) _) as [res d2] eqn:Hren. cbn [snd] in *.
  assert (res ≠ RenameFailed) as Hres by (unfold os_Rename in Hren; rewrite Hrn in Hren; case_match; by simplify_eq).
  set (d3 := os_Remove io (backup (path w) (maxBackups w + 1)) d2).
  assert (∀ f, log_file (path w) m f → content d3 f = content d2 f) as Hd3.
  { intros f Hf. unfold d3, os_Remove. destruct (removeOk io); [|done]. unfold content. rewrite lookup_delete_ne; [done|].
    replace (maxBackups w + 1) with (Z.of_nat (S m)) by lia. destruct Hf as [->|(i & Hi & ->)]; [apply backup_not_path|].
    intros He. apply backup_inj in He; lia. }
  assert (log_file (path w) m (path w)) as Hpath by by left.
  destruct (openFile_fresh io w d3 Hio) as (d4 & Hopen & Hd4); [by rewrite Hd3|].
  assert (content d4 (path w) = "") as Hnew4 by by rewrite Hd4, Hd3.
  exists d4, lost. split; [destruct res; try done; fold d3; by rewrite Hopen|]. split; [done|]. split; [|split; [|done]].
  - unfold trail. fold m. rewrite Hnew4, str_app_nil_r, <- Htrail. f_equal. apply backups_ext. intros i Hi. rewrite Hd4, Hd3; [done|].
    right. eauto.
  - intros f Hf. rewrite Hd4, Hd3 by done. by apply Hall2.
Qed.
(** ** Logging *)

Definition line (e : Event) : string := Marshal e +:+ String LF "".
Definition size (s : string) : Z := Z.of_nat (String.length s).

(** A file of whole lines, shorter than a bound. *)
Definition whole (B : Z) (s : string) : Prop := (∃ ls, Forall (λ l, str_no LF l = true) ls ∧ s = unlines ls) ∧ size s < B.

Lemma unlines_app a b : unlines (a ++ b) = unlines a +:+ unlines b.
Proof. unfold unlines. induction a as [|x a IH]; [done|]. cbn [app foldr]. rewrite IH, str_app_assoc. done. Qed.

Lemma unlines_inj a b : Forall (λ l, str_no LF l = true) a → Forall (λ l, str_no LF l = true) b → unlines a = unlines b → a = b.
Proof. intros Ha Hb Heq. apply (app_inj_tail a b "" ""). by rewrite <- !Split_unlines, Heq. Qed.

Lemma line_unlines e : line e = unlines [Marshal e].
Proof. done. Qed.
Lemma Marshal_no_LF e : str_no LF (Marshal e) = true.
Proof. apply graphic_no_LF, Marshal_graphic. Qed.

Section bounded.
Context (B : Z) (HB : B <= 2 ^ 63).

(** The writer is open, counts its file, and every file is whole. *)
Definition healthy (w : JSONWriter) (d : Disk) : Prop :=
  1 <= maxBackups w < 2 ^ 63 - 1 ∧ all_files (path w) (whole B) (Z.to_nat (maxBackups w)) d ∧
  file w = Some (mkHandle true (size (content d (path w))) false).

Definition fits (w : JSONWriter) (e : Event) : Prop := size (line e) < B ∧ maxBytes w + size (line e) <= B.

Lemma whole_nil e w : fits w e → whole B "".
Proof. intros [Hl _]. split; [by exists []|]. unfold size in *. cbn. lia. Qed.

Lemma append_spec io e w d n :
  works io → size (content d (path w)) + size (line e) < B → healthy w d → file w = Some (mkHandle true n false) →
  ∃ w' d', Encode io (line e) w (mkHandle true n false) d = (w', d') ∧ path w' = path w ∧ maxBackups w' = maxBackups w ∧ maxBytes w' = maxBytes w ∧
    healthy w' d' ∧ trail w d' = trail w d +:+ line e ∧ content d' (path w) ≠ "".
Proof using HB.
  intros (_ & _ & _ & _ & Hw) Hsz (Hm & Hall & Hf) Hn. rewrite Hf in Hn. simplify_eq. unfold Encode. cbn [encErr isOpen negb]. rewrite Hw.
  set (d' := <[path w := _]> d). eexists _, d'. split; [done|]. cbn [setFile path maxBackups maxBytes].
  assert (content d' (path w) = content d (path w) +:+ line e) as Hcur by (unfold content, d'; by rewrite lookup_insert_eq).
  assert (∀ f, f ≠ path w → content d' f = content d f) as Hoth by (intros f Hne; unfold content, d'; by rewrite lookup_insert_ne).
  assert (size (content d' (path w)) = size (content d (path w)) + size (line e)) as Hsize by (rewrite Hcur; unfold size; rewrite str_length_app; lia).
  do 3 (split; [done|]). split; [split; [done|split]|split].
  - intros f Hf'. destruct (decide (f = path w)) as [->|Hne]; [|rewrite Hoth by done; by apply Hall].
    destruct (Hall (path w) ltac:(by left)) as [(ls & Hls & Heq) _]. split; [|lia]. exists (ls ++ [Marshal e]). split.
    + apply Forall_app_2; [done|]. constructor; [apply Marshal_no_LF|constructor].
    + by rewrite Hcur, Heq, unlines_app.
  - cbn [setFile file path written]. rewrite Hsize, wrap64_id; [done|]. unfold int64_range, size in *. lia.
  - unfold trail. rewrite Hcur, <- str_app_assoc. f_equal. f_equal. apply backups_ext. intros i _. apply Hoth, backup_not_path.
  - rewrite Hcur. intros Hnil. assert (size (content d (path w) +:+ line e) = 0) as Hz by (by rewrite Hnil). unfold size, line in Hz.
    rewrite !str_length_app in Hz. cbn in Hz. lia.
Qed.

Lemma Log_spec io e w d :
  works io → fits w e → healthy w d →
  ∃ w' d' lost, Log io e w d = (w', d') ∧ path w' = path w ∧ maxBackups w' = maxBackups w ∧ maxBytes w' = maxBytes w ∧
    healthy w' d' ∧ (lost = "" ∨ whole B lost) ∧ lost +:+ trail w d' = trail w d +:+ line e ∧ content d' (path w) ≠ "".
Proof using HB.
  intros Hio Hfit Hh. destruct (Hh) as (Hm & Hall & Hf). pose proof (whole_nil e w Hfit) as Hnil. destruct Hfit as [Hl Hb]. unfold Log. rewrite Hf. cbn [written].
  fold (line e). destruct (Z.leb_spec (maxBytes w) (size (content d (path w)))).
  - unfold rotate. rewrite Hf. cbn [isOpen]. destruct (Hio) as (_ & _ & -> & _). cbn [andb].
    set (w1 := setFile w _). destruct (rotateClosed_spec io w1 d (whole B) Hio Hm Hnil Hall) as (d1 & lost & -> & Hlost & Ht & Hall1 & Hc).
    cbn [setFile file]. unfold fresh. edestruct (append_spec io e (setFile w1 (Some fresh)) d1 0) as (w' & d' & Hrun & ? & ? & ? & Hh' & Ht' & Hne);
      [done|change (path (setFile w1 (Some fresh))) with (path w1); rewrite Hc; change (size "") with 0; lia| |done|].
    { split; [exact Hm|split; [exact Hall1|]]. change (path (setFile w1 (Some fresh))) with (path w1). rewrite Hc. done. }
    exists w', d', lost. change (setFile w1 (Some (mkHandle true 0 false))) with (setFile w1 (Some fresh)). rewrite Hrun. split_and!; try done.
    change (trail w d') with (trail (setFile w1 (Some fresh)) d'). rewrite Ht'.
    change (trail w d) with (trail w1 d). rewrite <- Ht, str_app_assoc. done.
  - rewrite Hf. destruct (append_spec io e w d _ Hio ltac:(lia) Hh Hf) as (w' & d' & Hrun & ? & ? & ? & Hh' & Ht' & Hne).
    exists w', d', "". rewrite Hrun. split_and!; auto.
Qed.

Lemma LogAll_spec es w d :
  Forall (λ x, works x.1 ∧ fits w x.2) es → healthy w d →
  ∃ w' d' lost, LogAll es w d = (w', d') ∧ healthy w' d' ∧ path w' = path w ∧ maxBackups w' = maxBackups w ∧
    Forall (λ l, str_no LF l = true) lost ∧ unlines lost +:+ trail w d' = trail w d +:+ unlines (Marshal <$> es.*2) ∧
    (es ≠ [] → content d' (path w) ≠ "").
Proof using HB.
  revert w d. induction es as [|[io e] es IH]; intros w d Hes Hh; cbn [LogAll].
  { exists w, d, []. split_and!; try done. by rewrite str_app_nil_r. }
  apply Forall_cons in Hes as [[Hio Hfit] Hes]. destruct (Log_spec io e w d Hio Hfit Hh) as (w1 & d1 & l1 & -> & Hp & Hb & Hmx & Hh1 & Hl1 & Ht1 & Hne1).
  destruct (IH w1 d1) as (w2 & d2 & l2 & Hrun & Hh2 & Hp2 & Hb2 & Hl2 & Ht2 & Hne2); [|done|].
  { eapply Forall_impl; [exact Hes|]. intros [? ?] [? [? ?]]. split; [done|]. split; [done|]. by rewrite Hmx. }
  assert (∀ x, trail w1 x = trail w x) as Hw by (intros x; unfold trail; by rewrite Hp, Hb). rewrite !Hw in Ht2.
  assert (∃ a, Forall (λ l, str_no LF l = true) a ∧ l1 = unlines a) as (a & Ha & ->).
  { destruct Hl1 as [->|[(ls & ? & ->) _]]; [by exists []|by exists ls]. }
  exists w2, d2, (a ++ l2). split; [done|]. split_and!; try done; [congruence..|by apply Forall_app_2| |].
  - rewrite unlines_app, str_app_assoc, Ht2, <- str_app_assoc, Ht1, str_app_assoc, line_unlines, <- unlines_app. done.
  - intros _. destruct es; [|rewrite <- Hp; by apply Hne2]. cbn [LogAll] in Hrun. by simplify_eq.
Qed.
End bounded.

(** The log as lines. *)
Lemma trail_lines B w d :
  all_files (path w) (whole B) (Z.to_nat (maxBackups w)) d → ∃ ls, Forall (λ l, str_no LF l = true) ls ∧ trail w d = unlines ls.
Proof.
  intros Hall. unfold trail. destruct (Hall (path w) ltac:(by left)) as [(lc & Hlc & ->) _].
  assert (∃ ls, Forall (λ l, str_no LF l = true) ls ∧ backups (path w) (Z.to_nat (maxBackups w)) d = unlines ls) as (lb & Hlb & ->).
  { assert (∀ n, (n <= Z.to_nat (maxBackups w))%nat → ∃ ls, Forall (λ l, str_no LF l = true) ls ∧ backups (path w) n d = unlines ls) as Hn; [|by apply Hn].
    induction n as [|n IH]; intros Hn; [by exists []|]. destruct IH as (ls & Hls & Heq); [lia|].
    destruct (Hall (backup (path w) (Z.of_nat (S n)))) as [(l & Hl & He) _]; [right; exists (S n); split; [lia|done]|].
    exists (l ++ ls). split; [by apply Forall_app_2|]. cbn [backups]. by rewrite He, Heq, unlines_app. }
  exists (lb ++ lc). split; [by apply Forall_app_2|]. by rewrite unlines_app.
Qed.

(** A new writer counts what its file holds and changes nothing. *)
Lemma New_spec io cfg d w d0 :
  NewJSONWriter io cfg d = (Some w, d0) →
  maxBackups w = (if MaxBackups cfg <=? 0 then 5 else MaxBackups cfg) ∧
  file w = Some (mkHandle true (size (content d0 (path w))) false) ∧ ∀ f, content d0 f = content d f.
Proof.
  unfold NewJSONWriter, openFile. destruct (String.eqb _ _); [done|]. destruct (negb (mkdirOk io)); [done|].
  destruct (negb (openOk io)); [done|]. destruct (negb (statOk io)); [done|]. cbn [path maxBytes maxBackups]. intros [= <- <-].
  cbn [path maxBackups file]. split; [done|]. unfold content, size. rewrite lookup_insert_eq. split; [done|]. intros f.
  destruct (decide (f = Path cfg)) as [->|]; [by rewrite lookup_insert_eq|by rewrite lookup_insert_ne].
Qed.

(** C39: on storage that works, with files of whole lines to begin with, the backups
    from the oldest to the newest followed by the current file always hold a suffix
    of the lines there were and the events logged since, one line per event whatever
    texts it carries, in order, none cut and none missing in between; the last event
    logged is in it, and no file ever outgrows a bound that leaves room for one
    event beyond the size at which files are rotated. *)
Theorem audit_trail io0 cfg d w d0 l0 es B :
  B <= 2 ^ 63 → MaxBackups cfg < 2 ^ 63 - 1 →
  NewJSONWriter io0 cfg d = (Some w, d0) →
  all_files (path w) (whole B) (Z.to_nat (maxBackups w)) d →
  Forall (λ l, str_no LF l = true) l0 → trail w d = unlines l0 →
  Forall (λ x, works x.1 ∧ fits B w x.2) es →
  let d' := (LogAll es w d0).2 in
  let all := l0 ++ (Marshal <$> es.*2) in
  ∃ k, trail w d' = unlines (drop k all) ∧ (es ≠ [] → (k < length all)%nat) ∧
    ∀ f, log_file (path w) (Z.to_nat (maxBackups w)) f → size (content d' f) < B.
Proof.
  intros HB Hmb Hnew Hall Hl0 Htr Hes d' all. destruct (New_spec _ _ _ _ _ Hnew) as (Hmb' & Hf & Hd).
  assert (1 <= maxBackups w < 2 ^ 63 - 1) as Hm by (rewrite Hmb'; destruct (Z.leb_spec (MaxBackups cfg) 0); lia).
  assert (trail w d0 = trail w d) as Htr0 by (unfold trail; rewrite Hd; f_equal; apply backups_ext; intros; apply Hd).
  assert (healthy B w d0) as Hh by (split; [done|split; [|done]]; intros f Hx; rewrite Hd; by apply Hall).
  destruct (LogAll_spec B HB es w d0 Hes Hh) as (w1 & d1 & lost & Hrun & (_ & Hall1 & _) & Hp & Hb & Hlost & Ht & Hne).
  subst d'. rewrite Hrun. cbn [snd]. rewrite Hp, Hb in Hall1. destruct (trail_lines B w d1 Hall1) as (kept & Hkept & Hk).
  assert (all = lost ++ kept) as Heq.
  { apply unlines_inj; [apply Forall_app_2; [done|]; apply Forall_fmap, Forall_true; intros; apply Marshal_no_LF|by apply Forall_app_2|].
    unfold all. by rewrite !unlines_app, <- Hk, Ht, Htr0, Htr. }
  exists (length lost). rewrite Heq, drop_app_length. split; [done|]. split.
  - intros Hes'. rewrite length_app. destruct kept as [|x kept]; [|cbn [length]; lia]. exfalso. apply (Hne Hes').
    unfold trail in Hk. apply (f_equal String.length) in Hk. rewrite str_length_app in Hk. cbn in Hk. destruct (content d1 (path w)); [done|]. cbn in Hk. lia.
  - intros f Hx. by apply Hall1.
Qed.
(** ** What silences the log *)

(** An encoder that has kept an error writes nothing more until its file is replaced,
    and a file that stays below the limit is not replaced. *)
Lemma kept_error_silences es w d h :
  file w = Some h → encErr h = true → written h < maxBytes w → LogAll es w d = (w, d).
Proof.
  intros Hf He Hlt. induction es as [|[io e] es IH]; [done|]. cbn [LogAll]. unfold Log. rewrite Hf.
  replace (maxBytes w <=? written h) with false by (symmetry; apply Z.leb_gt; lia). rewrite Hf. unfold Encode. rewrite He. exact IH.
Qed.

(** A rotation that closed the file and could not open it again leaves a closed file,
    and a closed file is never replaced. *)
Lemma closed_file_silences es w d h : file w = Some h → isOpen h = false → (LogAll es w d).2 = d.
Proof.
  revert w h. induction es as [|[io e] es IH]; intros w h Hf Ho; [done|]. cbn [LogAll].
  assert (∃ w' h', Log io e w d = (w', d) ∧ file w' = Some h' ∧ isOpen h' = false) as (w' & h' & -> & Hf' & Ho'); [|by apply (IH w' h')].
  unfold Log. rewrite Hf. destruct (maxBytes w <=? written h).
  - unfold rotate. rewrite Hf, Ho. cbn [andb setFile file]. unfold Encode. cbn [encErr isOpen negb]. destruct (encErr h); eauto.
  - rewrite Hf. unfold Encode. rewrite Ho. destruct (encErr h); eauto.
Qed.
End log.

(** ** Evaluations *)
Section examples.
#[local] Instance epoch : TimeFormat.
Proof. refine {| RFC3339Nano t := "1970-01-01T00:00:00Z" |}. intros t. reflexivity. Defined.

Definition good : IO := mkIO true true true true (λ _, true) true None.
Definition disk_full : IO := mkIO true true true true (λ _, true) true (Some 5%nat).
Definition no_reopen : IO := mkIO true false true true (λ _, true) true None.

(** A name that would start a second entry stays inside its line (quotes are shown as
    apostrophes). *)
Definition shown (s : string) : string := str_map (λ a, if Ascii.eqb a quote then "'"%char else a) s.

Example escaped_name :
  shown (Marshal (NewConnectTunnelBlockedEvent 0 ("x" +:+ String LF (String quote ",<")) "443" "not_allowed"))
  = "{'timestamp':'1970-01-01T00:00:00Z','event_type':'connect_tunnel_blocked','reason':'not_allowed','target_host':'x\n\',\u003c','target_port':'443'}".
Proof. vm_compute. reflexivity. Qed.

Definition hit (n : string) : Event := NewCacheHitEvent 0 "0123456789abcdef0123" n 7.
Definition small : JSONWriter := mkWriter "/log" 100 2 (Some fresh).

(** Five events of which each fills a file: the first two are gone with the oldest
    backup. *)
Example rotation_keeps_last :
  let es := (λ n, (good, hit n)) <$> ["a"; "b"; "c"; "d"; "e"] in
  trail small (LogAll es small ∅).2 = unlines (Marshal ∘ hit <$> ["c"; "d"; "e"]).
Proof. vm_compute. reflexivity. Qed.

(** One write that fails, and nothing is logged any more although the storage works
    again. *)
Example failed_write_silences :
  let '(w, d) := LogAll [(good, hit "a"); (disk_full, hit "b")] (mkWriter "/log" 1000 2 (Some fresh)) ∅ in
  trail w d = unlines [Marshal (hit "a")] +:+ "{" +:+ String quote "tim" ∧
  (LogAll [(good, hit "c"); (good, hit "d")] w d).2 = d.
Proof. vm_compute. done. Qed.

(** A rotation that cannot open the new file silences the log as well. *)
Example failed_reopen_silences :
  let '(w, d) := LogAll [(good, hit "a"); (no_reopen, hit "b")] small ∅ in
  trail w d = unlines [Marshal (hit "a")] ∧ (LogAll [(good, hit "c"); (good, hit "d")] w d).2 = d.
Proof. vm_compute. done. Qed.

(** A log of one megabyte a file, with an earlier entry. *)
Definition old_disk : Disk := {[ "/log" := unlines ["{}"] ]}.
Definition log_cfg : JSONWriterConfig := mkCfg "/log" 1 2.
Definition started : JSONWriter := mkWriter "/log" 1048576 2 (Some (mkHandle true 3 false)).

Lemma audit_trail_witness :
  let es := (λ n, (good, hit n)) <$> ["a"; "b"] in
  NewJSONWriter good log_cfg old_disk = (Some started, old_disk) ∧
  ∃ k, trail started (LogAll es started old_disk).2 = unlines (drop k ("{}" :: (Marshal <$> es.*2))) ∧ (k < 3)%nat.
Proof.
  split; [vm_compute; reflexivity|].
  destruct (audit_trail good log_cfg old_disk started old_disk ["{}"] ((λ n, (good, hit n)) <$> ["a"; "b"]) (2 ^ 21)) as (k & Hk & Hlt & _).
  - lia.
  - cbn. lia.
  - vm_compute. reflexivity.
  - intros f Hf. destruct (decide (f = "/log")) as [->|Hne].
    + split; [exists ["{}"]; split; [by repeat constructor|vm_compute; reflexivity]|vm_compute; reflexivity].
    + unfold content, old_disk. rewrite lookup_singleton_ne by done. split; [by exists []|vm_compute; reflexivity].
  - by repeat constructor.
  - vm_compute. reflexivity.
  - repeat constructor; vm_compute; try done.
  - exists k. split; [exact Hk|]. by apply Hlt.
Defined.
End examples.
End AuditLogSys.
