(* ===== verification/Config.v ===== *)
(** * internal/config: the configuration, its defaults and its validation

    The structs of config.go as records (a prefix tells equal field names apart;
    a [*bool] is an [option bool]), every accessor, the parsing of sizes and rates
    in [int64] arithmetic, [DefaultConfig], [Load] and [Validate].  A validation
    error is the name of its field; its message is text for the operator.  The
    TOML decoder, the multiaddr and peer libraries, the time zone database and
    the file system are parameters. *)

From S2P Require Import Prelude GoStd GoText GoNet GoNum GoConf.
From Stdlib Require Import Ascii SpecFloat.
Open Scope Z_scope.

Module Config.
Import Duration Net.

(** ** The structs *)

Record ProxyConfig := mkProxy {
  AllowedHosts : list string; TrustKnownRepos : option bool; HTTPSUpstreamHosts : list string }.

Record RelayLimitsConfig := mkRelayLimits {
  MaxReservations : Z; MaxCircuits : Z; BufferSize : string; rl_Duration : string }.

Record NetworkConfig := mkNetwork {
  ListenPort : Z; ProxyPort : Z; ProxyBind : string; ProxyAllowedCIDRs : list string;
  MaxConnections : Z; BootstrapPeers : list string;
  ConnectivityMode : string; ConnectivityCheckInterval : string; ConnectivityCheckURL : string;
  EnableRelay : option bool; EnableHolePunching : option bool; EnableAutoRelay : option bool;
  RelayService : string; RelayPeers : list string; RelayLimits : RelayLimitsConfig;
  ForceReachability : string; RelayedTransferMax : Z }.

Record CacheConfig := mkCacheConfig {
  MaxSize : string; c_Path : string; MinFreeSpace : string;
  CacheMetadata : option bool; MetadataMaxSize : string; ServeStaleMetadata : option bool }.

Record IndexConfig := mkIndexConfig {
  APTListsPath : string; WatchAPTLists : option bool; APTArchivesPath : string; ImportAPTArchives : option bool }.

Record SecurityConfig := mkSecurity {
  VerifyUpstreamSignatures : string; KeyringPath : string; VerifyExemptHosts : list string }.

Record TransferConfig := mkTransfer {
  MaxUploadRate : string; MaxDownloadRate : string; MaxConcurrentUploads : Z; MaxConcurrentPeerDownloads : Z;
  RetryMaxAttempts : Z; RetryInterval : string; RetryMaxAge : string;
  PerPeerUploadRate : string; PerPeerDownloadRate : string; ExpectedPeers : Z;
  AdaptiveRateLimiting : option bool; AdaptiveMinRate : string; AdaptiveMaxBoost : float64 }.

Record DHTConfig := mkDHT { ProviderTTL : string; AnnounceInterval : string }.

Record PrivacyConfig := mkPrivacy {
  EnableMDNS : bool; AnnouncePackages : bool; PSKPath : string; PSK : string;
  PeerAllowlist : list string; PeerBlocklist : list string }.

Record MetricsConfig := mkMetrics { m_Port : Z; m_Bind : string }.

Record AuditConfig := mkAudit { a_Enabled : bool; a_Path : string; MaxSizeMB : Z; MaxBackups : Z }.

Record LoggingConfig := mkLogging { Level : string; l_File : string; Audit : AuditConfig }.

Record ScheduleWindow := mkWindow { Days : list string; StartTime : string; EndTime : string }.

Record SchedulerConfig := mkScheduler {
  s_Enabled : bool; Windows : list ScheduleWindow; Timezone : string;
  OutsideWindowRate : string; InsideWindowRate : string; UrgentFullSpeed : option bool }.

Record FleetConfig := mkFleet {
  f_Enabled : bool; ClaimTimeout : string; MaxWaitTime : string; AllowConcurrent : Z; RefreshInterval : string }.

Record Config := mkConfig {
  Network : NetworkConfig; Proxy : ProxyConfig; Cache : CacheConfig; Transfer : TransferConfig; DHT : DHTConfig;
  Privacy : PrivacyConfig; Metrics : MetricsConfig; Logging : LoggingConfig; Scheduler : SchedulerConfig;
  Fleet : FleetConfig; Index : IndexConfig; Security : SecurityConfig }.

Section config.
Context `{GoUnicode, GoUpper}.

(** ** Sizes and rates *)

(** The digits at the start, and what follows them. *)
Fixpoint span_digits (s : string) : string * string :=
  match s with
  | String c s' => if is_digit c then let '(d, rest) := span_digits s' in (String c d, rest) else ("", s)
  | EmptyString => ("", "")
  end.

(** [parseWithUnit]: [None] when no digits were consumed or they do not fit. *)
Definition parseWithUnit (s : string) : option (Z * string) :=
  let '(digits, unit) := span_digits s in
  match digits with
  | EmptyString => None
  | _ => let '(v, ok) := ParseInt digits in if ok then Some (v, unit) else None
  end.

Definition unitMultiplier (unit : string) : option Z :=
  let unit := ToUpper (TrimSpace unit) in
  let among l := existsb (String.eqb unit) l in
  if among [""; "B"] then Some 1
  else if among ["KB"; "K"] then Some 1024
  else if among ["MB"; "M"] then Some (1024 * 1024)
  else if among ["GB"; "G"] then Some (1024 * 1024 * 1024)
  else if among ["TB"; "T"] then Some (1024 * 1024 * 1024 * 1024)
  else None.

Definition ParseSize (s : string) : option Z :=
  let s := TrimSpace s in
  if String.eqb s "" || String.eqb s "0" then Some 0
  else
    match parseWithUnit s with
    | None => None
    | Some (size, unit) =>
        match unitMultiplier unit with
        | None => None
        | Some multiplier =>
            let result := wrap64 (size * multiplier) in
            if (0 <? size) && ((result <? 0) || negb (Z.quot result multiplier =? size)) then None else Some result
        end
    end.

Definition ParseRate (s : string) : option Z :=
  if String.eqb s "" || String.eqb s "0" || String.eqb s "unlimited" then Some 0
  else ParseSize (if (2 <? String.length s)%nat && HasSuffix s "/s" then str_take (String.length s - 2) s else s).

Definition sizeOr (dflt : Z) (r : option Z) : Z := default dflt r.

(** The shape of the duration accessors: a default when unset or malformed. *)
Definition durationOr (dflt : Z) (s : string) : Z :=
  if String.eqb s "" then dflt else default dflt (ParseDuration s).

(** ** Accessors *)

Definition TrustsKnownRepos (p : ProxyConfig) : bool := default true (TrustKnownRepos p).

Definition DefaultTrustedRepos : list string :=
  ["ppa.launchpad.net"; "ppa.launchpadcontent.net"; "launchpadlibrarian.net"; "download.docker.com"; "apt.postgresql.org";
   "deb.nodesource.com"; "packages.microsoft.com"; "apt.releases.hashicorp.com"; "mirrors.kernel.org"; "pkgs.k8s.io"].

Definition DefaultHTTPSUpstreamHosts : list string :=
  ["pkgs.k8s.io"; "download.docker.com"; "deb.nodesource.com"; "packages.microsoft.com"; "apt.releases.hashicorp.com";
   "apt.postgresql.org"].

Definition hostKey (h : string) : string := ToLower (TrimSpace h).

(** The closure [add] of the two [Effective] functions: hosts whose key is new. *)
Fixpoint addHosts (hosts : list string) (seen : list string) (result : list string) : list string * list string :=
  match hosts with
  | [] => (seen, result)
  | h :: hosts =>
      let key := hostKey h in
      if String.eqb key "" || bool_decide (key ∈ seen) then addHosts hosts seen result
      else addHosts hosts (key :: seen) (result ++ [h])
  end.

Definition EffectiveAllowedHosts (p : ProxyConfig) : list string :=
  if negb (TrustsKnownRepos p) then AllowedHosts p
  else let '(seen, result) := addHosts (AllowedHosts p) [] [] in (addHosts DefaultTrustedRepos seen result).2.

Definition EffectiveHTTPSUpstreamHosts (p : ProxyConfig) : list string :=
  let '(seen, result) := addHosts (HTTPSUpstreamHosts p) [] [] in
  if TrustsKnownRepos p then (addHosts DefaultHTTPSUpstreamHosts seen result).2 else result.

Definition GetForceReachability (c : NetworkConfig) : string :=
  if String.eqb (ForceReachability c) "" then "auto" else ToLower (TrimSpace (ForceReachability c)).
Definition IsAutoRelayEnabled (c : NetworkConfig) : bool := default true (EnableAutoRelay c).
Definition GetRelayService (c : NetworkConfig) : string :=
  if String.eqb (RelayService c) "" then "auto" else ToLower (TrimSpace (RelayService c)).
Definition RelayMaxReservations (c : NetworkConfig) : Z :=
  if MaxReservations (RelayLimits c) <=? 0 then 128 else MaxReservations (RelayLimits c).
Definition RelayMaxCircuits (c : NetworkConfig) : Z :=
  if MaxCircuits (RelayLimits c) <=? 0 then 16 else MaxCircuits (RelayLimits c).
Definition RelayBufferSizeBytes (c : NetworkConfig) : Z :=
  if String.eqb (BufferSize (RelayLimits c)) "" then 128 * 1024
  else match ParseSize (BufferSize (RelayLimits c)) with
       | Some n => if n <=? 0 then 128 * 1024 else n
       | None => 128 * 1024
       end.
Definition RelayDuration (c : NetworkConfig) : Z :=
  if String.eqb (rl_Duration (RelayLimits c)) "" then 2 * Minute
  else match ParseDuration (rl_Duration (RelayLimits c)) with
       | Some d => if d <=? 0 then 2 * Minute else d
       | None => 2 * Minute
       end.
Definition RelayedTransferMaxBytes (c : NetworkConfig) : Z := if RelayedTransferMax c <? 0 then 0 else RelayedTransferMax c.
Definition GetConnectivityMode (c : NetworkConfig) : string :=
  if String.eqb (ConnectivityMode c) "" then "auto" else ConnectivityMode c.
Definition GetConnectivityCheckInterval (c : NetworkConfig) : Z := durationOr (30 * Second) (ConnectivityCheckInterval c).
Definition GetConnectivityCheckURL (c : NetworkConfig) : string :=
  if String.eqb (ConnectivityCheckURL c) "" then "http://deb.debian.org/debian/" else ConnectivityCheckURL c.
Definition IsRelayEnabled (c : NetworkConfig) : bool := default true (EnableRelay c).
Definition IsHolePunchingEnabled (c : NetworkConfig) : bool := default true (EnableHolePunching c).

(** The first malformed network is an error. *)
Fixpoint parseCIDRs (l : list string) : option (list IPNet) :=
  match l with
  | [] => Some []
  | cidr :: l =>
      if String.eqb cidr "" then parseCIDRs l
      else match ParseCIDR cidr with
           | None => None
           | Some n => match parseCIDRs l with Some ns => Some (n :: ns) | None => None end
           end
  end.

Definition ParsedAllowedCIDRs (c : NetworkConfig) : option (list IPNet) := parseCIDRs (ProxyAllowedCIDRs c).

Definition isLoopbackBindAddr (bind : string) : bool :=
  if String.eqb bind "" || String.eqb bind "localhost" then true
  else match ParseIP bind with Some ip => IsLoopback ip | None => false end.

Definition countNonEmptyStrings (s : list string) : Z :=
  Z.of_nat (length (List.filter (λ v, negb (String.eqb v "")) s)).

Definition GetWatchAPTLists (c : IndexConfig) : bool := default true (WatchAPTLists c).
Definition GetImportAPTArchives (c : IndexConfig) : bool := default true (ImportAPTArchives c).

Definition verifyModes : list string := ["off"; "warn"; "enforce"; "auto"].
Definition GetVerifyMode (c : SecurityConfig) : string :=
  let v := ToLower (TrimSpace (VerifyUpstreamSignatures c)) in
  if existsb (String.eqb v) verifyModes then v else "auto".
Definition VerificationEnabled (c : SecurityConfig) : bool := negb (String.eqb (GetVerifyMode c) "off").

Definition ProviderTTLDuration (c : DHTConfig) : Z := durationOr (24 * Hour) (ProviderTTL c).
Definition AnnounceIntervalDuration (c : DHTConfig) : Z := durationOr (12 * Hour) (AnnounceInterval c).

Definition GetMaxSizeMB (c : AuditConfig) : Z := if MaxSizeMB c <=? 0 then 100 else MaxSizeMB c.
Definition GetMaxBackups (c : AuditConfig) : Z := if MaxBackups c <=? 0 then 5 else MaxBackups c.

Definition OutsideWindowRateBytes (c : SchedulerConfig) : Z :=
  if String.eqb (OutsideWindowRate c) "" then 100 * 1024 else sizeOr (100 * 1024) (ParseRate (OutsideWindowRate c)).
Definition InsideWindowRateBytes (c : SchedulerConfig) : Z :=
  if String.eqb (InsideWindowRate c) "" || String.eqb (InsideWindowRate c) "unlimited" then 0
  else sizeOr 0 (ParseRate (InsideWindowRate c)).
Definition IsUrgentFullSpeed (c : SchedulerConfig) : bool := default true (UrgentFullSpeed c).

Definition ClaimTimeoutDuration (c : FleetConfig) : Z := durationOr (5 * Second) (ClaimTimeout c).
Definition MaxWaitTimeDuration (c : FleetConfig) : Z := durationOr (5 * Minute) (MaxWaitTime c).
Definition RefreshIntervalDuration (c : FleetConfig) : Z := durationOr (1 * Second) (RefreshInterval c).
Definition GetAllowConcurrent (c : FleetConfig) : Z := if AllowConcurrent c <=? 0 then 1 else AllowConcurrent c.

Definition MaxSizeBytes (c : CacheConfig) : Z :=
  let dflt := 10 * 1024 * 1024 * 1024 in
  match ParseSize (MaxSize c) with Some size => if size =? 0 then dflt else size | None => dflt end.
Definition MinFreeSpaceBytes (c : CacheConfig) : Z := sizeOr 0 (ParseSize (MinFreeSpace c)).
Definition MetadataCachingEnabled (c : CacheConfig) : bool := default true (CacheMetadata c).
Definition ServesStaleMetadata (c : CacheConfig) : bool := default true (ServeStaleMetadata c).
Definition MetadataMaxSizeBytes (c : CacheConfig) : Z :=
  let dflt := 1 * 1024 * 1024 * 1024 in
  if negb (MetadataCachingEnabled c) then 0
  else match ParseSize (MetadataMaxSize c) with Some size => if size =? 0 then dflt else size | None => dflt end.

Definition MaxUploadRateBytes (c : TransferConfig) : Z := sizeOr 0 (ParseRate (MaxUploadRate c)).
Definition MaxDownloadRateBytes (c : TransferConfig) : Z := sizeOr 0 (ParseRate (MaxDownloadRate c)).
Definition RetryIntervalDuration (c : TransferConfig) : Z := durationOr (5 * Minute) (RetryInterval c).
Definition RetryMaxAgeDuration (c : TransferConfig) : Z := durationOr (1 * Hour) (RetryMaxAge c).
Definition perPeerRate (s : string) : Z :=
  if String.eqb s "" || String.eqb s "auto" then 0 else sizeOr 0 (ParseRate s).
Definition PerPeerUploadRateBytes (c : TransferConfig) : Z := perPeerRate (PerPeerUploadRate c).
Definition PerPeerDownloadRateBytes (c : TransferConfig) : Z := perPeerRate (PerPeerDownloadRate c).
Definition IsPerPeerEnabled (c : TransferConfig) : bool :=
  negb (String.eqb (PerPeerUploadRate c) "0" && String.eqb (PerPeerDownloadRate c) "0").
Definition IsAdaptiveEnabled (c : TransferConfig) : bool := default (IsPerPeerEnabled c) (AdaptiveRateLimiting c).
Definition AdaptiveMinRateBytes (c : TransferConfig) : Z :=
  if String.eqb (AdaptiveMinRate c) "" then 100 * 1024 else sizeOr (100 * 1024) (ParseRate (AdaptiveMinRate c)).
Definition AdaptiveMaxBoostFactor (c : TransferConfig) : float64 :=
  if SFleb (AdaptiveMaxBoost c) (f_of_Z 0) then f_dec 3 2
  else if SFltb (f_of_Z 10) (AdaptiveMaxBoost c) then f_of_Z 10 else AdaptiveMaxBoost c.
Definition GetExpectedPeers (c : TransferConfig) : Z := if ExpectedPeers c <=? 0 then 10 else ExpectedPeers c.

(** ** Defaults and loading *)

(** The environment variables and files that [DefaultConfig], [Load] and [Validate]
    look at, and the libraries they call. *)
Inductive ReadErr := NotExist | OtherErr.

Record Env := mkEnv {
  CACHE_DIRECTORY : string;                       (* os.Getenv *)
  UserHomeDir : option string;
  ReadFile : string → res ReadErr string;
  Unmarshal : string → Config → option Config;    (* toml: decodes over the given value *)
  Perm : string → option Z;                       (* os.Stat: the permission bits *)
  windows : bool;                                 (* runtime.GOOS *)
  NewMultiaddr : string → bool;                   (* whether the libraries accept it *)
  AddrInfoFromString : string → bool;
  LoadLocation : string → bool }.

Definition bootstrapNode (id : string) : string := "/dnsaddr/bootstrap.libp2p.io/p2p/" +:+ id.

Definition DefaultConfig (env : Env) : Config :=
  let cachePath :=
    if negb (String.eqb (CACHE_DIRECTORY env) "") then CACHE_DIRECTORY env
    else filepath_Join [default "/tmp" (UserHomeDir env); ".cache"; "debswarm"] in
  mkConfig
    (mkNetwork 4001 9977 "127.0.0.1" [] 100
       (bootstrapNode <$> ["QmNnooDu7bfjPFoTZYxMNLWUQJyrVwtbZg5gBMjTezGAJN"; "QmQCU2EcMqAqQPR2i9bChDtGNJchTbq5TbXJJ16u19uLTa";
                           "QmbLHAnMoJPWSCR5Zhtx6BHJX9KiKNN6tpvbUcqanj75Nb"; "QmcZf59bWwK5XFi76CZX8cbJ4BhTzzA3gU1ZjYZcYW3dwt"])
       "" "" "" None None None "" [] (mkRelayLimits 0 0 "" "") "" 0)
    (mkProxy [] None [])
    (mkCacheConfig "10GB" cachePath "1GB" None "" None)
    (mkTransfer "0" "0" 20 10 3 "5m" "1h" "auto" "auto" 10 None "100KB/s" (f_dec 3 2))
    (mkDHT "24h" "12h")
    (mkPrivacy true true "" "" [] [])
    (mkMetrics 9978 "127.0.0.1")
    (mkLogging "info" "" (mkAudit false "" 0 0))
    (mkScheduler false [] "" "" "" None)
    (mkFleet true "" "" 0 "")
    (mkIndexConfig "" None "" None)
    (mkSecurity "auto" "" []).

Definition set_CachePath (p : string) (c : Config) : Config :=
  let k := Cache c in
  mkConfig (Network c) (Proxy c)
    (mkCacheConfig (MaxSize k) p (MinFreeSpace k) (CacheMetadata k) (MetadataMaxSize k) (ServeStaleMetadata k))
    (Transfer c) (DHT c) (Privacy c) (Metrics c) (Logging c) (Scheduler c) (Fleet c) (Index c) (Security c).

(** [None] is an error: an unreadable file, or one that is not TOML. *)
Definition Load (env : Env) (path : string) : option Config :=
  let cfg := DefaultConfig env in
  match ReadFile env path with
  | Err NotExist => Some cfg
  | Err OtherErr => None
  | Ok data =>
      match Unmarshal env data cfg with
      | None => None
      | Some cfg =>
          Some (if negb (String.eqb (CACHE_DIRECTORY env) "") then set_CachePath (CACHE_DIRECTORY env) cfg else cfg)
      end
  end.

Inductive SecurityWarning := WorldWritable (file : string) | WorldReadable (file : string).

Definition checkFilePermissions (env : Env) (path : string) : option SecurityWarning :=
  if windows env then None
  else
    match Perm env path with
    | None => None
    | Some mode =>
        if negb (Z.land mode 2 =? 0) then Some (WorldWritable path)
        else if negb (Z.land mode 4 =? 0) then Some (WorldReadable path)
        else None
    end.

Definition LoadWithWarnings (env : Env) (path : string) : option (Config * list SecurityWarning) :=
  match Load env path with
  | None => None
  | Some cfg =>
      Some (cfg, if negb (String.eqb (PSK (Privacy cfg)) "") then option_list (checkFilePermissions env path) else [])
  end.

(** ** Validation *)

(** The names of the fields that are wrong, in the order of the checks. *)
Definition check (bad : bool) (field : string) : list string := if bad then [field] else [].

Definition indexed (field : string) (i : nat) : string := field +:+ "[" +:+ Itoa (Z.of_nat i) +:+ "]".

(** The entries of a list that are not empty and not accepted. *)
Definition checkList (accepts : string → bool) (field : string) (l : list string) : list string :=
  concat (imap (λ i addr, check (negb (String.eqb addr "") && negb (accepts addr)) (indexed field i)) l).

Definition checkSize (field s : string) : list string :=
  check (negb (String.eqb s "") && negb (bool_decide (is_Some (ParseSize s)))) field.
Definition checkRate (field s : string) (except : list string) : list string :=
  check (negb (existsb (String.eqb s) ("" :: except)) && negb (bool_decide (is_Some (ParseRate s)))) field.
Definition checkDuration (field s : string) : list string :=
  check (negb (String.eqb s "") && negb (bool_decide (is_Some (ParseDuration s)))) field.
Definition port_bad (low p : Z) : bool := (p <? low) || (65535 <? p).

Definition Validate_network (env : Env) (n : NetworkConfig) : list string :=
  checkList (NewMultiaddr env) "network.bootstrap_peers" (BootstrapPeers n) ++
  checkList (AddrInfoFromString env) "network.relay_peers" (RelayPeers n) ++
  check (negb (existsb (String.eqb (GetRelayService n)) ["auto"; "on"; "off"])) "network.relay_service" ++
  check (negb (existsb (String.eqb (GetForceReachability n)) ["auto"; "public"; "private"])) "network.force_reachability" ++
  checkSize "network.relay_limits.buffer_size" (BufferSize (RelayLimits n)) ++
  checkDuration "network.relay_limits.duration" (rl_Duration (RelayLimits n)) ++
  check (port_bad 1 (ListenPort n)) "network.listen_port" ++
  check (port_bad 1 (ProxyPort n)) "network.proxy_port" ++
  check (negb (existsb (String.eqb (ProxyBind n)) [""; "localhost"]) && negb (bool_decide (is_Some (ParseIP (ProxyBind n)))))
    "network.proxy_bind" ++
  checkList (λ cidr, bool_decide (is_Some (ParseCIDR cidr))) "network.proxy_allowed_cidrs" (ProxyAllowedCIDRs n) ++
  check (negb (isLoopbackBindAddr (ProxyBind n)) && (countNonEmptyStrings (ProxyAllowedCIDRs n) =? 0))
    "network.proxy_allowed_cidrs".

Definition Validate_transfer (t : TransferConfig) : list string :=
  checkRate "transfer.max_upload_rate" (MaxUploadRate t) [] ++
  checkRate "transfer.max_download_rate" (MaxDownloadRate t) [] ++
  checkRate "transfer.per_peer_upload_rate" (PerPeerUploadRate t) ["auto"; "0"] ++
  checkRate "transfer.per_peer_download_rate" (PerPeerDownloadRate t) ["auto"; "0"] ++
  checkRate "transfer.adaptive_min_rate" (AdaptiveMinRate t) [] ++
  check (SFltb (AdaptiveMaxBoost t) (f_of_Z 0)) "transfer.adaptive_max_boost".

Definition Validate_logging (c : Config) : list string :=
  let l := Logging c in let a := Audit l in let n := Network c in
  check (port_bad 0 (m_Port (Metrics c))) "metrics.port" ++
  check (negb (existsb (String.eqb (ToLower (Level l))) ["debug"; "info"; "warn"; "error"; ""])) "logging.level" ++
  check (negb (existsb (String.eqb (ConnectivityMode n)) ["auto"; "lan_only"; "online_only"; ""])) "network.connectivity_mode" ++
  checkDuration "network.connectivity_check_interval" (ConnectivityCheckInterval n) ++
  check (a_Enabled a && String.eqb (a_Path a) "") "logging.audit.path" ++
  check (MaxSizeMB a <? 0) "logging.audit.max_size_mb" ++
  check (MaxBackups a <? 0) "logging.audit.max_backups".

Definition Validate_scheduler (env : Env) (s : SchedulerConfig) : list string :=
  if s_Enabled s then
    check (negb (String.eqb (Timezone s) "") && negb (LoadLocation env (Timezone s))) "scheduler.timezone" ++
    checkRate "scheduler.outside_window_rate" (OutsideWindowRate s) ["unlimited"] ++
    checkRate "scheduler.inside_window_rate" (InsideWindowRate s) ["unlimited"]
  else [].

Definition Validate_fleet (f : FleetConfig) : list string :=
  if f_Enabled f then
    checkDuration "fleet.claim_timeout" (ClaimTimeout f) ++
    checkDuration "fleet.max_wait_time" (MaxWaitTime f) ++
    checkDuration "fleet.refresh_interval" (RefreshInterval f)
  else [].

Definition Validate_security (env : Env) (s : SecurityConfig) : list string :=
  check (negb (existsb (String.eqb (ToLower (TrimSpace (VerifyUpstreamSignatures s)))) [""; "off"; "warn"; "auto"; "enforce"]))
    "security.verify_upstream_signatures" ++
  check (negb (String.eqb (KeyringPath s) "") && negb (bool_decide (is_Some (Perm env (KeyringPath s)))))
    "security.keyring_path".

(** The empty list is success. *)
Definition Validate (env : Env) (c : Config) : list string :=
  Validate_network env (Network c) ++
  checkSize "cache.max_size" (MaxSize (Cache c)) ++
  checkSize "cache.min_free_space" (MinFreeSpace (Cache c)) ++
  Validate_transfer (Transfer c) ++
  check (negb (String.eqb (PSKPath (Privacy c)) "") && negb (String.eqb (PSK (Privacy c)) "")) "privacy.psk/psk_path" ++
  Validate_logging c ++
  Validate_scheduler env (Scheduler c) ++
  Validate_fleet (Fleet c) ++
  Validate_security env (Security c).
End config.
End Config.
