(* ===== verification/ConfigSys.v ===== *)
(** * The configuration: theorems

    Sizes are parsed exactly or refused, a configuration that passes [Validate] is
    the one the accessors return, the lists of allowed hosts have no duplicates,
    and the defaults are valid. *)

From S2P Require Import Prelude GoStd GoText GoNet GoNum GoConf Security SecuritySys Config.
From Stdlib Require Import Ascii SpecFloat.
Open Scope Z_scope.

Module ConfigSys.
Import Config Duration Net.

(** ** Numbers *)

Lemma span_digits_app d u :
  str_forallb is_digit d = true → match u with String c _ => is_digit c = false | EmptyString => True end →
  span_digits (d +:+ u) = (d, u).
Proof.
  intros Hd Hu. induction d as [|c d IH].
  - destruct u as [|c u]; [done|]. cbn [String.append span_digits]. by rewrite Hu.
  - cbn [str_forallb] in Hd. apply andb_prop in Hd as [Hc Hd]. cbn [String.append span_digits]. by rewrite Hc, IH.
Qed.

Lemma digit_value_digit c : is_digit c = true → digit_value c = Some (code c - 48) ∧ 0 <= code c - 48 < 10.
Proof.
  unfold is_digit, digit_value. intros Hc. rewrite Hc. apply andb_prop in Hc as [? ?]. split; [done|blia].
Qed.

(** On digits the loop of [ParseUint] computes the number, up to its bound. *)
Lemma parse_uint_digits s max acc :
  str_forallb is_digit s = true → 0 <= acc <= max →
  ∃ v, parse_digits 10 acc s = Some v ∧ acc <= v ∧
    parse_uint_loop 10 max acc s = if v <=? max then (v, None) else (max, Some ErrRange).
Proof.
  revert acc. induction s as [|c s IH]; intros acc Hs Hacc.
  { exists acc. cbn. by replace (acc <=? max) with true by (symmetry; blia). }
  cbn [str_forallb] in Hs. apply andb_prop in Hs as [Hc Hs]. destruct (digit_value_digit c Hc) as [Hdv Hr].
  cbn [parse_digits parse_uint_loop]. rewrite Hdv.
  replace (code c - 48 <? 10) with true by (symmetry; blia). replace (10 <=? code c - 48) with false by (symmetry; blia).
  destruct (Z.ltb_spec max (acc * 10 + (code c - 48))) as [Hbig|Hsmall].
  - assert (∀ t a, str_forallb is_digit t = true → 0 <= a → ∃ v, parse_digits 10 a t = Some v ∧ a <= v) as Hmono.
    { clear. induction t as [|c t IH]; intros a Ht Ha; [exists a; split; [done|lia]|].
      cbn [str_forallb] in Ht. apply andb_prop in Ht as [Hc Ht]. destruct (digit_value_digit c Hc) as [Hdv Hr].
      cbn [parse_digits]. rewrite Hdv. replace (code c - 48 <? 10) with true by (symmetry; blia).
      destruct (IH (a * 10 + (code c - 48)) Ht ltac:(lia)) as (v & Hv & Hle). exists v. split; [done|lia]. }
    destruct (Hmono s (acc * 10 + (code c - 48)) Hs ltac:(lia)) as (v & Hv & Hle). exists v.
    split; [done|]. split; [lia|]. by replace (v <=? max) with false by (symmetry; blia).
  - destruct (IH (acc * 10 + (code c - 48)) Hs ltac:(lia)) as (v & Hv & Hle & Hp). exists v. split; [done|].
    split; [lia|done].
Qed.

Lemma ParseInt_digits d v :
  d ≠ "" → str_forallb is_digit d = true → parse_digits 10 0 d = Some v →
  0 <= v ∧ ((ParseInt d).2 = true ↔ v < 2 ^ 63) ∧ (v < 2 ^ 63 → (ParseInt d).1 = v).
Proof.
  intros Hne Hd Hv. destruct d as [|c d]; [done|]. unfold ParseInt.
  assert (∀ x, is_digit x = false → Ascii.eqb c x = false) as Hc.
  { intros x Hx. apply Ascii.eqb_neq. intros ->. cbn [str_forallb] in Hd. by rewrite Hx in Hd. }
  rewrite !Hc by (vm_compute; done). cbn [orb negb andb].
  destruct (parse_uint_digits (String c d) (2 ^ 64 - 1) 0 Hd ltac:(lia)) as (v' & Hv' & Hle & ->).
  rewrite Hv in Hv'. injection Hv' as <-. split; [done|].
  destruct (Z.leb_spec v (2 ^ 64 - 1)) as [Hfit|Hno]; cbn [fst snd].
  - destruct (Z.leb_spec (2 ^ 63) v) as [Hge|Hlt]; cbn [fst snd]; split; (lia || split; done || lia).
  - replace (2 ^ 63 <=? 2 ^ 64 - 1) with true by done. cbn [fst snd]. split; [split; [done|lia]|lia].
Qed.

Section config.
Context `{GoUnicode, GoUpper}.

(** ** Sizes *)

Lemma unitMultiplier_cases u m : unitMultiplier u = Some m → m ∈ [1; 2 ^ 10; 2 ^ 20; 2 ^ 30; 2 ^ 40].
Proof.
  unfold unitMultiplier. repeat (case_match; [intros [= <-]; set_solver|]). done.
Qed.

(** The overflow test finds every product that does not fit: the factors are powers
    of two that divide 2{^64}. *)
Lemma overflow_check size m : 0 < size < 2 ^ 63 → m ∈ [1; 2 ^ 10; 2 ^ 20; 2 ^ 30; 2 ^ 40] →
  (wrap64 (size * m) <? 0) || negb (Z.quot (wrap64 (size * m)) m =? size) = negb (size * m <? 2 ^ 63).
Proof.
  intros Hs Hm. assert (0 < m ∧ (m | 2 ^ 64)) as [Hm0 [q Hq]].
  { repeat (apply elem_of_cons in Hm as [->|Hm]; [split; [done|]|]); [| | | | |set_solver];
      [exists (2 ^ 64)|exists (2 ^ 54)|exists (2 ^ 44)|exists (2 ^ 34)|exists (2 ^ 24)]; done. }
  destruct (Z.ltb_spec (size * m) (2 ^ 63)) as [Hfit|Hbig]; cbn [negb].
  - rewrite wrap64_id by (unfold int64_range; nia). apply orb_false_iff. split; [blia|].
    rewrite Z.quot_mul by lia. by rewrite Z.eqb_refl.
  - destruct (Z.ltb_spec (wrap64 (size * m)) 0) as [Hneg|Hpos]; [done|]. cbn [orb].
    apply negb_true_iff, Z.eqb_neq. intros Heq.
    pose proof (wrap64_range (size * m)) as [_ Hr]. unfold wrap64 in *.
    pose proof (Z.div_mod (size * m + 2 ^ 63) (2 ^ 64) ltac:(lia)) as Hdm.
    set (k := (size * m + 2 ^ 63) / 2 ^ 64) in *.
    assert (1 <= k) by (apply Z.div_le_lower_bound; lia).
    replace ((size * m + 2 ^ 63) mod 2 ^ 64 - 2 ^ 63) with ((size - k * q) * m) in * by nia.
    rewrite Z.quot_mul in Heq by lia. nia.
Qed.

(** [value] of a string of digits. *)
Definition value (d : string) : Z := default 0 (parse_digits 10 0 d).

Lemma ParseSize_digits s d u m :
  TrimSpace s = d +:+ u → d ≠ "" → str_forallb is_digit d = true →
  match u with String c _ => is_digit c = false | EmptyString => True end → unitMultiplier u = Some m →
  ParseSize s = if value d * m <? 2 ^ 63 then Some (value d * m) else None.
Proof.
  intros Hs Hne Hd Hu Hm. destruct (parse_uint_digits d 0 0 Hd ltac:(lia)) as (v & Hv & Hv0 & _).
  unfold value. rewrite Hv. change (default 0 (Some v)) with v. destruct (ParseInt_digits d v Hne Hd Hv) as (_ & Hok & Hval).
  pose proof (unitMultiplier_cases u m Hm) as Hmem.
  assert (1 <= m) as Hm1 by (repeat (apply elem_of_cons in Hmem as [->|Hmem]; [done|]); set_solver).
  unfold ParseSize. rewrite Hs.
  destruct (String.eqb (d +:+ u) "" || String.eqb (d +:+ u) "0") eqn:Hz.
  { apply orb_true_iff in Hz as [Hz|Hz]; apply String.eqb_eq in Hz; destruct d as [|c d]; try done.
    cbn [String.append] in Hz. injection Hz as -> Hdu. destruct d as [|? ?]; [|done]. cbn in Hv. injection Hv as <-.
    by destruct (0 * m <? 2 ^ 63) eqn:Hx; [f_equal; lia|blia]. }
  unfold parseWithUnit. rewrite span_digits_app by done. destruct d as [|c d]; [done|].
  destruct (ParseInt (String c d)) as [v' ok]. cbn [fst snd] in *. destruct ok.
  - assert (v < 2 ^ 63) as Hlt by (by apply Hok). rewrite (Hval Hlt), Hm.
    destruct (Z.ltb_spec 0 v) as [Hpos|Hnz]; cbn [andb].
    + rewrite (overflow_check v m) by (done || lia). destruct (Z.ltb_spec (v * m) (2 ^ 63)); cbn [negb]; [|done].
      f_equal. apply wrap64_id. unfold int64_range. nia.
    + assert (v = 0) as -> by lia. rewrite Z.mul_0_l. done.
  - assert (¬ v < 2 ^ 63) as Hge by (intros Hlt; by apply Hok in Hlt).
    by replace (v * m <? 2 ^ 63) with false by (symmetry; apply Z.ltb_ge; nia).
Qed.

Lemma span_digits_spec s d u : span_digits s = (d, u) →
  s = d +:+ u ∧ str_forallb is_digit d = true ∧ match u with String c _ => is_digit c = false | EmptyString => True end.
Proof.
  revert d u. induction s as [|c s IH]; intros d u; cbn [span_digits]; [intros [= <- <-]; done|].
  destruct (is_digit c) eqn:Hc; [|intros [= <- <-]; done].
  destruct (span_digits s) as [d' u']. intros [= <- <-]. destruct (IH d' u' eq_refl) as (-> & Hd & Hu).
  cbn [str_forallb String.append]. by rewrite Hc.
Qed.

Lemma ParseSize_sound s v : ParseSize s = Some v →
  0 <= v < 2 ^ 63 ∧
  (TrimSpace s = "" ∧ v = 0 ∨
   ∃ d u m, TrimSpace s = d +:+ u ∧ d ≠ "" ∧ str_forallb is_digit d = true ∧ unitMultiplier u = Some m ∧ v = value d * m).
Proof.
  intros Hp. destruct (String.eqb (TrimSpace s) "") eqn:He.
  { apply String.eqb_eq in He. unfold ParseSize in Hp. rewrite He in Hp. cbn in Hp. simplify_eq. split; [lia|by left]. }
  destruct (String.eqb (TrimSpace s) "0") eqn:Hzero.
  { apply String.eqb_eq in Hzero. unfold ParseSize in Hp. rewrite Hzero in Hp. cbn in Hp. simplify_eq. split; [lia|].
    right. exists "0", "", 1. rewrite Hzero. done. }
  assert (∃ d u m, TrimSpace s = d +:+ u ∧ d ≠ "" ∧ str_forallb is_digit d = true ∧
            match u with String c _ => is_digit c = false | EmptyString => True end ∧ unitMultiplier u = Some m)
    as (d & u & m & Hs & Hne & Hd & Hu & Hm).
  { unfold ParseSize in Hp. rewrite He, Hzero in Hp. cbn [orb] in Hp. unfold parseWithUnit in Hp.
    destruct (span_digits (TrimSpace s)) as [d u] eqn:Hsp. apply span_digits_spec in Hsp as (Hs & Hd & Hu).
    destruct d as [|c d]; [done|]. destruct (ParseInt _) as [v' []]; [|done].
    destruct (unitMultiplier u) as [m|] eqn:Hm; [|done]. exists (String c d), u, m. done. }
  pose proof (ParseSize_digits s d u m Hs Hne Hd Hu Hm) as Heq. rewrite Hp in Heq.
  destruct (Z.ltb_spec (value d * m) (2 ^ 63)) as [Hlt|]; [|done]. injection Heq as ->.
  assert (0 <= value d) as Hv0.
  { unfold value. destruct (parse_uint_digits d 0 0 Hd ltac:(lia)) as (v & -> & ? & _). done. }
  pose proof (unitMultiplier_cases u m Hm) as Hmem.
  assert (1 <= m) as Hm1 by (repeat (apply elem_of_cons in Hmem as [->|Hmem]; [done|]); set_solver).
  split; [nia|]. right. exists d, u, m. done.
Qed.

(** C20: a size is read exactly or refused: a decimal number with a unit is the
    product of the two when that fits into an int64 and an error when it does
    not, whatever the wrapped product looks like, and nothing else than such a
    text (or a blank one, which is 0) is a size; no size is negative. *)
Theorem parse_size_exact s :
  (∀ d u m, TrimSpace s = d +:+ u → d ≠ "" → str_forallb is_digit d = true →
     match u with String c _ => is_digit c = false | EmptyString => True end → unitMultiplier u = Some m →
     ParseSize s = if value d * m <? 2 ^ 63 then Some (value d * m) else None) ∧
  (∀ v, ParseSize s = Some v →
     0 <= v < 2 ^ 63 ∧
     (TrimSpace s = "" ∧ v = 0 ∨
      ∃ d u m, TrimSpace s = d +:+ u ∧ d ≠ "" ∧ str_forallb is_digit d = true ∧ unitMultiplier u = Some m ∧ v = value d * m)).
Proof. split; [intros d u m; apply ParseSize_digits|apply ParseSize_sound]. Qed.

Lemma ParseRate_nonneg s v : ParseRate s = Some v → 0 <= v < 2 ^ 63.
Proof. unfold ParseRate. case_match; [intros [= <-]; lia|]. intros Hp. by apply ParseSize_sound in Hp as [? _]. Qed.

(** ** Validation *)

Lemma check_nil b f : check b f = [] ↔ b = false.
Proof. by destruct b. Qed.

Lemma checkList_nil acc f l : checkList acc f l = [] → Forall (λ a, a = "" ∨ acc a = true) l.
Proof.
  unfold checkList. intros Hl. apply Forall_lookup. intros i a Ha.
  assert (check (negb (String.eqb a "") && negb (acc a)) (indexed f i) = []) as Hc.
  { assert (∀ (ls : list (list string)) x, concat ls = [] → x ∈ ls → x = []) as Hcat.
    { clear. induction ls as [|y ls IH]; intros x Hc Hx; [set_solver|]. cbn in Hc. apply app_nil in Hc as [-> Hc].
      apply elem_of_cons in Hx as [->|Hx]; [done|by apply IH]. }
    eapply Hcat; [exact Hl|]. apply list_elem_of_lookup. exists i. rewrite list_lookup_imap, Ha. done. }
  apply check_nil in Hc. destruct (String.eqb_spec a ""); [by left|]. cbn in Hc. right. by destruct (acc a).
Qed.

Lemma parseCIDRs_ok l :
  Forall (λ a, a = "" ∨ bool_decide (is_Some (ParseCIDR a)) = true) l →
  ∃ nets, parseCIDRs l = Some nets ∧ Z.of_nat (length nets) = countNonEmptyStrings l.
Proof.
  induction 1 as [|a l Ha _ (nets & Hn & Hlen)]; [by exists []|]. cbn [parseCIDRs].
  unfold countNonEmptyStrings in *. cbn [List.filter].
  destruct (String.eqb_spec a "") as [->|Hne]; [by exists nets|].
  destruct Ha as [?|Ha]; [done|]. apply bool_decide_eq_true in Ha as [n Hp]. rewrite Hp, Hn.
  exists (n :: nets). split; [done|]. cbn [negb length]. lia.
Qed.

Lemma checkRate_nil f s except :
  checkRate f s except = [] → s = "" ∨ s ∈ except ∨ is_Some (ParseRate s).
Proof.
  unfold checkRate. intros Hc%check_nil. destruct (existsb _ _) eqn:He.
  - apply existsb_exists in He as (x & Hx & ->%String.eqb_eq). apply list_elem_of_In in Hx.
    apply elem_of_cons in Hx as [->|Hx]; auto.
  - right. right. cbn in Hc. apply negb_false_iff, bool_decide_eq_true in Hc. done.
Qed.

Lemma checkDuration_nil f s dflt :
  checkDuration f s = [] → if String.eqb s "" then durationOr dflt s = dflt else ParseDuration s = Some (durationOr dflt s).
Proof.
  unfold checkDuration, durationOr. intros Hc%check_nil. destruct (String.eqb s ""); [done|].
  cbn in Hc. apply negb_false_iff, bool_decide_eq_true in Hc as [d ->]. done.
Qed.

Lemma ParseRate_nil : ParseRate "" = Some 0. Proof. done. Qed.
Lemma ParseSize_nil : ParseSize "" = Some 0. Proof. done. Qed.

(** What a rate per peer means, and the value of a duration with its default. *)
Definition per_peer (s : string) (v : Z) : Prop :=
  (s = "" ∨ s = "auto") ∧ v = 0 ∨ s ≠ "" ∧ s ≠ "auto" ∧ ParseRate s = Some v.

Definition reads (s : string) (dflt v : Z) : Prop := s = "" ∧ v = dflt ∨ s ≠ "" ∧ ParseDuration s = Some v.

(** What the accessors return for a configuration that was accepted. *)
Record effective (env : Env) (c : Config) : Prop := {
  ef_ports : 1 <= ListenPort (Network c) <= 65535 ∧ 1 <= ProxyPort (Network c) <= 65535 ∧ 0 <= m_Port (Metrics c) <= 65535;
  ef_bind : ProxyBind (Network c) = "" ∨ ProxyBind (Network c) = "localhost" ∨ is_Some (ParseIP (ProxyBind (Network c)));
  ef_clients : ∃ nets, ParsedAllowedCIDRs (Network c) = Some nets ∧
    Z.of_nat (length nets) = countNonEmptyStrings (ProxyAllowedCIDRs (Network c)) ∧
    (∀ ip, ParseIP (ProxyBind (Network c)) = Some ip → ¬ SecuritySys.loopback ip → nets ≠ []);
  ef_rates : ParseRate (MaxUploadRate (Transfer c)) = Some (MaxUploadRateBytes (Transfer c)) ∧
    ParseRate (MaxDownloadRate (Transfer c)) = Some (MaxDownloadRateBytes (Transfer c));
  ef_peer_rates : per_peer (PerPeerUploadRate (Transfer c)) (PerPeerUploadRateBytes (Transfer c)) ∧
    per_peer (PerPeerDownloadRate (Transfer c)) (PerPeerDownloadRateBytes (Transfer c));
  ef_sizes : ParseSize (MinFreeSpace (Cache c)) = Some (MinFreeSpaceBytes (Cache c)) ∧
    ∃ n, ParseSize (MaxSize (Cache c)) = Some n ∧ MaxSizeBytes (Cache c) = if n =? 0 then 10 * 2 ^ 30 else n;
  ef_fleet : f_Enabled (Fleet c) = true →
    reads (ClaimTimeout (Fleet c)) (5 * Second) (ClaimTimeoutDuration (Fleet c)) ∧
    reads (MaxWaitTime (Fleet c)) (5 * Minute) (MaxWaitTimeDuration (Fleet c)) ∧
    reads (RefreshInterval (Fleet c)) (1 * Second) (RefreshIntervalDuration (Fleet c));
  ef_verify : let v := ToLower (TrimSpace (VerifyUpstreamSignatures (Security c))) in
    GetVerifyMode (Security c) = if String.eqb v "" then "auto" else v;
  ef_psk : PSKPath (Privacy c) = "" ∨ PSK (Privacy c) = "";
}.

Lemma rate_effective s (except : list string) : s = "" ∨ s ∈ except ∨ is_Some (ParseRate s) →
  (∀ x, x ∈ except → is_Some (ParseRate x)) → ParseRate s = Some (sizeOr 0 (ParseRate s)).
Proof. intros [->|[He|[v Hv]]] Hex; [done|by destruct (Hex s He) as [v ->]|by rewrite Hv]. Qed.

Lemma size_effective f s : checkSize f s = [] → ∃ n, ParseSize s = Some n.
Proof.
  unfold checkSize. intros Hc%check_nil. destruct (String.eqb_spec s "") as [Hs|Hs]; [rewrite Hs; by exists 0|].
  cbn in Hc. by apply negb_false_iff, bool_decide_eq_true in Hc.
Qed.

Lemma mode_effective s : existsb (String.eqb (ToLower (TrimSpace (VerifyUpstreamSignatures s)))) [""; "off"; "warn"; "auto"; "enforce"] = true →
  let v := ToLower (TrimSpace (VerifyUpstreamSignatures s)) in GetVerifyMode s = if String.eqb v "" then "auto" else v.
Proof.
  unfold GetVerifyMode. cbn zeta. generalize (ToLower (TrimSpace (VerifyUpstreamSignatures s))) as v. intros v.
  cbn [existsb]. rewrite !orb_true_iff, !String.eqb_eq. intros [->|[->|[->|[->|[->|?]]]]]; done.
Qed.

Lemma Validate_effective env c : Validate env c = [] → effective env c.
Proof.
  unfold Validate, Validate_network, Validate_transfer, Validate_logging, Validate_fleet, Validate_security.
  rewrite !app_nil, !check_nil.
  intros ((_ & _ & _ & _ & _ & _ & Hlp & Hpp & Hbind & Hcidr%checkList_nil & Hclosed) & Hmax%size_effective & Hmin%size_effective &
    (Hup & Hdown & Hpup & Hpdown & _ & _) & Hpsk & (Hmp & _) & _ & Hfleet & Hmode & _).
  destruct (parseCIDRs_ok _ Hcidr) as (nets & Hnets & Hlen).
  constructor.
  - unfold port_bad in *. blia.
  - apply andb_false_iff in Hbind as [Hb|Hb]; apply negb_false_iff in Hb.
    + cbn in Hb. rewrite !orb_true_iff, !String.eqb_eq in Hb. naive_solver.
    + right. right. by apply bool_decide_eq_true in Hb.
  - exists nets. split; [done|]. split; [done|]. intros ip Hip Hlo ->. unfold isLoopbackBindAddr in Hclosed. rewrite Hip in Hclosed.
    rewrite (proj2 (String.eqb_neq _ "")), (proj2 (String.eqb_neq _ "localhost")) in Hclosed by (intros Hx; rewrite Hx in Hip; vm_compute in Hip; done).
    destruct (IsLoopback ip) eqn:Hl; [by apply Hlo, SecuritySys.IsLoopback_spec|]. cbn in Hlen, Hclosed. blia.
  - split; unfold MaxUploadRateBytes, MaxDownloadRateBytes; eapply rate_effective;
      [eapply checkRate_nil, Hup|set_solver|eapply checkRate_nil, Hdown|set_solver].
  - assert (∀ f s, checkRate f s ["auto"; "0"] = [] → per_peer s (perPeerRate s)) as Hpp'.
    { intros f s Hr%checkRate_nil. unfold per_peer, perPeerRate. destruct (String.eqb_spec s ""); [left; auto|].
      destruct (String.eqb_spec s "auto"); [left; auto|]. right. cbn [orb]. split_and!; [done..|].
      destruct Hr as [?|[Hr|[v Hv]]]; [done| |by rewrite Hv]. assert (s = "0") as -> by set_solver. done. }
    split; eapply Hpp'; eassumption.
  - unfold MinFreeSpaceBytes, MaxSizeBytes. destruct Hmin as [m ->], Hmax as [n ->]. split; [done|]. exists n. split; [done|].
    by destruct (n =? 0).
  - intros Hen. rewrite Hen, !app_nil in Hfleet. destruct Hfleet as (H1' & H2' & H3').
    assert (∀ f s dflt, checkDuration f s = [] → reads s dflt (durationOr dflt s)) as Hd.
    { intros f s dflt Hc%(checkDuration_nil _ _ dflt). unfold reads. destruct (String.eqb_spec s ""); auto. }
    split_and!; eapply Hd; eassumption.
  - apply mode_effective. by apply negb_false_iff.
  - apply andb_false_iff in Hpsk as [Hp|Hp]; apply negb_false_iff, String.eqb_eq in Hp; auto.
Qed.

(** C19: what a configuration that passes validation comes to: its three ports are in
    range; its bind address is empty, localhost or an IP address, and when it is an
    IP address other than a loopback one at least one client network is allowed
    (with an empty one, on which a listener takes every interface, none is asked
    for); every allowed network was parsed; the upload and download rates, also per
    peer (empty and "auto" mean no own limit), the size of the cache (0 or blank
    means 10GB), the free space to keep and, with a fleet, its three durations
    (blank means the default) are what the accessors return, read from the text
    and not replaced because it is malformed; so is the verification mode (blank
    means auto); and a pre-shared key is given in one way only.  Settings that
    validation does not look at, such as metadata_max_size and retry_interval, are
    not part of this. *)
Theorem validated_config env c : Validate env c = [] → effective env c.
Proof. apply Validate_effective. Qed.

(** ** The lists of hosts *)

Definition keys_of (hosts : list string) : list string := List.filter (λ k, negb (String.eqb k "")) (hostKey <$> hosts).

Record merged (hosts seen result : list string) : Prop := {
  mg_result : hostKey <$> result ≡ₚ seen;
  mg_nodup : NoDup seen;
  mg_keys : ∀ k, k ∈ seen ↔ k ∈ keys_of hosts;
  mg_from : ∀ h, h ∈ result → h ∈ hosts;
}.

Lemma elem_of_keys k hosts : k ∈ keys_of hosts ↔ k ≠ "" ∧ ∃ h, h ∈ hosts ∧ hostKey h = k.
Proof.
  unfold keys_of. rewrite !list_elem_of_In, filter_In, <- list_elem_of_In, list_elem_of_fmap, negb_true_iff, String.eqb_neq.
  naive_solver.
Qed.

Lemma addHosts_merged hosts before seen result :
  merged before seen result →
  let '(seen', result') := addHosts hosts seen result in merged (before ++ hosts) seen' result' ∧ result `prefix_of` result'.
Proof.
  revert before seen result. induction hosts as [|h hosts IH]; intros before seen result Hm; cbn [addHosts].
  { rewrite app_nil_r. split; [done|reflexivity]. }
  assert (∀ s r, merged (before ++ [h]) s r → result `prefix_of` r →
    let '(seen', result') := addHosts hosts s r in merged (before ++ h :: hosts) seen' result' ∧ result `prefix_of` result') as Hstep.
  { intros s r Hsr Hpre. specialize (IH (before ++ [h]) s r Hsr). destruct (addHosts hosts s r) as [s' r'].
    rewrite <- app_assoc in IH. destruct IH as [? ?]. split; [done|by etrans]. }
  destruct Hm as [Hr Hn Hk Hf]. destruct (String.eqb_spec (hostKey h) "") as [He|He]; cbn [orb].
  { apply Hstep; [|done]. constructor; [done|done| |set_solver]. intros k. rewrite Hk, !elem_of_keys. set_solver. }
  case_bool_decide as Hseen.
  { apply Hstep; [|done]. constructor; [done|done| |set_solver]. intros k.
    apply Hk, elem_of_keys in Hseen as Hs. rewrite Hk, !elem_of_keys. set_solver. }
  apply Hstep; [|by eexists]. constructor.
  - rewrite fmap_app. cbn [fmap list_fmap]. rewrite Hr. symmetry. apply Permutation_cons_append.
  - by constructor.
  - intros k. rewrite elem_of_cons, Hk, !elem_of_keys. set_solver.
  - set_solver.
Qed.

Lemma merged_nil : merged [] [] [].
Proof. constructor; [done|constructor| |set_solver]. intros k. unfold keys_of. set_solver. Qed.

(** The hosts the proxy permits, and those it fetches over HTTPS: the configured
    ones first, no two that name the same host, and every curated host unless
    they are not trusted. *)
Lemma effective_allowed_hosts p :
  TrustsKnownRepos p = true →
  let l := EffectiveAllowedHosts p in
  NoDup (hostKey <$> l) ∧ (∀ k, k ∈ hostKey <$> l ↔ k ∈ keys_of (AllowedHosts p ++ DefaultTrustedRepos)).
Proof.
  intros Ht. unfold EffectiveAllowedHosts. rewrite Ht. cbn [negb].
  pose proof (addHosts_merged (AllowedHosts p) [] [] [] merged_nil) as Hm. destruct (addHosts _ [] []) as [seen result].
  destruct Hm as [Hm _]. pose proof (addHosts_merged DefaultTrustedRepos _ _ _ Hm) as Hm2.
  destruct (addHosts DefaultTrustedRepos seen result) as [seen' result']. destruct Hm2 as [[Hr Hn Hk _] _]. cbn [snd].
  split; [by rewrite Hr|]. intros k. by rewrite Hr, Hk.
Qed.

(** ** The defaults *)

Lemma default_config_valid env :
  (∀ id, NewMultiaddr env (bootstrapNode id) = true) → Validate env (DefaultConfig env) = [].
Proof.
  intros Hb. unfold Validate, Validate_network, checkList, DefaultConfig. cbn -[bootstrapNode checkSize checkRate checkDuration Validate_transfer Validate_logging Validate_scheduler Validate_fleet Validate_security Itoa].
  rewrite !Hb. vm_compute. reflexivity.
Qed.

(** The cache directory that systemd provides wins over the file and the defaults. *)
Lemma Load_cache_directory env path c :
  CACHE_DIRECTORY env ≠ "" → Load env path = Some c → c_Path (Cache c) = CACHE_DIRECTORY env.
Proof.
  intros Hne. unfold Load. apply String.eqb_neq in Hne. rewrite Hne. cbn [negb].
  destruct (ReadFile env path) as [data|[]]; [|intros [= <-]|done].
  - destruct (Unmarshal env data _) as [c'|]; [|done]. intros [= <-]. done.
  - unfold DefaultConfig. rewrite Hne. done.
Qed.

End config.

(** ** Examples *)
Section examples.
#[local] Existing Instance ascii_only.
#[local] Existing Instance ascii_upper_only.

Definition ex_env : Env :=
  mkEnv "/var/cache/debswarm" None (λ _, Err NotExist) (λ _ c, Some c) (λ _, Some 384) false (λ _, true) (λ _, true) (λ _, true).

Lemma parse_size_witness :
  ParseSize " 10GB" = Some (10 * 2 ^ 30) ∧ ParseSize "8388608TB" = None ∧ ParseSize "9223372036854775807" = Some (2 ^ 63 - 1).
Proof.
  split; [exact (proj1 (parse_size_exact " 10GB") "10" "GB" (2 ^ 30) eq_refl ltac:(discriminate) eq_refl eq_refl eq_refl)|].
  split; [exact (proj1 (parse_size_exact "8388608TB") "8388608" "TB" (2 ^ 40) eq_refl ltac:(discriminate) eq_refl eq_refl eq_refl)|].
  exact (proj1 (parse_size_exact "9223372036854775807") "9223372036854775807" "" 1 eq_refl ltac:(discriminate) eq_refl I eq_refl).
Defined.

(** A server for a local network. *)
Definition lan_config : Config :=
  let c := DefaultConfig ex_env in
  let n := Network c in
  mkConfig
    (mkNetwork 4001 9977 "0.0.0.0" [""; "192.168.1.0/24"] 100 (BootstrapPeers n) "" "" "" None None None "" []
       (RelayLimits n) "" 0)
    (Proxy c) (Cache c) (mkTransfer "10MB/s" "0" 20 10 3 "5m" "1h" "auto" "512KB/s" 10 None "100KB/s" (f_dec 3 2))
    (DHT c) (Privacy c) (Metrics c) (Logging c) (Scheduler c) (Fleet c) (Index c) (mkSecurity " Enforce" "" []).

Lemma validated_config_witness : Validate ex_env lan_config = [] ∧ effective ex_env lan_config.
Proof. split; [vm_compute; reflexivity|]. apply validated_config. vm_compute. reflexivity. Defined.

Example lan_config_effective :
  (MaxUploadRateBytes (Transfer lan_config), PerPeerDownloadRateBytes (Transfer lan_config), GetVerifyMode (Security lan_config),
   length <$> ParsedAllowedCIDRs (Network lan_config)) = (10 * 2 ^ 20, 512 * 2 ^ 10, "enforce", Some 1%nat).
Proof. vm_compute. reflexivity. Qed.

(** Without the network the same bind address is refused. *)
Example lan_needs_clients :
  let n := Network lan_config in let c := lan_config in
  Validate ex_env
    (mkConfig (mkNetwork 4001 9977 "0.0.0.0" [""] 100 (BootstrapPeers n) "" "" "" None None None "" [] (RelayLimits n) "" 0)
       (Proxy c) (Cache c) (Transfer c) (DHT c) (Privacy c) (Metrics c) (Logging c) (Scheduler c) (Fleet c) (Index c) (Security c))
  = ["network.proxy_allowed_cidrs"].
Proof. vm_compute. reflexivity. Qed.

(** Settings that validation does not look at, or only for their syntax: an
    unreadable metadata budget and retry interval become defaults, and intervals
    of no length, with which no ticker can be made, are accepted. *)
Definition careless_config : Config :=
  let c := DefaultConfig ex_env in let k := Cache c in let t := Transfer c in
  mkConfig (Network c) (Proxy c)
    (mkCacheConfig (MaxSize k) (c_Path k) (MinFreeSpace k) None "lots" None)
    (mkTransfer "0" "0" 20 10 3 "soon" "1h" "auto" "auto" 10 None "100KB/s" (AdaptiveMaxBoost t))
    (mkDHT "24h" "0s") (Privacy c) (Metrics c) (Logging c) (Scheduler c) (mkFleet true "" "" 0 "-1s") (Index c) (Security c).

Example careless_config_accepted :
  Validate ex_env careless_config = [] ∧
  MetadataMaxSizeBytes (Cache careless_config) = 2 ^ 30 ∧ RetryIntervalDuration (Transfer careless_config) = 5 * Minute ∧
  AnnounceIntervalDuration (DHT careless_config) = 0 ∧ RefreshIntervalDuration (Fleet careless_config) = - Second.
Proof. vm_compute. done. Qed.

(** An empty bind address counts as loopback, although a listener on it accepts
    connections on every interface. *)
Example empty_bind_is_every_interface :
  isLoopbackBindAddr "" = true ∧ JoinHostPort "" "9977" = ":9977".
Proof. done. Qed.

Example default_hosts :
  EffectiveAllowedHosts (mkProxy ["Download.Docker.com "; ""; "apt.example.org"; "APT.example.org"] None [])
  = ["Download.Docker.com "; "apt.example.org"] ++
    List.filter (λ h, negb (String.eqb h "download.docker.com")) DefaultTrustedRepos.
Proof. vm_compute. reflexivity. Qed.
End examples.
End ConfigSys.
