(* ===== verification/Proxy.v ===== *)
(** * internal/proxy: classifying requests and verifying indexes

    The classification of requests and of index URLs (server.go), and verify.go:
    the store of signature-verified Releases and the policy that decides whether
    an index is loaded and served.  The state is the part of the [Server] struct
    the metadata handlers use; logging and metrics are left out.  Requests are
    taken one at a time: singleflight then runs its function once per call, and
    [sync.Map] is a map. *)

From S2P Require Import Prelude GoStd GoText GoNet GoNum HashUtil Sql Cache MetaCache Security PkgIndex Release Retry Mirror Support.
From Stdlib Require Import Ascii.
Open Scope Z_scope.
Open Scope go_scope.

Module Proxy.
Import MetaCache Release Gpg.

(** ** URLs of indexes and Releases *)

(** The part up to and including [/dists/<suite>/]; empty without one. *)
Definition distBaseURL (rawURL : string) : string :=
  match GoStd.Index rawURL "/dists/" with
  | None => ""
  | Some i =>
      let rest := str_drop (i + 7) rawURL in
      match GoStd.Index rest "/" with
      | None => ""
      | Some s => str_take (i + 7 + s + 1) rawURL
      end
  end.

Definition flatBaseURL (rawURL : string) : string :=
  match GoStd.Index rawURL "/by-hash/" with
  | Some j => str_take (j + 1) rawURL
  | None => match LastIndexByte slash rawURL with Some i => str_take (i + 1) rawURL | None => "" end
  end.

Definition verificationBaseURL (rawURL : string) : string :=
  let d := distBaseURL rawURL in if String.eqb d "" then flatBaseURL rawURL else d.

Definition TrimPrefix (s p : string) : string := if HasPrefix s p then str_drop (String.length p) s else s.

Section urls.
Context `{GoUnicode}.

Definition byHashDigest (rawURL : string) : string :=
  match GoStd.Index rawURL "/by-hash/SHA256/" with
  | None => ""
  | Some i => ToLower (str_drop (i + 16) rawURL)
  end.

Definition isFlatByHash (lower : string) : bool :=
  negb (Contains lower "/dists/") && negb (Contains lower "/i18n/") && negb (Contains lower "/cnf/")
  && negb (Contains lower "/dep11/").

Definition isSourceArtifactURL (lower : string) : bool :=
  if HasSuffix lower ".dsc" || HasSuffix lower ".diff.gz" || Contains lower ".orig.tar." || Contains lower ".debian.tar."
  then true
  else if Contains lower ".orig-" && Contains lower ".tar." then true
  else Contains lower "/pool/"
       && existsb (HasSuffix lower) [".tar.gz"; ".tar.xz"; ".tar.bz2"; ".tar.lz"; ".tar.zst"].

Definition isPackagesIndexURL (url : string) : bool :=
  let lower := ToLower url in
  if Contains lower "/packages" && negb (Contains lower "/translation") then true
  else Contains lower "/by-hash/" && (Contains lower "/binary-" || isFlatByHash lower).

Definition isSourcesIndexURL (url : string) : bool :=
  let lower := ToLower url in
  if Contains lower "/pool/" then false
  else if negb (Contains lower "/source/") then false
  else Contains lower "/sources" || Contains lower "/by-hash/".

Definition isVerifiableIndexURL (url : string) : bool := isPackagesIndexURL url || isSourcesIndexURL url.

Inductive requestType := requestTypeUnknown | requestTypePackage | requestTypeIndex | requestTypeRelease.

Definition classifyRequest (url : string) : requestType :=
  let lower := ToLower url in
  if HasSuffix lower ".deb" || HasSuffix lower ".udeb" || HasSuffix lower ".ddeb" then requestTypePackage
  else if isSourceArtifactURL lower then requestTypePackage
  else if Contains lower "/packages" || Contains lower "/sources" then requestTypeIndex
  else if Contains lower "/by-hash/" && (Contains lower "/binary-" || Contains lower "/source/" || isFlatByHash lower)
  then requestTypeIndex
  else if Contains lower "/release" || Contains lower "/inrelease" then requestTypeRelease
  else requestTypeUnknown.

(** [r.URL] of a request: its host, its path and [r.URL.String()]. *)
Definition extractTargetURL (host path whole : string) (allowedHosts : list string) : string * bool :=
  let allowed u := (u, Security.IsAllowedMirrorURLWithHosts u allowedHosts) in
  if negb (String.eqb host "") then allowed whole
  else
    let path := TrimPrefix path "/" in
    if HasPrefix path "http://" || HasPrefix path "https://" then allowed path
    else if Contains path "/" then allowed ("http://" +:+ path)
    else ("", false).
End urls.

(** ** The server *)

(** A request to a mirror: its URL, whether the scheme is upgraded to HTTPS, and
    the revalidation headers. *)
Record Request := mkRequest { q_url : string; q_https : bool; q_ims : string; q_inm : string }.

(** What the surroundings do at each step of a run: the cache's storage, the
    mirrors, the clock, the names of temporary files, whether a file can be read
    to its end, how the client and the temporary file take what is written, and
    how a response body arrives. *)
Record Env := mkEnv {
  e_io : nat → Cache.IO;
  e_upstream : nat → Request → option Mirror.Response;
  e_now : nat → Z;
  e_rand : nat → string;
  e_readable : nat → bool;
  e_client : nat → Sink;
  e_file : nat → Sink;
  e_reads : string → list string;
}.

Section server.
Context `{GoUnicode, GoTime, OpenPGP, Sha256, SqlOrder, Decompressors}.

Record Config := mkConfig {
  verifyMode : string;
  keyring : option (list Entity);
  verifyExempt : list string;
  metadataServeStale : bool;
  httpsUpstreamHosts : list string;
}.

(** [cache] is [None] for a nil cache, [connectivity] for a nil monitor. *)
Record Server := mkServer {
  cache : option Meta;
  index : PkgIndex.Index;
  fetcher : Mirror.Fetcher;
  connectivity : option Connectivity.Mode;
  releaseStore : gmap string Release.Release;
  releaseFetchFailed : gmap string Z;
  staleHostsSeen : gset string;
  metadataHits : Z; metadataMisses : Z; metadataBytesSaved : Z; requestsMirror : Z; bytesFromMirror : Z;
  steps : nat;
}.

Definition set_cache m s := mkServer m (index s) (fetcher s) (connectivity s) (releaseStore s) (releaseFetchFailed s)
  (staleHostsSeen s) (metadataHits s) (metadataMisses s) (metadataBytesSaved s) (requestsMirror s) (bytesFromMirror s) (steps s).
Definition set_index x s := mkServer (cache s) x (fetcher s) (connectivity s) (releaseStore s) (releaseFetchFailed s)
  (staleHostsSeen s) (metadataHits s) (metadataMisses s) (metadataBytesSaved s) (requestsMirror s) (bytesFromMirror s) (steps s).
Definition set_fetcher f s := mkServer (cache s) (index s) f (connectivity s) (releaseStore s) (releaseFetchFailed s)
  (staleHostsSeen s) (metadataHits s) (metadataMisses s) (metadataBytesSaved s) (requestsMirror s) (bytesFromMirror s) (steps s).
Definition set_store m s := mkServer (cache s) (index s) (fetcher s) (connectivity s) m (releaseFetchFailed s)
  (staleHostsSeen s) (metadataHits s) (metadataMisses s) (metadataBytesSaved s) (requestsMirror s) (bytesFromMirror s) (steps s).
Definition set_failed m s := mkServer (cache s) (index s) (fetcher s) (connectivity s) (releaseStore s) m
  (staleHostsSeen s) (metadataHits s) (metadataMisses s) (metadataBytesSaved s) (requestsMirror s) (bytesFromMirror s) (steps s).
Definition set_stale m s := mkServer (cache s) (index s) (fetcher s) (connectivity s) (releaseStore s) (releaseFetchFailed s)
  m (metadataHits s) (metadataMisses s) (metadataBytesSaved s) (requestsMirror s) (bytesFromMirror s) (steps s).
Definition set_counters h mi b r by_ s := mkServer (cache s) (index s) (fetcher s) (connectivity s) (releaseStore s)
  (releaseFetchFailed s) (staleHostsSeen s) h mi b r by_ (steps s).
Definition tick s := mkServer (cache s) (index s) (fetcher s) (connectivity s) (releaseStore s) (releaseFetchFailed s)
  (staleHostsSeen s) (metadataHits s) (metadataMisses s) (metadataBytesSaved s) (requestsMirror s) (bytesFromMirror s) (S (steps s)).

Definition set_connectivity m s := mkServer (cache s) (index s) (fetcher s) m (releaseStore s) (releaseFetchFailed s)
  (staleHostsSeen s) (metadataHits s) (metadataMisses s) (metadataBytesSaved s) (requestsMirror s) (bytesFromMirror s) (steps s).

Context (env : Env) (cfg : Config).

(** ** Calls of the cache and the fetcher *)

Definition caching (s : Server) : bool := match cache s with Some m => MetadataEnabled m | None => false end.

Definition getMetadata (url : string) (s : Server) : option (MetadataEntry * stream) * Server :=
  match cache s with
  | None => (None, s)
  | Some m =>
      let '(r, m) := GetMetadata (e_io env (steps s)) url m in
      (match r with Ok (entry, body) => Some (entry, (body, e_readable env (steps s))) | Err _ => None end,
       tick (set_cache (Some m) s))
  end.

Definition isHTTPSUpstreamHost (host : string) : bool :=
  let host := ToLower (TrimSpace host) in
  if String.eqb host "" then false
  else existsb (λ h, let h := ToLower (TrimSpace h) in
                     negb (String.eqb h "") && (String.eqb host h || HasSuffix host ("." +:+ h))) (httpsUpstreamHosts cfg).

(** Whether [upstreamFetchURL] changes the scheme. *)
Definition upgrades (rawURL : string) : bool :=
  match httpsUpstreamHosts cfg with
  | [] => false
  | _ => match url_Parse rawURL with
         | Some u => String.eqb (u_Scheme u) "http" && isHTTPSUpstreamHost (Hostname u)
         | None => false
         end
  end.

Definition net_of (url ims inm : string) : Mirror.net :=
  Mirror.mkNet (λ n _, e_upstream env n (mkRequest url (upgrades url) ims inm)) (e_now env).

Definition fetchMetadataBytes (rawURL : string) (s : Server) : option string * Server :=
  let '(r, f) := Mirror.Stream (net_of rawURL "" "") rawURL (steps s) (fetcher s) in
  let s := tick (set_fetcher f s) in
  match r with
  | Err _ => (None, s)
  | Ok (body, _) =>
      let limit := Mirror.maxResponseSize (fetcher s) in
      let data := LimitReader body (limit + 1) in
      (if negb data.2 || (limit <? Z.of_nat (String.length data.1)) then None else Some data.1, s)
  end.

Definition readCachedMetadataBody (rawURL : string) (s : Server) : option string * Server :=
  let '(r, s) := getMetadata rawURL s in
  match r with
  | None => (None, s)
  | Some (entry, rc) => let data := LimitReader rc (m_Size entry) in (if data.2 then Some data.1 else None, s)
  end.

(** ** Signed Releases *)

Definition verifiedInRelease (body : option string) : option Release.Release :=
  match body with
  | None => None
  | Some body =>
      match VerifyClearsigned body (keyring cfg) with
      | Err _ => None
      | Ok verified => match Parse verified with Ok rel => Some rel | Err _ => None end
      end
  end.

Definition verifiedDetachedRelease (body sig : option string) : option Release.Release :=
  match body, sig with
  | Some body, Some sig =>
      match VerifyDetached body sig (keyring cfg) with
      | Err _ => None
      | Ok _ => match Parse body with Ok rel => Some rel | Err _ => None end
      end
  | _, _ => None
  end.

Definition store_put (base : string) (r : Release.Release) (s : Server) : Server := set_store (<[base := r]> (releaseStore s)) s.
Definition store_invalidate (base : string) (s : Server) : Server := set_store (delete base (releaseStore s)) s.

Definition releaseFetchRetryTTL : Z := 30 * GoNum.Second.

Definition recently_failed (base : string) (s : Server) : bool :=
  match releaseFetchFailed s !! base with
  | Some t => e_now env (steps s) - t <? releaseFetchRetryTTL
  | None => false
  end.

Definition fetchReleaseOnDemand (base : string) (s : Server) : option Release.Release * Server :=
  if recently_failed base s then (None, s)
  else
    match releaseStore s !! base with
    | Some r => (Some r, s)
    | None =>
        let found rel s := (Some rel, set_failed (delete base (releaseFetchFailed s)) (store_put base rel s)) in
        let '(b, s) := fetchMetadataBytes (base +:+ "InRelease") s in
        match verifiedInRelease b with
        | Some rel => found rel s
        | None =>
            let '(body, s) := fetchMetadataBytes (base +:+ "Release") s in
            let '(sig, s) := fetchMetadataBytes (base +:+ "Release.gpg") s in
            match verifiedDetachedRelease body sig with
            | Some rel => found rel s
            | None => (None, set_failed (<[base := e_now env (steps s)]> (releaseFetchFailed s)) s)
            end
        end
    end.

(** The Release from the metadata cache. *)
Definition cachedRelease (base : string) (s : Server) : option Release.Release * Server :=
  if caching s then
    let '(b, s) := readCachedMetadataBody (base +:+ "InRelease") s in
    match verifiedInRelease b with
    | Some rel => (Some rel, store_put base rel s)
    | None =>
        let '(body, s) := readCachedMetadataBody (base +:+ "Release") s in
        let '(sig, s) := readCachedMetadataBody (base +:+ "Release.gpg") s in
        match verifiedDetachedRelease body sig with
        | Some rel => (Some rel, store_put base rel s)
        | None => (None, s)
        end
    end
  else (None, s).

Definition obtainRelease (base : string) (s : Server) : option Release.Release * Server :=
  match releaseStore s !! base with
  | Some r => (Some r, s)
  | None =>
      match cachedRelease base s with
      | (Some rel, s) => (Some rel, s)
      | (None, s) => if String.eqb (verifyMode cfg) "enforce" then fetchReleaseOnDemand base s else (None, s)
      end
  end.

(** ** The policy *)

Definition verificationEnabled : bool := existsb (String.eqb (verifyMode cfg)) ["warn"; "auto"; "enforce"].

Inductive Reason := NoKey | NoDist | NoRelease | NotListed | HashMismatch.

(** The text of a reason, as in the X-Debswarm-Unverified header. *)
Definition reason_text (r : Reason) : string :=
  match r with
  | NoKey => "no-key" | NoDist => "no-dist" | NoRelease => "no-release" | NotListed => "not-listed"
  | HashMismatch => "hash-mismatch"
  end.

Definition modeRefuses (r : Reason) : bool :=
  if String.eqb (verifyMode cfg) "enforce" then true
  else if String.eqb (verifyMode cfg) "auto" then match r with HashMismatch | NotListed => true | _ => false end
  else false.

(** The exempt hosts of the configuration, as [NewServer] keeps them. *)
Definition exemptHosts (hosts : list string) : list string :=
  List.filter (λ h, negb (String.eqb h "")) ((λ h, TrimSpace (ToLower h)) <$> hosts).

Definition isExemptHost (rawURL : string) : bool :=
  match url_Parse rawURL with
  | Some u => existsb (String.eqb (ToLower (Hostname u))) (verifyExempt cfg)
  | None => false
  end.

(** What the verified Release says of a body. *)
Definition vouches (rel : Release.Release) (rawURL base data : string) : option Reason :=
  let digest := byHashDigest rawURL in
  if negb (String.eqb digest "") then if HasHash digest rel then None else Some HashMismatch
  else
    match Release.SHA256 rel !! TrimPrefix rawURL base with
    | None => Some NotListed
    | Some fh => if String.eqb (HashBytes data) (fh_SHA256 fh) then None else Some HashMismatch
    end.

(** [None] when the index is verified, else the reason it is not. *)
Definition verifyIndex (rawURL data : string) (s : Server) : option Reason * Server :=
  if Empty (keyring cfg) then (Some NoKey, s)
  else
    let base := verificationBaseURL rawURL in
    if String.eqb base "" then (Some NoDist, s)
    else
      match obtainRelease base s with
      | (None, s) => (Some NoRelease, s)
      | (Some rel, s) => (vouches rel rawURL base data, s)
      end.

(** Whether the index may be loaded and served, and the reason to flag it with. *)
Definition checkIndexVerification (rawURL data : string) (s : Server) : bool * option Reason * Server :=
  if negb verificationEnabled || negb (isVerifiableIndexURL rawURL) then (true, None, s)
  else
    match verifyIndex rawURL data s with
    | (None, s) => (true, None, s)
    | (Some reason, s) =>
        if modeRefuses reason && negb (isExemptHost rawURL) then (false, None, s) else (true, Some reason, s)
    end.

(** [loadIndexInto]; a parse error is only logged. *)
Definition loadIndexInto (url data : string) (s : Server) : Server :=
  if isPackagesIndexURL url then set_index (PkgIndex.LoadFromData data url (index s)).1 s
  else if isSourcesIndexURL url then set_index (PkgIndex.LoadSourcesFromData data url (index s)).1 s
  else s.
End server.
End Proxy.
