(* ===== verification/ProxyMeta.v ===== *)
(** * internal/proxy/server.go: serving repository metadata

    Release, index and other metadata requests: conditional fetches from the
    mirror, the metadata cache, stale copies when the mirror is unreachable, the
    verification of indexes before they are loaded, and the response the client
    gets. *)

From S2P Require Import Prelude GoStd GoText GoNet GoNum HashUtil Sql Cache MetaCache Security PkgIndex Release Retry Mirror Support Proxy.
From Stdlib Require Import Ascii.
Open Scope Z_scope.
Open Scope go_scope.

Module ProxyMeta.
Import MetaCache Release Gpg Proxy.

(** ** The response *)

(** Headers set, status once it is written, and the body the client took.
    [w_panic]: the handler panicked and the connection is dropped. *)
Record Writer := mkW { w_header : gmap string string; w_status : option Z; w_body : string; w_panic : bool }.

Definition new_writer : Writer := mkW ∅ None "" false.

Definition Set_ (k v : string) (w : Writer) : Writer := mkW (<[k := v]> (w_header w)) (w_status w) (w_body w) (w_panic w).
Definition Set_if (k v : string) (w : Writer) : Writer := if String.eqb v "" then w else Set_ k v w.

Definition WriteHeader (code : Z) (w : Writer) : Writer :=
  match w_status w with Some _ => w | None => mkW (w_header w) (Some code) (w_body w) (w_panic w) end.

Definition Write (sink : Sink) (p : string) (w : Writer) : Writer * nat * bool :=
  let '(taken, ok) := sink_write sink p in
  let w := WriteHeader 200 w in
  (mkW (w_header w) (w_status w) (w_body w +:+ taken) (w_panic w), String.length taken, ok).

(** [http.Error]. *)
Definition Error (sink : Sink) (msg : string) (code : Z) (w : Writer) : Writer :=
  let w := mkW (delete "Content-Length" (w_header w)) (w_status w) (w_body w) (w_panic w) in
  let w := Set_ "X-Content-Type-Options" "nosniff" (Set_ "Content-Type" "text/plain; charset=utf-8" w) in
  (Write sink (msg +:+ String LF "") (WriteHeader code w)).1.1.

Definition panic (w : Writer) : Writer := mkW (w_header w) (w_status w) (w_body w) true.

(** The client's conditional headers. *)
Record Client := mkClient { If_None_Match : string; If_Modified_Since : string }.

Definition clientHasCurrent (r : Client) (entry : MetadataEntry) : bool :=
  (negb (String.eqb (If_None_Match r) "") && negb (String.eqb (m_ETag entry) "")
   && (String.eqb (If_None_Match r) "*" || String.eqb (If_None_Match r) (m_ETag entry)))
  || (negb (String.eqb (If_Modified_Since r) "") && negb (String.eqb (m_LastModified entry) "")
      && String.eqb (If_Modified_Since r) (m_LastModified entry)).

Definition relayValidators (cond : Mirror.ConditionalResult) (w : Writer) : Writer :=
  Set_if "ETag" (Mirror.cond_ETag cond) (Set_if "Last-Modified" (Mirror.cond_LastModified cond) w).

Definition setValidatorHeaders (entry : MetadataEntry) (w : Writer) : Writer :=
  Set_if "ETag" (m_ETag entry) (Set_if "Last-Modified" (m_LastModified entry) w).

Definition flag_header (reason : option Reason) (w : Writer) : Writer :=
  match reason with Some r => Set_ "X-Debswarm-Unverified" (reason_text r) w | None => w end.

Section serve.
Context `{GoUnicode, GoTime, OpenPGP, Sha256, SqlOrder, Decompressors}.
Context (env : Env) (cfg : Config).

Definition http_Error (msg : string) (code : Z) (s : Server) (w : Writer) : Writer :=
  Error (e_client env (steps s)) msg code w.

Definition respond (code : Z) (body : string) (s : Server) (w : Writer) : Writer :=
  (Write (e_client env (steps s)) body (WriteHeader code w)).1.1.

Definition count_hit (n : Z) (s : Server) : Server :=
  set_counters (metadataHits s +₆₄ 1) (metadataMisses s) (metadataBytesSaved s +₆₄ n) (requestsMirror s) (bytesFromMirror s) s.
Definition count_miss (s : Server) : Server :=
  set_counters (metadataHits s) (metadataMisses s +₆₄ 1) (metadataBytesSaved s) (requestsMirror s) (bytesFromMirror s) s.
Definition count_mirror (n : Z) (s : Server) : Server :=
  set_counters (metadataHits s) (metadataMisses s) (metadataBytesSaved s) (requestsMirror s +₆₄ 1) (bytesFromMirror s +₆₄ n) s.

Definition noteStaleServe (rawURL : string) (s : Server) : Server :=
  let host := match url_Parse rawURL with
              | Some u => if String.eqb (u_Host u) "" then rawURL else u_Host u
              | None => rawURL
              end in
  set_stale ({[host]} ∪ staleHostsSeen s) s.

(** ** Storing a body *)

Definition storeMetadata (url data etag lastModified contentType : string) (s : Server) : Server :=
  match cache s with
  | None => s
  | Some m =>
      match NewMetadataWriter (e_io env (steps s)) (e_rand env (steps s)) url etag lastModified contentType m with
      | (Err _, m) => tick (set_cache (Some m) s)
      | (Ok mw, m) =>
          let '(mw, m, _, ok) := mw_Write (e_file env (steps s)) data mw m in
          let m := if ok then (Commit (e_io env (S (steps s))) mw m).2 else (Abort (e_io env (S (steps s))) mw m).2 in
          tick (tick (set_cache (Some m) s))
      end
  end.

(** [io.Copy] of a body that arrives in pieces to the client and, when there is a
    writer, to the cache; the [i]-th piece of the request. *)
Fixpoint copyBody (pieces : list string) (body_ok : bool) (i : nat) (w : Writer) (mw : option MetadataWriter) (m : Meta) (n : Z)
  : Writer * option MetadataWriter * Meta * Z * bool :=
  match pieces with
  | [] => (w, mw, m, n, body_ok)
  | p :: rest =>
      let '(w, k, ok) := Write (e_client env i) p w in
      if negb ok then (w, mw, m, n + Z.of_nat k, false)
      else
        match mw with
        | None => copyBody rest body_ok (S i) w None m (n + Z.of_nat k)
        | Some mw =>
            let '(mw, m, k, ok) := mw_Write (e_file env i) p mw m in
            if negb ok || negb (k =? String.length p)%nat then (w, Some mw, m, n + Z.of_nat k, false)
            else copyBody rest body_ok (S i) w (Some mw) m (n + Z.of_nat k)
        end
  end.

Definition finishCopy (io : Cache.IO) (ok : bool) (mw : option MetadataWriter) (m : Meta) : Meta :=
  match mw with
  | None => m
  | Some mw => if ok then (Commit io mw m).2 else (Abort io mw m).2
  end.

(** ** A body from the mirror *)

Definition serveFreshIndex (url : string) (cond : Mirror.ConditionalResult) (body : stream) (caching : bool)
    (w : Writer) (s : Server) : Writer * Server :=
  let max := Mirror.maxResponseSize (fetcher s) in
  let data := LimitReader body (max + 1) in
  if negb data.2 then (http_Error "Failed to fetch index" 502 s w, s)
  else
    let data := data.1 in
    if max <? Z.of_nat (String.length data) then (http_Error "Index too large" 502 s w, s)
    else
      let '(allowed, flag, s) := checkIndexVerification env cfg url data s in
      let w := flag_header flag w in
      if negb allowed then (http_Error "index failed upstream signature verification" 502 s w, s)
      else
        let s := if isVerifiableIndexURL url then loadIndexInto url data s else s in
        let s := if caching
                 then storeMetadata url data (Mirror.cond_ETag cond) (Mirror.cond_LastModified cond) "application/octet-stream" s
                 else s in
        let w := Set_ "Content-Length" (Itoa (Z.of_nat (String.length data)))
                   (Set_ "Content-Type" "application/octet-stream" w) in
        (respond 200 data s (relayValidators cond w), s).

Definition serveFreshStream (url : string) (cond : Mirror.ConditionalResult) (body : stream) (caching : bool)
    (w : Writer) (s : Server) : Writer * Server :=
  let w := relayValidators cond w in
  let w := if 0 <=? Mirror.cond_Size cond then Set_ "Content-Length" (Itoa (Mirror.cond_Size cond)) w else w in
  let w := WriteHeader 200 w in
  let pieces := e_reads env body.1 in
  let after n s := count_mirror n (tick (tick s)) in
  match cache s with
  | Some m =>
      let '(mw, m) :=
        if caching then
          match NewMetadataWriter (e_io env (steps s)) (e_rand env (steps s)) url (Mirror.cond_ETag cond)
                  (Mirror.cond_LastModified cond) "" m with
          | (Ok mw, m) => (Some mw, m)
          | (Err _, m) => (None, m)
          end
        else (None, m) in
      let '(w, mw, m, n, ok) := copyBody pieces body.2 0 w mw m 0 in
      (w, after n (set_cache (Some (finishCopy (e_io env (S (steps s))) ok mw m)) s))
  | None =>
      let '(w, _, _, n, _) := copyBody pieces body.2 0 w None (mkMeta "" 0 0 ∅ ∅ 0) 0 in (w, after n s)
  end.

Definition serveFreshBody (url : string) (isIndex : bool) (cond : Mirror.ConditionalResult) (caching : bool)
    (w : Writer) (s : Server) : Writer * Server :=
  let s := count_miss s in
  match Mirror.cond_Body cond with
  | None => (panic w, s)
  | Some body =>
      if isIndex then serveFreshIndex url cond body caching w s else serveFreshStream url cond body caching w s
  end.

(** ** A body from the cache *)

Definition serveCachedMetadata (r : Client) (url : string) (isIndex : bool) (entry : MetadataEntry) (rc : stream) (stale : bool)
    (w : Writer) (s : Server) : Writer * Server :=
  let s := count_hit (m_Size entry) s in
  let '(w, s) := if stale then (Set_ "X-Debswarm-Stale" "true" w, noteStaleServe url s) else (w, s) in
  let warmIndex := isIndex && isVerifiableIndexURL url && negb (PkgIndex.HasIndexFile url (index s)) in
  let clientHas := clientHasCurrent r entry in
  if clientHas && negb warmIndex then (WriteHeader 304 (setValidatorHeaders entry w), s)
  else if isIndex then
    if negb rc.2 then (http_Error "Failed to read cached index" 502 s w, s)
    else
      let data := rc.1 in
      let '(w, s) :=
        if warmIndex then
          let '(allowed, flag, s) := checkIndexVerification env cfg url data s in
          (flag_header flag w, if allowed then loadIndexInto url data s else s)
        else (w, s) in
      if clientHas then (WriteHeader 304 (setValidatorHeaders entry w), s)
      else
        let w := Set_ "Content-Length" (Itoa (Z.of_nat (String.length data)))
                   (Set_ "Content-Type" "application/octet-stream" w) in
        (respond 200 data s (setValidatorHeaders entry w), s)
  else
    let w := Set_ "Content-Length" (Itoa (m_Size entry)) (Set_if "Content-Type" (m_ContentType entry) w) in
    (respond 200 rc.1 s (setValidatorHeaders entry w), s).

(** ** Requests *)

Definition streamConditional (url ims inm : string) (s : Server) : res Retry.error Mirror.ConditionalResult * Server :=
  let '(r, f) := Mirror.StreamConditional (net_of env cfg url ims inm) url (steps s) (fetcher s) in
  (r, tick (set_fetcher f s)).

Definition fetchFreshMetadata (url : string) (isIndex : bool) (w : Writer) (s : Server) : Writer * Server :=
  match streamConditional url "" "" s with
  | (Err _, s) => (http_Error "Failed to fetch" 502 s w, s)
  | (Ok cond, s) =>
      if Mirror.NotModified cond then (WriteHeader 304 (relayValidators cond w), s)
      else serveFreshBody url isIndex cond (caching s) w s
  end.

Definition metadataValidators (url : string) (s : Server) : option (string * string) * Server :=
  match cache s with
  | Some m => if caching s then (MetadataValidators (e_io env (steps s)) m url, tick s) else (None, s)
  | None => (None, s)
  end.

Definition revalidateMetadata (url etag lastModified : string) (s : Server) : Server :=
  match cache s with
  | Some m => tick (set_cache (Some (RevalidateMetadata (e_io env (steps s)) url etag lastModified m)) s)
  | None => s
  end.

Definition isOffline (s : Server) : bool := match connectivity s with Some Connectivity.ModeOffline => true | _ => false end.

(** Serve the cached copy if there is one, else go on. *)
Definition cachedOr (r : Client) (url : string) (isIndex stale : bool) (w : Writer) (s : Server)
    (otherwise : Server → Writer * Server) : Writer * Server :=
  match getMetadata env url s with
  | (Some (entry, rc), s) => serveCachedMetadata r url isIndex entry rc stale w s
  | (None, s) => otherwise s
  end.

(** The conditional request, and what its answer leads to. *)
Definition serveUpstream (r : Client) (url : string) (isIndex cach staleOK : bool) (w : Writer) (s : Server) : Writer * Server :=
  let '(v, s) := metadataValidators url s in
  let '(inm, ims, haveCache) :=
    match v with
    | Some (et, lm) => (et, lm, true)
    | None => if negb isIndex || PkgIndex.HasIndexFile url (index s)
              then (If_None_Match r, If_Modified_Since r, false) else ("", "", false)
    end in
  match streamConditional url ims inm s with
  | (Err _, s) =>
      let failed s := (http_Error "Failed to fetch" 502 s w, s) in
      if staleOK then cachedOr r url isIndex true w s failed else failed s
  | (Ok cond, s) =>
      if Mirror.NotModified cond then
        if haveCache then
          let s := revalidateMetadata url (Mirror.cond_ETag cond) (Mirror.cond_LastModified cond) s in
          cachedOr r url isIndex false w s (fetchFreshMetadata url isIndex w)
        else (WriteHeader 304 (relayValidators cond w), s)
      else serveFreshBody url isIndex cond cach w s
  end.

(** The two ways to serve from the cache without asking the mirror come first. *)
Definition serveMetadata (r : Client) (url : string) (isIndex : bool) (w : Writer) (s : Server) : Writer * Server :=
  let cach := caching s in
  let staleOK := cach && metadataServeStale cfg in
  let upstream s := serveUpstream r url isIndex cach staleOK w s in
  let offline s := if staleOK && isOffline s then cachedOr r url isIndex true w s upstream else upstream s in
  if cach then
    match IsImmutableMetadataURL url with
    | Err _ => (panic w, s)
    | Ok true => cachedOr r url isIndex false w s offline
    | Ok false => offline s
    end
  else offline s.

Definition handleIndexRequest (r : Client) (url : string) (w : Writer) (s : Server) : Writer * Server :=
  serveMetadata r url true w s.

Definition handlePassthrough (r : Client) (url : string) (w : Writer) (s : Server) : Writer * Server :=
  serveMetadata r url false w s.

Definition handleReleaseRequest (r : Client) (url : string) (w : Writer) (s : Server) : Writer * Server :=
  let s := if verificationEnabled cfg then
             let base := verificationBaseURL url in if String.eqb base "" then s else store_invalidate base s
           else s in
  handlePassthrough r url w s.

(** The metadata arms of [handleRequest]; packages are another handler's. *)
Definition handleMetadata (r : Client) (url : string) (w : Writer) (s : Server) : option (Writer * Server) :=
  match classifyRequest url with
  | requestTypePackage => None
  | requestTypeIndex => Some (handleIndexRequest r url w s)
  | requestTypeRelease => Some (handleReleaseRequest r url w s)
  | requestTypeUnknown => Some (handlePassthrough r url w s)
  end.

(** ** Warming the index from the cache *)

Definition warm_one (url : string) (s : Server) : Server :=
  if negb (isVerifiableIndexURL url) || PkgIndex.HasIndexFile url (index s) then s
  else
    let '(data, s) := readCachedMetadataBody env url s in
    match data with
    | None => s
    | Some data =>
        let '(allowed, _, s) := checkIndexVerification env cfg url data s in
        if allowed then loadIndexInto url data s else s
    end.

Definition warmIndexFromCache (s : Server) : Server :=
  match cache s with
  | Some m =>
      if MetadataEnabled m then
        match ListMetadataURLs (e_io env (steps s)) m with
        | Err _ => tick s
        | Ok urls => foldl (λ s u, warm_one u s) (tick s) urls
        end
      else s
  | None => s
  end.
End serve.
End ProxyMeta.
