(* ===== verification/ProxySys.v ===== *)
(** * Properties of the metadata proxy

    Which index bytes reach the in-memory index and the client in each
    verification mode, when a client is told that its copy is current, and what is
    served when no mirror can be reached. *)

From S2P Require Import Prelude GoStd GoText GoNet GoNum HashUtil Sql Cache MetaCache Security PkgIndex PkgIndexSys.
From S2P Require Import AptLocal AptLocalSys Release Retry Mirror Proxy ProxyMeta.
From Stdlib Require Import Ascii.
Open Scope Z_scope.
Open Scope go_scope.

Module ProxySys.
Import MetaCache Release Gpg Proxy ProxyMeta.

(** ** What a Release says of an index body

    Stated on the text of the Release and on the parts of the URL, independently of
    the check. *)

(** [s] is [pre], [marker] and [post], and [marker] occurs nowhere earlier. *)
Definition first_at (marker s pre post : string) : Prop :=
  s = pre +:+ marker +:+ post ∧
  ∀ pre' post', s = pre' +:+ marker +:+ post' → (String.length pre <= String.length pre')%nat.

Definition absent (marker s : string) : Prop := ∀ pre post, s ≠ pre +:+ marker +:+ post.

(** Under what a Release lists the index at a URL: the digest of its content, which
    the URL ends in, or its path below the root of the repository, which is
    [.../dists/<suite>/] or, without one, the directory of the file. *)
Inductive Key := Digest (d : string) | Path (p : string).

Definition no_digest (url : string) : Prop := ∀ pre d, url = pre +:+ "/by-hash/SHA256/" +:+ d → d = "".

Definition dist_split (url pre suite path : string) : Prop :=
  first_at "/dists/" url pre (suite +:+ "/" +:+ path) ∧ str_no slash suite = true.

Inductive filed (url : string) : Key → Prop :=
| filed_digest pre d : first_at "/by-hash/SHA256/" url pre d → d ≠ "" → filed url (Digest d)
| filed_dist pre suite path : no_digest url → dist_split url pre suite path → filed url (Path path)
| filed_flat root path :
    no_digest url → (∀ pre suite p, ¬ dist_split url pre suite p) → absent "/by-hash/" url →
    url = root +:+ "/" +:+ path → str_no slash path = true → filed url (Path path)
| filed_flat_by_hash root path :
    no_digest url → (∀ pre suite p, ¬ dist_split url pre suite p) →
    first_at "/by-hash/" url root path → filed url (Path ("by-hash/" +:+ path)).

Lemma HasPrefix_split s p : HasPrefix s p = true → s = p +:+ str_drop (String.length p) s.
Proof.
  revert s. induction p as [|a p IH]; intros s; [done|]. destruct s as [|b s]; cbn; [done|].
  destruct (ascii_dec a b) as [->|]; [|done]. intros Hs. f_equal. by apply IH.
Qed.

Lemma HasPrefix_app_l p r : HasPrefix (p +:+ r) p = true.
Proof. induction p as [|a p IH]; [by destruct r|]. cbn. destruct (ascii_dec a a); [apply IH|done]. Qed.

Lemma Index_first s p i : GoStd.Index s p = Some i → first_at p s (str_take i s) (str_drop (i + String.length p) s).
Proof.
  revert i. induction s as [|a s IH]; intros i; cbn [GoStd.Index]; destruct (HasPrefix _ p) eqn:Hp.
  1, 3: intros [= <-]; split; [by apply HasPrefix_split in Hp|intros; cbn; lia].
  - done.
  - destruct (GoStd.Index s p) as [j|]; [|done]. intros [= <-]. destruct (IH j eq_refl) as [Hs Hmin]. split.
    + cbn [str_take str_drop Nat.add String.append]. f_equal. exact Hs.
    + intros [|b pre'] post' Heq; cbn in Heq.
      * rewrite Heq, HasPrefix_app_l in Hp. done.
      * injection Heq as <- Heq. cbn [str_take String.length]. specialize (Hmin pre' post' Heq). lia.
Qed.

Lemma Index_absent s p : GoStd.Index s p = None → absent p s.
Proof.
  induction s as [|a s IH]; cbn [GoStd.Index]; destruct (HasPrefix _ p) eqn:Hp; try done; intros Hi [|b pre] post Heq.
  - cbn in Heq. rewrite Heq, HasPrefix_app_l in Hp. done.
  - done.
  - cbn in Heq. rewrite Heq, HasPrefix_app_l in Hp. done.
  - injection Heq as <- Heq. destruct (GoStd.Index s p); [done|]. by eapply IH.
Qed.

Lemma slash_free_first s i : GoStd.Index s "/" = Some i → str_no slash (str_take i s) = true ∧ s = str_take i s +:+ "/" +:+ str_drop (i + 1) s.
Proof.
  intros Hi. pose proof (Index_first s "/" i Hi) as [Hs _]. split; [|exact Hs]. clear Hs. revert i Hi.
  induction s as [|a s IH]; intros i; cbn [GoStd.Index]; [done|].
  destruct (HasPrefix (String a s) "/") eqn:Hp; [by intros [= <-]|]. destruct (GoStd.Index s "/") as [j|]; [|done].
  intros [= <-]. unfold str_no. cbn [str_take str_forallb]. apply andb_true_iff. split; [|by apply IH].
  apply negb_true_iff, Ascii.eqb_neq. intros ->. pose proof (HasPrefix_app_l "/" s) as Ht. cbn [String.append] in Ht. congruence.
Qed.

Lemma slash_free_none s : GoStd.Index s "/" = None → ∀ a b, s ≠ a +:+ "/" +:+ b.
Proof. apply Index_absent. Qed.

Lemma LastIndexByte_split s i :
  LastIndexByte slash s = Some i → s = str_take i s +:+ "/" +:+ str_drop (i + 1) s ∧ str_no slash (str_drop (i + 1) s) = true.
Proof.
  assert (∀ t, LastIndexByte slash t = None → str_no slash t = true) as Hnone.
  { induction t as [|a t IHt]; [done|]. cbn [LastIndexByte]. destruct (LastIndexByte slash t); [done|].
    destruct (Ascii.eqb a slash) eqn:Ha; [done|]. intros _. unfold str_no. cbn [str_forallb]. rewrite Ha. by apply IHt. }
  revert i. induction s as [|a s IH]; intros i; cbn [LastIndexByte]; [done|].
  destruct (LastIndexByte slash s) as [j|] eqn:Hj.
  - intros [= <-]. destruct (IH j eq_refl) as [Hs Hn]. split; [|exact Hn]. cbn [str_take str_drop Nat.add String.append]. f_equal. exact Hs.
  - destruct (Ascii.eqb_spec a slash) as [->|]; [|done]. intros [= <-]. split; [done|]. by apply Hnone.
Qed.

Lemma first_at_unique marker s pre post pre' post' :
  first_at marker s pre post → first_at marker s pre' post' → pre' = pre ∧ post' = post.
Proof.
  intros [Hs Hmin] [Hs' Hmin']. specialize (Hmin _ _ Hs'). specialize (Hmin' _ _ Hs). rewrite Hs in Hs'.
  apply str_app_inj_len in Hs' as [-> Hp%str_app_inj_l]; [done|lia].
Qed.

Lemma TrimPrefix_app b p : TrimPrefix (b +:+ p) b = p.
Proof. unfold TrimPrefix. by rewrite HasPrefix_app_l, str_drop_app. Qed.

Lemma take_split s a b : s = a +:+ b → str_take (String.length a) s = a.
Proof. intros ->. apply str_take_app. Qed.

Lemma first_len marker s i : GoStd.Index s marker = Some i → String.length (str_take i s) = i.
Proof.
  revert i. induction s as [|a s IH]; intros i; cbn [GoStd.Index]; destruct (HasPrefix _ marker); try by intros [= <-].
  destruct (GoStd.Index s marker) as [j|]; [|done]. intros [= <-]. cbn. f_equal. by apply IH.
Qed.

(** The root the code finds, and what is left of the URL below it. *)
Lemma dist_root url :
  (∃ pre suite path, dist_split url pre suite path ∧ distBaseURL url = pre +:+ "/dists/" +:+ suite +:+ "/") ∨
  (distBaseURL url = "" ∧ ∀ pre suite path, ¬ dist_split url pre suite path).
Proof.
  unfold distBaseURL. destruct (GoStd.Index url "/dists/") as [i|] eqn:Hi.
  2: { right. split; [done|]. intros pre suite path [[Hs _] _]. by eapply Index_absent. }
  pose proof (Index_first _ _ _ Hi) as Hf. pose proof (first_len _ _ _ Hi) as Hl. cbn [String.length] in Hf.
  set (rest := str_drop (i + 7) url) in *. destruct (GoStd.Index rest "/") as [k|] eqn:Hk.
  - left. destruct (slash_free_first rest k Hk) as [Hn Hr]. pose proof (first_len _ _ _ Hk) as Hlk.
    exists (str_take i url), (str_take k rest), (str_drop (k + 1) rest). split; [split; [by rewrite <- Hr|done]|].
    destruct Hf as [Hs _]. set (b := str_take i url +:+ "/dists/" +:+ str_take k rest +:+ "/").
    assert (url = b +:+ str_drop (k + 1) rest) as Hb.
    { unfold b. rewrite Hs at 1. rewrite Hr at 1. by rewrite !str_app_assoc. }
    rewrite <- (take_split _ _ _ Hb). f_equal. unfold b. rewrite !str_length_app, Hl, Hlk. cbn. lia.
  - right. split; [done|]. intros pre suite path [Hp _]. destruct (first_at_unique _ _ _ _ _ _ Hf Hp) as [_ Hr].
    by eapply (slash_free_none rest Hk).
Qed.

Section listing.
Context `{GoUnicode, GoTime, Sha256}.

Lemma digest_cases url :
  (byHashDigest url = "" ∧ no_digest url) ∨
  ∃ pre d, first_at "/by-hash/SHA256/" url pre d ∧ d ≠ "" ∧ byHashDigest url = ToLower d ∧ byHashDigest url ≠ "".
Proof.
  unfold byHashDigest. destruct (GoStd.Index url "/by-hash/SHA256/") as [i|] eqn:Hi.
  2: { left. split; [done|]. intros pre d Heq. by destruct (Index_absent _ _ Hi pre d). }
  pose proof (Index_first _ _ _ Hi) as Hf. cbn [String.length] in Hf.
  destruct (String.eqb_spec (ToLower (str_drop (i + 16) url)) "") as [He|Hne].
  - left. split; [done|]. apply ToLower_nil in He. rewrite He in Hf. destruct Hf as [Hs Hmin]. intros pre d Heq.
    pose proof (Hmin pre d Heq) as Hle. rewrite Hs in Heq. apply (f_equal String.length) in Heq.
    rewrite !str_length_app in Heq. cbn [String.length] in Heq. destruct d; [done|]. cbn in Heq. lia.
  - right. exists (str_take i url), (str_drop (i + 16) url). split_and!; [done| |done|done]. by intros Hd; rewrite Hd in Hne.
Qed.

(** The key of an index that has a root, as the code computes it. *)
Lemma filed_by url :
  verificationBaseURL url ≠ "" →
  (∃ d, filed url (Digest d) ∧ byHashDigest url = ToLower d ∧ byHashDigest url ≠ "") ∨
  (byHashDigest url = "" ∧ filed url (Path (TrimPrefix url (verificationBaseURL url)))).
Proof.
  intros Hb. destruct (digest_cases url) as [[Hd Hn]|(pre & d & Hf & Hd & Heq & Hne)]; [right; split; [done|]|left; exists d; split; [by eapply filed_digest|done]].
  unfold verificationBaseURL in *. destruct (dist_root url) as [(pre & suite & path & Hs & Heq)|[Heq Hno]].
  - rewrite Heq in *. rewrite (proj2 (String.eqb_neq _ _)); [|by destruct pre].
    assert (TrimPrefix url (pre +:+ "/dists/" +:+ suite +:+ "/") = path) as ->; [|by eapply filed_dist].
    destruct Hs as [[-> _] _]. etrans; [|apply (TrimPrefix_app (pre +:+ "/dists/" +:+ suite +:+ "/") path)]. by rewrite !str_app_assoc.
  - rewrite Heq in *. cbn [String.eqb] in *. unfold flatBaseURL in *. destruct (GoStd.Index url "/by-hash/") as [j|] eqn:Hj.
    + pose proof (Index_first _ _ _ Hj) as Hf. pose proof (first_len _ _ _ Hj) as Hl. cbn [String.length] in Hf. set (path := str_drop (j + 9) url) in *.
      assert (url = (str_take j url +:+ "/") +:+ "by-hash/" +:+ path) as Hu.
      { destruct Hf as [Hs _]. rewrite Hs at 1. by rewrite str_app_assoc. }
      assert (str_take (j + 1) url = str_take j url +:+ "/") as ->.
      { rewrite <- (take_split _ _ _ Hu). f_equal. rewrite str_length_app, Hl. done. }
      rewrite Hu at 2. rewrite TrimPrefix_app. by eapply filed_flat_by_hash.
    + destruct (LastIndexByte slash url) as [i|] eqn:Hi; [|done]. destruct (LastIndexByte_split _ _ Hi) as [Hs Hn'].
      assert (url = (str_take i url +:+ "/") +:+ str_drop (i + 1) url) as Hu by (rewrite str_app_assoc; exact Hs).
      assert (str_take (i + 1) url = str_take i url +:+ "/") as ->.
      { rewrite <- (take_split _ _ _ Hu). f_equal. rewrite str_length_app. cbn [String.length].
        f_equal. clear -Hi. revert i Hi. induction url as [|a url IH]; intros i; cbn [LastIndexByte]; [done|].
        destruct (LastIndexByte slash url) as [j|]; [intros [= <-]; cbn; f_equal; by apply IH|].
        destruct (Ascii.eqb a slash); [|done]. by intros [= <-]. }
      rewrite Hu at 2. rewrite TrimPrefix_app. eapply filed_flat; [done|done|by apply Index_absent|exact Hs|done].
Qed.

(** What the lines of a Release say of a body filed under a key: the digest is one of
    those listed in its SHA256 sections (which says nothing about the bytes), or the
    last line of these sections for the path gives the SHA-256 of the bytes. *)
Definition attests (text : string) (key : Key) (data : string) : Prop :=
  let lines := (scan maxReleaseSize text true).1 in
  match key with
  | Digest d => ∃ i e, entry_at lines i e ∧ fh_SHA256 e.2 = ToLower (ToLower d)
  | Path p => ∃ i size, entry_at lines i (p, mkFileHash (HashBytes data) size) ∧
                ∀ i' fh', entry_at lines i' (p, fh') → (i' <= i)%nat
  end.

(** The check is exact. *)
Lemma vouches_exact text rel url data :
  Parse text = Ok rel → verificationBaseURL url ≠ "" →
  ∃ key, filed url key ∧ (vouches rel url (verificationBaseURL url) data = None ↔ attests text key data).
Proof.
  intros Hp Hb. destruct (Parse_lists text rel Hp) as [Hh Hf]. unfold vouches.
  destruct (filed_by url Hb) as [(d & Hfd & Hd & Hne)|[Hd Hfp]].
  - exists (Digest d). split; [done|]. rewrite (proj2 (String.eqb_neq _ _) Hne). cbn [negb attests]. rewrite Hd, <- Hh.
    by destruct (HasHash _ rel).
  - eexists. split; [exact Hfp|]. rewrite Hd. cbn [String.eqb negb attests].
    destruct (Release.SHA256 rel !! _) as [[sha size]|] eqn:Hl.
    + cbn [fh_SHA256]. apply Hf in Hl as (i & Hi & Hmax). destruct (String.eqb_spec (HashBytes data) sha) as [Heq|Hne].
      * split; [intros _|done]. exists i, size. by rewrite Heq.
      * split; [done|]. intros (i' & size' & Hi' & Hmax'). assert (i' = i) as -> by (apply Nat.le_antisymm; eauto).
        destruct Hi as (l & Hl & _ & He & _), Hi' as (l' & Hl' & _ & He' & _). congruence.
    + split; [done|]. intros (i & size & Hi & Hmax). pose proof (proj2 (Hf _ _) (ex_intro _ i (conj Hi Hmax))) as Hsome. congruence.
Qed.
End listing.

Section policy.
Context `{GoUnicode, GoTime, OpenPGP, Sha256, SqlOrder, Decompressors}.
Context (cfg : Config).

(** ** Where Releases come from *)

(** A Release parsed from a text that a trusted key has signed. *)
Definition genuine (rel : Release.Release) : Prop :=
  ∃ text, signed (keyring cfg) text ∧ Parse text = Ok rel.

Definition store_ok (s : Server) : Prop := map_Forall (λ _ rel, genuine rel) (releaseStore s).

(** An index body that a text with a trusted signature lists, or does not. *)
Definition vouched (url data : string) : Prop :=
  ∃ text key, signed (keyring cfg) text ∧ filed url key ∧ attests text key data.

Definition contradicted (url data : string) : Prop :=
  ∃ text key, signed (keyring cfg) text ∧ filed url key ∧ ¬ attests text key data.

Lemma genuine_verdict rel url data :
  genuine rel → verificationBaseURL url ≠ "" →
  match vouches rel url (verificationBaseURL url) data with None => vouched url data | Some _ => contradicted url data end.
Proof.
  intros (text & Hs & Hp) Hb. destruct (vouches_exact text rel url data Hp Hb) as (key & Hf & Hv).
  destruct (vouches _ _ _ _); exists text, key; split_and!; try done; [|by apply Hv]. by intros ?%Hv.
Qed.

(** A step that leaves the in-memory index alone and the store genuine. *)
Definition quiet (s s' : Server) : Prop := index s' = index s ∧ (store_ok s → store_ok s').

#[global] Instance quiet_preorder : PreOrder quiet.
Proof.
  split; [done|]. intros a b c [Hi1 Hs1] [Hi2 Hs2]. split; [congruence|auto].
Qed.

Lemma quiet_fields s s' : index s' = index s → releaseStore s' = releaseStore s → quiet s s'.
Proof. unfold quiet, store_ok. by intros -> ->. Qed.

Lemma verifiedInRelease_genuine b rel : verifiedInRelease cfg b = Some rel → genuine rel.
Proof.
  unfold verifiedInRelease. destruct b as [b|]; [|done]. destruct (VerifyClearsigned b _) as [t|] eqn:Hv; [|done].
  destruct (Parse t) eqn:Hp; [|done]. intros [= <-]. apply VerifyClearsigned_signed in Hv as [_ Hv]. by exists t.
Qed.

Lemma verifiedDetachedRelease_genuine b sig rel : verifiedDetachedRelease cfg b sig = Some rel → genuine rel.
Proof.
  unfold verifiedDetachedRelease. destruct b as [b|], sig as [sig|]; try done.
  destruct (VerifyDetached b sig _) as [[]|] eqn:Hv; [|done]. destruct (Parse b) eqn:Hp; [|done]. intros [= <-].
  apply VerifyDetached_signed in Hv as [_ Hv]. by exists b.
Qed.

Lemma store_put_quiet base rel s : genuine rel → quiet s (store_put base rel s).
Proof. intros Hg. split; [done|]. intros Hs. by apply map_Forall_insert_2. Qed.

Context (env : Env).

Lemma getMetadata_quiet url s : quiet s (getMetadata env url s).2.
Proof.
  unfold getMetadata. destruct (cache s); [|done]. destruct (GetMetadata _ _ _). by apply quiet_fields.
Qed.

Lemma fetchMetadataBytes_quiet url s : quiet s (fetchMetadataBytes env cfg url s).2.
Proof.
  unfold fetchMetadataBytes. destruct (Mirror.Stream _ _ _ _) as [r f].
  destruct r as [[body n]|e]; by apply quiet_fields.
Qed.

Lemma readCached_quiet url s : quiet s (readCachedMetadataBody env url s).2.
Proof.
  unfold readCachedMetadataBody. pose proof (getMetadata_quiet url s) as Hq.
  by destruct (getMetadata env url s) as [[[entry rc]|] s'].
Qed.

(** What a search for a Release guarantees. *)
Definition finds (s : Server) (x : option Release.Release * Server) : Prop :=
  quiet s x.2 ∧ ∀ rel, x.1 = Some rel → store_ok s → genuine rel.

Lemma finds_stored s base rel : releaseStore s !! base = Some rel → finds s (Some rel, s).
Proof. intros Hb. split; [done|]. intros r [= <-] Hs. by apply (Hs base). Qed.

Lemma finds_genuine s s' rel : genuine rel → quiet s s' → finds s (Some rel, s').
Proof. intros Hg Hq. split; [done|]. by intros r [= <-] _. Qed.

Lemma finds_none s s' : quiet s s' → finds s (None, s').
Proof. by split. Qed.

Lemma finds_after s s' x : quiet s s' → finds s' x → finds s x.
Proof. intros Hq [Hq' Hg]. split; [by etrans|]. destruct Hq. eauto. Qed.

Lemma fetchRelease_finds base s : finds s (fetchReleaseOnDemand env cfg base s).
Proof.
  unfold fetchReleaseOnDemand. destruct (recently_failed _ _ _); [by apply finds_none|].
  destruct (releaseStore s !! base) eqn:Hb; [by eapply finds_stored|].
  pose proof (fetchMetadataBytes_quiet (base +:+ "InRelease") s) as Hq1.
  destruct (fetchMetadataBytes env cfg (base +:+ "InRelease") s) as [b s1]. cbn [snd] in Hq1.
  eapply finds_after; [exact Hq1|].
  destruct (verifiedInRelease cfg b) as [rel|] eqn:Hv.
  { apply verifiedInRelease_genuine in Hv. apply finds_genuine; [done|]. by apply store_put_quiet. }
  pose proof (fetchMetadataBytes_quiet (base +:+ "Release") s1) as Hq2.
  destruct (fetchMetadataBytes env cfg (base +:+ "Release") s1) as [body s2]. cbn [snd] in Hq2.
  eapply finds_after; [exact Hq2|].
  pose proof (fetchMetadataBytes_quiet (base +:+ "Release.gpg") s2) as Hq3.
  destruct (fetchMetadataBytes env cfg (base +:+ "Release.gpg") s2) as [sig s3]. cbn [snd] in Hq3.
  eapply finds_after; [exact Hq3|].
  destruct (verifiedDetachedRelease cfg body sig) as [rel|] eqn:Hd.
  - apply verifiedDetachedRelease_genuine in Hd. apply finds_genuine; [done|]. by apply store_put_quiet.
  - apply finds_none. by apply quiet_fields.
Qed.

Lemma cachedRelease_finds base s : finds s (cachedRelease env cfg base s).
Proof.
  unfold cachedRelease. destruct (caching s); [|by apply finds_none].
  pose proof (readCached_quiet (base +:+ "InRelease") s) as Hq1.
  destruct (readCachedMetadataBody env (base +:+ "InRelease") s) as [b s1]. cbn [snd] in Hq1.
  eapply finds_after; [exact Hq1|].
  destruct (verifiedInRelease cfg b) as [rel|] eqn:Hv.
  { apply verifiedInRelease_genuine in Hv. apply finds_genuine; [done|]. by apply store_put_quiet. }
  pose proof (readCached_quiet (base +:+ "Release") s1) as Hq2.
  destruct (readCachedMetadataBody env (base +:+ "Release") s1) as [body s2]. cbn [snd] in Hq2.
  eapply finds_after; [exact Hq2|].
  pose proof (readCached_quiet (base +:+ "Release.gpg") s2) as Hq3.
  destruct (readCachedMetadataBody env (base +:+ "Release.gpg") s2) as [sig s3]. cbn [snd] in Hq3.
  eapply finds_after; [exact Hq3|].
  destruct (verifiedDetachedRelease cfg body sig) as [rel|] eqn:Hd; [|by apply finds_none].
  apply verifiedDetachedRelease_genuine in Hd. apply finds_genuine; [done|]. by apply store_put_quiet.
Qed.

Lemma obtainRelease_finds base s : finds s (obtainRelease env cfg base s).
Proof.
  unfold obtainRelease. destruct (releaseStore s !! base) eqn:Hb; [by eapply finds_stored|].
  pose proof (cachedRelease_finds base s) as Hc. destruct (cachedRelease env cfg base s) as [[rel|] s1]; [done|].
  case_match; [|done]. eapply finds_after; [apply Hc|]. apply fetchRelease_finds.
Qed.

(** ** Verdicts *)

Lemma verifyIndex_spec url data s :
  let '(verdict, s') := verifyIndex env cfg url data s in
  quiet s s' ∧
  (store_ok s → verdict = None → vouched url data) ∧
  (store_ok s → ∀ reason, verdict = Some reason → reason = NotListed ∨ reason = HashMismatch →
     contradicted url data).
Proof.
  unfold verifyIndex. destruct (Empty _); [split_and!; naive_solver|]. cbv zeta.
  destruct (String.eqb_spec (verificationBaseURL url) "") as [|Hb]; [split_and!; naive_solver|].
  pose proof (obtainRelease_finds (verificationBaseURL url) s) as [Hq Hg].
  destruct (obtainRelease env cfg _ s) as [[rel|] s1]; [|split_and!; naive_solver].
  specialize (Hg rel eq_refl). cbn [fst snd] in *. split; [done|].
  split; [intros Hs Hv|intros Hs reason Hv _]; pose proof (genuine_verdict rel url data (Hg Hs) Hb) as Hgv; by rewrite Hv in Hgv.
Qed.

Lemma check_spec url data s :
  let '(allowed, flag, s') := checkIndexVerification env cfg url data s in
  quiet s s' ∧
  (allowed = true → verificationEnabled cfg = true → isVerifiableIndexURL url = true → store_ok s →
     vouched url data ∨ (∃ reason, flag = Some reason ∧ (modeRefuses cfg reason = false ∨ isExemptHost cfg url = true))) ∧
  (allowed = false → store_ok s →
     isExemptHost cfg url = false ∧
     (verifyMode cfg = "enforce" ∨
      (verifyMode cfg = "auto" ∧ contradicted url data))).
Proof.
  unfold checkIndexVerification. destruct (negb _ || negb _) eqn:Hen.
  { split_and!; [done| |done]. intros _ Hv Hu. rewrite Hv, Hu in Hen. done. }
  pose proof (verifyIndex_spec url data s) as Hv. destruct (verifyIndex env cfg url data s) as [[reason|] s1].
  - destruct Hv as (Hq & _ & Hr). destruct (modeRefuses cfg reason) eqn:Hm; cbn [andb].
    + destruct (isExemptHost cfg url) eqn:Hx; cbn [negb].
      * split_and!; [done| |done]. intros _ _ _ _. right. exists reason. auto.
      * split_and!; [done..|]. intros _ Hs. split; [done|]. unfold modeRefuses in Hm.
        destruct (String.eqb_spec (verifyMode cfg) "enforce"); [by left|].
        destruct (String.eqb_spec (verifyMode cfg) "auto"); [|done]. right. split; [done|].
        apply (Hr Hs reason eq_refl). destruct reason; naive_solver.
    + split_and!; [done| |done]. intros _ _ _ _. right. exists reason. auto.
  - destruct Hv as (Hq & Hv & _). split_and!; [done| |done]. intros _ _ _ Hs. left. auto.
Qed.

(** Enforcing: nothing but vouched-for indexes, unless the host is exempt. *)
Definition strict (url : string) : Prop := verifyMode cfg = "enforce" ∧ isExemptHost cfg url = false.

Lemma check_strict url data s :
  store_ok s → strict url → isVerifiableIndexURL url = true →
  (checkIndexVerification env cfg url data s).1.1 = true → vouched url data.
Proof.
  intros Hs [Hm Hx] Hu. pose proof (check_spec url data s) as Hc.
  destruct (checkIndexVerification _ _ _ _ _) as [[allowed flag] s1]. destruct Hc as (_ & Hc & _).
  cbn [fst]. intros ->. destruct Hc as [Hv|(reason & _ & [Hr|Hr])]; try done.
  - unfold verificationEnabled. by rewrite Hm.
  - unfold modeRefuses in Hr. by rewrite Hm in Hr.
  - congruence.
Qed.

Lemma check_quiet url data s : quiet s (checkIndexVerification env cfg url data s).2.
Proof.
  pose proof (check_spec url data s) as Hc. destruct (checkIndexVerification _ _ _ _ _) as [[a f] s1]. apply Hc.
Qed.

(** ** What a request does to the index *)

(** Nothing, or a load of a body; the policy has admitted it when it is strict. *)
Definition outcome (url : string) (s s' : Server) : Prop :=
  quiet s s' ∨
  ∃ data, isVerifiableIndexURL url = true ∧ index s' = index (loadIndexInto url data s) ∧
    (store_ok s → store_ok s') ∧ (store_ok s → strict url → vouched url data).

Lemma loadIndexInto_index url data s s' : index s' = index s → index (loadIndexInto url data s') = index (loadIndexInto url data s).
Proof. intros Hi. unfold loadIndexInto. repeat case_match; cbn [index set_index]; congruence. Qed.

Lemma loadIndexInto_store url data s : releaseStore (loadIndexInto url data s) = releaseStore s.
Proof. unfold loadIndexInto. by repeat case_match. Qed.

Lemma outcome_after url s s1 s' : quiet s s1 → outcome url s1 s' → outcome url s s'.
Proof.
  intros Hq1 [Hq|(data & Hu & Hx & Hs' & Hv)]; [left; by etrans|right]. destruct Hq1 as [Hi Hs].
  exists data. split_and!; [done| |auto..]. rewrite Hx. by apply loadIndexInto_index.
Qed.

Lemma outcome_before url s s1 s' : outcome url s s1 → quiet s1 s' → outcome url s s'.
Proof.
  intros [Hq|(data & Hu & Hx & Hs1 & Hv)] Hq1; [left; by etrans|right]. destruct Hq1 as [Hi Hs']. exists data. split_and!; [done|congruence|auto..].
Qed.

(** The check followed by the load it admits. *)
Lemma outcome_checked url data s :
  let '(allowed, _, s') := checkIndexVerification env cfg url data s in
  outcome url s (if allowed && isVerifiableIndexURL url then loadIndexInto url data s' else s').
Proof.
  pose proof (check_quiet url data s) as Hq. pose proof (check_strict url data s) as Hc.
  destruct (checkIndexVerification _ _ _ _ _) as [[allowed flag] s1]. cbn [fst snd] in *.
  destruct allowed; cbn [andb]; [|by left]. destruct (isVerifiableIndexURL url) eqn:Hu; [|by left]. right. exists data.
  destruct Hq as [Hi Hs]. split_and!; [done|by apply loadIndexInto_index| |auto].
  unfold store_ok. rewrite loadIndexInto_store. exact Hs.
Qed.

Lemma storeMetadata_quiet url data et lm ct s : quiet s (storeMetadata env url data et lm ct s).
Proof.
  unfold storeMetadata. destruct (cache s); [|done]. destruct (NewMetadataWriter _ _ _ _ _ _ _) as [[mw|] m']; [|by apply quiet_fields].
  destruct (mw_Write _ _ _ _) as [[[mw' m''] k] ok]. by apply quiet_fields.
Qed.

Lemma serveFreshIndex_outcome url cond body c w s : outcome url s (serveFreshIndex env cfg url cond body c w s).2.
Proof.
  unfold serveFreshIndex. cbv zeta. destruct (negb _); [by left|]. destruct (_ <? _); [by left|].
  pose proof (outcome_checked url (LimitReader body (Mirror.maxResponseSize (fetcher s) + 1)).1 s) as Ho.
  destruct (checkIndexVerification _ _ _ _ _) as [[allowed flag] s1].
  destruct allowed; cbn [negb snd andb] in *; [|done].
  destruct (isVerifiableIndexURL url), c; cbn [snd] in *; try done.
  all: eapply outcome_before; [exact Ho|apply storeMetadata_quiet].
Qed.

Lemma serveFreshStream_quiet url cond body c w s : quiet s (serveFreshStream env url cond body c w s).2.
Proof.
  unfold serveFreshStream. cbv zeta. destruct (cache s) as [m|].
  - destruct (if c then _ else _) as [mw m1]. destruct (copyBody _ _ _ _ _ _ _ _) as [[[[w' mw'] m2] n] ok].
    by apply quiet_fields.
  - destruct (copyBody _ _ _ _ _ _ _ _) as [[[[w' mw'] m2] n] ok]. by apply quiet_fields.
Qed.

Lemma serveFreshBody_outcome url ix cond c w s : outcome url s (serveFreshBody env cfg url ix cond c w s).2.
Proof.
  unfold serveFreshBody. cbv zeta. apply (outcome_after _ _ (count_miss s)); [by apply quiet_fields|].
  destruct (Mirror.cond_Body cond); [|by left]. destruct ix; [apply serveFreshIndex_outcome|left; apply serveFreshStream_quiet].
Qed.

Lemma serveCached_outcome r url ix entry rc stale w s :
  outcome url s (serveCachedMetadata env cfg r url ix entry rc stale w s).2.
Proof.
  unfold serveCachedMetadata. cbv zeta.
  assert (∃ w1 s1, quiet s s1 ∧
    (if stale then (Set_ "X-Debswarm-Stale" "true" w, noteStaleServe url (count_hit (m_Size entry) s))
     else (w, count_hit (m_Size entry) s)) = (w1, s1)) as (w1 & s1 & Hq & ->).
  { destruct stale; eexists _, _; (split; [|done]); by apply quiet_fields. }
  apply (outcome_after _ _ s1); [done|]. destruct (clientHasCurrent r entry && _); [by left|].
  destruct ix; [|by left]. destruct (negb rc.2); [by left|]. cbn [andb].
  destruct (isVerifiableIndexURL url) eqn:Hu; cbn [andb].
  2: { destruct (clientHasCurrent r entry); by left. }
  destruct (negb (PkgIndex.HasIndexFile url (index s1))).
  2: { destruct (clientHasCurrent r entry); by left. }
  pose proof (outcome_checked url rc.1 s1) as Ho. destruct (checkIndexVerification _ _ _ _ _) as [[allowed flag] s2].
  rewrite Hu, andb_true_r in Ho. destruct (clientHasCurrent r entry); done.
Qed.

Lemma streamConditional_quiet url ims inm s : quiet s (streamConditional env cfg url ims inm s).2.
Proof. unfold streamConditional. destruct (Mirror.StreamConditional _ _ _ _). by apply quiet_fields. Qed.

Lemma fetchFresh_outcome url ix w s : outcome url s (fetchFreshMetadata env cfg url ix w s).2.
Proof.
  unfold fetchFreshMetadata. pose proof (streamConditional_quiet url "" "" s) as Hq.
  destruct (streamConditional _ _ _ _ _ s) as [[cond|] s1]; [|by left]. apply (outcome_after _ _ s1); [done|].
  destruct (Mirror.NotModified cond); [by left|apply serveFreshBody_outcome].
Qed.

Lemma cachedOr_outcome r url ix stale w s k :
  (∀ s', outcome url s' (k s').2) → outcome url s (cachedOr env cfg r url ix stale w s k).2.
Proof.
  intros Hk. unfold cachedOr. pose proof (getMetadata_quiet url s) as Hq.
  destruct (getMetadata env url s) as [[[entry rc]|] s1]; (apply (outcome_after _ _ s1); [done|]); [|apply Hk].
  apply serveCached_outcome.
Qed.

Lemma serveUpstream_outcome r url ix c st w s : outcome url s (serveUpstream env cfg r url ix c st w s).2.
Proof.
  unfold serveUpstream. assert (quiet s (metadataValidators env url s).2) as Hq.
  { unfold metadataValidators. repeat case_match; by apply quiet_fields. }
  destruct (metadataValidators env url s) as [v s1]. apply (outcome_after _ _ s1); [done|].
  destruct (match v with Some _ => _ | None => _ end) as [[inm ims] hc].
  pose proof (streamConditional_quiet url ims inm s1) as Hq2. destruct (streamConditional _ _ _ _ _ s1) as [[cond|] s2];
    (apply (outcome_after _ _ s2); [done|]).
  - destruct (Mirror.NotModified cond); [|apply serveFreshBody_outcome]. destruct hc; [|by left].
    eapply outcome_after; [|apply cachedOr_outcome; intros; apply fetchFresh_outcome].
    unfold revalidateMetadata. case_match; by apply quiet_fields.
  - cbv zeta. destruct st; [|by left]. apply cachedOr_outcome. by left.
Qed.

Lemma serveMetadata_outcome r url ix w s : outcome url s (serveMetadata env cfg r url ix w s).2.
Proof.
  unfold serveMetadata. cbv zeta.
  assert (∀ s', outcome url s' (if caching s && metadataServeStale cfg && isOffline s'
    then cachedOr env cfg r url ix true w s' (λ s0, serveUpstream env cfg r url ix (caching s) (caching s && metadataServeStale cfg) w s0)
    else serveUpstream env cfg r url ix (caching s) (caching s && metadataServeStale cfg) w s').2) as Hoff.
  { intros s'. case_match; [apply cachedOr_outcome; intros|]; apply serveUpstream_outcome. }
  destruct (caching s); [|apply Hoff]. destruct (IsImmutableMetadataURL url) as [[|]|]; [|apply Hoff|by left].
  apply cachedOr_outcome. apply Hoff.
Qed.

Lemma handleMetadata_outcome r url w w' s s' : handleMetadata env cfg r url w s = Some (w', s') → outcome url s s'.
Proof.
  unfold handleMetadata, handleIndexRequest, handleReleaseRequest, handlePassthrough. destruct (classifyRequest url); [| done| |].
  all: intros Heq%Some_inj; apply (f_equal snd) in Heq; cbn [snd] in Heq; rewrite <- Heq; clear Heq; try apply serveMetadata_outcome.
  eapply outcome_after; [|apply serveMetadata_outcome]. repeat case_match; try done.
  split; [done|]. apply map_Forall_delete.
Qed.

Lemma warm_one_outcome url s : outcome url s (warm_one env cfg url s).
Proof.
  unfold warm_one. destruct (isVerifiableIndexURL url) eqn:Hu; [|by left]. cbn [negb orb].
  destruct (PkgIndex.HasIndexFile url (index s)); [by left|]. pose proof (readCached_quiet url s) as Hq.
  destruct (readCachedMetadataBody env url s) as [[data|] s1]; [|by left]. apply (outcome_after _ _ s1); [done|].
  pose proof (outcome_checked url data s1) as Ho. destruct (checkIndexVerification _ _ _ _ _) as [[allowed flag] s2].
  rewrite Hu, andb_true_r in Ho. done.
Qed.
End policy.

(** ** Runs *)
Section runs.
Context `{GoUnicode, GoTime, OpenPGP, Sha256, SqlOrder, Decompressors, GoRange}.
Context (cfg : Config).

(** The contents of APT's own list files over time. *)
Context (lists : string → stream → Prop).

(** Requests, the warming of the index, and the scanning and reparsing of APT's
    lists, each in surroundings of its own, and changes of the connectivity
    mode. *)
Inductive pstep : Server → Server → Prop :=
| P_request env r url w w' s s' : handleMetadata env cfg r url w s = Some (w', s') → pstep s s'
| P_warm env s : pstep s (warmIndexFromCache env cfg s)
| P_scan open entries w s : (∀ path f, open path = Some f → lists path f) →
    pstep s (set_index (AptLists.scanAll open entries w (index s)).2 s)
| P_reparse open w s : (∀ path f, open path = Some f → lists path f) →
    pstep s (set_index (AptLists.processPendingFiles open w (index s)).2 s)
| P_mode mode s : pstep s (set_connectivity mode s).

(** The entries of an index body. *)
Definition text_entries (url data : string) : list PkgIndex.PackageInfo :=
  match PkgIndex.decompressByMagic data with
  | None => []
  | Some r =>
      let lines := (scan PkgIndex.maxTokenSize r.1 r.2).1 in
      if isPackagesIndexURL url then PkgIndexSys.packages_spec (PkgIndex.ExtractRepoFromURL url) lines
      else PkgIndexSys.sources_spec (PkgIndex.ExtractRepoFromURL url) lines
  end.

(** An entry of a body that a signed Release vouches for. *)
Definition backed (p : PkgIndex.PackageInfo) : Prop :=
  ∃ url data, vouched cfg url data ∧ PkgIndexSys.strip p ∈ text_entries url data.

Record proxy_inv (s : Server) : Prop := {
  pi_index : PkgIndexSys.inv (index s);
  pi_store : store_ok cfg s;
  pi_backed : ∀ p, PkgIndexSys.listed (PkgIndex.byIndexFile (index s)) p → AptLocalSys.local lists p ∨ backed p;
}.

Lemma load_reparsed url data s :
  PkgIndexSys.inv (index s) →
  index (loadIndexInto url data s) = index s ∨
  PkgIndexSys.reparsed (PkgIndex.indexFileKey url) (text_entries url data) (index s) (index (loadIndexInto url data s)).
Proof.
  intros Hinv. unfold loadIndexInto, text_entries, PkgIndex.LoadFromData, PkgIndex.LoadSourcesFromData.
  destruct (isPackagesIndexURL url), (isSourcesIndexURL url), (PkgIndex.decompressByMagic data) as [r|];
    cbn [PkgIndex.with_reader fst index set_index]; auto.
  all: right; first [by apply PkgIndexSys.parseForRepo_reparsed|by apply PkgIndexSys.parseSourcesForRepo_reparsed].
Qed.

Lemma outcome_inv url s s' : strict cfg url → outcome cfg url s s' → proxy_inv s → proxy_inv s'.
Proof.
  intros Hst [[Hi Hs]|(data & Hu & Hx & Hs & Hv)] [Hinv Hok Hb].
  { constructor; rewrite ?Hi; auto. }
  specialize (Hv Hok Hst). destruct (load_reparsed url data s Hinv) as [Hl|(Hi' & Hother & Hnew)].
  { constructor; rewrite ?Hx, ?Hl; auto. }
  constructor; rewrite ?Hx; auto. intros p (k & gen & Hk & Hp).
  destruct (decide (k = PkgIndex.indexFileKey url)) as [->|Hne].
  - right. exists url, data. split; [done|]. by apply (Hnew gen).
  - apply Hb. exists k, gen. by rewrite <- Hother.
Qed.

Lemma loads_inv s x : proxy_inv s → AptLocalSys.loads lists (index s) x → proxy_inv (set_index x s).
Proof. intros [_ Hst Hb] [Hi Hl]. constructor; [done..|]. intros p [|]%Hl; auto. Qed.

Context (Henforce : verifyMode cfg = "enforce") (Hexempt : verifyExempt cfg = []).

Lemma all_strict url : strict cfg url.
Proof using Henforce Hexempt. split; [done|]. unfold isExemptHost. rewrite Hexempt. by case_match. Qed.

Lemma pstep_inv s s' : pstep s s' → proxy_inv s → proxy_inv s'.
Proof using Henforce Hexempt.
  intros [env r url w w' s0 s1 Hreq|env s0|open entries w s0 Ho|open w s0 Ho|mode s0] Hinv.
  - eapply outcome_inv; [apply all_strict|by eapply handleMetadata_outcome|done].
  - unfold warmIndexFromCache. destruct (cache s0) as [m|]; [|done]. destruct (MetadataEnabled m); [|done].
    destruct (ListMetadataURLs _ _) as [urls|]; [|by destruct Hinv; constructor].
    assert (proxy_inv (tick s0)) as Ht by (by destruct Hinv; constructor).
    revert Ht. generalize (tick s0). clear Hinv. induction urls as [|u urls IH]; intros s1 Hinv; [done|].
    cbn [foldl]. apply IH. eapply outcome_inv; [apply all_strict|apply warm_one_outcome|done].
  - apply loads_inv; [done|]. by apply AptLocalSys.scanAll_loads, Hinv.
  - apply loads_inv; [done|]. by apply AptLocalSys.processPending_loads, Hinv.
  - by destruct Hinv; constructor.
Qed.

(** C5: in enforce mode without exempt hosts, every entry by which the proxy resolves
    a package, looked up by hash after any run of requests, index warming and scans
    of APT's lists against arbitrary mirrors, clients and storage (from a state
    whose index and stored Releases are in order, such as the empty one), is an
    entry of one of APT's own list files, or of an index body that a text signed by
    a trusted key lists: the last line for the index's path in the SHA256 sections
    of the text gives the SHA-256 of the body.  For an index fetched by hash, with
    [/by-hash/SHA256/<digest>] in the URL, it is only that a line of these sections
    has the digest of the URL: the bytes of such a body are not compared with
    it. *)
Theorem enforce_index_backed s s' sha p :
  rtc pstep s s' → proxy_inv s → PkgIndex.GetBySHA256 sha (index s') = Some p →
  PkgIndex.SHA256 p = sha ∧
  (AptLocalSys.local lists p ∨
   ∃ url data text key, PkgIndexSys.strip p ∈ text_entries url data ∧
     signed (keyring cfg) text ∧ filed url key ∧ attests text key data).
Proof using Henforce Hexempt.
  intros Hrun Hs. assert (proxy_inv s') as [Hinv _ Hb] by (induction Hrun; eauto using pstep_inv).
  intros Hp. destruct (PkgIndexSys.wf_packages _ _ (proj1 Hinv) _ _ Hp) as [Hsha Hl]. split; [done|].
  destruct (Hb p Hl) as [|(url & data & (text & key & Hv) & He)]; [by left|right]. by exists url, data, text, key.
Qed.
End runs.
(** ** Verdicts and responses *)
Section responses.
Context `{GoUnicode, GoTime, OpenPGP, Sha256, SqlOrder, Decompressors}.
Context (cfg : Config) (env : Env).


(** *** Statuses *)

Lemma WriteHeader_status c w : w_status (WriteHeader c w) = Some (default c (w_status w)).
Proof. unfold WriteHeader. by destruct (w_status w) eqn:Hw. Qed.

Lemma Set_if_status k v w : w_status (Set_if k v w) = w_status w.
Proof. unfold Set_if. by case_match. Qed.

Lemma Write_status sink p w : w_status (Write sink p w).1.1 = Some (default 200 (w_status w)).
Proof. unfold Write. destruct (sink_write sink p). cbn [fst w_status]. apply WriteHeader_status. Qed.

Lemma flag_status f w : w_status (flag_header f w) = w_status w.
Proof. by destruct f. Qed.

Lemma respond_status code body s w : w_status w = None → w_status (respond env code body s w) = Some code.
Proof. intros Hw. unfold respond. by rewrite Write_status, WriteHeader_status, Hw. Qed.

Lemma http_Error_status msg code s w : w_status w = None → w_status (http_Error env msg code s w) = Some code.
Proof. intros Hw. unfold http_Error, Error. rewrite Write_status, WriteHeader_status. cbn. by rewrite Hw. Qed.

Lemma validators_status (entry : MetadataEntry) cond w :
  w_status (setValidatorHeaders entry w) = w_status w ∧ w_status (relayValidators cond w) = w_status w.
Proof. unfold setValidatorHeaders, relayValidators. by rewrite !Set_if_status. Qed.

Lemma copyBody_status ps ok i w mw m n : w_status w = Some 200 → w_status (copyBody env ps ok i w mw m n).1.1.1.1 = Some 200.
Proof.
  revert i w mw m n. induction ps as [|p ps IH]; intros i w mw m n Hw; [done|]. cbn [copyBody].
  pose proof (Write_status (e_client env i) p w) as Hs. destruct (Write _ p w) as [[w1 k] ok1]. cbn [fst] in Hs.
  rewrite Hw in Hs. destruct (negb ok1); [done|]. destruct mw as [mw|]; [|by apply IH].
  destruct (mw_Write _ _ _ _) as [[[mw1 m1] k1] ok2]. destruct (_ || _); [done|by apply IH].
Qed.

(** A fresh body is answered with 200 or 502. *)
Lemma serveFreshBody_status url ix cond c w s :
  w_status w = None → w_status (serveFreshBody env cfg url ix cond c w s).1 ≠ Some 304.
Proof.
  intros Hw. unfold serveFreshBody. cbv zeta. destruct (Mirror.cond_Body cond) as [body|]; [|by cbn; rewrite Hw].
  destruct ix.
  - unfold serveFreshIndex. cbv zeta. destruct (negb _); [by cbn [fst]; rewrite http_Error_status|].
    destruct (_ <? _); [by cbn [fst]; rewrite http_Error_status|].
    destruct (checkIndexVerification _ _ _ _ _) as [[allowed flag] s1].
    destruct (negb allowed); cbn [fst]; [by rewrite http_Error_status by (by rewrite flag_status)|].
    rewrite respond_status; [done|]. unfold relayValidators. rewrite !Set_if_status. cbn. by rewrite flag_status.
  - unfold serveFreshStream. cbv zeta.
    set (w1 := WriteHeader 200 _). assert (w_status w1 = Some 200) as Hw1.
    { subst w1. rewrite WriteHeader_status. unfold relayValidators. destruct (0 <=? _); cbn; by rewrite !Set_if_status, Hw. }
    destruct (cache (count_miss s)) as [m|].
    + destruct (if c then _ else _) as [mw m1].
      pose proof (copyBody_status (e_reads env body.1) body.2 0 w1 mw m1 0 Hw1) as Hc.
      destruct (copyBody _ _ _ _ _ _ _ _) as [[[[w' mw'] m2] n] ok]. cbn [fst] in *. by rewrite Hc.
    + pose proof (copyBody_status (e_reads env body.1) body.2 0 w1 None (mkMeta "" 0 0 ∅ ∅ 0) 0 Hw1) as Hc.
      destruct (copyBody _ _ _ _ _ _ _ _) as [[[[w' mw'] m2] n] ok]. cbn [fst] in *. by rewrite Hc.
Qed.

(** *** Serving a cached copy *)

(** The header part before the body. *)
Definition stale_header (stale : bool) (w : Writer) : Writer := if stale then Set_ "X-Debswarm-Stale" "true" w else w.

Definition accepts_all : Prop := ∀ n p, e_client env n p = None.

Lemma respond_body code body s w : accepts_all → w_status w = None → w_body w = "" → w_body (respond env code body s w) = body.
Proof.
  intros Hc Hs Hb. unfold respond, Write, sink_write. rewrite Hc. cbn [fst]. unfold WriteHeader. rewrite Hs. cbn. by rewrite Hb.
Qed.

Lemma respond_header code body s w : w_header (respond env code body s w) = w_header w.
Proof. unfold respond, Write. destruct (sink_write _ _). unfold WriteHeader. by repeat case_match. Qed.

Lemma WriteHeader_header c w : w_header (WriteHeader c w) = w_header w.
Proof. unfold WriteHeader. by case_match. Qed.

(** Setting other headers keeps one. *)
Lemma Set_if_header k v k' w : k' ≠ k → w_header (Set_if k v w) !! k' = w_header w !! k'.
Proof. intros Hne. unfold Set_if. case_match; [done|]. cbn. by rewrite lookup_insert_ne. Qed.

Lemma Set_if_body k v w : w_body (Set_if k v w) = w_body w.
Proof. unfold Set_if. by case_match. Qed.

Lemma flag_keeps f w : w_body (flag_header f w) = w_body w ∧
  w_header (flag_header f w) !! "X-Debswarm-Stale" = w_header w !! "X-Debswarm-Stale".
Proof. destruct f; cbn; [|done]. by rewrite lookup_insert_ne. Qed.

(** What the client gets of a readable cached copy. *)
Record served (stale : bool) (has : bool) (body : string) (w : Writer) : Prop := {
  sv_status : w_status w = Some (if has then 304 else 200);
  sv_body : has = false → w_body w = body;
  sv_stale : stale = true → w_header w !! "X-Debswarm-Stale" = Some "true";
}.

Lemma served_304 stale entry body w :
  w_status w = None → (stale = true → w_header w !! "X-Debswarm-Stale" = Some "true") →
  served stale true body (WriteHeader 304 (setValidatorHeaders entry w)).
Proof.
  intros Hs Hst. unfold setValidatorHeaders. constructor; [|done|].
  - by rewrite WriteHeader_status, !Set_if_status, Hs.
  - intros Hx. rewrite WriteHeader_header, !Set_if_header by done. auto.
Qed.

Lemma served_200 stale entry body s ct w :
  accepts_all → w_status w = None → w_body w = "" → (stale = true → w_header w !! "X-Debswarm-Stale" = Some "true") →
  ∀ len, served stale false body (respond env 200 body s (setValidatorHeaders entry (Set_ "Content-Length" len (Set_if "Content-Type" ct w)))).
Proof.
  intros Hc Hs Hb Hst len. unfold setValidatorHeaders. constructor.
  - rewrite respond_status; [done|]. rewrite !Set_if_status. cbn. by rewrite Set_if_status.
  - intros _. rewrite respond_body; [done|done|rewrite !Set_if_status; cbn; by rewrite Set_if_status|].
    rewrite !Set_if_body. cbn. by rewrite Set_if_body.
  - intros Hx. rewrite respond_header, !Set_if_header by done. cbn. rewrite lookup_insert_ne by done.
    rewrite Set_if_header by done. auto.
Qed.

Lemma serveCached_serves r url ix entry body stale s :
  accepts_all →
  served stale (clientHasCurrent r entry) body
    (serveCachedMetadata env cfg r url ix entry (body, true) stale new_writer s).1.
Proof.
  intros Hc. unfold serveCachedMetadata. cbv zeta.
  assert (∃ w1 s1,
    (if stale then (Set_ "X-Debswarm-Stale" "true" new_writer, noteStaleServe url (count_hit (m_Size entry) s))
     else (new_writer, count_hit (m_Size entry) s)) = (w1, s1) ∧
    w_status w1 = None ∧ w_body w1 = "" ∧ (stale = true → w_header w1 !! "X-Debswarm-Stale" = Some "true"))
    as (w1 & s1 & -> & Hs1 & Hb1 & Hst).
  { destruct stale; eexists _, _; (split; [reflexivity|]); split_and!; try done. }
  destruct ix; cbn [andb fst snd negb].
  2: { rewrite andb_true_r. destruct (clientHasCurrent r entry); [by apply served_304|by apply served_200]. }
  set (warm := isVerifiableIndexURL url && _).
  destruct (clientHasCurrent r entry && negb warm) eqn:Hfast.
  { apply andb_prop in Hfast as [-> _]. by apply served_304. }
  assert (∀ w s0, w_status w = None → w_body w = "" → (stale = true → w_header w !! "X-Debswarm-Stale" = Some "true") →
    served stale (clientHasCurrent r entry) body
      (if clientHasCurrent r entry then (WriteHeader 304 (setValidatorHeaders entry w), s0)
       else (respond env 200 body s0 (setValidatorHeaders entry
         (Set_ "Content-Length" (Itoa (Z.of_nat (String.length body))) (Set_ "Content-Type" "application/octet-stream" w))), s0)).1) as Hend.
  { intros w s0 Hw Hb Hh. destruct (clientHasCurrent r entry); [by apply served_304|].
    by apply (served_200 stale entry body s0 "application/octet-stream"). }
  destruct warm; [|by apply Hend]. destruct (checkIndexVerification _ _ _ _ _) as [[allowed flag] s2].
  destruct (flag_keeps flag w1) as [Hb2 Hh2]. apply Hend; [by rewrite flag_status|congruence|by rewrite Hh2].
Qed.

(** The copy of [url] in the cache, and the storage that reads it. *)
Definition holds (url : string) (row : IRow) (body : string) (s : Server) : Prop :=
  ∃ m, cache s = Some m ∧ MetadataEnabled m = true ∧ indices m !! url = Some row ∧ files m !! metadataPath m url = Some body.

Definition storage_ok (url : string) : Prop :=
  ∀ n, Cache.db (e_io env n) (Cache.DbSelectInfo url) = true ∧ (∀ p, Cache.fs (e_io env n) (Cache.FsOpen p) = true) ∧
       e_readable env n = true.

Definition entry_of_row (url : string) (row : IRow) : MetadataEntry :=
  mkEntry url (i_etag row) (i_last_modified row) (i_size row) (i_content_type row) (i_fetched_at row) (i_last_validated row).

Lemma getMetadata_holds url row body s :
  storage_ok url → holds url row body s → (getMetadata env url s).1 = Some (entry_of_row url row, (body, true)).
Proof.
  intros Hio (m & Hm & Hen & Hrow & Hfile). unfold getMetadata. rewrite Hm. unfold GetMetadata.
  destruct (Hio (steps s)) as (Hdb & Hfs & Hrd). unfold MetadataEnabled in Hen.
  replace (metadataMaxSize m <=? 0) with false by (symmetry; blia).
  rewrite Hdb. cbn [negb]. rewrite Hrow, Hfile, Hfs. cbn [fst]. by rewrite Hrd.
Qed.

Lemma cachedOr_holds r url ix stale row body s k :
  accepts_all → storage_ok url → holds url row body s →
  served stale (clientHasCurrent r (entry_of_row url row)) body (cachedOr env cfg r url ix stale new_writer s k).1.
Proof.
  intros Hc Hio Hh. unfold cachedOr. pose proof (getMetadata_holds url row body s Hio Hh) as Hg.
  destruct (getMetadata env url s) as [g s1]. cbn [fst] in Hg. subst g. by apply serveCached_serves.
Qed.

(** The mirrors do not answer. *)
Definition unreachable : Prop := ∀ n q, e_upstream env n q = None.

(** C29: with stale copies allowed, a request for cached metadata is answered from the
    cache when no mirror can be reached, whether or not the monitor already
    knows it is offline: with the cached bytes, or with 304 when the client's
    validators match the cached copy, and marked stale unless the URL is an
    immutable by-hash one. *)
Theorem stale_copy_served r url ix row body s imm :
  accepts_all → storage_ok url → unreachable → holds url row body s →
  metadataServeStale cfg = true → IsImmutableMetadataURL url = Ok imm →
  served (negb imm) (clientHasCurrent r (entry_of_row url row)) body (serveMetadata env cfg r url ix new_writer s).1.
Proof.
  intros Hc Hio Hdown Hh Hst Himm. unfold serveMetadata. cbv zeta.
  assert (caching s = true) as Hca by (destruct Hh as (m & Hm & Hen & _); unfold caching; by rewrite Hm).
  rewrite Hca, Himm, Hst. cbn [andb]. destruct imm; [by apply cachedOr_holds|]. cbn [negb].
  destruct (isOffline s); [by apply cachedOr_holds|]. unfold serveUpstream.
  assert (∃ v s1, metadataValidators env url s = (v, s1) ∧ cache s1 = cache s) as (v & s1 & -> & Hs1).
  { unfold metadataValidators. repeat case_match; eauto. }
  destruct (match v with Some _ => _ | None => _ end) as [[inm ims] hc].
  unfold streamConditional, Mirror.StreamConditional, net_of. cbn [Mirror.n_do]. rewrite Hdown.
  apply cachedOr_holds; [done|done|]. destruct Hh as (m & Hm & Hrest). exists m. cbn [cache tick set_fetcher]. by rewrite Hs1.
Qed.

(** *** 304 *)

(** The client has a copy of its own. *)
Definition conditional (r : Client) : Prop := If_None_Match r ≠ "" ∨ If_Modified_Since r ≠ "".

Lemma clientHas_conditional r entry : clientHasCurrent r entry = true → conditional r.
Proof.
  unfold clientHasCurrent, conditional. rewrite orb_true_iff, !andb_true_iff, !negb_true_iff, !String.eqb_neq. naive_solver.
Qed.

(** A mirror answers 304 only to a request with validators. *)
Definition mirrors_conditional : Prop :=
  ∀ n q resp, e_upstream env n q = Some resp → Mirror.StatusCode resp = 304 → q_ims q ≠ "" ∨ q_inm q ≠ "".

Definition fair304 (r : Client) (w : Writer) : Prop := w_status w = Some 304 → conditional r.

Lemma fair_code r c w : w_status w = Some c → c ≠ 304 → fair304 r w.
Proof. unfold fair304. intros -> Hc [= ->]. done. Qed.

Lemma serveCached_fair r url ix entry rc stale s :
  fair304 r (serveCachedMetadata env cfg r url ix entry rc stale new_writer s).1.
Proof.
  unfold serveCachedMetadata. cbv zeta.
  assert (∃ w1 s1,
    (if stale then (Set_ "X-Debswarm-Stale" "true" new_writer, noteStaleServe url (count_hit (m_Size entry) s))
     else (new_writer, count_hit (m_Size entry) s)) = (w1, s1) ∧ w_status w1 = None) as (w1 & s1 & -> & Hs1).
  { destruct stale; eexists _, _; by split. }
  destruct (clientHasCurrent r entry) eqn:Hhas; [intros _; by eapply clientHas_conditional|]. cbn [andb].
  destruct ix; cbn [andb].
  - destruct (negb rc.2); [cbn [fst]; by apply (fair_code _ 502); [apply http_Error_status|]|].
    set (x := if _ && _ then _ else _). assert (w_status x.1 = None) as Hx.
    { subst x. destruct (_ && _); [|done]. destruct (checkIndexVerification _ _ _ _ _) as [[a f] s2]. cbn [fst]. by rewrite flag_status. }
    destruct x as [w2 s2]. cbn [fst] in *. apply (fair_code _ 200); [|done]. apply respond_status.
    unfold setValidatorHeaders. by rewrite !Set_if_status.
  - apply (fair_code _ 200); [|done]. apply respond_status. unfold setValidatorHeaders. rewrite !Set_if_status. cbn. by rewrite Set_if_status.
Qed.

Lemma fetched_304 url ims inm s cond s1 :
  mirrors_conditional → streamConditional env cfg url ims inm s = (Ok cond, s1) → Mirror.NotModified cond = true → ims ≠ "" ∨ inm ≠ "".
Proof.
  intros Hm. unfold streamConditional, Mirror.StreamConditional, net_of. cbn [Mirror.n_do].
  destruct (e_upstream env _ _) as [resp|] eqn:Hup; [|done].
  destruct (Z.eqb_spec (Mirror.StatusCode resp) 304) as [H304|]; [intros _ _; by apply (Hm _ _ _ Hup)|].
  destruct (_ =? 200); [|done]. by intros [= <- _].
Qed.

Lemma cachedOr_fair r url ix stale s k : (∀ s', fair304 r (k s').1) → fair304 r (cachedOr env cfg r url ix stale new_writer s k).1.
Proof.
  intros Hk. unfold cachedOr. destruct (getMetadata env url s) as [[[entry rc]|] s1]; [apply serveCached_fair|apply Hk].
Qed.

Lemma fetchFresh_fair r url ix s : mirrors_conditional → fair304 r (fetchFreshMetadata env cfg url ix new_writer s).1.
Proof.
  intros Hm. unfold fetchFreshMetadata. destruct (streamConditional _ _ _ _ _ s) as [[cond|] s1] eqn:Hf.
  - destruct (Mirror.NotModified cond) eqn:Hn; [by destruct (fetched_304 _ _ _ _ _ _ Hm Hf Hn)|].
    intros Hx. by apply serveFreshBody_status in Hx.
  - apply (fair_code _ 502); [by apply http_Error_status|done].
Qed.

Lemma serveUpstream_fair r url ix c st s : mirrors_conditional → fair304 r (serveUpstream env cfg r url ix c st new_writer s).1.
Proof.
  intros Hm. unfold serveUpstream. destruct (metadataValidators env url s) as [v s1].
  assert (∀ s, fair304 r (http_Error env "Failed to fetch" 502 s new_writer)) as Hbad.
  { intros s0. apply (fair_code _ 502); [by apply http_Error_status|done]. }
  destruct v as [[et lm]|].
  - destruct (streamConditional _ _ _ _ _ s1) as [[cond|] s2] eqn:Hf.
    + destruct (Mirror.NotModified cond); [|intros Hx; by apply serveFreshBody_status in Hx].
      apply cachedOr_fair. intros s'. by apply fetchFresh_fair.
    + cbv zeta. destruct st; [|apply Hbad]. apply cachedOr_fair. intros s'. apply Hbad.
  - destruct (if negb ix || _ then _ else _) as [[inm ims] hc] eqn:Hv.
    assert (hc = false ∧ (ims ≠ "" ∨ inm ≠ "" → conditional r)) as [-> Hcl].
    { destruct (negb ix || _); injection Hv as <- <- <-; (split; [done|]); unfold conditional; naive_solver. }
    destruct (streamConditional _ _ _ _ _ s1) as [[cond|] s2] eqn:Hf.
    + destruct (Mirror.NotModified cond) eqn:Hn; [intros _; by apply Hcl, (fetched_304 _ _ _ _ _ _ Hm Hf)|].
      intros Hx. by apply serveFreshBody_status in Hx.
    + cbv zeta. destruct st; [|apply Hbad]. apply cachedOr_fair. intros s'. apply Hbad.
Qed.

(** With mirrors that answer 304 only to conditional requests, a client is told
    304 Not Modified only if it sent a validator of a copy of its own, although
    the proxy revalidates with validators the client does not have. *)
Theorem not_modified_only_conditional r url ix s :
  mirrors_conditional → w_status (serveMetadata env cfg r url ix new_writer s).1 = Some 304 → conditional r.
Proof.
  intros Hm. change (fair304 r (serveMetadata env cfg r url ix new_writer s).1). unfold serveMetadata. cbv zeta.
  assert (∀ s', fair304 r (if caching s && metadataServeStale cfg && isOffline s'
    then cachedOr env cfg r url ix true new_writer s'
           (λ s0, serveUpstream env cfg r url ix (caching s) (caching s && metadataServeStale cfg) new_writer s0)
    else serveUpstream env cfg r url ix (caching s) (caching s && metadataServeStale cfg) new_writer s').1) as Hoff.
  { intros s'. case_match; [apply cachedOr_fair; intros|]; by apply serveUpstream_fair. }
  destruct (caching s); [|apply Hoff]. destruct (IsImmutableMetadataURL url) as [[|]|]; [|apply Hoff|done].
  apply cachedOr_fair. apply Hoff.
Qed.
End responses.
(** ** Evaluations *)
#[local] Existing Instance ascii_only.
#[local] Existing Instance toy_sha.
#[local] Existing Instance isort_order.
#[local] Existing Instance PkgIndexSys.no_codecs.
#[local] Existing Instance range_id.

Definition no_time : GoTime := {| time_Parse _ _ := None |}.
#[local] Existing Instance no_time.

(** A library that accepts the signature "good", and a message marked as signed. *)
Definition toy_pgp : OpenPGP := {|
  Entity := string; ReadKeyRing d := Some [d]; ReadArmoredKeyRing d := Some [d];
  clearsign_Decode d := if HasPrefix d "SIGNED:" then Some (str_drop 7 d, "good") else None;
  CheckDetachedSignature _ _ sig := String.eqb sig "good";
  CheckArmoredDetachedSignature _ _ sig := String.eqb sig "good" |}.
#[local] Existing Instance toy_pgp.

Definition good_io : Cache.IO := Cache.mkIO 1000 None (λ _, true) (λ _, true).
Definition ex_env (answer : string → option Mirror.Response) : Env :=
  mkEnv (λ _, good_io) (λ _ q, answer (q_url q)) (λ _, 1000) (λ _, "r") (λ _, true) (λ _ _, None) (λ _ _, None) (λ s, [s]).

Definition ok200 (body etag : string) : option Mirror.Response :=
  Some (Mirror.mkResponse 200 (body, true) (Z.of_nat (String.length body)) "" etag).

Definition ex_cfg (mode : string) : @Config toy_pgp := mkConfig mode (Some ["key"]) [] true [].
Definition ex_server : Server :=
  mkServer (Some (mkMeta "/c" (2^30) 0 ∅ ∅ 0)) PkgIndex.New (Mirror.NewFetcher None) None ∅ ∅ ∅ 0 0 0 0 0 0.
Definition no_client : Client := mkClient "" "".

Definition packages_of (sha : string) : string := PkgIndexSys.print_packages [PkgIndexSys.ex_entry "h/debian" sha].
Definition release_of (path hash : string) : string :=
  unlines ["Origin: Debian"; "MD5Sum:"; " 00 1 other"; "SHA256:"; " " +:+ hash +:+ " 10 " +:+ path; "Acquire-By-Hash: yes"].

Definition run (env : Env) (mode url : string) (s : Server) : option (option Z * option string * Server) :=
  (λ x : Writer * Server, (w_status x.1, w_header x.1 !! "X-Debswarm-Unverified", x.2))
    <$> handleMetadata env (ex_cfg mode) no_client url new_writer s.

Definition dist_base := "http://h/debian/dists/sid/".
Definition plain_url := dist_base +:+ "main/binary-amd64/Packages".
Definition ex_mirror (inrelease index : string) : Env :=
  ex_env (λ u, if String.eqb u (dist_base +:+ "InRelease") then ok200 inrelease "" else ok200 index "e").

Definition sid_release := "SIGNED:" +:+ release_of "main/binary-amd64/Packages" (HashBytes (packages_of "aa")).

(** The signed Release vouches for the index, which is loaded and cached. *)
Example enforce_loads :
  match run (ex_mirror sid_release (packages_of "aa")) "enforce" plain_url ex_server with
  | Some (st, flag, s) => (st, flag, PkgIndex.Filename <$> PkgIndex.GetBySHA256 "aa" (index s), caching s)
  | None => (None, None, None, false)
  end = (Some 200, None, Some "pool/main/v/vim/vim_9.0+deb12_amd64.deb", true).
Proof. vm_compute. reflexivity. Qed.

(** A mirror that serves other bytes below the plain URL is refused. *)
Example enforce_refuses :
  (λ x, (x.1.1, Proxy.index x.2)) <$> run (ex_mirror sid_release ("Tampered: yes" +:+ String LF (packages_of "ee"))) "enforce" plain_url ex_server
  = Some (Some 502, PkgIndex.New).
Proof. vm_compute. reflexivity. Qed.

(** Below the by-hash URL of the genuine index the same bytes are served without a
    flag, and the in-memory index resolves the package to the mirror's hash; only
    the cache notices that they do not hash to the digest in the URL. *)
Definition by_hash_url := dist_base +:+ "main/binary-amd64/by-hash/SHA256/" +:+ HashBytes (packages_of "aa").

Example by_hash_loads_other_bytes :
  match run (ex_mirror sid_release ("Tampered: yes" +:+ String LF (packages_of "ee"))) "enforce" by_hash_url ex_server with
  | Some (st, flag, s) =>
      (st, flag, PkgIndex.Filename <$> PkgIndex.GetBySHA256 "ee" (index s),
       (λ m, HasMetadata m by_hash_url) <$> cache s)
  | None => (None, None, None, None)
  end = (Some 200, None, Some "pool/main/v/vim/vim_9.0+deb12_amd64.deb", Some false).
Proof. vm_compute. reflexivity. Qed.

(** A repository on a host called packages.*: its InRelease is taken for an index,
    served at first, and refused in auto mode as soon as it changes, because the
    Release it was verified against before does not list it. *)
Definition mint_url := "http://packages.linuxmint.com/dists/zara/InRelease".
Definition mint_release (hash : string) := "SIGNED:" +:+ release_of "main/binary-amd64/Packages" hash.
Definition mint_env (hash : string) : Env := ex_env (λ _, ok200 (mint_release hash) hash).

Example packages_host_release_refused :
  classifyRequest mint_url = requestTypeIndex ∧
  match run (mint_env "aa") "auto" mint_url ex_server with
  | Some (st, flag, s) => (st, flag, (λ x, x.1) <$> run (mint_env "bb") "auto" mint_url s)
  | None => (None, None, None)
  end = (Some 200, Some "no-release", Some (Some 502, None)).
Proof. split; vm_compute; reflexivity. Qed.
(** ** The theorems at concrete inputs *)

Definition after_enforce : Server :=
  match handleMetadata (ex_mirror sid_release (packages_of "aa")) (ex_cfg "enforce") no_client plain_url new_writer ex_server with
  | Some (_, s) => s
  | None => ex_server
  end.

(** APT's lists are not read. *)
Definition no_lists (path : string) (f : stream) : Prop := False.

Lemma no_local p : ¬ AptLocalSys.local no_lists p.
Proof. by intros (path & f & r & [] & _). Qed.

Lemma ex_server_inv : proxy_inv (ex_cfg "enforce") no_lists ex_server.
Proof.
  constructor; [apply PkgIndexSys.inv_empty|apply map_Forall_empty|]. intros p (k & gen & Hk & _).
  cbn in Hk. by rewrite lookup_empty in Hk.
Qed.

Lemma after_enforce_step : pstep (ex_cfg "enforce") no_lists ex_server after_enforce.
Proof.
  destruct (handleMetadata (ex_mirror sid_release (packages_of "aa")) (ex_cfg "enforce") no_client plain_url new_writer ex_server)
    as [[w s]|] eqn:Hh.
  - unfold after_enforce. rewrite Hh. by eapply P_request.
  - unfold handleMetadata in Hh. assert (classifyRequest plain_url = requestTypeIndex) as Hc by (vm_compute; reflexivity).
    rewrite Hc in Hh. discriminate.
Qed.

Lemma enforce_index_backed_witness :
  ∃ p, PkgIndex.GetBySHA256 "aa" (index after_enforce) = Some p ∧ backed (ex_cfg "enforce") p.
Proof.
  destruct (PkgIndex.GetBySHA256 "aa" (index after_enforce)) as [p|] eqn:Hp; [|vm_compute in Hp; discriminate].
  exists p. split; [reflexivity|].
  destruct (enforce_index_backed (ex_cfg "enforce") no_lists eq_refl eq_refl ex_server after_enforce "aa" p
    (rtc_once _ _ after_enforce_step) ex_server_inv Hp) as [_ [Hl|(url & data & text & key & He & Hv)]];
    [destruct (no_local p Hl)|]. exists url, data. split; [by exists text, key|exact He].
Defined.


Definition down_env : Env := ex_env (λ _, None).
Definition stale_row : IRow := mkIRow "e" "" 900 "" 4 "" 900 1 900.
Definition contents_url := dist_base +:+ "main/Contents-amd64".
Definition stale_server : Server :=
  set_cache (Some (let m := mkMeta "/c" (2^30) 4 {[contents_url := stale_row]} ∅ 0 in
                   set_files {[metadataPath m contents_url := "body"]} m)) ex_server.

Lemma stale_copy_served_witness :
  served true false "body" (serveMetadata down_env (ex_cfg "auto") no_client contents_url false new_writer stale_server).1.
Proof.
  apply (stale_copy_served (ex_cfg "auto") down_env no_client contents_url false stale_row "body" stale_server false).
  - intros n p. reflexivity.
  - intros n. split_and!; [reflexivity|intros p; reflexivity|reflexivity].
  - intros n q. reflexivity.
  - eexists. split; [reflexivity|]. split_and!; [reflexivity|apply lookup_singleton_eq|apply lookup_singleton_eq].
  - reflexivity.
  - vm_compute. reflexivity.
Defined.

(** A mirror that revalidates. *)
Definition reval_env : Env :=
  mkEnv (λ _, good_io)
    (λ _ q, if String.eqb (q_ims q) "" && String.eqb (q_inm q) "" then ok200 "new" "n"
            else Some (Mirror.mkResponse 304 ("", true) 0 "" "e"))
    (λ _, 1000) (λ _, "r") (λ _, true) (λ _ _, None) (λ _ _, None) (λ s, [s]).

Lemma not_modified_witness :
  w_status (serveMetadata reval_env (ex_cfg "auto") (mkClient "e" "") contents_url false new_writer stale_server).1 = Some 304 ∧
  w_status (serveMetadata reval_env (ex_cfg "auto") no_client contents_url false new_writer stale_server).1 = Some 200 ∧
  conditional (mkClient "e" "").
Proof.
  assert (w_status (serveMetadata reval_env (ex_cfg "auto") (mkClient "e" "") contents_url false new_writer stale_server).1
    = Some 304) as Hs by (vm_compute; reflexivity).
  split; [exact Hs|]. split; [vm_compute; reflexivity|].
  apply (not_modified_only_conditional (ex_cfg "auto") reval_env (mkClient "e" "") contents_url false stale_server); [|exact Hs].
  intros n q resp. cbn [e_upstream reval_env]. destruct (String.eqb_spec (q_ims q) "") as [|Hne]; [|by left].
  destruct (String.eqb_spec (q_inm q) "") as [|Hne]; [|by right]. cbn. by intros [= <-].
Defined.
End ProxySys.
