(* ===== verification/PkgServe.v ===== *)
(** * internal/proxy/server.go: serving packages

    A package request: the hash from the index, the package cache, then the fleet,
    the parallel downloader, up to three peers and the mirror, until one of them
    delivers bytes with that hash.  What the fleet coordinator, the peers and the
    DHT answer is given by the surroundings; the parallel downloader is an
    interface.  Metrics, the audit log and the asynchronous multi-source check are
    left out. *)

From S2P Require Import Prelude GoStd GoText GoNet GoNum HashUtil DebName Sql Cache MetaCache Security PkgIndex Release Retry Mirror.
From S2P Require Import Downloader Scorer Proxy ProxyMeta.
From Stdlib Require Import Ascii.
Open Scope Z_scope.
Open Scope go_scope.

(** ** What the parallel downloader promises

    The result is in memory or in a file, and has been checked against the hash. *)
Record Fetched := mkFetched {
  f_data : option string;     (* [None] for a result in a file *)
  f_path : string; f_file : string;
  f_size : Z; f_source : string; f_peerBytes : Z; f_mirrorBytes : Z;
}.

Definition fetched_bytes (r : Fetched) : string := default (f_file r) (f_data r).

Class ParallelDownloader `{Sha256} := {
  par_Download : nat → string → Z → list string → option Fetched;
  par_verified n hash size peers r :
    par_Download n hash size peers = Some r → HashBytes (fetched_bytes r) = hash;
}.

Module PkgServe.
Import Release Gpg Proxy ProxyMeta.

Inductive WaitOutcome := WaitDone | WaitFailed | WaitTimeout.

Inductive FleetAction := ActionFetchWAN | ActionFetchLAN (provider : string) | ActionWaitPeer (provider : string) (o : WaitOutcome).

(** What is told to the fleet. *)
Inductive FleetNote := NotifyFetching (h : string) | NotifyComplete (h : string) | NotifyFailed (h : string).

(** The surroundings of a package request, besides those of [Env]: the decision of
    [WantPackage] ([None] is an error), whether the peer store has addresses for a
    peer, what a peer sends for a hash, the ranked providers, and how much of an
    open file of the cache can be read ([Some n]: an error after [n] bytes). *)
Record PEnv := mkPEnv {
  pe : Env;
  pe_want : nat → option FleetAction;
  pe_addrs : nat → string → bool;
  pe_peer : nat → string → string → option string;
  pe_providers : nat → option (list string);
  pe_canceled : Z → bool;
  pe_read : nat → string → option nat;
}.

(** [filepath.Dir]. *)
Definition filepath_Dir (p : string) : string :=
  Clean (match LastIndexByte slash p with Some i => str_take (S i) p | None => "" end).

Section server.
Context `{GoUnicode, GoTime, OpenPGP, SqlOrder, Decompressors, GoRange, ParallelDownloader}.

Record PkgServer := mkPS {
  srv : Server;
  pkgs : Cache.Cache;
  scorer : Scorer.Scorer;
  announceChan : list string;
  indexWarmed : bool;
  uncachedHostsSeen : gset string;
  requestsP2P : Z; bytesFromP2P : Z; cacheHits : Z;
  notes : list FleetNote;
}.

Definition set_srv x s := mkPS x (pkgs s) (scorer s) (announceChan s) (indexWarmed s) (uncachedHostsSeen s)
  (requestsP2P s) (bytesFromP2P s) (cacheHits s) (notes s).
Definition set_pkgs c s := mkPS (tick (srv s)) c (scorer s) (announceChan s) (indexWarmed s) (uncachedHostsSeen s)
  (requestsP2P s) (bytesFromP2P s) (cacheHits s) (notes s).
Definition set_scorer x s := mkPS (srv s) (pkgs s) x (announceChan s) (indexWarmed s) (uncachedHostsSeen s)
  (requestsP2P s) (bytesFromP2P s) (cacheHits s) (notes s).
Definition set_announce l s := mkPS (srv s) (pkgs s) (scorer s) l (indexWarmed s) (uncachedHostsSeen s)
  (requestsP2P s) (bytesFromP2P s) (cacheHits s) (notes s).
Definition set_warmed x s := mkPS x (pkgs s) (scorer s) (announceChan s) true (uncachedHostsSeen s)
  (requestsP2P s) (bytesFromP2P s) (cacheHits s) (notes s).
Definition set_seen m s := mkPS (srv s) (pkgs s) (scorer s) (announceChan s) (indexWarmed s) m
  (requestsP2P s) (bytesFromP2P s) (cacheHits s) (notes s).
Definition count_p2p r b s := mkPS (srv s) (pkgs s) (scorer s) (announceChan s) (indexWarmed s) (uncachedHostsSeen s)
  (requestsP2P s +₆₄ r) (bytesFromP2P s +₆₄ b) (cacheHits s) (notes s).
Definition count_cacheHit s := mkPS (srv s) (pkgs s) (scorer s) (announceChan s) (indexWarmed s) (uncachedHostsSeen s)
  (requestsP2P s) (bytesFromP2P s) (cacheHits s +₆₄ 1) (notes s).
Definition note x s := mkPS (srv s) (pkgs s) (scorer s) (announceChan s) (indexWarmed s) (uncachedHostsSeen s)
  (requestsP2P s) (bytesFromP2P s) (cacheHits s) (notes s ++ [x]).

Definition now_step (s : PkgServer) : nat := steps (srv s).

Definition count_mirrorReq (s : PkgServer) : PkgServer :=
  set_srv (set_counters (metadataHits (srv s)) (metadataMisses (srv s)) (metadataBytesSaved (srv s))
             (requestsMirror (srv s) +₆₄ 1) (bytesFromMirror (srv s)) (srv s)) s.
Definition count_mirrorBytes (n : Z) (s : PkgServer) : PkgServer :=
  set_srv (set_counters (metadataHits (srv s)) (metadataMisses (srv s)) (metadataBytesSaved (srv s))
             (requestsMirror (srv s)) (bytesFromMirror (srv s) +₆₄ n) (srv s)) s.

(** [hasNode], [hasFleet]: whether [s.p2pNode] and [s.fleet] are set. *)
Context (env : PEnv) (cfg : Config) (hasNode hasFleet : bool).

Definition io_of (s : PkgServer) : Cache.IO := e_io (pe env) (now_step s).

(** ** Storing what was downloaded *)

Definition put_data (chunks : list string) (ok : bool) (s : PkgServer) : Cache.PutData :=
  Cache.mkPutData chunks ok (e_file (pe env) (now_step s)) (e_rand (pe env) (now_step s)).

Definition announceAsync (h : string) (s : PkgServer) : PkgServer :=
  if negb hasNode then s
  else if (length (announceChan s) <? 100)%nat then set_announce (announceChan s ++ [h]) s else s.

(** [verifyAndCache]: true when the error is nil. *)
Definition verifyAndCache (data h path : string) (s : PkgServer) : bool * PkgServer :=
  match Cache.Put (io_of s) (put_data [data] true s) h path (pkgs s) with
  | (Ok _, c) => (true, announceAsync h (set_pkgs c s))
  | (Err Cache.ErrHashMismatch, c) => (false, set_pkgs c s)
  | (Err _, c) => (String.eqb (HashBytes data) h, set_pkgs c s)
  end.

Definition cacheAndAnnounce (data h path : string) (s : PkgServer) : PkgServer :=
  match Cache.Put (io_of s) (put_data [data] true s) h path (pkgs s) with
  | (Ok _, c) => announceAsync h (set_pkgs c s)
  | (Err _, c) => set_pkgs c s
  end.

Definition blacklist (id reason : string) (s : PkgServer) : PkgServer :=
  set_scorer (Scorer.Blacklist (e_now (pe env) (now_step s)) id reason (24 * 3600 * GoNum.Second) (scorer s)) s.

Definition downloadFromFleetPeer (provider h path : string) (s : PkgServer) : option string * PkgServer :=
  if negb (pe_addrs env (now_step s) provider) then (None, s)
  else
    match pe_peer env (now_step s) provider h with
    | None => (None, s)
    | Some data =>
        let '(ok, s) := verifyAndCache data h path s in
        if ok then (Some data, s) else (None, blacklist provider "fleet hash mismatch" s)
    end.

(** ** Downloading *)

Record packageDownloadResult := mkResult {
  r_data : string; r_hash : string; r_size : Z; r_source : string; r_serveFromCache : bool }.

Definition peerResult (data h : string) : packageDownloadResult := mkResult data h 0 "peer" false.

(** The fleet: a result, or go on. *)
Definition fleetPhase (h path : string) (s : PkgServer) : option packageDownloadResult * PkgServer :=
  let lan provider s :=
    match downloadFromFleetPeer provider h path s with
    | (Some data, s) => (Some (peerResult data h), count_p2p 1 (Z.of_nat (String.length data)) s)
    | (None, s) => (None, s)
    end in
  match pe_want env (now_step s) with
  | Some (ActionFetchLAN p) => lan p s
  | Some (ActionWaitPeer p WaitDone) => lan p s
  | _ => (None, s)
  end.

Definition processDownloadSuccess (r : Fetched) (h path : string) (s : PkgServer) : packageDownloadResult * PkgServer :=
  let s := count_mirrorBytes (f_mirrorBytes r) (count_p2p 0 (f_peerBytes r) s) in
  let s := if f_mirrorBytes r <? f_peerBytes r then count_p2p 1 0 s else count_mirrorReq s in
  match f_data r with
  | Some data => (mkResult data h 0 (f_source r) false, cacheAndAnnounce data h path s)
  | None =>
      let dir := filepath_Dir (f_path r) in
      let clean c := Cache.set_disk (Downloader.removeAll dir (Cache.disk c)) c in
      let c := Cache.set_disk (<[f_path r := f_file r]> (Cache.disk (pkgs s))) (pkgs s) in
      let fromCache := mkResult "" h (f_size r) (f_source r) true in
      match Cache.PutFile (io_of s) (f_path r) h path (f_size r) c with
      | (Ok _, c) => (fromCache, announceAsync h (set_pkgs (clean c) s))
      | (Err _, c) =>
          let read := if e_readable (pe env) (now_step s) then Cache.disk c !! f_path r else None in
          (match read with
           | Some data => mkResult data h (f_size r) (f_source r) false
           | None => fromCache
           end, set_pkgs (clean c) s)
      end
  end.

(** Up to three peers, one after the other. *)
Fixpoint tryPeers (peers : list string) (h path : string) (s : PkgServer) : option packageDownloadResult * PkgServer :=
  match peers with
  | [] => (None, s)
  | p :: rest =>
      match pe_peer env (now_step s) p h with
      | None => tryPeers rest h path s
      | Some data =>
          let '(ok, s) := verifyAndCache data h path s in
          if ok then (Some (peerResult data h), count_p2p 1 (Z.of_nat (String.length data)) s)
          else tryPeers rest h path (blacklist p "hash mismatch" s)
      end
  end.

Definition set_fetching (f : Mirror.Fetcher) (n : nat) (s : PkgServer) : PkgServer :=
  set_srv (Nat.iter n tick (set_fetcher f (srv s))) s.

(** The mirror: streamed into the cache, or into memory when that cannot store it. *)
Definition mirrorFallback (url h path : string) (s : PkgServer) : option packageDownloadResult * PkgServer :=
  let s := count_mirrorReq s in
  let w := net_of (pe env) cfg url "" "" in
  let '(r, f) := Mirror.Stream w url (now_step s) (fetcher (srv s)) in
  let s := set_fetching f 1 s in
  match r with
  | Err _ => (None, s)
  | Ok (body, _) =>
      let chunks := e_reads (pe env) body.1 in
      match Cache.Put (io_of s) (put_data chunks body.2 s) h path (pkgs s) with
      | (Ok _, c) =>
          let size := Z.of_nat (String.length (String.concat "" chunks)) in
          (Some (mkResult "" h size "mirror" true), announceAsync h (count_mirrorBytes size (set_pkgs c s)))
      | (Err Cache.ErrHashMismatch, c) => (None, set_pkgs c s)
      | (Err _, c) =>
          let s := set_pkgs c s in
          let '(r, n, f) := Mirror.Fetch w (pe_canceled env) url (now_step s) (fetcher (srv s)) in
          let s := set_fetching f (n - now_step s) s in
          match r with
          | Err _ => (None, s)
          | Ok data =>
              if String.eqb (HashBytes data) h
              then (Some (mkResult data h 0 "mirror" false), count_mirrorBytes (Z.of_nat (String.length data)) s)
              else (None, s)
          end
      end
  end.

(** The part between [NotifyFetching] and the deferred notification. *)
Definition downloadWAN (url h : string) (size : Z) (path : string) (s : PkgServer) : option packageDownloadResult * PkgServer :=
  let peers := if hasNode then default [] (pe_providers env (now_step s)) else [] in
  let par := if (0 <? size) && negb (length peers =? 0)%nat then par_Download (now_step s) h size peers else None in
  match par with
  | Some r => let '(res, s) := processDownloadSuccess r h path s in (Some res, s)
  | None =>
      match tryPeers (take 3 peers) h path s with
      | (Some res, s) => (Some res, s)
      | (None, s) => mirrorFallback url h path s
      end
  end.

Definition downloadPackage (url h : string) (size : Z) (path : string) (s : PkgServer) : option packageDownloadResult * PkgServer :=
  match (if hasFleet then fleetPhase h path s else (None, s)) with
  | (Some res, s) => (Some res, s)
  | (None, s) =>
      let s := if hasFleet then note (NotifyFetching h) s else s in
      let '(res, s) := downloadWAN url h size path s in
      (res, if hasFleet then note (match res with Some _ => NotifyComplete h | None => NotifyFailed h end) s else s)
  end.

(** ** Responses *)

Definition sink_now (s : PkgServer) : Sink := e_client (pe env) (now_step s).

Definition debType := "application/vnd.debian.binary-package".

(** [io.Copy] of an open file of the cache to the client, whose result is discarded:
    the bytes before a read error are sent below the 200, and no more. *)
Definition sendReader (tr : Cache.trackedReader) (c : Cache.Cache) (w : Writer) (s : PkgServer) : Writer * PkgServer :=
  let read := match pe_read env (now_step s) (Cache.tr_file tr) with
              | None => Cache.tr_file tr
              | Some n => str_take n (Cache.tr_file tr)
              end in
  ((Write (sink_now s) read (WriteHeader 200 w)).1.1, set_pkgs (Cache.Close tr c).2 s).

(** [serveFromCache]: [None] when nothing was written. *)
Definition serveFromCache (h : string) (w : Writer) (s : PkgServer) : option Writer * PkgServer :=
  match Cache.Get (io_of s) h (pkgs s) with
  | (Err _, c) => (None, set_pkgs c s)
  | (Ok (tr, pkg), c) =>
      let w := Set_ "X-Debswarm-Source" "cache" (Set_ "Content-Length" (Itoa (Cache.Size pkg)) (Set_ "Content-Type" debType w)) in
      let '(w, s) := sendReader tr c w s in (Some w, s)
  end.

Definition servePackageResult (r : packageDownloadResult) (w : Writer) (s : PkgServer) : Writer * PkgServer :=
  if r_serveFromCache r then
    match Cache.Get (io_of s) (r_hash r) (pkgs s) with
    | (Err _, c) => (Error (sink_now s) "Cache error" 500 w, set_pkgs c s)
    | (Ok (tr, _), c) =>
        let w := Set_if "X-Debswarm-Source" (r_source r)
                   (Set_ "Content-Length" (Itoa (r_size r)) (Set_ "Content-Type" debType w)) in
        sendReader tr c w s
    end
  else
    let w := Set_if "X-Debswarm-Source" (r_source r)
               (Set_ "Content-Length" (Itoa (Z.of_nat (String.length (r_data r)))) (Set_ "Content-Type" debType w)) in
    ((Write (sink_now s) (r_data r) (WriteHeader 200 w)).1.1, s).

Definition noteUncachedServe (rawURL : string) (s : PkgServer) : PkgServer :=
  let host := match url_Parse rawURL with
              | Some u => if String.eqb (u_Host u) "" then rawURL else u_Host u
              | None => rawURL
              end in
  set_seen ({[host]} ∪ uncachedHostsSeen s) s.

Definition streamUncachedPackage (url : string) (w : Writer) (s : PkgServer) : Writer * PkgServer :=
  let '(r, f) := Mirror.Stream (net_of (pe env) cfg url "" "") url (now_step s) (fetcher (srv s)) in
  let s := set_fetching f 1 s in
  match r with
  | Err _ => (Error (sink_now s) "Failed to fetch package" 502 w, s)
  | Ok (body, size) =>
      let s := count_mirrorReq s in
      let w := Set_ "Content-Type" debType w in
      let w := if 0 <=? size then Set_ "Content-Length" (Itoa size) w else w in
      let w := WriteHeader 200 (Set_ "X-Debswarm-Source" "mirror" w) in
      let '(w, n, _) := Write (sink_now s) body.1 w in
      (w, count_mirrorBytes (Z.of_nat n) s)
  end.

(** ** The request *)

(** The index entry of a URL, if its hash has the right form. *)
Definition resolve (url : string) (s : PkgServer) : option PkgIndex.PackageInfo :=
  match PkgIndex.GetByURLPath url (index (srv s)) with
  | Some pkg =>
      if (String.length (PkgIndex.SHA256 pkg) =? 64)%nat
      then match DecodeString (PkgIndex.SHA256 pkg) with Some _ => Some pkg | None => None end
      else None
  | None => None
  end.

Definition warmIndexFromCacheOnce (s : PkgServer) : PkgServer :=
  if indexWarmed s then s else set_warmed (warmIndexFromCache (pe env) cfg (srv s)) s.

Definition servePackage (url : string) (pkg : PkgIndex.PackageInfo) (w : Writer) (s : PkgServer) : Writer * PkgServer :=
  let h := PkgIndex.SHA256 pkg in
  let '(cached, s) := if Cache.Has (pkgs s) h then serveFromCache h w s else (None, s) in
  match cached with
  | Some w => (w, count_cacheHit s)
  | None =>
      if isOffline (srv s) then (Error (sink_now s) "package not cached and node is offline" 503 w, s)
      else
        match downloadPackage url h (PkgIndex.Size pkg) (PkgIndex.Filename pkg) s with
        | (None, s) => (Error (sink_now s) "Failed to fetch package" 502 w, s)
        | (Some r, s) => servePackageResult r w s
        end
  end.

Definition handlePackageRequest (url : string) (w : Writer) (s : PkgServer) : Writer * PkgServer :=
  match resolve url s with
  | Some pkg => servePackage url pkg w s
  | None =>
      let s := warmIndexFromCacheOnce s in
      match resolve url s with
      | Some pkg => servePackage url pkg w s
      | None => streamUncachedPackage url w (noteUncachedServe url s)
      end
  end.
End server.
End PkgServe.
