(* ===== verification/PkgServeSys.v ===== *)
(** * Properties of package requests

    Whatever fleet members, peers, mirrors and the storage do, the bytes a client
    gets for a package of the index have the SHA-256 the index lists; the parallel
    downloader discharges the interface this rests on; and the fleet is told the
    end of every download it was told the beginning of. *)

From S2P Require Import Prelude GoStd GoText GoNet GoNum HashUtil DebName Sql Cache CacheFacts CacheSys MetaCache Security PkgIndex.
From S2P Require Import PkgIndexSys Release Retry Mirror MirrorSys DlState Downloader DownloaderSys Scorer Proxy ProxyMeta ProxySys PkgServe.
From Stdlib Require Import Ascii.
Open Scope Z_scope.
Open Scope go_scope.

Module PkgServeSys.
Import Release Gpg Proxy ProxyMeta PkgServe.

(** ** Storing keeps the directory *)
Section base.
Context `{SqlOrder, GoUnicode, Sha256}.

Lemma Put_base io pd h f c : Cache.basePath (Cache.Put io pd h f c).2 = Cache.basePath c.
Proof.
  unfold Cache.Put. destruct (negb _); [done|]. destruct (io_Copy _ _ _ _ _) as [[hw sz] ok].
  destruct (negb ok); [done|]. destruct (negb _); [done|]. destruct (negb _); [done|].
  pose proof (CacheFacts.commit_base io (Cache.pendingPath c h (Cache.pd_rand pd)) h f sz
    (Cache.set_disk (<[Cache.pendingPath c h (Cache.pd_rand pd) := hw_out hw]> (Cache.disk c)) c)) as Hb.
  destruct (Cache.commitVerifiedFile _ _ _ _ _ _) as [[u|e] c2]; exact Hb.
Qed.

Lemma Get_base io h c : Cache.basePath (Cache.Get io h c).2 = Cache.basePath c.
Proof.
  unfold Cache.Get. destruct (Cache.disk c !! _); [|done]. destruct (Cache.fs io _); [|done].
  destruct (Cache.getPackageInfo _ _ _); [done|]. unfold Cache.decReader. by destruct (_ <=? 0).
Qed.

Lemma Close_base tr c : Cache.basePath (Cache.Close tr c).2 = Cache.basePath c.
Proof. unfold Cache.Close, Cache.decReader. destruct (Cache.tr_closed tr); [done|]. by destruct (_ <=? 0). Qed.

(** Bytes accepted by [Put] have the hash. *)
Lemma Put_hash {P} io pd h f c l :
  CacheFacts.Held P c l → (Cache.Put io pd h f c).1 = Ok tt → HashBytes (Join (Cache.pd_chunks pd) "") = h.
Proof.
  intros Hi. destruct (Cache.Put io pd h f c) as [r c'] eqn:Hp. cbn [fst]. intros ->.
  by destruct (CacheSys.Put_ok io pd h f c l c' Hi Hp) as [Hh _].
Qed.

(** [PutFile] leaves its source as it was or removes it. *)
Lemma PutFile_source {P} io fp h f sz c l :
  CacheFacts.Held P c l → CacheFacts.outside c fp → valid_hash h = true →
  let d' := Cache.disk (Cache.PutFile io fp h f sz c).2 in d' !! fp = Cache.disk c !! fp ∨ d' !! fp = None.
Proof.
  intros Hi Ho Hv. unfold Cache.PutFile. pose proof (CacheFacts.commit_cases io fp h f sz c) as Hcc.
  destruct (CacheFacts.ensureSpace_outside io sz c l fp Hi Ho) as [Hb Hd].
  destruct (Cache.ensureSpace io sz c) as [r1 c1]. destruct (Cache.commitVerifiedFile _ _ _ _ _ _) as [r c']. cbn [snd] in *.
  assert (∀ d, Cache.moveIntoPlace io fp (Cache.packagePath c1 h) (Cache.disk c1) = Some d → d !! fp = Cache.disk c !! fp ∨ d !! fp = None)
    as Hmove.
  { intros d. unfold Cache.moveIntoPlace, Cache.os_Remove. rewrite <- Hd. destruct (Cache.disk c1 !! Cache.packagePath c1 h).
    - destruct (Cache.disk c1 !! fp) eqn:Hfp; [|intros [= <-]; auto].
      destruct (Cache.fs io _); intros [= <-]; [right; apply lookup_delete_eq|auto].
    - destruct (Cache.disk c1 !! fp) eqn:Hfp; [|done]. destruct (Cache.fs io _); [|done]. intros [= <-]. right.
      rewrite lookup_insert_ne, lookup_delete_eq; [done|]. rewrite (CacheFacts.packagePath_base c1 c h Hb). apply not_eq_sym. by apply Ho. }
  destruct Hcc as [(e & _ & -> & _)|(_ & d & Hmv & [(_ & _ & ->)|(_ & ->)])]; [by left|by apply Hmove..].
Qed.
End base.

Section safety.
Context `{GoUnicode, GoTime, OpenPGP, SqlOrder, Decompressors, GoRange, ParallelDownloader}.
Context (env : PEnv) (cfg : Config) (hasNode hasFleet : bool).

(** The directory of the cache and the readers other requests have open. *)
Context (base : string) (open : list Cache.trackedReader).

(** A result in a file is outside the directory of the packages. *)
Definition apart (r : Fetched) : Prop :=
  ∀ c h, Cache.basePath c = base → valid_hash h = true →
    f_path r ≠ Cache.packagePath c h ∧ HasPrefix (Cache.packagePath c h) (filepath_Dir (f_path r) +:+ "/") = false.

Context (Hapart : ∀ n h sz ps r, par_Download n h sz ps = Some r → f_data r = None → apart r ∧ 0 <= f_size r).

Definition sound (s : PkgServer) : Prop := CacheFacts.Core (pkgs s) open ∧ Cache.basePath (pkgs s) = base.

Lemma sound_pkgs s s' : pkgs s' = pkgs s → sound s → sound s'.
Proof. unfold sound. by intros ->. Qed.

Lemma Put_sound pd h f s : sound s → sound (set_pkgs (Cache.Put (io_of env s) pd h f (pkgs s)).2 s).
Proof. intros [Hi Hb]. split; [by apply CacheFacts.Put_inv|]. cbn [pkgs set_pkgs]. by rewrite Put_base. Qed.

Lemma announce_pkgs h s : pkgs (announceAsync hasNode h s) = pkgs s.
Proof. unfold announceAsync. by repeat case_match. Qed.

(** A result that may be served for [h]. *)
Definition servable (h : string) (r : packageDownloadResult) : Prop :=
  r_hash r = h ∧ (r_serveFromCache r = false → HashBytes (r_data r) = h).

Definition delivers (h : string) (x : option packageDownloadResult * PkgServer) : Prop :=
  sound x.2 ∧ ∀ r, x.1 = Some r → servable h r.

Lemma verifyAndCache_sound data h path s :
  sound s → let '(ok, s') := verifyAndCache env hasNode data h path s in sound s' ∧ (ok = true → HashBytes data = h).
Proof.
  intros Hs. unfold verifyAndCache. pose proof (Put_sound (put_data env [data] true s) h path s Hs) as Hp.
  pose proof (Put_hash (io_of env s) (put_data env [data] true s) h path (pkgs s) open (proj1 Hs)) as Hh.
  destruct (Cache.Put _ _ _ _ _) as [[[]|e] c]; cbn [fst snd] in *.
  - split; [by eapply sound_pkgs; [apply announce_pkgs|]|]. intros _. by apply Hh.
  - destruct e; (split; [done|]); try done; by intros ->%String.eqb_eq.
Qed.

Lemma fleetPeer_sound p h path s :
  sound s → let '(d, s') := downloadFromFleetPeer env hasNode p h path s in
  sound s' ∧ ∀ data, d = Some data → HashBytes data = h.
Proof.
  intros Hs. unfold downloadFromFleetPeer. destruct (negb _); [done|]. destruct (pe_peer _ _ _ _) as [data|]; [|done].
  pose proof (verifyAndCache_sound data h path s Hs) as Hv. destruct (verifyAndCache _ _ _ _ _ _) as [[|] s1]; destruct Hv as [Hs1 Hv].
  - split; [done|]. intros d [= <-]. auto.
  - split; [by eapply sound_pkgs|done].
Qed.

Lemma fleetPhase_delivers h path s : sound s → delivers h (fleetPhase env hasNode h path s).
Proof.
  intros Hs. unfold fleetPhase.
  assert (∀ p, delivers h (match downloadFromFleetPeer env hasNode p h path s with
    | (Some data, s) => (Some (peerResult data h), count_p2p 1 (Z.of_nat (String.length data)) s)
    | (None, s) => (None, s) end)) as Hlan.
  { intros p. pose proof (fleetPeer_sound p h path s Hs) as Hf.
    destruct (downloadFromFleetPeer _ _ _ _ _ _) as [[data|] s1]; destruct Hf as [Hs1 Hf]; [|by split].
    split; [by eapply sound_pkgs|]. intros r [= <-]. split; [done|]. intros _. by apply Hf. }
  destruct (pe_want env _) as [[|p|p []]|]; try apply Hlan; by split.
Qed.

Lemma tryPeers_delivers peers h path s : sound s → delivers h (tryPeers env hasNode peers h path s).
Proof.
  revert s. induction peers as [|p peers IH]; intros s Hs; [by split|]. cbn [tryPeers].
  destruct (pe_peer env _ p h) as [data|]; [|by apply IH].
  pose proof (verifyAndCache_sound data h path s Hs) as Hv. destruct (verifyAndCache _ _ _ _ _ _) as [[|] s1]; destruct Hv as [Hs1 Hv].
  - split; [by eapply sound_pkgs|]. intros r [= <-]. split; [done|]. auto.
  - apply IH. by eapply sound_pkgs.
Qed.

Lemma mirrorFallback_delivers url h path s : sound s → delivers h (mirrorFallback env cfg hasNode url h path s).
Proof.
  intros Hs. unfold mirrorFallback. cbv zeta. destruct (Mirror.Stream _ _ _ _) as [r f].
  set (s1 := set_fetching f 1 (count_mirrorReq s)). assert (sound s1) as Hs1 by by eapply sound_pkgs.
  destruct r as [[body sz]|e]; [|by split].
  pose proof (Put_sound (put_data env (e_reads (pe env) body.1) body.2 s1) h path s1 Hs1) as Hp.
  destruct (Cache.Put _ _ _ _ _) as [[[]|e] c]; cbn [snd] in Hp.
  - split; [eapply sound_pkgs; [apply announce_pkgs|]; by eapply sound_pkgs|]. by intros r [= <-].
  - assert (delivers h (let s2 := set_pkgs c s1 in
        let '(r, n, f) := Mirror.Fetch (net_of (pe env) cfg url "" "") (pe_canceled env) url (now_step s2) (fetcher (srv s2)) in
        let s2 := set_fetching f (n - now_step s2) s2 in
        match r with
        | Err _ => (None, s2)
        | Ok data => if String.eqb (HashBytes data) h
                     then (Some (mkResult data h 0 "mirror" false), count_mirrorBytes (Z.of_nat (String.length data)) s2)
                     else (None, s2)
        end)) as Hfetch.
    { cbv zeta. destruct (Mirror.Fetch _ _ _ _ _) as [[[data|] n] f2]; [|split; [by eapply sound_pkgs|done]].
      destruct (String.eqb_spec (HashBytes data) h) as [Hh|]; [|split; [by eapply sound_pkgs|done]].
      split; [by eapply sound_pkgs|]. intros r [= <-]. by split. }
    destruct e; try exact Hfetch. by split.
Qed.

(** Removing the assembly directory keeps the packages. *)
Lemma clean_inv r c l : CacheFacts.Core c l → Cache.basePath c = base → apart r →
  CacheFacts.Core (Cache.set_disk (Downloader.removeAll (filepath_Dir (f_path r)) (Cache.disk c)) c) l.
Proof.
  intros Hi Hb Ha. apply CacheFacts.disk_outside_inv; [done|]. intros h Hv. destruct (Ha c h Hb Hv) as [_ Hp].
  unfold Downloader.removeAll. rewrite map_lookup_filter. destruct (Cache.disk c !! _); cbn; [|done].
  by rewrite option_guard_True.
Qed.

Lemma process_delivers n size ps r h path s :
  par_Download n h size ps = Some r → sound s →
  delivers h (let '(res, s) := processDownloadSuccess env hasNode r h path s in (Some res, s)).
Proof using Hapart.
  intros Hr Hs. pose proof (par_verified _ _ _ _ _ Hr) as Hh. unfold fetched_bytes in Hh.
  unfold processDownloadSuccess. cbv zeta. set (s1 := if _ <? _ then _ else _).
  assert (sound s1) as Hs1 by (subst s1; destruct (_ <? _); by eapply sound_pkgs). clearbody s1. clear Hs.
  destruct (f_data r) as [data|] eqn:Hd; cbn [default] in Hh.
  - split; [|intros x [= <-]; by split]. unfold cacheAndAnnounce.
    pose proof (Put_sound (put_data env [data] true s1) h path s1 Hs1) as Hp.
    destruct (Cache.Put _ _ _ _ _) as [[u|e] c]; [eapply sound_pkgs; [apply announce_pkgs|done]|done].
  - destruct (Hapart _ _ _ _ _ Hr Hd) as [Ha Hsz]. destruct Hs1 as [Hi Hb].
    set (c0 := Cache.set_disk (<[f_path r := f_file r]> (Cache.disk (pkgs s1))) (pkgs s1)).
    assert (CacheFacts.Core c0 open) as Hi0.
    { apply CacheFacts.disk_outside_inv; [done|]. intros h' Hv. destruct (Ha (pkgs s1) h' Hb Hv) as [Hne _].
      by rewrite lookup_insert_ne. }
    assert (CacheFacts.outside c0 (f_path r)) as Hout by (intros h' Hv; by apply (Ha c0 h')).
    assert (valid_hash h = true) as Hvh by (rewrite <- Hh; apply HashBytes_valid).
    assert (CacheFacts.Core (Cache.PutFile (io_of env s1) (f_path r) h path (f_size r) c0).2 open) as Hi1.
    { apply (CacheFacts.commit_inv _ _ _ _ _ _ _ (f_file r)); [done|done|done|done|done|apply lookup_insert_eq|done]. }
    assert (Cache.disk (Cache.PutFile (io_of env s1) (f_path r) h path (f_size r) c0).2 !! f_path r = Some (f_file r)
            ∨ Cache.disk (Cache.PutFile (io_of env s1) (f_path r) h path (f_size r) c0).2 !! f_path r = None) as Hfile.
    { pose proof (PutFile_source (io_of env s1) (f_path r) h path (f_size r) c0 open Hi0 Hout Hvh) as Hp. cbv zeta in Hp.
      cbn [c0 Cache.disk Cache.set_disk] in Hp. by rewrite lookup_insert_eq in Hp. }
    pose proof (CacheFacts.commit_base (io_of env s1) (f_path r) h path (f_size r) c0) as Hb1.
    change (Cache.commitVerifiedFile (io_of env s1) (f_path r) h path (f_size r) c0) with
      (Cache.PutFile (io_of env s1) (f_path r) h path (f_size r) c0) in Hb1.
    change (Cache.basePath c0) with (Cache.basePath (pkgs s1)) in Hb1. rewrite Hb in Hb1.
    destruct (Cache.PutFile _ _ _ _ _ _) as [[u|e] c]; cbn [snd] in *.
    + split; [|by intros x [= <-]]. eapply sound_pkgs; [apply announce_pkgs|]. split; [|done].
      by apply clean_inv.
    + split; [split; [by apply clean_inv|done]|].
      cbn [fst]. intros x [= <-]. destruct (e_readable _ _); [|by split].
      destruct Hfile as [-> | ->]; by split.
Qed.

Lemma downloadWAN_delivers url h size path s : sound s → delivers h (downloadWAN env cfg hasNode url h size path s).
Proof using Hapart.
  intros Hs. unfold downloadWAN. cbv zeta. set (peers := if hasNode then _ else _). destruct (if _ && _ then _ else _) as [r|] eqn:Hp.
  { destruct (_ && _) in Hp; [|done]. by eapply process_delivers. }
  pose proof (tryPeers_delivers (take 3 peers) h path s Hs) as Ht. destruct (tryPeers _ _ _ _ _ _) as [[res|] s1]; [done|].
  apply mirrorFallback_delivers, Ht.
Qed.

Lemma downloadPackage_delivers url h size path s : sound s → delivers h (downloadPackage env cfg hasNode hasFleet url h size path s).
Proof using Hapart.
  intros Hs. unfold downloadPackage.
  assert (delivers h (if hasFleet then fleetPhase env hasNode h path s else (None, s))) as Hf.
  { destruct hasFleet; [by apply fleetPhase_delivers|by split]. }
  destruct (if hasFleet then _ else _) as [[res|] s1]; [done|]. cbv zeta.
  set (s2 := if hasFleet then _ else _). assert (sound s2) as Hs2 by (subst s2; destruct hasFleet; [by eapply sound_pkgs, Hf|apply Hf]).
  pose proof (downloadWAN_delivers url h size path s2 Hs2) as Hw. destruct (downloadWAN _ _ _ _ _ _ _ _) as [res s3].
  destruct Hw as [Hs3 Hr]. split; [|done]. destruct hasFleet; [by eapply sound_pkgs|done].
Qed.

(** ** Responses *)

Lemma Get_serves io h c tr pkg c' :
  CacheFacts.Core c open → Cache.Get io h c = (Ok (tr, pkg), c') →
  HashBytes (Cache.tr_file tr) = h ∧ CacheFacts.Core (Cache.Close tr c').2 open.
Proof.
  intros Hi Hg. pose proof (CacheFacts.Get_inv_any io h c open Hi) as Hi'. rewrite Hg in Hi'.
  assert (Cache.tr_hash tr = h ∧ Cache.tr_closed tr = false) as [Hh Hcl].
  { unfold Cache.Get in Hg. destruct (Cache.disk c !! _); [|done]. destruct (Cache.fs io _); [|done].
    destruct (Cache.getPackageInfo _ _ _); [|done]. by injection Hg as <- _ _. }
  split.
  - destruct Hi' as [_ Hct _ [_ Ho]]. destruct (Ho tr) as [Hv Hd]; [by left|done|]. rewrite <- Hh. by apply Hct.
  - pose proof (CacheFacts.Close_inv 0 tr c' (tr :: open) eq_refl Hi') as Hc. unfold Cache.Close in *. rewrite Hcl in *.
    by apply (CacheFacts.Inv_drop_closed _ (Cache.mkReader (Cache.tr_file tr) (Cache.tr_hash tr) true)).
Qed.

(** The client takes everything, and files of the cache can be read to their end. *)
Definition accepts : Prop := ∀ n p, e_client (pe env) n p = None.
Definition readable : Prop := ∀ n p, pe_read env n p = None.

(** What the client got is the beginning of bytes with the hash, and all of them
    unless it stopped reading or the file of the cache could not be read on. *)
Definition served (h : string) (w : Writer) : Prop :=
  ∃ bytes rest, HashBytes bytes = h ∧ bytes = w_body w +:+ rest ∧ (accepts → readable → rest = "").

Lemma sent_prefix (cut : Sink) p : ∃ rest, p = (sink_write cut p).1 +:+ rest ∧ (cut p = None → rest = "").
Proof.
  unfold sink_write. destruct (cut p) as [n|]; cbn [fst].
  - exists (str_drop n p). by rewrite str_take_drop.
  - exists "". by rewrite str_app_nil_r.
Qed.

Lemma Write_served h sink bytes read rest w :
  HashBytes bytes = h → bytes = read +:+ rest → w_status w = None → w_body w = "" →
  (accepts → ∀ p, sink p = None) → (readable → rest = "") →
  served h (Write sink read (WriteHeader 200 w)).1.1.
Proof.
  intros Hh Hb Hst Hw Hacc Hr. destruct (sent_prefix sink read) as (rest1 & Heq & Hnone). unfold Write.
  destruct (sink_write sink read) as [taken ok]. cbn [fst] in Heq. exists bytes, (rest1 +:+ rest). split; [done|].
  unfold WriteHeader. rewrite Hst. cbn [fst w_body w_status]. rewrite Hw. split.
  - rewrite Hb, Heq. cbn. by rewrite str_app_assoc.
  - intros Ha Hrd. rewrite Hnone, Hr; [done..|]. by apply Hacc.
Qed.

Lemma Error_status sink msg code w : w_status w = None → w_status (Error sink msg code w) = Some code.
Proof.
  intros Hw. unfold Error, Write. destruct (sink_write _ _). unfold WriteHeader. cbn. by rewrite Hw.
Qed.

(** What a response for [h] may be. *)
Definition verified_response (h : string) (x : Writer * PkgServer) : Prop :=
  sound x.2 ∧ (w_status x.1 = Some 200 → served h x.1).

Lemma Error_response h msg code w s sink :
  w_status w = None → code ≠ 200 → sound s → verified_response h (Error sink msg code w, s).
Proof. intros Hw Hc Hs. split; [done|]. cbn [fst]. rewrite Error_status by done. congruence. Qed.

Lemma sendReader_response h pkg io tr c w s :
  sound s → Cache.Get io h (pkgs s) = (Ok (tr, pkg), c) → w_status w = None → w_body w = "" →
  verified_response h (sendReader env tr c w s).
Proof.
  intros [Hi Hb] Hg Hw Hbody. destruct (Get_serves _ _ _ _ _ _ Hi Hg) as [Hh Hi'].
  pose proof (Get_base io h (pkgs s)) as Hgb. rewrite Hg in Hgb. cbn [snd] in Hgb.
  split; [split; [done|]|].
  - cbn [snd sendReader pkgs set_pkgs]. rewrite Close_base. congruence.
  - intros _. unfold sendReader. cbn [fst]. destruct (sent_prefix (pe_read env (now_step s)) (Cache.tr_file tr)) as (rest & Heq & Hnone).
    unfold sink_write in Heq. apply (Write_served _ _ (Cache.tr_file tr) _ rest); [done| |done|done| |].
    + by destruct (pe_read env _ _).
    + intros Ha p. apply Ha.
    + intros Hr. by apply Hnone.
Qed.

Lemma Get_err_sound io h s c e : sound s → Cache.Get io h (pkgs s) = (Err e, c) → sound (set_pkgs c s).
Proof.
  intros [Hi Hb] Hg. pose proof (CacheFacts.Get_inv_any io h (pkgs s) open Hi) as Hi'. rewrite Hg in Hi'.
  pose proof (Get_base io h (pkgs s)) as Hgb. rewrite Hg in Hgb. split; [done|]. cbn in *. congruence.
Qed.

Lemma servePackageResult_response h r w s :
  servable h r → sound s → w_status w = None → w_body w = "" →
  verified_response h (servePackageResult env r w s).
Proof.
  intros [Hh Hr] Hs Hw Hb. unfold servePackageResult. destruct (r_serveFromCache r).
  - rewrite Hh. destruct (Cache.Get _ h (pkgs s)) as [[[tr pkg]|e] c] eqn:Hg.
    + eapply sendReader_response; [done..| |]; unfold Set_if; by case_match.
    + apply Error_response; [done..|]. by eapply Get_err_sound.
  - split; [done|]. intros _. cbn [fst]. apply (Write_served _ _ (r_data r) _ ""); [by apply Hr|by rewrite str_app_nil_r|..].
    1, 2: unfold Set_if; by case_match.
    + intros Ha p. apply Ha.
    + done.
Qed.

(** A response that nothing was written to yet. *)
Definition fresh (w : Writer) : Prop := w_status w = None ∧ w_body w = "".

Lemma servePackage_response url pkg w0 s :
  fresh w0 → sound s →
  verified_response (PkgIndex.SHA256 pkg) (servePackage env cfg hasNode hasFleet url pkg w0 s).
Proof using Hapart.
  intros [Hw0 Hb0] Hs. unfold servePackage. cbv zeta. set (h := PkgIndex.SHA256 pkg).
  assert (∀ s, sound s → verified_response h
    (if isOffline (srv s) then (Error (sink_now env s) "package not cached and node is offline" 503 w0, s)
     else match downloadPackage env cfg hasNode hasFleet url h (PkgIndex.Size pkg) (PkgIndex.Filename pkg) s with
          | (None, s) => (Error (sink_now env s) "Failed to fetch package" 502 w0, s)
          | (Some r, s) => servePackageResult env r w0 s
          end)) as Hmiss.
  { intros s0 Hs0. destruct (isOffline _); [by apply Error_response|].
    pose proof (downloadPackage_delivers url h (PkgIndex.Size pkg) (PkgIndex.Filename pkg) s0 Hs0) as [Hd Hr].
    destruct (downloadPackage _ _ _ _ _ _ _ _ _) as [[r|] s1]; [|by apply Error_response].
    apply servePackageResult_response; try done. by apply Hr. }
  destruct (Cache.Has (pkgs s) h); [|by apply Hmiss]. unfold serveFromCache.
  destruct (Cache.Get _ h (pkgs s)) as [[[tr p]|e] c] eqn:Hg; [|apply Hmiss; by eapply Get_err_sound].
  set (w := Set_ _ _ _). pose proof (sendReader_response h p (io_of env s) tr c w s Hs Hg Hw0 Hb0) as [Hs1 Hv].
  destruct (sendReader env tr c w s) as [w1 s1]. split; [by eapply sound_pkgs|done].
Qed.

Lemma handlePackageRequest_response url w s :
  fresh w → sound s →
  let s1 := warmIndexFromCacheOnce env cfg s in
  let x := handlePackageRequest env cfg hasNode hasFleet url w s in
  sound x.2 ∧
  (w_status x.1 = Some 200 →
     (∃ pkg, (resolve url s = Some pkg ∨ resolve url s1 = Some pkg) ∧ served (PkgIndex.SHA256 pkg) x.1) ∨
     (resolve url s = None ∧ resolve url s1 = None)).
Proof using Hapart.
  intros Hw Hs s1. cbv zeta. unfold handlePackageRequest. fold s1. destruct (resolve url s) as [pkg|] eqn:Hr.
  { pose proof (servePackage_response url pkg w s Hw Hs) as [Hs' Hv]. destruct (servePackage _ _ _ _ _ _ _ _) as [w' s'].
    split; [done|]. intros Hst. left. exists pkg. auto. }
  assert (sound s1) as Hs1 by (subst s1; unfold warmIndexFromCacheOnce; case_match; [done|by eapply sound_pkgs]).
  destruct (resolve url s1) as [pkg|] eqn:Hr1.
  { pose proof (servePackage_response url pkg w s1 Hw Hs1) as [Hs' Hv]. destruct (servePackage _ _ _ _ _ _ _ _) as [w' s'].
    split; [done|]. intros Hst. left. exists pkg. auto. }
  unfold streamUncachedPackage. destruct (Mirror.Stream _ _ _ _) as [[[body sz]|e] f].
  - destruct (Write _ _ _) as [[w' n] ok]. split; [by eapply sound_pkgs|by right].
  - split; [by eapply sound_pkgs|by right].
Qed.

(** C2: whatever the fleet, the peers, the mirror and the storage do, any system call
    and any SQL statement failing, what a client gets with a 200 for a package with
    an index entry (one looked up at once, or after the index was warmed from the
    cache) is the beginning of bytes with the SHA-256 of that entry, and all of
    them unless the client stops reading or the file of the cache, once opened,
    cannot be read on; and the files, rows and reader counts of the cache stay in
    order.  Only a URL without such an entry is streamed from the mirror
    unverified.  The directories the parallel downloader assembles files in are
    taken to be apart from the directory of the packages. *)
Theorem package_response_verified url s :
  sound s →
  let s1 := warmIndexFromCacheOnce env cfg s in
  let x := handlePackageRequest env cfg hasNode hasFleet url new_writer s in
  sound x.2 ∧
  (w_status x.1 = Some 200 →
     (∃ pkg, (resolve url s = Some pkg ∨ resolve url s1 = Some pkg) ∧
        ∃ bytes rest, HashBytes bytes = PkgIndex.SHA256 pkg ∧ bytes = w_body x.1 +:+ rest ∧ (accepts → readable → rest = "")) ∨
     (resolve url s = None ∧ resolve url s1 = None)).
Proof using Hapart. intros Hs. destruct (handlePackageRequest_response url new_writer s (conj eq_refl eq_refl) Hs). auto. Qed.

(** ** Availability

    The mirror has the package and the storage works (it may be full); the fleet
    and the peers may send anything. *)
Section available.
Context (url data : string).
Context (Hfs : ∀ n op, Cache.fs (e_io (pe env) n) op = true) (Hdball : ∀ n op, Cache.db (e_io (pe env) n) op = true).
Context (Hacc : accepts) (Hcut : readable) (Hfile : ∀ n p, e_file (pe env) n p = None) (Hread : ∀ n, e_readable (pe env) n = true).
Context (Hcancel : pe_canceled env = λ _, false) (Hreads : Join (e_reads (pe env) data) "" = data).
Context (Hmirror : ∀ n q, q_url q = url → ∃ resp, e_upstream (pe env) n q = Some resp ∧
  Mirror.StatusCode resp = 200 ∧ Mirror.Body resp = (data, true)).

Abbreviation h := (HashBytes data).

(** The cache can serve the package. *)
Definition gettable (c : Cache.Cache) : Prop :=
  is_Some (Cache.disk c !! Cache.packagePath c h) ∧ is_Some (Cache.packages c !! h).

Definition ready (x : option packageDownloadResult * PkgServer) : Prop :=
  ∃ r, x.1 = Some r ∧ (r_serveFromCache r = true → gettable (pkgs x.2)).

Lemma gettable_Get n c : gettable c → ∃ tr pkg c', Cache.Get (e_io (pe env) n) h c = (Ok (tr, pkg), c').
Proof using Hdball Hfs.
  intros [[x Hx] [row Hrow]]. unfold Cache.Get. rewrite Hx, Hfs. unfold Cache.getPackageInfo. rewrite Hdball.
  cbn [Cache.packages Cache.recordAccess Cache.incReader Cache.set_pending Cache.set_readers]. rewrite Hrow. eauto.
Qed.

Lemma committed_gettable io f sz d c : is_Some (d !! Cache.packagePath c h) → gettable (CacheFacts.committed io h f sz d c).
Proof. intros Hd. split; [done|]. cbn. rewrite lookup_insert_eq. eauto. Qed.

Lemma evictLoop_error io needed cands c e : (Cache.evictLoop io needed cands c).1 = Err e → e = Cache.EPanic.
Proof.
  revert c. induction cands as [|[h0 r] cands IH]; intros c; cbn [Cache.evictLoop]; [done|].
  destruct (_ <? _); [|done]. destruct (negb _); [apply IH|]. destruct (_ <? 16)%nat; [by intros [= <-]|].
  destruct (Cache.deleteUnlocked _ _ _ _) as [[u|e'] c']; apply IH.
Qed.

(** Bytes with the right hash are stored, or not for reasons of storage. *)
Lemma Put_good n chunks s path :
  Join chunks "" = data → sound s →
  let x := Cache.Put (e_io (pe env) n) (put_data env chunks true s) h path (pkgs s) in
  (x.1 = Ok tt ∧ gettable x.2) ∨ ∃ e, x.1 = Err e ∧ e ≠ Cache.ErrHashMismatch.
Proof using Hdball Hfs Hfile.
  intros Hj [Hi Hb]. cbv zeta. destruct (Cache.Put _ _ _ _ _) as [[[]|e] c'] eqn:Hp; cbn [fst snd].
  - left. split; [done|]. apply (CacheSys.Put_ok (P := False) _ _ _ _ _ open) in Hp as (_ & Hb' & c2 & d & x & Heq & Hx & _); [|done].
    rewrite Heq. apply committed_gettable. rewrite Heq in Hb'.
    rewrite (CacheFacts.packagePath_base c2 (pkgs s) h); [eauto|]. exact Hb'.
  - right. exists e. split; [done|]. intros ->. revert Hp. unfold Cache.Put.
    assert (Cache.createTemp (e_io (pe env) n) h = true) as ->.
    { unfold Cache.createTemp. rewrite Hfs. pose proof (HashBytes_valid data) as Hv. unfold valid_hash in Hv.
      apply andb_prop in Hv as [_ Hx]. revert Hx. apply str_forallb_impl. intros a Ha. apply negb_true_iff, Ascii.eqb_neq.
      intros ->. vm_compute in Ha. done. }
    pose proof (io_Copy_inv (Cache.pd_sink (put_data env chunks true s)) (Cache.pd_chunks (put_data env chunks true s))
      (Cache.pd_ok (put_data env chunks true s)) NewHashingWriter 0 eq_refl) as Hcp.
    pose proof (io_Copy_ok (Cache.pd_sink (put_data env chunks true s)) (Cache.pd_chunks (put_data env chunks true s))
      (Cache.pd_ok (put_data env chunks true s)) NewHashingWriter 0) as Hok.
    destruct (io_Copy _ _ _ _ _) as [[hw sz] ok]. destruct ok; [|done]. destruct (Hok eq_refl) as [Hout _].
    rewrite Hfs. cbn [negb]. cbn [Cache.pd_chunks put_data hw_out NewHashingWriter String.append] in Hout.
    assert (hw_Sum hw = h) as Hsum.
    { unfold hw_Sum, HashBytes. f_equal. f_equal. rewrite <- Hcp, Hout. exact Hj. }
    rewrite Hsum, String.eqb_refl. cbn [negb].
    set (c1 := Cache.set_disk _ _). destruct (Cache.commitVerifiedFile _ _ _ _ _ c1) as [[u|e] c2] eqn:Hcm; [done|].
    intros [= -> _]. revert Hcm. unfold Cache.commitVerifiedFile.
    assert (∀ e, (Cache.ensureSpace (e_io (pe env) n) sz c1).1 = Err e → e ≠ Cache.ErrHashMismatch) as Hes.
    { intros e. unfold Cache.ensureSpace. destruct (match Cache.freeSpace _ with Some _ => _ | None => _ end); [by intros [= <-]|].
      destruct (_ <=? _); [done|]. destruct (negb _); [by intros [= <-]|].
      pose proof (evictLoop_error (e_io (pe env) n) sz (Cache.candidates (e_io (pe env) n) (Cache.flushAccess (e_io (pe env) n) c1))
        (Cache.flushAccess (e_io (pe env) n) c1)) as He.
      destruct (Cache.evictLoop _ _ _ _) as [[u|e'] c3]; cbn [fst] in *.
      - destruct (negb _); [by intros [= <-]|]. destruct (_ <? _); [by intros [= <-]|done].
      - intros [= <-]. by rewrite (He e' eq_refl). }
    destruct (Cache.ensureSpace _ sz c1) as [[u|e] c3]; [|intros [= -> _]; by apply (Hes Cache.ErrHashMismatch)].
    repeat case_match; intros [=].
Qed.

(** The mirror delivers. *)
Lemma mirrorFallback_ready path s :
  sound s → Z.of_nat (String.length data) <= Mirror.maxResponseSize (fetcher (srv s)) →
  ready (mirrorFallback env cfg hasNode url h path s).
Proof using Hdball Hfs Hfile Hcancel Hreads Hmirror.
  intros Hs Hmax. unfold mirrorFallback. cbv zeta. unfold Mirror.Stream.
  destruct (Hmirror (now_step (count_mirrorReq s)) (mkRequest url (upgrades cfg url) "" "") eq_refl) as (resp & Hup & Hst & Hbody).
  unfold net_of at 1. cbn [Mirror.n_do]. rewrite Hup. unfold Mirror.isOK. rewrite Hst, Hbody. cbn [Z.eqb Pos.eqb fst snd].
  set (s1 := set_fetching _ 1 _).
  assert (sound s1) as Hs1 by by eapply sound_pkgs.
  destruct (Put_good (now_step s1) (e_reads (pe env) data) s1 path Hreads Hs1) as [[Hok Hg]|(e & He & Hne)].
  - change (e_io (pe env) (now_step s1)) with (io_of env s1) in *. destruct (Cache.Put _ _ _ _ _) as [r c]. cbn [fst snd] in *. subst r.
    eexists. split; [reflexivity|]. intros _. cbn [snd]. rewrite announce_pkgs. exact Hg.
  - change (e_io (pe env) (now_step s1)) with (io_of env s1) in *. destruct (Cache.Put _ _ _ _ _) as [r c]. cbn [fst] in He. subst r.
    assert ((Mirror.Fetch (net_of (pe env) cfg url "" "") (pe_canceled env) url (now_step (set_pkgs c s1)) (fetcher (srv (set_pkgs c s1)))).1.1
            = Ok data) as Hf.
    { rewrite Hcancel. unfold Mirror.Fetch.
      apply (MirrorSys.fetchWith_reaches _ _ None Mirror.isOK _ _ _ 0); [lia| |lia]. rewrite Nat.add_0_r.
      destruct (Hmirror (now_step (set_pkgs c s1)) (mkRequest url (upgrades cfg url) "" "") eq_refl) as (resp2 & Hup2 & Hst2 & Hbody2).
      unfold net_of. cbn [Mirror.n_do]. rewrite Hup2. unfold MirrorSys.answer, Mirror.isOK. rewrite Hst2. cbn [Z.eqb Pos.eqb].
      unfold Mirror.readBody. rewrite Hbody2. change (Mirror.maxResponseSize (fetcher (srv (set_pkgs c s1))))
        with (Mirror.maxResponseSize (fetcher (srv s))). rewrite LimitReader_all by (cbn [fst]; lia).
      unfold Mirror.ReadAll. cbn [fst snd]. by rewrite (proj2 (Z.ltb_ge _ _) Hmax). }
    destruct (Mirror.Fetch _ _ _ _ _) as [[r n] f]. cbn [fst] in Hf. subst r.
    rewrite String.eqb_refl. destruct e; try done; by eexists.
Qed.
Lemma process_ready n size ps r path s :
  par_Download n h size ps = Some r → sound s →
  ready (let '(res, s) := processDownloadSuccess env hasNode r h path s in (Some res, s)).
Proof using Hdball Hfs Hread Hapart.
  intros Hr Hs. pose proof (par_verified _ _ _ _ _ Hr) as Hh. unfold fetched_bytes in Hh.
  unfold processDownloadSuccess. cbv zeta. set (s1 := if _ <? _ then _ else _).
  assert (sound s1) as Hs1 by (subst s1; destruct (_ <? _); by eapply sound_pkgs). clearbody s1. clear Hs.
  destruct (f_data r) as [d|] eqn:Hd; cbn [default] in Hh; [by eexists|].
  destruct (Hapart _ _ _ _ _ Hr Hd) as [Ha Hsz]. destruct Hs1 as [Hi Hb].
  set (c0 := Cache.set_disk (<[f_path r := f_file r]> (Cache.disk (pkgs s1))) (pkgs s1)).
  assert (CacheFacts.Core c0 open) as Hi0.
  { apply CacheFacts.disk_outside_inv; [done|]. intros h' Hv. destruct (Ha (pkgs s1) h' Hb Hv) as [Hne _].
    by rewrite lookup_insert_ne. }
  assert (CacheFacts.outside c0 (f_path r)) as Hout by (intros h' Hv; by apply (Ha c0 h')).
  pose proof (HashBytes_valid data) as Hvh.
  destruct (Cache.PutFile (io_of env s1) (f_path r) h path (f_size r) c0) as [[[]|e] c] eqn:Hput.
  - eexists. split; [reflexivity|]. intros _. cbn [snd]. rewrite announce_pkgs. cbn [pkgs set_pkgs].
    apply (CacheSys.commit_ok_file (P := False) _ _ _ _ _ _ open) in Hput as (c2 & d & x & Heq & Hb' & Hx & _); [|done..].
    assert (Cache.packagePath c h = Cache.packagePath (pkgs s1) h) as Hpp by by apply CacheFacts.packagePath_base.
    split.
    + cbn [Cache.disk Cache.set_disk]. change (Cache.packagePath (Cache.set_disk _ c) h) with (Cache.packagePath c h).
      unfold Downloader.removeAll. rewrite map_lookup_filter, Heq. cbn [Cache.disk CacheFacts.committed Cache.set_size Cache.set_packages Cache.set_disk].
      rewrite <- Heq, Hpp. change (Cache.packagePath (pkgs s1) h) with (Cache.packagePath c0 h). rewrite Hx. cbn.
      rewrite option_guard_True; [eauto|]. by apply (Ha c0 h).
    + rewrite Heq. cbn. rewrite lookup_insert_eq. eauto.
  - pose proof (CacheSys.PutFile_keeps_source (io_of env s1) (f_path r) h path (f_size r) c0 open e c Hi0 Hout) as Hkeep.
    rewrite Hread. rewrite Hkeep; [|apply Hdball| |done].
    + cbn [c0 Cache.disk Cache.set_disk]. rewrite lookup_insert_eq. by eexists.
    + unfold valid_hash in Hvh. apply andb_prop in Hvh as [Hl%Nat.eqb_eq _]. lia.
Qed.

(** Fleet members and peers do not touch the fetcher. *)
Lemma verifyAndCache_fetcher d path s : fetcher (srv (verifyAndCache env hasNode d h path s).2) = fetcher (srv s).
Proof.
  unfold verifyAndCache. destruct (Cache.Put _ _ _ _ _) as [[u|e] c]; [|by destruct e].
  cbn [snd]. unfold announceAsync. by repeat case_match.
Qed.

Lemma fleetPhase_fetcher path s : fetcher (srv (fleetPhase env hasNode h path s).2) = fetcher (srv s).
Proof.
  unfold fleetPhase, downloadFromFleetPeer. pose proof (λ d, verifyAndCache_fetcher d path s) as Hv.
  destruct (pe_want env _) as [[|p|p []]|]; try done.
  all: destruct (negb _); [done|]; destruct (pe_peer _ _ _ _) as [d|]; [|done]; specialize (Hv d);
    destruct (verifyAndCache _ _ _ _ _ _) as [[|] s1]; exact Hv.
Qed.

Lemma tryPeers_fetcher peers path s : fetcher (srv (tryPeers env hasNode peers h path s).2) = fetcher (srv s).
Proof.
  revert s. induction peers as [|p peers IH]; intros s; [done|]. cbn [tryPeers]. destruct (pe_peer _ _ _ _) as [d|]; [|apply IH].
  pose proof (verifyAndCache_fetcher d path s) as Hv. destruct (verifyAndCache _ _ _ _ _ _) as [[|] s1]; [exact Hv|].
  rewrite IH. exact Hv.
Qed.

Lemma peers_in_memory peers path s r :
  ((fleetPhase env hasNode h path s).1 = Some r ∨ (tryPeers env hasNode peers h path s).1 = Some r) → r_serveFromCache r = false.
Proof.
  intros [Hr|Hr]; revert Hr.
  - unfold fleetPhase. destruct (pe_want env _) as [[|p|p []]|]; try done.
    all: destruct (downloadFromFleetPeer _ _ _ _ _ _) as [[d|] s1]; [|done]; by intros [= <-].
  - revert s. induction peers as [|p peers IH]; intros s; [done|]. cbn [tryPeers]. destruct (pe_peer _ _ _ _) as [d|]; [|apply IH].
    destruct (verifyAndCache _ _ _ _ _ _) as [[|] s1]; [by intros [= <-]|apply IH].
Qed.

Lemma downloadPackage_ready size path s :
  sound s → Z.of_nat (String.length data) <= Mirror.maxResponseSize (fetcher (srv s)) →
  ready (downloadPackage env cfg hasNode hasFleet url h size path s).
Proof using Hdball Hfs Hfile Hcancel Hreads Hmirror Hread Hapart.
  intros Hs Hmax. unfold downloadPackage.
  assert (∃ res s1, (if hasFleet then fleetPhase env hasNode h path s else (None, s)) = (res, s1) ∧ sound s1 ∧
    fetcher (srv s1) = fetcher (srv s) ∧ ∀ r, res = Some r → r_serveFromCache r = false) as (res & s1 & -> & Hs1 & Hf1 & Hmem).
  { destruct hasFleet; [|by exists None, s].
    pose proof (fleetPhase_delivers h path s Hs) as [Hd _]. pose proof (fleetPhase_fetcher path s) as Hf.
    pose proof (λ r Hr, peers_in_memory [] path s r (or_introl Hr)) as Hm.
    destruct (fleetPhase _ _ _ _ _) as [res s1]. by exists res, s1. }
  destruct res as [r|].
  { exists r. split; [done|]. rewrite Hmem; done. }
  cbv zeta. set (s2 := if hasFleet then _ else _).
  assert (sound s2 ∧ fetcher (srv s2) = fetcher (srv s)) as [Hs2 Hf2].
  { subst s2. destruct hasFleet; [|done]. split; [by eapply sound_pkgs|done]. }
  assert (ready (downloadWAN env cfg hasNode url h size path s2)) as (r & Hr & Hg).
  { unfold downloadWAN. cbv zeta. set (peers := if hasNode then _ else _). destruct (if _ && _ then _ else _) as [r|] eqn:Hp.
    { destruct (_ && _) in Hp; [|done]. by eapply process_ready. }
    pose proof (tryPeers_delivers (take 3 peers) h path s2 Hs2) as [Ht _]. pose proof (tryPeers_fetcher (take 3 peers) path s2) as Hft.
    pose proof (λ r Hr, peers_in_memory (take 3 peers) path s2 r (or_intror Hr)) as Hm.
    destruct (tryPeers _ _ _ _ _ _) as [[r|] s3].
    - exists r. split; [done|]. rewrite Hm; done.
    - apply mirrorFallback_ready; [done|]. cbn [snd] in Hft. rewrite Hft, Hf2. done. }
  destruct (downloadWAN _ _ _ _ _ _ _ _) as [res s3]. cbn [fst snd] in *. subst res. exists r.
  split; [done|]. intros Hx. cbn [snd]. destruct hasFleet; by apply Hg.
Qed.

(** C14: a package of the index that the mirror has is delivered.  Assume that the proxy
    is not in offline mode, that the package is no larger than the largest response
    the fetcher takes, that the mirror answers every request for it with 200 and
    the whole of it, that the system calls and SQL statements of the cache succeed
    (it may be full or out of space) and that the client reads to the end: then the
    client gets a 200 with bytes of the package's SHA-256, whatever the fleet
    coordinator decides and whatever fleet members and peers send instead. *)
Theorem package_available pkg s :
  resolve url s = Some pkg → PkgIndex.SHA256 pkg = h → sound s → isOffline (srv s) = false →
  Z.of_nat (String.length data) <= Mirror.maxResponseSize (fetcher (srv s)) →
  let w := (handlePackageRequest env cfg hasNode hasFleet url new_writer s).1 in
  w_status w = Some 200 ∧ HashBytes (w_body w) = h.
Proof using Hdball Hfs Hfile Hcancel Hreads Hmirror Hread Hapart Hacc Hcut.
  intros Hr Hh Hs Hoff Hmax. cbv zeta. unfold handlePackageRequest. rewrite Hr.
  pose proof (servePackage_response url pkg new_writer s (conj eq_refl eq_refl) Hs) as [_ Hv]. rewrite Hh in Hv.
  assert (w_status (servePackage env cfg hasNode hasFleet url pkg new_writer s).1 = Some 200) as Hst.
  2: { destruct (servePackage _ _ _ _ _ _ _ _) as [w s']. split; [done|]. destruct (Hv Hst) as (bytes & rest & Hb & Heq & Hall).
       cbn [fst] in *. rewrite Hall, str_app_nil_r in Heq by done. by rewrite <- Heq. }
  clear Hv. unfold servePackage. cbv zeta. rewrite Hh.
  assert (∀ s, sound s → isOffline (srv s) = false → Z.of_nat (String.length data) <= Mirror.maxResponseSize (fetcher (srv s)) →
    w_status (if isOffline (srv s) then (Error (sink_now env s) "package not cached and node is offline" 503 new_writer, s)
     else match downloadPackage env cfg hasNode hasFleet url h (PkgIndex.Size pkg) (PkgIndex.Filename pkg) s with
          | (None, s) => (Error (sink_now env s) "Failed to fetch package" 502 new_writer, s)
          | (Some r, s) => servePackageResult env r new_writer s
          end).1 = Some 200) as Hmiss.
  { intros s0 Hs0 Hoff0 Hmax0. rewrite Hoff0.
    pose proof (downloadPackage_delivers url h (PkgIndex.Size pkg) (PkgIndex.Filename pkg) s0 Hs0) as [_ Hserv].
    destruct (downloadPackage_ready (PkgIndex.Size pkg) (PkgIndex.Filename pkg) s0 Hs0 Hmax0) as (r & Hres & Hg).
    destruct (downloadPackage _ _ _ _ _ _ _ _ _) as [res s1]. cbn [fst snd] in *. subst res.
    destruct (Hserv r eq_refl) as [Hrh _]. unfold servePackageResult. destruct (r_serveFromCache r).
    - rewrite Hrh. destruct (gettable_Get (now_step s1) (pkgs s1) (Hg eq_refl)) as (tr & p & c & Hget).
      unfold io_of. rewrite Hget. unfold sendReader. cbn [fst]. unfold Write. destruct (sink_write _ _). unfold WriteHeader, Set_if.
      by repeat case_match.
    - cbn [fst]. unfold Write. destruct (sink_write _ _). unfold WriteHeader, Set_if. by repeat case_match. }
  destruct (Cache.Has (pkgs s) h); [|by apply Hmiss]. unfold serveFromCache.
  destruct (Cache.Get _ h (pkgs s)) as [[[tr p]|e] c] eqn:Hg; [|apply Hmiss; [by eapply Get_err_sound|done..]].
  unfold sendReader, Write. by destruct (sink_write _ _).
Qed.
End available.

(** ** What a download leaves alone

    Any part [f] of the server that storing, counting, blacklisting and fetching
    leave alone is left alone by a download, apart from what it tells the fleet. *)
Section keeps.
Context {A : Type} (f : PkgServer → A).
Context (K_pkgs : ∀ c s, f (set_pkgs c s) = f s) (K_announce : ∀ l s, f (set_announce l s) = f s)
  (K_scorer : ∀ x s, f (set_scorer x s) = f s) (K_p2p : ∀ r b s, f (count_p2p r b s) = f s)
  (K_mreq : ∀ s, f (count_mirrorReq s) = f s) (K_mbytes : ∀ n s, f (count_mirrorBytes n s) = f s)
  (K_fetching : ∀ fe n s, f (set_fetching fe n s) = f s).

Lemma keeps_announce h0 s : f (announceAsync hasNode h0 s) = f s.
Proof using K_announce. unfold announceAsync. by repeat case_match. Qed.

Lemma keeps_verify d h0 path s : f (verifyAndCache env hasNode d h0 path s).2 = f s.
Proof using K_announce K_pkgs.
  unfold verifyAndCache. destruct (Cache.Put _ _ _ _ _) as [[u|e] c]; [cbn [snd]; by rewrite keeps_announce, K_pkgs|destruct e; apply K_pkgs].
Qed.

Lemma keeps_fleetPhase h0 path s : f (fleetPhase env hasNode h0 path s).2 = f s.
Proof using K_announce K_pkgs K_scorer K_p2p.
  unfold fleetPhase, downloadFromFleetPeer. pose proof (λ d, keeps_verify d h0 path s) as Hv.
  destruct (pe_want env _) as [[|p|p []]|]; try done.
  all: destruct (negb _); [done|]; destruct (pe_peer _ _ _ _) as [d|]; [|done]; specialize (Hv d);
    destruct (verifyAndCache _ _ _ _ _ _) as [[|] s1]; cbn [snd] in *; unfold blacklist; by rewrite ?K_p2p, ?K_scorer.
Qed.

Lemma keeps_tryPeers peers h0 path s : f (tryPeers env hasNode peers h0 path s).2 = f s.
Proof using K_announce K_pkgs K_scorer K_p2p.
  revert s. induction peers as [|p peers IH]; intros s; [done|]. cbn [tryPeers]. destruct (pe_peer _ _ _ _) as [d|]; [|apply IH].
  pose proof (keeps_verify d h0 path s) as Hv. destruct (verifyAndCache _ _ _ _ _ _) as [[|] s1]; cbn [snd] in *;
    [by rewrite K_p2p|]. rewrite IH. unfold blacklist. by rewrite K_scorer.
Qed.

Lemma keeps_process r h0 path s : f (processDownloadSuccess env hasNode r h0 path s).2 = f s.
Proof using K_announce K_pkgs K_p2p K_mreq K_mbytes.
  unfold processDownloadSuccess. cbv zeta. set (s1 := if _ <? _ then _ else _).
  assert (f s1 = f s) as <- by (subst s1; destruct (_ <? _); by rewrite ?K_p2p, ?K_mreq, ?K_mbytes, ?K_p2p). destruct (f_data r) as [d|].
  - unfold cacheAndAnnounce. destruct (Cache.Put _ _ _ _ _) as [[u|e] c]; cbn [snd]; by rewrite ?keeps_announce, ?K_pkgs.
  - destruct (Cache.PutFile _ _ _ _ _ _) as [[u|e] c]; cbn [snd]; by rewrite ?keeps_announce, ?K_pkgs.
Qed.

Lemma keeps_mirror url h0 path s : f (mirrorFallback env cfg hasNode url h0 path s).2 = f s.
Proof using K_announce K_pkgs K_mreq K_mbytes K_fetching.
  unfold mirrorFallback. cbv zeta. destruct (Mirror.Stream _ _ _ _) as [[[body sz]|e] fe];
    [|cbn [snd]; by rewrite K_fetching, K_mreq].
  destruct (Cache.Put _ _ _ _ _) as [[u|e] c]; [cbn [snd]; by rewrite keeps_announce, K_mbytes, K_pkgs, K_fetching, K_mreq|].
  destruct (Mirror.Fetch _ _ _ _ _) as [[[d|] n] f2]; destruct e; try destruct (String.eqb _ _); cbn [snd];
    by rewrite ?K_mbytes, ?K_fetching, ?K_pkgs, ?K_fetching, ?K_mreq.
Qed.

Lemma keeps_WAN url h0 size path s : f (downloadWAN env cfg hasNode url h0 size path s).2 = f s.
Proof using K_announce K_pkgs K_scorer K_p2p K_mreq K_mbytes K_fetching.
  unfold downloadWAN. cbv zeta. destruct (if _ && _ then _ else _) as [r|].
  - pose proof (keeps_process r h0 path s) as Hn. by destruct (processDownloadSuccess _ _ _ _ _ _).
  - set (peers := take 3 _). pose proof (keeps_tryPeers peers h0 path s) as Hn.
    destruct (tryPeers _ _ _ _ _ _) as [[r|] s1]; [done|]. rewrite keeps_mirror. exact Hn.
Qed.
End keeps.

(** ** What the fleet is told *)

(** C33: the fleet is never left waiting by a download that ended: a download either
    is served from the fleet and announces nothing, or announces that it is being
    fetched and then, exactly once and last, its completion when it delivered a
    result and its failure when it did not. *)
Theorem fleet_told_the_end url h0 size path s :
  let '(res, s') := downloadPackage env cfg hasNode true url h0 size path s in
  (notes s' = notes s ∧ is_Some res) ∨
  (notes s' = notes s ++ [NotifyFetching h0; NotifyComplete h0] ∧ is_Some res) ∨
  (notes s' = notes s ++ [NotifyFetching h0; NotifyFailed h0] ∧ res = None).
Proof.
  unfold downloadPackage. pose proof (keeps_fleetPhase notes ltac:(done) ltac:(done) ltac:(done) ltac:(done) h0 path s) as Hf.
  destruct (fleetPhase _ _ _ _ _) as [[r|] s1]; cbn [snd] in Hf; cbv beta iota zeta; [left; split; [done|by eexists]|].
  pose proof (keeps_WAN notes ltac:(done) ltac:(done) ltac:(done) ltac:(done) ltac:(done) ltac:(done) ltac:(done) url h0 size path (note (NotifyFetching h0) s1)) as Hw.
  destruct (downloadWAN _ _ _ _ _ _ _ _) as [res s2]. cbn [snd notes note] in Hw.
  right. destruct res as [r|]; [left|right]; (split; [|done]); cbn [notes note]; by rewrite Hw, Hf, <- app_assoc.
Qed.
End safety.

(** ** The downloader discharges the interface *)
Section parallel.
Context `{Sha256, SqlOrder}.
Import Downloader.

(** A run of [Download]: the surroundings and results of a chunked one, the events
    of a racing one. *)
Record DlRun := mkRun {
  dr_ev : DlEnv; dr_d : Downloader; dr_state : bool; dr_partial : string; dr_url : string;
  dr_results : list Chunk → list ChunkResult; dr_world : World; dr_events : list RaceEvent;
}.

Definition source_name (k : SourceKind) : string :=
  match k with KPeer => "peer" | KMirror => "mirror" | KMixed => "mixed" | KResumed => "resumed" end.

Definition of_result (file : string) (r : DownloadResult) : Fetched :=
  mkFetched (r_Data r) (r_FilePath r) file (r_Size r) (source_name (r_Source r)) (r_PeerBytes r) (r_MirrorBytes r).

Definition Download (run : DlRun) (hash : string) (size : Z) (peers : list string) : option Fetched :=
  if useChunked (dr_d run) size (length peers) then
    match downloadChunked (dr_ev run) (dr_d run) (dr_state run) true (dr_partial run) (dr_url run) hash size (dr_results run) (dr_world run) with
    | (Ok r, w) => match r_Data r, w_files w !! r_FilePath r with
                   | None, Some file => Some (of_result file r)
                   | _, _ => None
                   end
    | (Err _, _) => None
    end
  else
    match downloadRacing hash (length peers) true (dr_events run) with
    | Some (Ok r, _) => Some (of_result "" r)
    | _ => None
    end.

Lemma Download_verified run hash size peers r : Download run hash size peers = Some r → HashBytes (fetched_bytes r) = hash.
Proof.
  unfold Download. destruct (useChunked _ _ _).
  - destruct (downloadChunked _ _ _ _ _ _ _ _ _ _) as [[res|e] w] eqn:Hd; [|done].
    apply DownloaderSys.downloadChunked_verified in Hd as (_ & _ & content & Hc & Hh). rewrite Hc.
    unfold of_result, fetched_bytes. destruct (r_Data res); [done|]. by intros [= <-].
  - unfold downloadRacing. destruct (_ =? 0)%nat; [done|].
    destruct (race _ _ _ _ _) as [[[res|e] bl]|] eqn:Hr; try done. apply DownloaderSys.race_verified in Hr as (d & Hd & Hh).
    unfold of_result, fetched_bytes. intros [= <-]. cbn. by rewrite Hd.
Qed.

Definition downloader_parallel (runs : nat → DlRun) : ParallelDownloader :=
  {| par_Download n := Download (runs n); par_verified n := Download_verified (runs n) |}.
End parallel.
(** ** Evaluations *)
#[local] Existing Instance ascii_only.
#[local] Existing Instance toy_sha.
#[local] Existing Instance isort_order.
#[local] Existing Instance range_id.
#[local] Existing Instance PkgIndexSys.no_codecs.
#[local] Existing Instance ProxySys.no_time.
#[local] Existing Instance ProxySys.toy_pgp.

Definition ex_data : string := "alpha".

(** A downloader without a temporary directory, whose race only peers enter that
    send something else. *)
Definition bad_run : DlRun :=
  let e := DlState.mkEnv 0 (λ _, true) in
  mkRun (Downloader.mkDlEnv e e e e e e (λ _, e) false None false false false false (λ _, None))
    (Downloader.New None) false "" "" (λ _, []) (Downloader.mkWorld (DlState.mkSM ∅ ∅) ∅)
    [Downloader.RDone (Downloader.mkSource "P" Downloader.SourceTypePeer) (Some "evil!"); Downloader.RCancel].
#[local] Instance ex_parallel : ParallelDownloader := downloader_parallel (λ _, bad_run).

Lemma ex_apart n h sz ps r : par_Download n h sz ps = Some r → f_data r = None → apart "/c" r ∧ 0 <= f_size r.
Proof.
  cbn [par_Download ex_parallel downloader_parallel]. unfold Download. destruct (Downloader.useChunked _ _ _); [cbn; done|].
  unfold Downloader.downloadRacing. destruct (_ =? 0)%nat; [done|].
  destruct (Downloader.race _ _ _ _ _) as [[[res|e] bl]|] eqn:Hr; try done. apply DownloaderSys.race_verified in Hr as (d & Hd & _).
  intros [= <-]. cbn. congruence.
Qed.

(** The fleet names a provider, peers are found, and all of them send other bytes. *)
Definition ex_penv : PEnv :=
  mkPEnv (ProxySys.ex_env (λ _, ProxySys.ok200 ex_data "")) (λ _, Some (ActionFetchLAN "F")) (λ _ _, true)
    (λ _ _ _, Some "evil!") (λ _, Some ["P"; "Q"; "R"; "S"]) (λ _, false) (λ _ _, None).

Definition pkg_url := "http://h/debian/pool/main/v/vim/vim_9.0+deb12_amd64.deb".
Definition ex_index : PkgIndex.Index :=
  (PkgIndex.LoadFromData (ProxySys.packages_of (HashBytes ex_data)) ProxySys.plain_url PkgIndex.New).1.
Definition ex_pserver : PkgServer :=
  mkPS (set_index ex_index ProxySys.ex_server) (Cache.mkCache "/c" 100 0 0 ∅ ∅ ∅ ∅ 0) Scorer.NewScorer [] false ∅ 0 0 0 [].

Lemma ex_sound : sound "/c" [] ex_pserver.
Proof.
  split; [|done]. constructor.
  - done.
  - intros h x _. cbn [pkgs ex_pserver Cache.disk]. by rewrite lookup_empty.
  - intros h r. cbn [pkgs ex_pserver Cache.packages]. by rewrite lookup_empty.
  - split; [|by intros tr ?%elem_of_nil]. intros h. done.
Qed.

Definition ex_run := handlePackageRequest ex_penv (ProxySys.ex_cfg "auto") true true pkg_url new_writer ex_pserver.

(** Fleet member and three peers are blacklisted, the mirror's package is cached and served. *)
Example bad_peers_do_not_matter :
  (w_status ex_run.1, w_body ex_run.1, w_header ex_run.1 !! "X-Debswarm-Source") = (Some 200, ex_data, Some "mirror") ∧
  (λ id, Scorer.Blacklisted <$> Scorer.peers (scorer ex_run.2) !! id) <$> ["F"; "P"; "Q"; "R"; "S"]
    = [Some true; Some true; Some true; Some true; None] ∧
  Cache.Has (pkgs ex_run.2) (HashBytes ex_data) = true ∧
  notes ex_run.2 = [NotifyFetching (HashBytes ex_data); NotifyComplete (HashBytes ex_data)] ∧
  announceChan ex_run.2 = [HashBytes ex_data].
Proof. split_and!; vm_compute; reflexivity. Qed.

(** An index that writes hashes in capitals, which the decoder of the check accepts,
    makes the package unservable. *)
Definition upper_pserver : PkgServer :=
  mkPS (set_index (PkgIndex.LoadFromData (ProxySys.packages_of "ABABABABABABABABABABABABABABABABABABABABABABABABABABABABABABABAB")
          ProxySys.plain_url PkgIndex.New).1 ProxySys.ex_server)
    (pkgs ex_pserver) Scorer.NewScorer [] false ∅ 0 0 0 [].

Example capitals_unservable :
  (λ p, String.length (PkgIndex.SHA256 p)) <$> resolve pkg_url upper_pserver = Some 64%nat ∧
  ∀ body : string, valid_hash (HashBytes body) = true ∧
    HashBytes body ≠ "ABABABABABABABABABABABABABABABABABABABABABABABABABABABABABABABAB".
Proof.
  split; [vm_compute; reflexivity|]. intros body. split; [apply HashBytes_valid|]. intros Heq.
  pose proof (HashBytes_valid body) as Hv. rewrite Heq in Hv. vm_compute in Hv. discriminate.
Qed.

Lemma ex_accepts : accepts ex_penv.
Proof. intros n p. reflexivity. Qed.

Definition ex_pkg : PkgIndex.PackageInfo := PkgIndexSys.ex_entry "h/debian" (HashBytes ex_data).

Lemma ex_resolve : resolve pkg_url ex_pserver = Some ex_pkg.
Proof. vm_compute. reflexivity. Qed.

Lemma ex_resolve_warm : resolve pkg_url (warmIndexFromCacheOnce ex_penv (ProxySys.ex_cfg "auto") ex_pserver) = Some ex_pkg.
Proof. vm_compute. reflexivity. Qed.

(** The whole package, and from a file that cannot be read beyond its second byte
    only these bytes, under the length of the whole. *)
Definition short_read : PEnv := mkPEnv (pe ex_penv) (pe_want ex_penv) (pe_addrs ex_penv) (pe_peer ex_penv)
  (pe_providers ex_penv) (pe_canceled ex_penv) (λ _ _, Some 2%nat).

Example truncated_response :
  let w := (handlePackageRequest short_read (ProxySys.ex_cfg "auto") true true pkg_url new_writer ex_pserver).1 in
  (w_status w, w_body w, w_header w !! "Content-Length") = (Some 200, "al", Some "5").
Proof. vm_compute. reflexivity. Qed.

Lemma ex_readable : readable ex_penv.
Proof. intros n p. reflexivity. Qed.

Lemma package_response_witness : w_status ex_run.1 = Some 200 ∧ HashBytes (w_body ex_run.1) = PkgIndex.SHA256 ex_pkg.
Proof.
  assert (w_status ex_run.1 = Some 200) as Hst by (vm_compute; reflexivity). split; [exact Hst|].
  destruct (package_response_verified ex_penv (ProxySys.ex_cfg "auto") true true "/c" [] ex_apart pkg_url
    ex_pserver ex_sound) as [_ Hp].
  destruct (Hp Hst) as [(pkg & Hpk & bytes & rest & Hh & Hb & Hall)|[Hn _]]; [|discriminate (eq_trans (eq_sym Hn) ex_resolve)].
  fold ex_run in Hb. rewrite (Hall ex_accepts ex_readable), str_app_nil_r in Hb. rewrite <- Hb, Hh. clear Hp Hall Hb Hh.
  destruct Hpk as [Hpk|Hpk].
  - assert (Some pkg = Some ex_pkg) as [= ->] by exact (eq_trans (eq_sym Hpk) ex_resolve). reflexivity.
  - assert (Some pkg = Some ex_pkg) as [= ->] by exact (eq_trans (eq_sym Hpk) ex_resolve_warm). reflexivity.
Defined.

Lemma package_available_witness : w_status ex_run.1 = Some 200 ∧ HashBytes (w_body ex_run.1) = HashBytes ex_data.
Proof.
  exact (package_available ex_penv (ProxySys.ex_cfg "auto") true true "/c" [] ex_apart pkg_url ex_data
    (λ n op, eq_refl) (λ n op, eq_refl) ex_accepts ex_readable (λ n p, eq_refl) (λ n, eq_refl) eq_refl ltac:(vm_compute; reflexivity)
    ltac:(intros n q _; eexists; split; [reflexivity|split; reflexivity]) ex_pkg ex_pserver ex_resolve
    eq_refl ex_sound eq_refl ltac:(vm_compute; discriminate)).
Defined.
End PkgServeSys.
