(* ===== verification/Gateway.v ===== *)
(** * internal/proxy/server.go: the HTTP front of the proxy

    The client allowlist, the whole of [handleRequest], refused URLs, CONNECT
    tunnels, the retries of failed downloads, and the announcements.  Dialling,
    hijacking the connection and what the two ends of a tunnel read and take are
    given by the surroundings; metrics are left out. *)

From S2P Require Import Prelude GoStd GoText GoNet GoNum GoConf HashUtil Sql Cache MetaCache Security PkgIndex Release Retry Mirror.
From S2P Require Import Support DlState Downloader Scorer Proxy ProxyMeta PkgServe.
From Stdlib Require Import Ascii.
Open Scope Z_scope.
Open Scope go_scope.

(** ** The verb %q *)

(** [strconv.Quote] of a string with a byte above 127. *)
Class GoQuote := { unicode_Quote : string → string }.
Definition ascii_quote_only : GoQuote := {| unicode_Quote := id |}.

Definition dquote : ascii := byte_of 34.

Definition quote_char (a : ascii) : string :=
  let c := code a in
  if Ascii.eqb a dquote || (c =? 92) then Sanitize.escape a
  else if (32 <=? c) && (c <? 127) then String a ""
  else
    match List.find (λ p, c =? p.1) [(7, "a"); (8, "b"); (12, "f"); (10, "n"); (13, "r"); (9, "t"); (11, "v")] with
    | Some p => String Sanitize.backslash p.2
    | None => String Sanitize.backslash (String "x" (String (Sanitize.hexChar (Z.shiftr c 4)) (String (Sanitize.hexChar (Z.land c 15)) "")))
    end.

Definition Quote `{GoQuote} (s : string) : string :=
  if isASCII s
  then String dquote (String.concat "" (quote_char <$> String.list_ascii_of_string s) +:+ String dquote "")
  else unicode_Quote s.

Module Gateway.
Import MetaCache Release Gpg Proxy ProxyMeta PkgServe Net.

(** ** Requests *)

Record HttpRequest := mkHttp {
  r_Method : string; r_RemoteAddr : string;
  r_Host : string;                                        (* r.Host *)
  r_URLHost : string; r_URLPath : string; r_URL : string;  (* r.URL.Host, r.URL.Path, r.URL.String() *)
  r_EscapedPath : string;                                 (* r.URL.EscapedPath() *)
  r_RequestID : string;                                   (* the X-Request-ID header *)
  r_client : Client;
}.

(** A connection: what its reads yield, each with or without an error (the deadline
    passes after the last), and how it takes what is written. *)
Record Conn := mkConn { c_reads : list (string * bool); c_writes : nat → Sink }.

(** [RemoteAddr()] of a connection: the IP of a TCP address. *)
Inductive Addr := TCPAddr (ip : option IP) | OtherAddr.

(** The result of taking over the client's connection: [early] is what the HTTP
    server has already read of the bytes behind the request, which [Hijack] returns
    in a reader beside the connection; [sent200] whether the answer could be sent. *)
Inductive Hijack := NoHijacker | HijackFails | Hijacked (early : string) (sent200 : bool).

(** The surroundings of one request: those of a package request, the clock and the
    random bytes of its identifier, the result of dialling, and the two connections
    of a tunnel; the reads of the client's start behind what was read early. *)
Record GEnv := mkGEnv {
  ge : PEnv; ge_ts : Z; ge_rand : string;
  ge_dial : string → res string Addr;   (* or the text of the error *)
  ge_hijack : Hijack; ge_client : Conn; ge_target : Conn;
  ge_ms : Z;
}.

Inductive AuditEvent :=
| TunnelBlocked (host port reason : string)
| TunnelStart (host port : string)
| TunnelEnd (host port : string) (bytes ms : Z).

Section gateway.
Context `{GoUnicode, GoTime, OpenPGP, SqlOrder, Decompressors, GoRange, ParallelDownloader, GoQuote}.

(** The fields of the [Server] set by its configuration. *)
Record GConfig := mkGConfig {
  g_cfg : Config;
  allowedHosts : list string;
  allowedClientNets : list IPNet;
  g_hasNode : bool; g_hasFleet : bool;
}.

Record Gate := mkGate {
  ps : PkgServer;
  activeConns : Z; requestsTotal : Z;
  connectTotal : Z; connectFailed : Z; activeTunnels : Z; tunnelBytesIn : Z; tunnelBytesOut : Z;
  audit : list AuditEvent;
}.

Definition set_ps s g := mkGate s (activeConns g) (requestsTotal g) (connectTotal g) (connectFailed g) (activeTunnels g)
  (tunnelBytesIn g) (tunnelBytesOut g) (audit g).
Definition count_conn (d t : Z) g := mkGate (ps g) (activeConns g +₆₄ d) (requestsTotal g +₆₄ t) (connectTotal g) (connectFailed g)
  (activeTunnels g) (tunnelBytesIn g) (tunnelBytesOut g) (audit g).
Definition count_connect (t f : Z) g := mkGate (ps g) (activeConns g) (requestsTotal g) (connectTotal g +₆₄ t) (connectFailed g +₆₄ f)
  (activeTunnels g) (tunnelBytesIn g) (tunnelBytesOut g) (audit g).
Definition count_tunnel (a i o : Z) g := mkGate (ps g) (activeConns g) (requestsTotal g) (connectTotal g) (connectFailed g)
  (activeTunnels g +₆₄ a) (tunnelBytesIn g +₆₄ i) (tunnelBytesOut g +₆₄ o) (audit g).
Definition log_audit e g := mkGate (ps g) (activeConns g) (requestsTotal g) (connectTotal g) (connectFailed g) (activeTunnels g)
  (tunnelBytesIn g) (tunnelBytesOut g) (audit g ++ [e]).

(** What a request leads to: a response, a redirection by the multiplexer (301), a
    closed connection, or a tunnel to an address, with the bytes that went up to
    the target and down to the client. *)
Inductive Outcome :=
| Answered (w : Writer)
| Moved
| Dropped
| Tunnelled (target : string) (addr : Addr) (up down : string).

Context (cfg : GConfig).

(** ** The client allowlist *)

Definition bindIsLoopback (host : string) : bool :=
  if String.eqb host "" || String.eqb host "localhost" then true
  else match ParseIP host with Some ip => IsLoopback ip | None => false end.

Definition clientAllowed (r : HttpRequest) : bool :=
  let host := match SplitHostPort (r_RemoteAddr r) with Some (host, _) => host | None => r_RemoteAddr r end in
  match ParseIP host with
  | None => false
  | Some ip => if IsLoopback ip then true else existsb (λ n, IPNet_Contains n ip) (allowedClientNets cfg)
  end.

Definition sink_of (env : GEnv) (g : Gate) : Sink := e_client (pe (ge env)) (steps (srv (ps g))).

Definition gateClient (env : GEnv) (next : HttpRequest → Gate → Outcome * Gate) (r : HttpRequest) (g : Gate) : Outcome * Gate :=
  if negb (clientAllowed r) then (Answered (Error (sink_of env g) "forbidden: client not permitted" 403 new_writer), g)
  else next r g.

(** ** CONNECT *)

(** The bytes passed on and their number. *)
Fixpoint copyWithIdleTimeout (dst : nat → Sink) (i : nat) (reads : list (string * bool)) (sent : string) (total : Z) : string * Z :=
  match reads with
  | [] => (sent, total)
  | (chunk, readErr) :: reads =>
      if (0 <? String.length chunk)%nat then
        let '(taken, ok) := sink_write (dst i) chunk in
        let sent := sent +:+ taken in
        let total := if (0 <? String.length taken)%nat then total +₆₄ Z.of_nat (String.length taken) else total in
        if negb ok || negb (String.length chunk =? String.length taken)%nat then (sent, total)
        else if readErr then (sent, total)
        else copyWithIdleTimeout dst (S i) reads sent total
      else if readErr then (sent, total)
      else copyWithIdleTimeout dst i reads sent total
  end.

(** Both directions, from the connections as they are: what went up and down, and
    the numbers of bytes in and out. *)
Definition tunnel (client target : Conn) : string * string * (Z * Z) :=
  let '(up, bytesOut) := copyWithIdleTimeout (c_writes target) 0 (c_reads client) "" 0 in
  let '(down, bytesIn) := copyWithIdleTimeout (c_writes client) 0 (c_reads target) "" 0 in
  (up, down, (bytesIn, bytesOut)).

(** The reader that [Hijack] returns is discarded, and what it holds with it. *)
Definition handleConnect (env : GEnv) (r : HttpRequest) (w : Writer) (g : Gate) : Outcome * Gate :=
  let g := count_connect 1 0 g in
  let targetHost := if String.eqb (r_Host r) "" then r_URLHost r else r_Host r in
  let '(host, port, targetHost) :=
    match SplitHostPort targetHost with
    | Some (host, port) => (host, port, targetHost)
    | None => (targetHost, "443", JoinHostPort targetHost "443")
    end in
  let fail msg code g := (Answered (Error (sink_of env g) msg code w), count_connect 0 1 g) in
  if negb (Security.IsAllowedConnectTargetWithHosts targetHost (allowedHosts cfg)) then
    fail ("debswarm: HTTPS repository host " +:+ Quote host +:+
          " is not in the allowed list. If this is a legitimate repository, add its host to proxy.allowed_hosts in your debswarm config.")
         403 (log_audit (TunnelBlocked host port "not_allowed") g)
  else
    match ge_dial env targetHost with
    | Err err => fail "Failed to connect to target" 502 (log_audit (TunnelBlocked host port err) g)
    | Ok addr =>
        if match addr with TCPAddr ip => Security.IsBlockedIP ip | OtherAddr => false end then
          fail "CONNECT target resolved to blocked address" 403 (log_audit (TunnelBlocked host port "dns_rebinding_blocked") g)
        else
          match ge_hijack env with
          | NoHijacker => fail "Hijacking not supported" 500 g
          | HijackFails => fail "Failed to hijack connection" 500 g
          | Hijacked _ false => (Dropped, count_connect 0 1 g)
          | Hijacked _ true =>
              let g := count_tunnel 1 0 0 (log_audit (TunnelStart host port) g) in
              let '(up, down, (bytesIn, bytesOut)) := tunnel (ge_client env) (ge_target env) in
              let g := count_tunnel (-1) bytesIn bytesOut g in
              (Tunnelled targetHost addr up down, log_audit (TunnelEnd host port (bytesIn +₆₄ bytesOut) (ge_ms env)) g)
          end
    end.

(** ** Other requests *)

Definition writeBlockedURLError (sink : Sink) (targetURL : string) (w : Writer) : Writer :=
  if Security.IsBlockedHost targetURL
  then Error sink "debswarm: refused request to an internal or private address (SSRF protection)" 403 w
  else
    let host := match url_Parse targetURL with
                | Some u => if String.eqb (Hostname u) "" then targetURL else Hostname u
                | None => targetURL
                end in
    Error sink ("debswarm: repository host " +:+ Quote host +:+
      " is not in the allowed list. If this is a legitimate repository, add its host to proxy.allowed_hosts in your debswarm config (common third-party repos are trusted by default unless trust_known_repos is disabled).")
      403 w.

(** The handler for a URL that is allowed. *)
Definition dispatch (env : GEnv) (r : HttpRequest) (targetURL : string) (w : Writer) (s : PkgServer) : Writer * PkgServer :=
  match handleMetadata (pe (ge env)) (g_cfg cfg) (r_client r) targetURL w (srv s) with
  | Some (w, x) => (w, set_srv x s)
  | None => handlePackageRequest (ge env) (g_cfg cfg) (g_hasNode cfg) (g_hasFleet cfg) targetURL w s
  end.

Definition requestID (env : GEnv) (r : HttpRequest) : string :=
  RequestID.FromContext (RequestID.requestContext (r_RequestID r) (ge_ts env) (ge_rand env) (RequestID.mkCtx None None)).

Definition handleRequest (env : GEnv) (r : HttpRequest) (g : Gate) : Outcome * Gate :=
  let g := count_conn 1 1 g in
  let w := Set_ "X-Request-ID" (requestID env r) new_writer in
  let '(out, g) :=
    if String.eqb (r_Method r) "CONNECT" then handleConnect env r w g
    else
      let '(targetURL, allowed) := extractTargetURL (r_URLHost r) (r_URLPath r) (r_URL r) (allowedHosts cfg) in
      if String.eqb targetURL "" then
        (Answered (Error (sink_of env g) "debswarm: could not parse a repository URL from the request" 400 w), g)
      else if negb allowed then (Answered (writeBlockedURLError (sink_of env g) targetURL w), g)
      else let '(w, s) := dispatch env r targetURL w (ps g) in (Answered w, set_ps s g) in
  (out, count_conn (-1) 0 g).

(** ** The multiplexer *)

(** [cleanPath] of net/http. *)
Definition cleanPath (p : string) : string :=
  if String.eqb p "" then "/"
  else
    let p := if HasPrefix p "/" then p else "/" +:+ p in
    let np := Clean p in
    if HasSuffix p "/" && negb (String.eqb np "/") then np +:+ "/" else np.

(** [http.ServeMux] with the single pattern "/".  The target of a CONNECT request is
    used as it is: an empty path only matches with a slash added, for which the
    client is redirected.  The paths of other requests are cleaned, and the client
    is redirected when that changes them. *)
Definition mux (env : GEnv) (r : HttpRequest) (g : Gate) : Outcome * Gate :=
  let path := r_EscapedPath r in
  if String.eqb path "*" then (Answered (WriteHeader 400 new_writer), g)
  else if String.eqb (r_Method r) "CONNECT" then
    if String.eqb path "" then (Moved, g) else handleRequest env r g
  else if negb (String.eqb (cleanPath path) path) then (Moved, g)
  else handleRequest env r g.

(** The handler of the HTTP server. *)
Definition ServeHTTP (env : GEnv) (r : HttpRequest) (g : Gate) : Outcome * Gate := gateClient env (mux env) r g.

(** ** Background work *)

(** The failed downloads to try again, marked as pending: hash, URL, size, path. *)
Definition Job : Type := string * string * Z * string.

(** [over i]: whether the context of the retries is done at the i-th of them. *)
Fixpoint markJobs (ev : DlState.Env) (over : nat → bool) (i : nat) (failed : list DlState.DownloadState) (sm : DlState.SM) : list Job * DlState.SM :=
  match failed with
  | [] => ([], sm)
  | st :: failed =>
      if over i then ([], sm)
      else if String.eqb (DlState.s_URL st) "" then markJobs ev over (S i) failed sm
      else
        match DlState.MarkForRetry ev (DlState.s_ID st) sm with
        | (Err _, sm) => markJobs ev over (S i) failed sm
        | (Ok _, sm) =>
            let '(jobs, sm) := markJobs ev over (S i) failed sm in
            ((DlState.s_ID st, DlState.s_URL st, DlState.s_ExpectedSize st, PkgIndex.ExtractPathFromURL (DlState.s_URL st)) :: jobs, sm)
        end
  end.

Definition checkAndRetryFailedDownloads (ev : DlState.Env) (over : nat → bool) (maxAttempts maxAge : Z)
    (stateManager : option DlState.SM) : list Job * option DlState.SM :=
  match stateManager with
  | None => ([], None)
  | Some sm =>
      match DlState.GetRetryableDownloads ev maxAttempts maxAge sm with
      | Err _ => ([], Some sm)
      | Ok failed => let '(jobs, sm) := markJobs ev over 0 failed sm in (jobs, Some sm)
      end
  end.

Definition retryDownload (env : GEnv) (j : Job) (s : PkgServer) : PkgServer :=
  let '(expectedHash, url, expectedSize, path) := j in
  (downloadPackage (ge env) (g_cfg cfg) (g_hasNode cfg) (g_hasFleet cfg) url expectedHash expectedSize path s).2.

(** [announcementWorker] takes a hash from the channel; what [Provide] says of it is
    only logged. *)
Definition announceOne (s : PkgServer) : option (string * PkgServer) :=
  match announceChan s with [] => None | h :: rest => Some (h, set_announce rest s) end.

(** The packages whose announcement succeeded are marked, in the order they ended. *)
Definition ReannouncePackages (env : GEnv) (provided : string → bool) (s : PkgServer) : res Cache.CacheErr unit * PkgServer :=
  if negb (g_hasNode cfg) then (Ok tt, s)
  else
    match Cache.GetUnannounced (io_of (ge env) s) (pkgs s) with
    | Err e => (Err e, s)
    | Ok packages =>
        (Ok tt, foldl (λ s p, if provided (Cache.SHA256 p)
                              then set_pkgs (Cache.MarkAnnounced (io_of (ge env) s) (Cache.SHA256 p) (pkgs s)).2 s else s)
                  s packages)
    end.
End gateway.
End Gateway.
