(* ===== verification/GatewaySys.v ===== *)
(** * Properties of the HTTP front

    Who is let in, where a request may lead, what passes through a tunnel, and the
    chain of trust from the signed Release to the bytes of a package, over any run
    of requests and background work. *)

From S2P Require Import Prelude GoStd GoText GoNet GoNum GoConf HashUtil DebName Sql Cache CacheFacts CacheSys MetaCache Security PkgIndex.
From S2P Require Import PkgIndexSys AptLocal AptLocalSys Release Retry Mirror MirrorSys Support DlState Downloader Scorer Proxy ProxyMeta ProxySys PkgServe PkgServeSys.
From S2P Require Import Config ConfigSys Gateway SecuritySys.
From Stdlib Require Import Ascii.
Open Scope Z_scope.
Open Scope go_scope.

Module GatewaySys.
Import Release Gpg Proxy ProxyMeta PkgServe PkgServeSys Net Gateway.

Section gateway.
Context `{GoUnicode, GoTime, OpenPGP, SqlOrder, Decompressors, GR : GoRange, ParallelDownloader, GoQuote}.
Context (cfg : GConfig).

(** ** The allowlist *)

(** The address of the TCP peer. *)
Definition client_ip (r : HttpRequest) : option IP :=
  ParseIP (match SplitHostPort (r_RemoteAddr r) with Some (host, _) => host | None => r_RemoteAddr r end).

Definition permitted (cidrs : list string) (ip : IP) : Prop :=
  IsLoopback ip = true ∨ ∃ cidr a n, cidr ∈ cidrs ∧ cidr ≠ "" ∧ denotes cidr a n ∧ in_network a n ip.

Lemma parseCIDRs_contains cidrs nets ip :
  Config.parseCIDRs cidrs = Some nets → bytes ip → length ip = 16%nat →
  existsb (λ n, IPNet_Contains n ip) nets = true ↔
  ∃ cidr a n, cidr ∈ cidrs ∧ cidr ≠ "" ∧ denotes cidr a n ∧ in_network a n ip.
Proof.
  intros Hp Hb Hl. revert nets Hp. induction cidrs as [|c cidrs IH]; intros nets Hp; cbn [Config.parseCIDRs] in Hp.
  { injection Hp as <-. cbn. split; [done|]. intros (? & ? & ? & Hin & _). set_solver. }
  destruct (String.eqb_spec c "") as [->|Hne].
  { rewrite (IH _ Hp). set_solver. }
  destruct (ParseCIDR c) as [net|] eqn:Hc; [|done]. destruct (Config.parseCIDRs cidrs) as [ns|]; [|done].
  injection Hp as <-. cbn [existsb]. rewrite orb_true_iff, (IH ns eq_refl).
  destruct (ParseCIDR_denotes c net Hc) as (a & n & Hd & Hin). rewrite (Hin ip Hb Hl). split.
  - intros [Hi|(c' & a' & n' & ? & ?)]; [exists c, a, n; set_solver|exists c', a', n'; set_solver].
  - intros (c' & a' & n' & Hmem & Hne' & Hd' & Hi). apply elem_of_cons in Hmem as [->|Hmem]; [left|right; eauto 10].
    destruct Hd as (ad & m & i4 & k & Hcut & Ha & Hk & ->), Hd' as (ad' & m' & i4' & k' & Hcut' & Ha' & Hk' & ->).
    rewrite Hcut in Hcut'. injection Hcut' as <- <-. rewrite Ha in Ha'. injection Ha' as <- <-.
    rewrite Hk in Hk'. injection Hk' as <-. done.
Qed.

Lemma clientAllowed_spec cidrs r :
  Config.parseCIDRs cidrs = Some (allowedClientNets cfg) →
  clientAllowed cfg r = true ↔ ∃ ip, client_ip r = Some ip ∧ permitted cidrs ip.
Proof.
  intros Hp. unfold clientAllowed. fold (client_ip r). unfold client_ip, permitted.
  set (host := match SplitHostPort _ with Some _ => _ | None => _ end).
  destruct (ParseIP host) as [ip|] eqn:Hip; [|naive_solver].
  destruct (ParseIP_bytes _ _ Hip) as [Hb Hl]. pose proof (parseCIDRs_contains cidrs _ ip Hp Hb Hl) as Hc.
  destruct (IsLoopback ip) eqn:Hlo; [split; [intros _; exists ip; auto|done]|]. rewrite Hc. split.
  - intros Hin. exists ip. auto.
  - intros (ip' & [= <-] & [Hx|Hin]); [congruence|done].
Qed.

(** C11: the client allowlist is exact: a request is let in if and only if the address
    of its TCP peer is a loopback address or shares the leading bits of one of
    the configured networks; any other request is answered 403 and changes
    nothing, whatever its headers say. *)
Theorem client_allowlist cidrs env r g :
  Config.parseCIDRs cidrs = Some (allowedClientNets cfg) →
  ((∃ ip, client_ip r = Some ip ∧ permitted cidrs ip) → ServeHTTP cfg env r g = mux cfg env r g) ∧
  (¬ (∃ ip, client_ip r = Some ip ∧ permitted cidrs ip) →
     (ServeHTTP cfg env r g).2 = g ∧ ∃ w, (ServeHTTP cfg env r g).1 = Answered w ∧ w_status w = Some 403).
Proof.
  intros Hp. rewrite <- (clientAllowed_spec cidrs r Hp). unfold ServeHTTP, gateClient.
  destruct (clientAllowed cfg r); cbn [negb]; [done|]. split; [done|]. intros _. split; [done|].
  eexists. split; [done|]. by apply Error_status.
Qed.

(** The multiplexer passes a request on or answers it itself. *)
Lemma mux_cases env r g :
  mux cfg env r g = handleRequest cfg env r g ∨
  ((mux cfg env r g).2 = g ∧ ((mux cfg env r g).1 = Moved ∨ ∃ w, (mux cfg env r g).1 = Answered w ∧ w_status w = Some 400)).
Proof.
  unfold mux. destruct (String.eqb _ "*"); [right; split; [done|right; by eexists]|].
  destruct (String.eqb _ "CONNECT"); [destruct (String.eqb _ "")|destruct (negb _)]; auto.
Qed.

(** ** Where requests lead *)

(** What a direction of a tunnel passes on is the beginning of what it reads, and
    it counts those bytes. *)
Lemma copy_prefix dst i reads sent total :
  int64_range total →
  let '(sent', total') := copyWithIdleTimeout dst i reads sent total in
  ∃ more rest, sent' = sent +:+ more ∧ String.concat "" reads.*1 = more +:+ rest ∧
    total' = wrap64 (total + Z.of_nat (String.length more)).
Proof.
  revert i sent total. induction reads as [|[chunk err] reads IH]; intros i sent total Ht; cbn [copyWithIdleTimeout].
  { exists "", "". rewrite str_app_nil_r. split; [done|]. split; [done|]. cbn. rewrite Z.add_0_r. by rewrite wrap64_id. }
  assert (String.concat "" ((chunk, err) :: reads).*1 = chunk +:+ String.concat "" reads.*1) as Hcat.
  { cbn [fmap list_fmap fst]. destruct (reads.*1); cbn [String.concat]; [by rewrite str_app_nil_r|done]. }
  rewrite Hcat. destruct (Nat.ltb_spec 0 (String.length chunk)) as [Hpos|Hz].
  - assert (∃ taken ok rest, sink_write (dst i) chunk = (taken, ok) ∧ chunk = taken +:+ rest ∧
              (String.length chunk = String.length taken → taken = chunk)) as (taken & ok & rest & Hw & Hchunk & Hfull).
    { unfold sink_write. destruct (dst i chunk) as [n|]; [|exists chunk, true, ""; by rewrite str_app_nil_r].
      exists (str_take n chunk), false, (str_drop n chunk). rewrite str_take_drop. split; [done|]. split; [done|].
      intros Hl. rewrite <- (str_take_drop n chunk) in Hl at 1. rewrite str_length_app in Hl.
      rewrite <- (str_take_drop n chunk) at 2. destruct (str_drop n chunk); [by rewrite str_app_nil_r|cbn in Hl; lia]. }
    rewrite Hw. set (total1 := if (0 <? _)%nat then _ else _).
    assert (total1 = wrap64 (total + Z.of_nat (String.length taken))) as Htot.
    { subst total1. destruct (Nat.ltb_spec 0 (String.length taken)); [done|].
      replace (String.length taken) with 0%nat by lia. rewrite Z.add_0_r. by rewrite wrap64_id. }
    assert (∃ more rest', sent +:+ taken = sent +:+ more ∧ chunk +:+ String.concat "" reads.*1 = more +:+ rest' ∧
              total1 = wrap64 (total + Z.of_nat (String.length more))) as Hstop.
    { exists taken, (rest +:+ String.concat "" reads.*1). split; [done|]. split; [|done].
      by rewrite <- str_app_assoc, <- Hchunk. }
    destruct (negb ok || negb (String.length chunk =? String.length taken)%nat) eqn:Hshort; [exact Hstop|].
    destruct err; [exact Hstop|]. apply orb_false_iff in Hshort as [_ Hl%negb_false_iff%Nat.eqb_eq].
    specialize (Hfull Hl). subst taken.
    specialize (IH (S i) (sent +:+ chunk) total1 ltac:(rewrite Htot; apply wrap64_range)).
    destruct (copyWithIdleTimeout dst (S i) reads _ _) as [sent' total']. destruct IH as (more & rest' & -> & Hc & ->).
    exists (chunk +:+ more), rest'. rewrite !str_app_assoc, Hc. split; [done|]. split; [done|].
    rewrite Htot, wrap64_add_l, str_length_app. f_equal. lia.
  - assert (chunk = "") as -> by (destruct chunk; [done|cbn in Hz; lia]). cbn [String.append].
    destruct err.
    + exists "", (String.concat "" reads.*1). rewrite str_app_nil_r. cbn. by rewrite Z.add_0_r, wrap64_id.
    + by apply IH.
Qed.

(** What a client sends behind a CONNECT request: the bytes the HTTP server read
    early and those that follow on the connection. *)
Definition client_sends (env : GEnv) : string :=
  (match ge_hijack env with Hijacked early _ => early | _ => "" end) +:+ String.concat "" (c_reads (ge_client env)).*1.

(** C24: a tunnel only ever leads from a client whose address is loopback or in one of
    the configured networks to a known mirror, a configured host or a subdomain of
    one, on port 443 or 80, over a connection whose other end is not a loopback,
    private, link-local or unspecified address (a name that resolves to one is
    caught after dialling).  The client gets, unchanged and in order, the beginning
    of what the target sent; the target gets the beginning of what the client sent
    behind the bytes that the HTTP server had already read when the connection was
    taken over, which are lost.  The byte counters grow by exactly what was passed
    on, and no tunnel stays counted as active. *)
Theorem tunnel_safe cidrs env r g target addr up down :
  Config.parseCIDRs cidrs = Some (allowedClientNets cfg) → int64_range (activeTunnels g) →
  (ServeHTTP cfg env r g).1 = Tunnelled target addr up down →
  let g' := (ServeHTTP cfg env r g).2 in
  (∃ ip, client_ip r = Some ip ∧ permitted cidrs ip) ∧ r_Method r = "CONNECT" ∧ ge_dial env target = Ok addr ∧
  (∃ host port, default (target, "443") (SplitHostPort target) = (host, port) ∧ (port = "443" ∨ port = "80") ∧
    ((∃ d, d ∈ Security.knownMirrorDomains ∧ SecuritySys.within (ToLower host) d) ∨
     (∃ d, d ∈ allowedHosts cfg ∧ SecuritySys.within (ToLower host) (ToLower d)))) ∧
  (∀ ip, addr = TCPAddr (Some ip) → bytes ip → length ip = 16%nat → ¬ SecuritySys.internal ip) ∧
  (∃ early rest, ge_hijack env = Hijacked early true ∧ client_sends env = early +:+ up +:+ rest) ∧
  (∃ rest, String.concat "" (c_reads (ge_target env)).*1 = down +:+ rest) ∧
  tunnelBytesOut g' = wrap64 (tunnelBytesOut g + Z.of_nat (String.length up)) ∧
  tunnelBytesIn g' = wrap64 (tunnelBytesIn g + Z.of_nat (String.length down)) ∧
  activeTunnels g' = activeTunnels g ∧ ps g' = ps g.
Proof.
  intros Hcidrs Hrange. pose proof (clientAllowed_spec cidrs r Hcidrs) as Hcl.
  unfold ServeHTTP, gateClient. destruct (clientAllowed cfg r); cbn [negb]; [|done].
  destruct (mux_cases env r g) as [->|[_ [->|(w & -> & _)]]]; [|done..]. unfold handleRequest. destruct (String.eqb_spec (r_Method r) "CONNECT") as [Hm|_].
  2:{ destruct (extractTargetURL _ _ _ _) as [url ok]. destruct (String.eqb url ""); [done|]. destruct (negb ok); [done|].
      by destruct (dispatch _ _ _ _ _ _). }
  unfold handleConnect. cbv zeta.
  destruct (match SplitHostPort _ with Some _ => _ | None => _ end) as [[host port] th].
  destruct (Security.IsAllowedConnectTargetWithHosts th (allowedHosts cfg)) eqn:Hal; cbn [negb]; [|done].
  destruct (ge_dial env th) as [a|err] eqn:Hdial; [|done].
  destruct (match a with TCPAddr _ => _ | OtherAddr => _ end) eqn:Hblk; [done|].
  destruct (ge_hijack env) as [| |early [|]] eqn:Hhj; try done. unfold tunnel.
  pose proof (copy_prefix (c_writes (ge_target env)) 0 (c_reads (ge_client env)) "" 0 ltac:(unfold int64_range; lia)) as Hup.
  pose proof (copy_prefix (c_writes (ge_client env)) 0 (c_reads (ge_target env)) "" 0 ltac:(unfold int64_range; lia)) as Hdn.
  destruct (copyWithIdleTimeout (c_writes (ge_target env)) _ _ _ _) as [u nu].
  destruct (copyWithIdleTimeout (c_writes (ge_client env)) _ _ _ _) as [d nd].
  destruct Hup as (mu & ru & -> & Hu & ->), Hdn as (md & rd & -> & Hd & ->). cbn [fst snd String.append]. intros [= <- <- <- <-].
  split_and!; try done.
  - by apply Hcl.
  - by apply SecuritySys.allowed_connect_target.
  - intros ip -> Hb Hl Hi. apply SecuritySys.blocked_internal in Hi; [|done..]. exact (eq_true_false_abs _ Hi Hblk).
  - exists early, ru. split; [done|]. unfold client_sends. by rewrite Hhj, Hu.
  - by exists rd.
  - cbn [tunnelBytesOut tunnelBytesIn count_conn count_connect count_tunnel log_audit]. by rewrite wrap64_add_l, wrap64_add_r, Z.add_0_l, Z.add_0_r.
  - cbn [tunnelBytesOut tunnelBytesIn count_conn count_connect count_tunnel log_audit]. by rewrite wrap64_add_l, wrap64_add_r, Z.add_0_l, Z.add_0_r.
  - cbn. rewrite wrap64_add_l. replace (activeTunnels g + 1 + -1) with (activeTunnels g) by lia. by apply wrap64_id.
Qed.

(** Tunnels are out of reach of the clients they are meant for: the target of a
    CONNECT request as proxies get it has no path, the multiplexer in front of the
    handler has the single pattern "/", and so every admitted client is redirected,
    nothing changes, and no tunnel is opened to any host. *)
Lemma connect_never_tunnels env r g :
  clientAllowed cfg r = true → r_Method r = "CONNECT" → r_EscapedPath r = "" →
  ServeHTTP cfg env r g = (Moved, g).
Proof. intros Hc Hm Hp. unfold ServeHTTP, gateClient, mux. by rewrite Hc, Hp, Hm. Qed.

(** ** The chain of trust *)

(** What the proxy resolves packages by. *)
Definition trust_base (s : PkgServer) : PkgIndex.Index * gmap string Release.Release := (index (srv s), releaseStore (srv s)).

(** The contents of APT's own list files over time. *)
Context (lists : string → stream → Prop).

Lemma proxy_inv_base s s' :
  trust_base s' = trust_base s → ProxySys.proxy_inv (g_cfg cfg) lists (srv s) → ProxySys.proxy_inv (g_cfg cfg) lists (srv s').
Proof.
  intros [= Hi Hr] [Hinv Hst Hb]. constructor; rewrite ?Hi; try done. unfold ProxySys.store_ok. by rewrite Hr.
Qed.

Lemma set_fetching_base f n s : trust_base (set_fetching f n s) = trust_base s.
Proof. unfold trust_base, set_fetching. cbn [srv set_srv]. induction n; [done|]. exact IHn. Qed.

Section download.
Context (env : PEnv).

Lemma downloadPackage_base url h size path s :
  trust_base (downloadPackage env (g_cfg cfg) (g_hasNode cfg) (g_hasFleet cfg) url h size path s).2 = trust_base s.
Proof.
  unfold downloadPackage.
  assert (trust_base (if g_hasFleet cfg then fleetPhase env (g_hasNode cfg) h path s else (None, s)).2 = trust_base s) as Hf.
  { destruct (g_hasFleet cfg); [|done]. by apply keeps_fleetPhase. }
  destruct (if g_hasFleet cfg then _ else _) as [[res|] s1]; cbn [snd] in Hf; [done|]. cbv zeta. set (s2 := if g_hasFleet cfg then _ else _).
  assert (trust_base s2 = trust_base s) as Hs2 by (subst s2; by destruct (g_hasFleet cfg)).
  assert (trust_base (downloadWAN env (g_cfg cfg) (g_hasNode cfg) url h size path s2).2 = trust_base s2) as Hw.
  { apply keeps_WAN; try done. intros; apply set_fetching_base. }
  destruct (downloadWAN _ _ _ _ _ _ _ _) as [res s3]. cbn [snd] in *. rewrite <- Hs2, <- Hw. by destruct (g_hasFleet cfg).
Qed.

Lemma servePackage_base url pkg w s :
  trust_base (servePackage env (g_cfg cfg) (g_hasNode cfg) (g_hasFleet cfg) url pkg w s).2 = trust_base s.
Proof.
  unfold servePackage. cbv zeta. set (x := if Cache.Has _ _ then _ else _).
  assert (trust_base x.2 = trust_base s) as Hx.
  { subst x. destruct (Cache.Has _ _); [|done]. unfold serveFromCache. by destruct (Cache.Get _ _ _) as [[[tr p]|e] c]. }
  destruct x as [[w1|] s1]; cbn [snd] in Hx; [done|]. destruct (isOffline _); [done|].
  pose proof (downloadPackage_base url (PkgIndex.SHA256 pkg) (PkgIndex.Size pkg) (PkgIndex.Filename pkg) s1) as Hd.
  destruct (downloadPackage _ _ _ _ _ _ _ _ _) as [[r|] s2]; cbn [snd] in *; [|cbn [snd]; congruence].
  unfold servePackageResult. destruct (r_serveFromCache r); [|cbn [snd]; congruence].
  destruct (Cache.Get _ _ _) as [[[tr p]|e] c]; cbn [snd sendReader]; rewrite <- Hx, <- Hd; done.
Qed.
End download.

(** The directory of the cache, the readers held open elsewhere, and the files of the
    parallel downloader apart from the packages. *)
Context (base : string) (open : list Cache.trackedReader).
Context (Hapart : ∀ n h sz peers r, par_Download n h sz peers = Some r → f_data r = None → apart base r ∧ 0 <= f_size r).
Context (Henforce : verifyMode (g_cfg cfg) = "enforce") (Hexempt : verifyExempt (g_cfg cfg) = []).

(** The packages of the cache have the hashes they are filed under, and the entries of
    the index come from APT's lists or from bodies that a signed Release vouches
    for. *)
Definition trusted (s : PkgServer) : Prop := sound base open s ∧ ProxySys.proxy_inv (g_cfg cfg) lists (srv s).

Lemma trusted_pkgs s s' : trust_base s' = trust_base s → sound base open s' → trusted s → trusted s'.
Proof. intros Hb Hs [_ Hi]. split; [done|]. by eapply proxy_inv_base. Qed.

Lemma warm_trusted env s : trusted s → trusted (warmIndexFromCacheOnce env (g_cfg cfg) s).
Proof using GR Henforce Hexempt.
  intros [Hs Hi]. unfold warmIndexFromCacheOnce. destruct (indexWarmed s); [by split|].
  split; [by eapply sound_pkgs|]. by eapply ProxySys.pstep_inv; [..|apply ProxySys.P_warm|].
Qed.

Lemma stream_base env url w s : trust_base (streamUncachedPackage env (g_cfg cfg) url w s).2 = trust_base s.
Proof.
  unfold streamUncachedPackage. destruct (Mirror.Stream _ _ _ _) as [[[body sz]|e] f]; cbn [snd]; [|apply set_fetching_base].
  destruct (Write _ _ _) as [[w1 n] ok]. cbn [snd]. apply (set_fetching_base f 1 s).
Qed.

Lemma handlePackageRequest_trusted env url w s :
  fresh w → trusted s → trusted (handlePackageRequest env (g_cfg cfg) (g_hasNode cfg) (g_hasFleet cfg) url w s).2.
Proof using Hapart Henforce Hexempt.
  intros Hw Ht. pose proof (handlePackageRequest_response env (g_cfg cfg) (g_hasNode cfg) (g_hasFleet cfg) base open Hapart
    url w s Hw (proj1 Ht)) as [Hs _]. split; [exact Hs|]. unfold handlePackageRequest.
  destruct (resolve url s) as [pkg|]; [eapply proxy_inv_base; [apply servePackage_base|apply Ht]|].
  pose proof (warm_trusted env s Ht) as [_ Hi]. set (s1 := warmIndexFromCacheOnce _ _ _) in *.
  destruct (resolve url s1) as [pkg|]; (eapply proxy_inv_base; [|exact Hi]); [apply servePackage_base|].
  rewrite stream_base. done.
Qed.

Lemma dispatch_trusted env r url w s :
  fresh w → trusted s → trusted (dispatch cfg env r url w s).2.
Proof using Hapart Henforce Hexempt.
  intros Hw Ht. unfold dispatch. destruct (handleMetadata _ _ _ _ _ _) as [[w1 x]|] eqn:Hm.
  - destruct Ht as [Hs Hi]. split; [by eapply sound_pkgs|]. by eapply ProxySys.pstep_inv; [..|eapply ProxySys.P_request|].
  - by apply handlePackageRequest_trusted.
Qed.

Lemma handleConnect_ps env r w g : ps (handleConnect cfg env r w g).2 = ps g.
Proof.
  unfold handleConnect. cbv zeta. destruct (match SplitHostPort _ with Some _ => _ | None => _ end) as [[host port] th].
  destruct (negb _); [done|]. destruct (ge_dial env th) as [a|]; [|done].
  destruct (match a with TCPAddr _ => _ | OtherAddr => _ end); [done|]. destruct (ge_hijack env) as [| |early [|]]; try done.
  by destruct (tunnel _ _) as [[up down] [i o]].
Qed.

Lemma ServeHTTP_trusted env r g : trusted (ps g) → trusted (ps (ServeHTTP cfg env r g).2).
Proof using Hapart Henforce Hexempt.
  intros Ht. unfold ServeHTTP, gateClient. destruct (negb _); [done|].
  destruct (mux_cases env r g) as [->|[-> _]]; [|done]. unfold handleRequest. cbv zeta.
  set (w := Set_ _ _ _). destruct (String.eqb _ "CONNECT").
  { pose proof (handleConnect_ps env r w (count_conn 1 1 g)) as Hp. destruct (handleConnect _ _ _ _ _) as [out g1]. cbn in *. by rewrite Hp. }
  destruct (extractTargetURL _ _ _ _) as [url ok]. destruct (String.eqb url ""); [done|]. destruct (negb ok); [done|].
  pose proof (dispatch_trusted env r url w (ps g) (conj eq_refl eq_refl) Ht) as Hd.
  change (ps (count_conn 1 1 g)) with (ps g). by destruct (dispatch _ _ _ _ _ _) as [w1 s1].
Qed.

Lemma MarkAnnounced_trusted env h s : trusted s → trusted (set_pkgs (Cache.MarkAnnounced (io_of env s) h (pkgs s)).2 s).
Proof.
  intros Ht. eapply trusted_pkgs; [| |exact Ht]; [done|]. destruct Ht as [[Hi Hb] _]. split.
  - eapply CacheSys.step_inv; [apply CacheSys.step_announced|done].
  - cbn [pkgs set_pkgs]. unfold Cache.MarkAnnounced. by destruct (Cache.db _ _).
Qed.

Lemma importEntries_base files canceled i dir entries x r c :
  Cache.basePath (AptArchives.importEntries files canceled i dir entries x r c).2 = Cache.basePath c.
Proof.
  revert i r c. induction entries as [|[name d] entries IH]; intros i r c; cbn [AptArchives.importEntries]; [done|].
  destruct (canceled i); [done|]. destruct (d || _); [apply IH|].
  assert (Cache.basePath (AptArchives.importPackage (files (filepath_Join [dir; name])) (filepath_Join [dir; name]) x c).2 = Cache.basePath c) as Hb.
  { unfold AptArchives.importPackage. cbv zeta. destruct (negb _); [done|]. destruct (HashReader _); [|done]. destruct (Cache.Has _ _); [done|].
    destruct (match PkgIndex.GetBySHA256 _ _ with Some _ => _ | None => _ end); [|done]. destruct (AptArchives.a_put _) as [pd|]; [|done].
    set (fn := if String.eqb _ "" then _ else _). pose proof (Put_base (AptArchives.a_io (files (filepath_Join [dir; name]))) pd s fn c) as Hp.
    by destruct (Cache.Put _ _ _ _ _) as [[u|e] c']. }
  destruct (AptArchives.importPackage _ _ _ _) as [status c1]. cbn [snd] in Hb. by rewrite IH.
Qed.

Lemma Import_sound stat entries files canceled dir s :
  trusted s →
  sound base open (set_pkgs (AptArchives.Import stat entries files canceled dir (index (srv s)) (pkgs s)).2 s).
Proof.
  intros [[Hi Hb] [Hix _ _]]. unfold AptArchives.Import. destruct stat; try done. destruct entries as [l|]; [|done].
  pose proof (AptLocalSys.importEntries_imports (P := False) files ltac:(done) canceled 0 dir l (index (srv s)) open (AptArchives.mkImport 0 0 0 0 0) (pkgs s) Hix Hi) as Hm.
  pose proof (importEntries_base files canceled 0 dir l (index (srv s)) (AptArchives.mkImport 0 0 0 0 0) (pkgs s)) as Hbase.
  destruct (AptArchives.importEntries _ _ _ _ _ _ _ _) as [[r ok] c']. destruct Hm as ([Hi' _] & _). cbn [snd] in *.
  split; [exact Hi'|]. by rewrite <- Hb.
Qed.

(** The requests the proxy answers and the work it does by itself (retries,
    announcements, scans of APT's lists and other steps of the index, imports of
    APT's archives, changes of the connectivity mode), each in surroundings of its
    own: clients, peers, mirrors and storage are free to do anything. *)
Inductive gstep : Gate → Gate → Prop :=
| G_request env r g : gstep g (ServeHTTP cfg env r g).2
| G_retry env j g : gstep g (set_ps (retryDownload cfg env j (ps g)) g)
| G_announce h s g : announceOne (ps g) = Some (h, s) → gstep g (set_ps s g)
| G_reannounce env provided g : gstep g (set_ps (ReannouncePackages cfg env provided (ps g)).2 g)
| G_index x g : ProxySys.pstep (g_cfg cfg) lists (srv (ps g)) x → gstep g (set_ps (set_srv x (ps g)) g)
| G_import stat entries files canceled dir g :
    gstep g (set_ps (set_pkgs (AptArchives.Import stat entries files canceled dir (index (srv (ps g))) (pkgs (ps g))).2 (ps g)) g)
| G_mode mode g : gstep g (set_ps (set_srv (set_connectivity mode (srv (ps g))) (ps g)) g).

Lemma gstep_trusted g g' : gstep g g' → trusted (ps g) → trusted (ps g').
Proof using Hapart Henforce Hexempt.
  intros [env r g0|env [[[h u] sz] path] g0|h s g0 Ha|env provided g0|x g0 Hx|stat entries files canceled dir g0|mode g0] Ht.
  - by apply ServeHTTP_trusted.
  - cbn [ps set_ps retryDownload]. eapply trusted_pkgs; [apply downloadPackage_base| |exact Ht].
    by apply (downloadPackage_delivers (ge env) (g_cfg cfg) (g_hasNode cfg) (g_hasFleet cfg) base open Hapart), Ht.
  - unfold announceOne in Ha. destruct (announceChan _); [done|]. injection Ha as _ <-. exact Ht.
  - cbn [ps set_ps]. unfold ReannouncePackages. destruct (negb _); [done|]. destruct (Cache.GetUnannounced _ _) as [l|]; [|done].
    cbn [snd]. revert Ht. generalize (ps g0). induction l as [|p l IH]; intros s Ht; [done|]. cbn [foldl]. apply IH.
    destruct (provided _); [by apply MarkAnnounced_trusted|done].
  - destruct Ht as [Hs Hi]. split; [by eapply sound_pkgs|]. by eapply ProxySys.pstep_inv; [..|exact Hx|].
  - eapply trusted_pkgs; [| |exact Ht]; [done|]. by apply Import_sound.
  - destruct Ht as [Hs Hi]. split; [by eapply sound_pkgs|]. by eapply ProxySys.pstep_inv; [..|apply ProxySys.P_mode|].
Qed.

(** A 200 answer comes from the handler of an allowed URL, for an admitted client. *)
Lemma answered_200 env r g w :
  (ServeHTTP cfg env r g).1 = Answered w → w_status w = Some 200 →
  let x := extractTargetURL (r_URLHost r) (r_URLPath r) (r_URL r) (allowedHosts cfg) in
  clientAllowed cfg r = true ∧ x.2 = true ∧
  w = (dispatch cfg env r x.1 (Set_ "X-Request-ID" (requestID env r) new_writer) (ps g)).1.
Proof.
  intros Ha Hst. unfold ServeHTTP, gateClient in Ha. destruct (clientAllowed cfg r); cbn [negb] in Ha.
  2: { injection Ha as <-. by rewrite Error_status in Hst. }
  destruct (mux_cases env r g) as [Hmux|[_ [Hmux|(w1 & Hmux & Hw1)]]]; rewrite Hmux in Ha; [|done|injection Ha as <-; congruence].
  unfold handleRequest in Ha. cbv zeta in *. set (w0 := Set_ _ _ new_writer) in *.
  assert (w_status w0 = None) as Hw0 by done. destruct (String.eqb _ "CONNECT").
  { unfold handleConnect in Ha. cbv zeta in Ha. destruct (match SplitHostPort _ with Some _ => _ | None => _ end) as [[host port] th].
    destruct (negb _) in Ha; [injection Ha as <-; by rewrite Error_status in Hst|].
    destruct (ge_dial env th) as [a|] in Ha; [|injection Ha as <-; by rewrite Error_status in Hst].
    destruct (match a with TCPAddr _ => _ | OtherAddr => _ end) in Ha; [injection Ha as <-; by rewrite Error_status in Hst|].
    destruct (ge_hijack env) as [| |early [|]] in Ha; try done; try (injection Ha as <-; by rewrite Error_status in Hst).
    by destruct (tunnel _ _) as [[up down] [i o]] in Ha. }
  destruct (extractTargetURL _ _ _ _) as [url ok]. cbn [fst snd].
  destruct (String.eqb url "") in Ha; [injection Ha as <-; by rewrite Error_status in Hst|].
  destruct ok; cbn [negb] in Ha.
  - change (ps (count_conn 1 1 g)) with (ps g) in Ha. destruct (dispatch _ _ _ _ _ _) as [w1 s1]. by injection Ha as <-.
  - injection Ha as <-. unfold writeBlockedURLError in Hst. by destruct (Security.IsBlockedHost url); rewrite Error_status in Hst.
Qed.

(** C1: the chain of trust, end to end.  In enforce mode without exempt hosts, start
    from a proxy whose cache, index and stored Releases are in order and let it
    answer any requests and do any background work, against arbitrary clients,
    fleet members, peers, mirrors and storage: whenever it then answers 200 for a
    package URL, the client was admitted and the URL allowed, and what the client
    gets is the beginning of bytes with the SHA-256 of an entry that the index
    lists for the URL (all of them unless the client stops or the cache's file
    cannot be read on).  The entry is one of APT's own lists, or of an index body
    that a text signed by a trusted key lists: the last line for the index's path
    in its SHA256 sections gives the SHA-256 of the body.  Two things are outside
    the chain: an index fetched by hash, of whose URL only the digest has to be in
    such a line while its bytes are not compared with it, and a package URL that no
    loaded index knows, which is passed through unverified.  The directories the
    parallel downloader assembles files in are taken to be apart from that of the
    packages. *)
Theorem trust_chain g g' env r w :
  rtc gstep g g' → trusted (ps g) →
  (ServeHTTP cfg env r g').1 = Answered w → w_status w = Some 200 →
  let x := extractTargetURL (r_URLHost r) (r_URLPath r) (r_URL r) (allowedHosts cfg) in
  classifyRequest x.1 = requestTypePackage →
  clientAllowed cfg r = true ∧ x.2 = true ∧
  let s1 := warmIndexFromCacheOnce (ge env) (g_cfg cfg) (ps g') in
  ((∃ p, (resolve x.1 (ps g') = Some p ∨ resolve x.1 s1 = Some p) ∧
         (AptLocalSys.local lists p ∨
          ∃ url data text key, PkgIndexSys.strip p ∈ ProxySys.text_entries url data ∧
            signed (keyring (g_cfg cfg)) text ∧ ProxySys.filed url key ∧ ProxySys.attests text key data) ∧
         ∃ bytes rest, HashBytes bytes = PkgIndex.SHA256 p ∧ bytes = w_body w +:+ rest ∧
           (accepts (ge env) → readable (ge env) → rest = "")) ∨
   (resolve x.1 (ps g') = None ∧ resolve x.1 s1 = None)).
Proof using Hapart Henforce Hexempt.
  intros Hrun Ht0 Ha Hst x Hx. assert (trusted (ps g')) as Ht by (induction Hrun; eauto using gstep_trusted).
  destruct (answered_200 _ _ _ _ Ha Hst) as (Hcl & Hal & Hw). fold x in Hal, Hw. split; [done|]. split; [done|]. intros s1.
  unfold dispatch, handleMetadata in Hw. rewrite Hx in Hw.
  destruct (handlePackageRequest_response (ge env) (g_cfg cfg) (g_hasNode cfg) (g_hasFleet cfg) base open Hapart x.1
    (Set_ "X-Request-ID" (requestID env r) new_writer) (ps g') (conj eq_refl eq_refl) (proj1 Ht)) as [_ Hr].
  rewrite <- Hw in Hr. destruct (Hr Hst) as [(p & Hp & Hh)|Hnone]; [left|by right].
  exists p. split; [exact Hp|]. split; [|exact Hh].
  assert (∀ s, trusted s → resolve x.1 s = Some p → AptLocalSys.local lists p ∨ ProxySys.backed (g_cfg cfg) p) as Hback.
  { intros s [_ Hi] Hres. unfold resolve in Hres. destruct (PkgIndex.GetByURLPath _ _) as [q|] eqn:Hq; [|done].
    destruct (_ =? 64)%nat; [|done]. destruct (DecodeString _); [|done]. injection Hres as <-.
    eapply (ProxySys.pi_backed _ _ _ Hi), PkgIndexSys.GetByURLPath_listed, Hq. apply Hi. }
  assert (AptLocalSys.local lists p ∨ ProxySys.backed (g_cfg cfg) p) as [Hl|(url & data & (text & key & Hv) & He)].
  { destruct Hp as [Hp|Hp]; (eapply Hback; [|exact Hp]); [done|by apply warm_trusted]. }
  - by left.
  - right. by exists url, data, text, key.
Qed.
End gateway.

(** ** The theorems at concrete inputs *)
#[local] Existing Instance ascii_only.
#[local] Existing Instance toy_sha.
#[local] Existing Instance isort_order.
#[local] Existing Instance range_id.
#[local] Existing Instance PkgIndexSys.no_codecs.
#[local] Existing Instance ProxySys.no_time.
#[local] Existing Instance ProxySys.toy_pgp.
#[local] Existing Instance ascii_quote_only.
#[local] Existing Instance ex_parallel.

(** A proxy for a network, with a third-party host, and a mirror with a signed Release,
    the index it lists and one package; every peer sends something else. *)
Definition lan : list string := ["192.168.1.0/24"; "fd00::/8"].
Definition ex_gcfg (mode : string) : GConfig :=
  mkGConfig (ProxySys.ex_cfg mode) ["h"] (default [] (Config.parseCIDRs lan)) true true.

Definition real_index : string := ProxySys.packages_of (HashBytes ex_data).
Definition real_release : string := "SIGNED:" +:+ ProxySys.release_of "main/binary-amd64/Packages" (HashBytes real_index).
Definition ex_upstream (u : string) : option Mirror.Response :=
  if String.eqb u (ProxySys.dist_base +:+ "InRelease") then ProxySys.ok200 real_release ""
  else if String.eqb u ProxySys.plain_url then ProxySys.ok200 real_index "e"
  else ProxySys.ok200 ex_data "".

Definition tunnel_client : Conn := mkConn [("GET", false); ("", false); (" /", true); ("late", false)] (λ i _, if (i =? 1)%nat then Some 2%nat else None).
Definition tunnel_target : Conn := mkConn [("HTTP", false); ("/1.1", false)] (λ _ _, None).
Definition ex_genv : GEnv :=
  mkGEnv (mkPEnv (ProxySys.ex_env ex_upstream) (λ _, Some (ActionFetchLAN "F")) (λ _ _, true)
            (λ _ _ _, Some "evil!") (λ _, Some ["P"; "Q"; "R"; "S"]) (λ _, false) (λ _ _, None))
    0 "random" (λ _, Ok (TCPAddr (ParseIP "93.184.216.34"))) (Hijacked (String (byte_of 22) "") true) tunnel_client tunnel_target 5.

Definition ex_gate : Gate :=
  mkGate (mkPS ProxySys.ex_server (pkgs ex_pserver) Scorer.NewScorer [] false ∅ 0 0 0 []) 0 0 0 0 0 0 0 [].

Definition get_from (addr url : string) : HttpRequest :=
  let path := str_drop 8 url in mkHttp "GET" addr "h" "h" path url path "" ProxySys.no_client.
Definition connect_from (addr host path : string) : HttpRequest := mkHttp "CONNECT" addr host "" path path path "" ProxySys.no_client.

(** A neighbour is let in, a stranger is not, and neither is a request whose peer
    address cannot be read. *)
Example who_is_let_in :
  (λ a, clientAllowed (ex_gcfg "enforce") (get_from a pkg_url)) <$>
    ["192.168.1.7:4000"; "192.168.2.7:4000"; "127.0.0.1:1"; "[::1]:1"; "[fd12::1]:9"; "[::ffff:192.168.1.9]:9"; "@"; "somewhere:80"]
  = [true; false; true; true; true; true; false; false].
Proof. vm_compute. reflexivity. Qed.

Lemma client_allowlist_witness :
  ∃ w, (ServeHTTP (ex_gcfg "enforce") ex_genv (get_from "192.168.2.7:4000" pkg_url) ex_gate).1 = Answered w ∧ w_status w = Some 403.
Proof.
  apply (client_allowlist (ex_gcfg "enforce") lan ex_genv (get_from "192.168.2.7:4000" pkg_url) ex_gate ltac:(vm_compute; reflexivity)).
  rewrite <- (clientAllowed_spec (ex_gcfg "enforce") lan) by (vm_compute; reflexivity). vm_compute. discriminate.
Defined.

(** The first byte of a handshake sent right behind the request, which the HTTP
    server read with it, does not arrive. *)
Lemma tunnel_safe_witness :
  (∃ rest, client_sends ex_genv = String (byte_of 22) "" +:+ "GET /" +:+ rest) ∧
  tunnelBytesIn (ServeHTTP (ex_gcfg "enforce") ex_genv (connect_from "127.0.0.1:4000" "deb.debian.org:443" "/") ex_gate).2 = 6.
Proof.
  destruct (tunnel_safe (ex_gcfg "enforce") lan ex_genv (connect_from "127.0.0.1:4000" "deb.debian.org:443" "/") ex_gate
    "deb.debian.org:443" (TCPAddr (ParseIP "93.184.216.34")) "GET /" "HTTP/1" ltac:(vm_compute; reflexivity)
    ltac:(vm_compute; split; [discriminate|reflexivity])
    ltac:(vm_compute; reflexivity)) as (_ & _ & _ & _ & _ & (early & rest & Hh & Hs) & _ & _ & Hin & _).
  split; [injection Hh as <-; by exists rest|]. rewrite Hin. vm_compute. reflexivity.
Defined.

(** The usual form of a CONNECT request, whose target is an authority without a path,
    is redirected and never reaches the handler that opens tunnels; neither does
    a request whose path spells a URL reach the handler that would read it. *)
Example usual_forms_are_moved :
  (λ r, match (ServeHTTP (ex_gcfg "auto") ex_genv r ex_gate).1 with Moved => true | _ => false end) <$>
    [connect_from "127.0.0.1:4000" "deb.debian.org:443" "";
     mkHttp "GET" "127.0.0.1:4000" "localhost:9977" "" "/http://deb.debian.org/debian/dists/sid/InRelease" ""
       "/http://deb.debian.org/debian/dists/sid/InRelease" "" ProxySys.no_client;
     mkHttp "GET" "127.0.0.1:4000" "localhost:9977" "" "/deb.debian.org/debian/dists/sid/InRelease" ""
       "/deb.debian.org/debian/dists/sid/InRelease" "" ProxySys.no_client]
  = [true; true; false].
Proof. vm_compute. reflexivity. Qed.

Definition gate_after_index : Gate := (ServeHTTP (ex_gcfg "enforce") ex_genv (get_from "192.168.1.7:4000" ProxySys.plain_url) ex_gate).2.
Definition package_answer : Outcome := (ServeHTTP (ex_gcfg "enforce") ex_genv (get_from "192.168.1.7:4000" pkg_url) gate_after_index).1.

Lemma ex_trusted : trusted (ex_gcfg "enforce") ProxySys.no_lists "/c" [] (ps ex_gate).
Proof. split; [exact ex_sound|exact ProxySys.ex_server_inv]. Qed.

Lemma trust_chain_witness :
  ∃ w p, package_answer = Answered w ∧ w_body w = ex_data ∧ HashBytes (w_body w) = PkgIndex.SHA256 p ∧
    ∃ url data text key, PkgIndexSys.strip p ∈ ProxySys.text_entries url data ∧
      signed (keyring (ProxySys.ex_cfg "enforce")) text ∧ ProxySys.filed url key ∧ ProxySys.attests text key data.
Proof.
  destruct package_answer as [w| | |] eqn:Ha; [|vm_compute in Ha; discriminate..].
  assert (w_status w = Some 200 ∧ w_body w = ex_data) as [Hst Hb].
  { vm_compute in Ha. injection Ha as <-. split; reflexivity. }
  destruct (trust_chain (ex_gcfg "enforce") ProxySys.no_lists "/c" [] ex_apart eq_refl eq_refl ex_gate gate_after_index ex_genv
    (get_from "192.168.1.7:4000" pkg_url) w (rtc_once _ _ (G_request _ _ ex_genv (get_from "192.168.1.7:4000" ProxySys.plain_url) ex_gate))
    ex_trusted Ha Hst ltac:(vm_compute; reflexivity)) as (_ & _ & [(p & _ & Hback & bytes & rest & Hh & Heq & Hall)|[Hnone _]]).
  - destruct Hback as [Hl|Hback]; [destruct (ProxySys.no_local p Hl)|].
    rewrite (Hall (λ n p, eq_refl) (λ n p, eq_refl)), str_app_nil_r in Heq. subst bytes. exists w, p. auto.
  - vm_compute in Hnone. discriminate.
Defined.
End GatewaySys.
