(* ===== verification/Daemon.v ===== *)
(** * cmd/debswarm: starting and reloading the daemon

    The configuration files and flags of helpers.go and main.go, the directories,
    the whole start of [runDaemon] up to the running servers, [NewServer] and
    [Start] of the proxy, the admin server, the periodic tasks and the reload on
    SIGHUP.  What the components are built from is kept as records; opening the
    database, the libp2p host and the audit log succeeds or fails as the
    surroundings say.  Logging, metrics and the dashboard are left out. *)

From S2P Require Import Prelude GoStd GoText GoNet GoNum GoConf HashUtil Sql Cache MetaCache Security PkgIndex AptLocal Release.
From S2P Require Import Scheduler Mirror Node Support DlState Downloader Config Proxy ProxyMeta PkgServe Gateway.
From Stdlib Require Import Ascii SpecFloat.
Open Scope Z_scope.
Open Scope go_scope.

Module Daemon.
Import Config Net.

(** ** Flags *)

(** A flag that [Changed] reports is [Some]. *)
Record Flags := mkFlags {
  cfgFile : string; dataDir : string;
  f_proxyPort : option Z; f_proxyBind : option string; f_p2pPort : option Z;
  f_metricsPort : option Z; f_metricsBind : option string;
  preferQUIC : bool; maxUploadRate : string; maxDownloadRate : string;
}.

(** [PreRunE] of the command; a flag that is not given has its default. *)
Definition checkPorts (f : Flags) : bool :=
  let out low p := (p <? low) || (65535 <? p) in
  negb (out 1 (default 9977 (f_proxyPort f))) && negb (out 1 (default 4001 (f_p2pPort f))) &&
  negb (out 0 (default 9978 (f_metricsPort f))).

(** ** Directories *)

Inductive DirStat := DirNotExist | DirStatError | DirIsFile | DirUnwritable | DirWritable.
Inductive DirErr := DirMissing | DirBad.

(** What is found at a path, before and after it is created, and whether creating it
    succeeds. *)
Record Dirs := mkDirs { ds_stat : string → DirStat; ds_mkdir : string → bool; ds_created : string → DirStat }.

Definition checkDirectory (st : DirStat) : option DirErr :=
  match st with
  | DirNotExist => Some DirMissing
  | DirStatError | DirIsFile | DirUnwritable => Some DirBad
  | DirWritable => None
  end.

(** [true] when the error is nil. *)
Definition validateDirectories (d : Dirs) (cachePath dataDir : string) : bool :=
  let cacheOk :=
    match checkDirectory (ds_stat d cachePath) with
    | None => true
    | Some DirMissing => ds_mkdir d cachePath && negb (bool_decide (is_Some (checkDirectory (ds_created d cachePath))))
    | Some DirBad => false
    end in
  cacheOk &&
  (String.eqb dataDir "" ||
   match checkDirectory (ds_stat d dataDir) with
   | None => true
   | Some DirMissing => ds_mkdir d dataDir
   | Some DirBad => false
   end).

Section daemon.
Context `{GoUnicode, GoUpper, Gpg.OpenPGP}.

(** The surroundings of the daemon. *)
Record DEnv := mkDEnv {
  d_cfg : Env;
  STATE_DIRECTORY : string;
  varLibDebswarm : bool;                     (* /var/lib/debswarm is a directory *)
  d_dirs : Dirs;
  openAudit : AuditConfig → bool;            (* audit.NewJSONWriter *)
  openCache : string → Z → Z → bool;         (* cache.NewWithMinFreeSpace *)
  openFile : string → option stream;         (* os.Open *)
  d_keys : Gpg.FS;
  d_location : string → option Scheduler.Location;
}.

(** ** Configuration files *)

Definition home (env : DEnv) : string := default "" (UserHomeDir (d_cfg env)).

Definition configPaths (env : DEnv) (f : Flags) : list string :=
  if negb (String.eqb (cfgFile f) "") then [cfgFile f]
  else ["/etc/debswarm/config.toml"; filepath_Join [home env; ".config"; "debswarm"; "config.toml"]].

Definition existingConfigPath (env : DEnv) (f : Flags) : option string :=
  List.find (λ p, bool_decide (is_Some (Perm (d_cfg env) p))) (configPaths env f).

Definition loadConfigWithWarnings (env : DEnv) (f : Flags) : option (Config * list SecurityWarning) :=
  match existingConfigPath env f with
  | Some p => LoadWithWarnings (d_cfg env) p
  | None => Some (DefaultConfig (d_cfg env), [])
  end.

(** The flags override the file. *)
Definition applyFlags (f : Flags) (c : Config) : Config :=
  let n := Network c in let m := Metrics c in
  mkConfig
    (mkNetwork (default (ListenPort n) (f_p2pPort f)) (default (ProxyPort n) (f_proxyPort f)) (default (ProxyBind n) (f_proxyBind f))
       (ProxyAllowedCIDRs n) (MaxConnections n) (BootstrapPeers n) (ConnectivityMode n) (ConnectivityCheckInterval n)
       (ConnectivityCheckURL n) (EnableRelay n) (EnableHolePunching n) (EnableAutoRelay n) (RelayService n) (RelayPeers n)
       (RelayLimits n) (ForceReachability n) (RelayedTransferMax n))
    (Config.Proxy c) (Config.Cache c) (Transfer c) (DHT c) (Privacy c)
    (mkMetrics (default (m_Port m) (f_metricsPort f)) (default (m_Bind m) (f_metricsBind f)))
    (Logging c) (Config.Scheduler c) (Fleet c) (Config.Index c) (Security c).

Definition p2pDataDir (env : DEnv) (f : Flags) (c : Config) : string :=
  if negb (String.eqb (dataDir f) "") then dataDir f
  else if negb (String.eqb (STATE_DIRECTORY env) "") then STATE_DIRECTORY env
  else if varLibDebswarm env then "/var/lib/debswarm"
  else if negb (String.eqb (home env) "") then filepath_Join [home env; ".local"; "share"; "debswarm"]
  else filepath_Join [PkgServe.filepath_Dir (c_Path (Config.Cache c)); "debswarm-data"].

(** ** What the components are built from *)

Record P2PConfig := mkP2P {
  p_ListenPort : Z; p_BootstrapPeers : list string; p_EnableMDNS : bool; p_DataDir : string; p_PreferQUIC : bool;
  p_MaxUploadRate : Z; p_MaxDownloadRate : Z; p_MaxConnections : Z; p_MaxConcurrentUploads : Z; p_PSK : option string;
  p_PeerAllowlist : list string; p_PeerBlocklist : list string;
  p_EnableRelay : bool; p_EnableHolePunching : bool; p_EnableAutoRelay : bool; p_RelayService : string; p_RelayPeers : list string;
  p_RelayMaxReservations : Z; p_RelayMaxCircuits : Z; p_RelayBufferSize : Z; p_RelayDuration : Z; p_ForceReachability : string;
  p_RelayedTransferMax : Z; p_PerPeerUploadRate : Z; p_PerPeerDownloadRate : Z; p_ExpectedPeers : Z;
  p_AdaptiveEnabled : bool; p_AdaptiveMinRate : Z; p_AdaptiveMaxBoost : float64;
}.

Record ProxyCfg := mkProxyCfg {
  Addr : string; AllowedClientCIDRs : list IPNet; P2PTimeout : Z; DHTLookupLimit : Z;
  MetricsPort : Z; MetricsBind : string; CacheMaxSize : Z; pc_MaxConcurrentPeerDownloads : Z;
  pc_Scheduler : option Scheduler.Scheduler; pc_Fleet : bool;
  pc_RetryMaxAttempts : Z; pc_RetryInterval : Z; pc_RetryMaxAge : Z;
  pc_AllowedHosts : list string; pc_HTTPSUpstreamHosts : list string; pc_MetadataServeStale : bool;
  VerifyMode : string; pc_Keyring : option (list Gpg.Entity); pc_VerifyExemptHosts : list string;
}.

(** A daemon that is about to run. *)
Record Started := mkStarted {
  st_cfg : Config; st_warnings : list SecurityWarning; st_dataDir : string;
  st_p2p : P2PConfig; st_proxy : ProxyCfg; st_metadataMax : Z;
  st_watcher : option AptLists.Watcher; st_import : option string; (* the archives directory *)
  st_announce : Z; st_refresh : option Z;                          (* the intervals of the tickers *)
}.

Inductive StartErr :=
| EPorts | ELoadConfig | EInvalid (fields : list string) | EDirectories | EAudit | EOpenCache | EUploadRate | EDownloadRate
| ELoadPSK | EParsePSK | ENode | ECIDRs | EEnforceNeedsMetadata | EEnforceNeedsKeys.

Definition LoadPSK (env : DEnv) (path : string) : option string := openFile env path ≫= Node.ParsePSK.

(** The pre-shared key; [None] is no key. *)
Definition loadKey (env : DEnv) (p : PrivacyConfig) : res StartErr (option string) :=
  if negb (String.eqb (PSKPath p) "") then
    match LoadPSK env (PSKPath p) with Some k => Ok (Some k) | None => Err ELoadPSK end
  else if negb (String.eqb (PSK p) "") then
    match Node.ParsePSKFromHex (PSK p) with Some k => Ok (Some k) | None => Err EParsePSK end
  else Ok None.

Definition p2pConfig (f : Flags) (c : Config) (dir : string) (up down : Z) (psk : option string) : P2PConfig :=
  let n := Network c in let t := Transfer c in let p := Privacy c in
  mkP2P (ListenPort n) (BootstrapPeers n) (EnableMDNS p) dir (preferQUIC f) up down (MaxConnections n) (Config.MaxConcurrentUploads t) psk
    (PeerAllowlist p) (PeerBlocklist p) (IsRelayEnabled n) (IsHolePunchingEnabled n) (IsAutoRelayEnabled n) (GetRelayService n)
    (RelayPeers n) (RelayMaxReservations n) (RelayMaxCircuits n) (RelayBufferSizeBytes n) (RelayDuration n)
    (GetForceReachability n) (RelayedTransferMaxBytes n) (PerPeerUploadRateBytes t) (PerPeerDownloadRateBytes t)
    (GetExpectedPeers t) (IsAdaptiveEnabled t) (AdaptiveMinRateBytes t) (AdaptiveMaxBoostFactor t).

Definition startScheduler (env : DEnv) (s : SchedulerConfig) : option Scheduler.Scheduler :=
  if s_Enabled s then
    Scheduler.New (d_location env)
      (Some (Scheduler.mkConfig true ((λ w, Scheduler.mkWindow (Days w) (StartTime w) (EndTime w)) <$> Windows s) (Timezone s)
         (OutsideWindowRateBytes s) (InsideWindowRateBytes s) (IsUrgentFullSpeed s)))
  else None.

(** The trusted keys, when signatures are verified: enforcing needs the metadata cache
    and at least one key. *)
Definition loadKeyring (env : DEnv) (c : Config) : res StartErr (option (list Gpg.Entity)) :=
  let mode := GetVerifyMode (Security c) in
  if negb (VerificationEnabled (Security c)) then Ok None
  else
    let k := Gpg.LoadAPT (d_keys env) [KeyringPath (Security c)] in
    if negb (MetadataCachingEnabled (Config.Cache c)) && String.eqb mode "enforce" then Err EEnforceNeedsMetadata
    else if Gpg.Empty k && String.eqb mode "enforce" then Err EEnforceNeedsKeys
    else Ok k.

(** [runDaemon] up to the signal loop; [node]: whether the libp2p host can be made. *)
Definition runDaemon (env : DEnv) (node : P2PConfig → bool) (f : Flags) : res StartErr Started :=
  if negb (checkPorts f) then Err EPorts
  else
  match loadConfigWithWarnings env f with
  | None => Err ELoadConfig
  | Some (fileCfg, warnings) =>
  let c := applyFlags f fileCfg in
  match Validate (d_cfg env) c with
  | (_ :: _) as errs => Err (EInvalid errs)
  | [] =>
  let dir := p2pDataDir env f c in
  if negb (validateDirectories (d_dirs env) (c_Path (Config.Cache c)) dir) then Err EDirectories
  else if a_Enabled (Audit (Logging c)) && negb (openAudit env (Audit (Logging c))) then Err EAudit
  else
  let maxSize := MaxSizeBytes (Config.Cache c) in
  if negb (openCache env (c_Path (Config.Cache c)) maxSize (MinFreeSpaceBytes (Config.Cache c))) then Err EOpenCache
  else
  let watcher := if GetWatchAPTLists (Config.Index c) then Some (AptLists.New (Some (APTListsPath (Config.Index c)))) else None in
  let import := if GetImportAPTArchives (Config.Index c)
                then Some (AptArchives.archivesPath (Some (APTArchivesPath (Config.Index c)))) else None in
  match ParseRate (if String.eqb (maxUploadRate f) "" then MaxUploadRate (Transfer c) else maxUploadRate f) with
  | None => Err EUploadRate
  | Some up =>
  match ParseRate (if String.eqb (maxDownloadRate f) "" then MaxDownloadRate (Transfer c) else maxDownloadRate f) with
  | None => Err EDownloadRate
  | Some down =>
  match loadKey env (Privacy c) with
  | Err e => Err e
  | Ok psk =>
  let p2p := p2pConfig f c dir up down psk in
  if negb (node p2p) then Err ENode
  else
  match ParsedAllowedCIDRs (Network c) with
  | None => Err ECIDRs
  | Some nets =>
  match loadKeyring env c with
  | Err e => Err e
  | Ok keyring =>
  let t := Transfer c in
  Ok (mkStarted c warnings dir p2p
        (mkProxyCfg (JoinHostPort (ProxyBind (Network c)) (Itoa (ProxyPort (Network c)))) nets (5 * GoNum.Second) 10
           (m_Port (Metrics c)) (m_Bind (Metrics c)) maxSize (Config.MaxConcurrentPeerDownloads t)
           (startScheduler env (Config.Scheduler c)) (f_Enabled (Fleet c))
           (RetryMaxAttempts t) (RetryIntervalDuration t) (RetryMaxAgeDuration t)
           (EffectiveAllowedHosts (Config.Proxy c)) (EffectiveHTTPSUpstreamHosts (Config.Proxy c))
           (ServesStaleMetadata (Config.Cache c)) (GetVerifyMode (Security c)) keyring (VerifyExemptHosts (Security c)))
        (MetadataMaxSizeBytes (Config.Cache c)) watcher import
        (AnnounceIntervalDuration (DHT c)) (if f_Enabled (Fleet c) then Some (RefreshIntervalDuration (Fleet c)) else None))
  end end end end end end end.

(** ** The proxy server *)

(** The server, its retry worker, and the limit of concurrent chunk downloads. *)
Record ProxyServer := mkProxyServer {
  sv_gate : Gateway.GConfig; sv_addr : string; sv_retries : bool; sv_metrics : bool;
  sv_metricsBind : string; sv_metricsPort : Z; sv_maxConcurrent : Z;
}.

Definition NewServer (cfg : ProxyCfg) : ProxyServer :=
  mkProxyServer
    (Gateway.mkGConfig
       (Proxy.mkConfig (if String.eqb (VerifyMode cfg) "" then "off" else VerifyMode cfg) (pc_Keyring cfg)
          (Proxy.exemptHosts (pc_VerifyExemptHosts cfg)) (pc_MetadataServeStale cfg) (pc_HTTPSUpstreamHosts cfg))
       (pc_AllowedHosts cfg) (AllowedClientCIDRs cfg) true (pc_Fleet cfg))
    (Addr cfg)
    ((0 <? pc_RetryMaxAttempts cfg) && (0 <? pc_RetryInterval cfg))
    (0 <? MetricsPort cfg)
    (if String.eqb (MetricsBind cfg) "" then "127.0.0.1" else MetricsBind cfg) (MetricsPort cfg)
    (if pc_MaxConcurrentPeerDownloads cfg <=? 0 then Downloader.MaxConcurrentChunks else pc_MaxConcurrentPeerDownloads cfg).

(** [startMetricsServer]: the address, whether clients are gated, whether the profiling
    endpoints are there. *)
Definition startMetricsServer (sv : ProxyServer) : string * bool * bool :=
  (JoinHostPort (sv_metricsBind sv) (Itoa (sv_metricsPort sv)),
   negb (Gateway.bindIsLoopback (sv_metricsBind sv)) && negb (length (Gateway.allowedClientNets (sv_gate sv)) =? 0)%nat,
   existsb (String.eqb (sv_metricsBind sv)) ["127.0.0.1"; "localhost"; "::1"]).

(** A request to the admin server reaches its handlers. *)
Definition adminAllowed (sv : ProxyServer) (r : Gateway.HttpRequest) : bool :=
  let '(_, gated, _) := startMetricsServer sv in negb gated || Gateway.clientAllowed (sv_gate sv) r.

(** ** Running *)

(** [time.NewTicker] panics on an interval that is not positive; a panic in any
    goroutine ends the process. *)
Inductive Life := Running | Panicked.

Definition NewTicker (d : Z) : Life := if d <=? 0 then Panicked else Running.

Definition startTickers (d : Started) : Life :=
  match NewTicker (st_announce d), match st_refresh d with Some r => NewTicker r | None => Running end with
  | Running, Running => Running
  | _, _ => Panicked
  end.

(** [reloadConfig]: the rates set on the running node, upload and download. *)
Definition reloadConfig (env : DEnv) (f : Flags) : option (Z * Z) :=
  match loadConfigWithWarnings env f with
  | None => None
  | Some (c, _) =>
      match Validate (d_cfg env) c with
      | _ :: _ => None
      | [] => Some (MaxUploadRateBytes (Transfer c), MaxDownloadRateBytes (Transfer c))
      end
  end.
End daemon.
End Daemon.
