(* ===== verification/DaemonSys.v ===== *)
(** * Properties of starting the daemon

    What holds of every daemon that starts: its effective configuration passed the
    validation with the flags applied, the proxy's gate lets in exactly the
    configured clients, and enforcing means that there are keys to verify with. *)

From S2P Require Import Prelude GoStd GoText GoNet GoNum GoConf HashUtil Sql Cache MetaCache Security PkgIndex AptLocal Release.
From S2P Require Import Scheduler Mirror Node Support DlState Downloader Config ConfigSys Proxy ProxyMeta ProxySys PkgServe PkgServeSys.
From S2P Require Import SecuritySys Gateway GatewaySys Daemon.
From Stdlib Require Import Ascii.
Open Scope Z_scope.
Open Scope go_scope.

Module DaemonSys.
Import Config Net Daemon.

Section starting.
Context `{GoUnicode, GoUpper, Gpg.OpenPGP}.

(** ** Keys *)

Lemma checkKey_length o k : Node.checkKey o = Some k → String.length k = Node.PSKKeySize.
Proof. unfold Node.checkKey. destruct o as [x|]; [|done]. destruct (Nat.eqb_spec (String.length x) Node.PSKKeySize); [|done]. by intros [= <-]. Qed.

Lemma ParsePSK_length r k : Node.ParsePSK r = Some k → String.length k = Node.PSKKeySize.
Proof. unfold Node.ParsePSK. destruct ((scan _ _ _).1) as [|l1 [|l2 [|l3 l]]]; try done. destruct (_ && _); [|done]. apply checkKey_length. Qed.

(** A swarm that is meant to be private is: a key is used, of the right length. *)
Lemma loadKey_private env p k :
  loadKey env p = Ok k → PSKPath p ≠ "" ∨ PSK p ≠ "" → ∃ key, k = Some key ∧ String.length key = Node.PSKKeySize.
Proof.
  unfold loadKey. destruct (String.eqb_spec (PSKPath p) "") as [Hp|Hp]; cbn [negb].
  - destruct (String.eqb_spec (PSK p) "") as [Hk|Hk]; cbn [negb]; [naive_solver|].
    destruct (Node.ParsePSKFromHex (PSK p)) as [key|] eqn:Hx; [|done]. intros [= <-] _. exists key. split; [done|]. by eapply checkKey_length.
  - unfold LoadPSK. destruct (openFile env (PSKPath p)) as [f|]; cbn [mbind option_bind]; [|done].
    destruct (Node.ParsePSK f) as [key|] eqn:Hx; [|done]. intros [= <-] _. exists key. split; [done|]. by eapply ParsePSK_length.
Qed.

Lemma metadata_budget_positive (c : CacheConfig) : MetadataCachingEnabled c = true → 0 < MetadataMaxSizeBytes c.
Proof.
  unfold MetadataMaxSizeBytes. intros ->. cbn [negb]. destruct (ParseSize (MetadataMaxSize c)) as [n|] eqn:Hn; [|lia].
  apply ConfigSys.ParseSize_sound in Hn as [Hn _]. destruct (Z.eqb_spec n 0); lia.
Qed.

Lemma loadKeyring_enforce env c k :
  loadKeyring env c = Ok k → GetVerifyMode (Security c) = "enforce" →
  Gpg.Empty k = false ∧ 0 < MetadataMaxSizeBytes (Config.Cache c).
Proof.
  unfold loadKeyring, VerificationEnabled. intros Hk Hm. rewrite Hm in Hk. change (negb (negb (String.eqb "enforce" "off"))) with false in Hk.
  cbv zeta in Hk. rewrite !andb_true_r in Hk. destruct (MetadataCachingEnabled (Config.Cache c)) eqn:Hc; [|done]. cbn [negb] in Hk.
  destruct (Gpg.Empty _) eqn:He; [done|]. injection Hk as <-. split; [done|by apply metadata_budget_positive].
Qed.

(** ** Starting *)

(** The steps of a start that succeeded. *)
Record start_steps (env : DEnv) (node : P2PConfig → bool) (f : Flags) (d : Started) : Prop := {
  ss_ports : checkPorts f = true;
  ss_loaded : ∃ file, loadConfigWithWarnings env f = Some (file, st_warnings d) ∧ st_cfg d = applyFlags f file;
  ss_valid : Validate (d_cfg env) (st_cfg d) = [];
  ss_dirs : validateDirectories (d_dirs env) (c_Path (Config.Cache (st_cfg d))) (st_dataDir d) = true;
  ss_key : loadKey env (Privacy (st_cfg d)) = Ok (p_PSK (st_p2p d));
  ss_nets : ParsedAllowedCIDRs (Network (st_cfg d)) = Some (AllowedClientCIDRs (st_proxy d));
  ss_keyring : loadKeyring env (st_cfg d) = Ok (pc_Keyring (st_proxy d));
  ss_mode : VerifyMode (st_proxy d) = GetVerifyMode (Security (st_cfg d));
  ss_exempt : pc_VerifyExemptHosts (st_proxy d) = VerifyExemptHosts (Security (st_cfg d));
  ss_hosts : pc_AllowedHosts (st_proxy d) = EffectiveAllowedHosts (Config.Proxy (st_cfg d));
  ss_metadata : st_metadataMax d = MetadataMaxSizeBytes (Config.Cache (st_cfg d));
}.

Lemma runDaemon_steps env node f d : runDaemon env node f = Ok d → start_steps env node f d.
Proof.
  unfold runDaemon. destruct (checkPorts f) eqn:Hp; cbn [negb]; [|done].
  destruct (loadConfigWithWarnings env f) as [[file warns]|] eqn:Hl; [|done]. set (c := applyFlags f file).
  destruct (Validate (d_cfg env) c) eqn:Hv; [|done]. destruct (validateDirectories _ _ _) eqn:Hd; cbn [negb]; [|done].
  destruct (a_Enabled _ && _); [done|]. destruct (negb _); [done|]. destruct (ParseRate _) as [up|]; [|done].
  destruct (ParseRate _) as [down|]; [|done]. destruct (loadKey env (Privacy c)) as [psk|] eqn:Hk; [|done].
  destruct (negb _); [done|]. destruct (ParsedAllowedCIDRs (Network c)) as [nets|] eqn:Hn; [|done].
  destruct (loadKeyring env c) as [kr|] eqn:Hkr; [|done]. intros [= <-]. constructor; try done. by exists file.
Qed.

(** C12: a daemon that starts is safe to run: the configuration it runs with, the flags
    included, passed validation; its proxy lets in exactly the clients of the
    configured networks and the loopback addresses; when its bind address is an IP
    address other than a loopback one, at least one network is configured (an empty
    bind address, which means every interface, needs none, and then only clients at
    loopback addresses are let in unless networks are given); a swarm configured to
    be private has a key of 32 bytes; and when signatures are enforced there is a
    trusted key and a metadata cache to find the signed Release in. *)
Theorem daemon_starts_safe env node f d :
  runDaemon env node f = Ok d →
  let c := st_cfg d in let gate := sv_gate (NewServer (st_proxy d)) in
  Validate (d_cfg env) c = [] ∧
  (∃ file, loadConfigWithWarnings env f = Some (file, st_warnings d) ∧ c = applyFlags f file) ∧
  (∀ r, Gateway.clientAllowed gate r = true ↔
     ∃ ip, GatewaySys.client_ip r = Some ip ∧ GatewaySys.permitted (ProxyAllowedCIDRs (Network c)) ip) ∧
  (∀ ip, ParseIP (ProxyBind (Network c)) = Some ip → ¬ SecuritySys.loopback ip → Gateway.allowedClientNets gate ≠ []) ∧
  (PSKPath (Privacy c) ≠ "" ∨ PSK (Privacy c) ≠ "" → ∃ key, p_PSK (st_p2p d) = Some key ∧ String.length key = 32%nat) ∧
  (Proxy.verifyMode (Gateway.g_cfg gate) = "enforce" →
     Gpg.Empty (Proxy.keyring (Gateway.g_cfg gate)) = false ∧ 0 < st_metadataMax d).
Proof.
  intros Hrun c gate. destruct (runDaemon_steps env node f d Hrun) as [_ Hload Hvalid _ Hkey Hnets Hkr Hmode _ _ Hmeta].
  fold c in Hload, Hvalid, Hkey, Hnets, Hkr, Hmode, Hmeta. split; [done|]. split; [done|]. split_and!.
  - intros r. by apply GatewaySys.clientAllowed_spec.
  - intros ip Hip Hlo. destruct (ConfigSys.ef_clients _ _ (ConfigSys.Validate_effective _ _ Hvalid)) as (nets & Hn & _ & Hne).
    rewrite Hnets in Hn. injection Hn as <-. by apply (Hne ip).
  - by apply (loadKey_private env).
  - cbn [gate NewServer sv_gate Gateway.g_cfg Proxy.verifyMode Proxy.keyring]. destruct (String.eqb_spec (VerifyMode (st_proxy d)) ""); [done|].
    rewrite Hmode, Hmeta. by apply (loadKeyring_enforce env).
Qed.

(** Profiling is only offered on the loopback interface, and an admin server beyond it
    is behind the client allowlist as soon as there is one. *)
Lemma admin_server sv r :
  let '(_, gated, pprof) := startMetricsServer sv in
  (pprof = true → Gateway.bindIsLoopback (sv_metricsBind sv) = true) ∧
  (Gateway.bindIsLoopback (sv_metricsBind sv) = false → Gateway.allowedClientNets (sv_gate sv) ≠ [] →
     gated = true ∧ adminAllowed sv r = Gateway.clientAllowed (sv_gate sv) r).
Proof.
  unfold adminAllowed, startMetricsServer. split.
  - cbn [existsb]. rewrite !orb_true_iff, !String.eqb_eq. intros [->|[->|[->|?]]]; [vm_compute; reflexivity..|done].
  - intros -> Hne. destruct (Gateway.allowedClientNets (sv_gate sv)); [done|]. done.
Qed.

(** A flag given on the command line wins over the file, and is validated. *)
Lemma flags_win env node f d p :
  runDaemon env node f = Ok d → f_proxyPort f = Some p → ProxyPort (Network (st_cfg d)) = p ∧ 1 <= p <= 65535.
Proof.
  intros Hrun Hf. destruct (runDaemon_steps env node f d Hrun) as [_ (file & _ & Hc) Hv _ _ _ _ _ _ _ _].
  destruct (ConfigSys.ef_ports _ _ (ConfigSys.Validate_effective _ _ Hv)) as (_ & Hp & _).
  rewrite Hc in *. cbn [applyFlags Network ProxyPort] in *. by rewrite Hf in *.
Qed.
End starting.

(** ** Evaluations *)
Section examples.
#[local] Existing Instance ascii_only.
#[local] Existing Instance ascii_upper_only.
#[local] Existing Instance ProxySys.toy_pgp.

(** A file system with one key ring and directories that can be used. *)
Definition ex_keys (trusted : bool) : Gpg.FS :=
  Gpg.mkFS (λ p, if String.eqb p "/etc/apt/keyrings" then Some true else None)
    (λ p, if trusted then Some [("debian.gpg", false)] else Some []) (λ _, Some "KEY").

Definition ex_denv (file : Config → option Config) (trusted : bool) : DEnv :=
  mkDEnv (mkEnv "/var/cache/debswarm" (Some "/root") (λ _, Ok "") (λ _, file) (λ _, Some 384) false (λ _, true) (λ _, true) (λ _, true))
    "" true (mkDirs (λ _, DirWritable) (λ _, true) (λ _, DirWritable)) (λ _, true) (λ _ _ _, true) (λ _, None) (ex_keys trusted) (λ _, None).

Definition no_flags : Flags := mkFlags "" "" None None None None None true "" "".
Definition ex_start (file : Config) (trusted : bool) (f : Flags) : res StartErr Started :=
  runDaemon (ex_denv (λ _, Some file) trusted) (λ _, true) f.

(** A LAN server that enforces signatures starts with a key and not without, and a bind
    address from the command line needs an allowlist like one from the file. *)
Example fail_fast :
  (match ex_start ConfigSys.lan_config true no_flags with Ok d => Addr (st_proxy d) | Err _ => "" end,
   match ex_start ConfigSys.lan_config false no_flags with Err e => Some e | Ok _ => None end,
   match ex_start (DefaultConfig ConfigSys.ex_env) true (mkFlags "" "" None (Some "0.0.0.0") None None None true "" "") with
   | Err e => Some e | Ok _ => None end)
  = ("0.0.0.0:9977", Some EEnforceNeedsKeys, Some (EInvalid ["network.proxy_allowed_cidrs"])).
Proof. vm_compute. reflexivity. Qed.

(** Intervals that pass validation and make the tickers panic. *)
Example careless_daemon_panics :
  match ex_start ConfigSys.careless_config true no_flags with Ok d => Some (startTickers d) | Err _ => None end = Some Panicked.
Proof. vm_compute. reflexivity. Qed.

(** The rate given on the command line limits the node until the first reload, which
    sets the rate of the file. *)
Definition rate_flags : Flags := mkFlags "" "" None None None None None true "1MB/s" "".
Example reload_drops_flags :
  (match ex_start (DefaultConfig ConfigSys.ex_env) true rate_flags with Ok d => Some (p_MaxUploadRate (st_p2p d)) | Err _ => None end,
   fst <$> reloadConfig (ex_denv (λ _, Some (DefaultConfig ConfigSys.ex_env)) true) rate_flags)
  = (Some (2 ^ 20), Some 0).
Proof. vm_compute. reflexivity. Qed.

Lemma daemon_starts_safe_witness :
  ∃ d, ex_start ConfigSys.lan_config true no_flags = Ok d ∧
    Gateway.allowedClientNets (sv_gate (NewServer (st_proxy d))) ≠ [] ∧ 0 < st_metadataMax d.
Proof.
  destruct (ex_start ConfigSys.lan_config true no_flags) as [d|e] eqn:Hd; [|vm_compute in Hd; discriminate].
  exists d. split; [reflexivity|].
  destruct (daemon_starts_safe (ex_denv (λ _, Some ConfigSys.lan_config) true) (λ _, true) no_flags d Hd) as (_ & _ & _ & Hnets & _ & Henf).
  vm_compute in Hd. injection Hd as <-.
  split; [|apply Henf; vm_compute; reflexivity].
  apply (Hnets (IPv4 0 0 0 0)); [vm_compute; reflexivity|]. by intros [(b & c & d & Hx)|Hx].
Defined.
End examples.
End DaemonSys.
