(* ===== verification/Seed.v ===== *)
(** * cmd/debswarm/seed.go: importing a mirror into the cache

    [debswarm seed import] with its options: collecting the files, importing them
    with one worker (the default), removing what is not in the source, the state
    of incremental runs, and the watch mode.  The directories, the contents of the
    files and the failures of the storage are given by the surroundings;
    announcements and what is printed are left out. *)

From S2P Require Import Prelude GoStd GoText HashUtil Sql Cache.
From Stdlib Require Import Ascii.
Open Scope Z_scope.
Open Scope go_scope.

Module Seed.

(** What [filepath.Walk] finds: a file with its modification time, a directory with
    its entries in lexical order, or an error. *)
Inductive Tree :=
| TFile (mtime : Z)
| TDir (entries : list (string * Tree))
| TErr.

(** A file as it is read: opened, its size, its bytes, rewound, and put into the
    cache. *)
Record DebFile := mkDebFile {
  df_open : bool; df_size : option Z; df_bytes : option string; df_seek : bool; df_put : Cache.PutData; df_io : Cache.IO }.

Record seedImportOptions := mkOptions { recursive : bool; syncMode : bool; dryRun : bool; incremental : bool }.

(** The state file: when and what was synchronised; times count from the zero time. *)
Record syncState := mkSyncState { LastSync : Z; Path : string }.

Inductive Processed :=
| Imported (hash : string) (size : Z)
| AlreadyCached (hash : string) (size : Z)
| Failed.

Record Totals := mkTotals { imported : Z; skipped : Z; failed : Z; totalBytes : Z; sourceHashes : gset string }.

Inductive Outcome :=
| Finished (t : Totals) (removed wouldRemove : Z)
| NothingNew
| NoFiles
| Panicked.

(** What became of writing the state file: not opened, cut short, or written. *)
Inductive Write :=
| NotOpened
| CutShort
| Written.

(** What the watcher reports: a file was created or written, another change of it, an
    error; or the timer of the pending files goes off, which are then taken in the
    order in which the map gives them. *)
Inductive WatchEvent :=
| FileChanged (name : string) (createdOrWritten : bool)
| WatchError
| TimerFired (order : list string).

Section seed.
Context `{GoUnicode, SqlOrder, Sha256}.

(** ** Collecting files *)

(** [modifiedAfter]: 0 is the zero time, before which nothing is left out. *)
Definition wanted (modifiedAfter : Z) (p : string) (mtime : Z) : bool :=
  HasSuffix (ToLower p) ".deb" && negb (negb (modifiedAfter =? 0) && (mtime <? modifiedAfter)).

(** The files of a walk, and whether it ended without an error. *)
Fixpoint walk (rec : bool) (modifiedAfter : Z) (root : bool) (p : string) (t : Tree) : list string * bool :=
  match t with
  | TErr => ([], false)
  | TFile mtime => ((if wanted modifiedAfter p mtime then [p] else []), true)
  | TDir entries =>
      if negb root && negb rec then ([], true)
      else
        (fix go (l : list (string * Tree)) : list string * bool :=
           match l with
           | [] => ([], true)
           | (name, t) :: l =>
               let '(files, ok) := walk rec modifiedAfter false (filepath_Join [p; name]) t in
               if ok then let '(more, ok) := go l in (files ++ more, ok) else (files, false)
           end) entries
  end.

Definition collectDebFiles (rec : bool) (modifiedAfter : Z) (path : string) (t : Tree) : list string * bool :=
  walk rec modifiedAfter true path t.

(** The files of all arguments; an argument with an error is left out. *)
Definition collectAll (rec : bool) (modifiedAfter : Z) (args : list (string * Tree)) : list string :=
  concat ((λ a : string * Tree, let '(files, ok) := collectDebFiles rec modifiedAfter a.1 a.2 in if ok then files else []) <$> args).

(** ** Importing *)

Definition processDebFile (f : DebFile) (path : string) (dry : bool) (c : Cache.Cache) : Processed * Cache.Cache :=
  if negb (df_open f) then (Failed, c)
  else
    match df_size f, df_bytes f with
    | Some size, Some data =>
        let hash := EncodeToString (Sum256 data) in
        if dry then (Imported hash size, c)
        else if Cache.Has c hash then (AlreadyCached hash size, c)
        else if negb (df_seek f) then (Failed, c)
        else
          match Cache.Put (df_io f) (df_put f) hash (filepath_Base path) c with
          | (Ok _, c) => (Imported hash size, c)
          | (Err _, c) => (Failed, c)
          end
    | _, _ => (Failed, c)
    end.

Definition collect (r : Processed) (t : Totals) : Totals :=
  match r with
  | AlreadyCached hash _ => mkTotals (imported t) (skipped t + 1) (failed t) (totalBytes t) ({[hash]} ∪ sourceHashes t)
  | Failed => mkTotals (imported t) (skipped t) (failed t + 1) (totalBytes t) (sourceHashes t)
  | Imported hash size => mkTotals (imported t + 1) (skipped t) (failed t) (totalBytes t +₆₄ size) ({[hash]} ∪ sourceHashes t)
  end.

Fixpoint importFiles (files : string → DebFile) (dry : bool) (paths : list string) (t : Totals) (c : Cache.Cache) : Totals * Cache.Cache :=
  match paths with
  | [] => (t, c)
  | p :: paths => let '(r, c) := processDebFile (files p) p dry c in importFiles files dry paths (collect r t) c
  end.

(** ** Removing *)

(** One cached package; [io] of a deletion is that of its hash. *)
Definition removeOne (io : string → Cache.IO) (source : gset string) (dry : bool) (acc : Z * Z * Cache.Cache) (h : string) : Z * Z * Cache.Cache :=
  let '(removed, wouldRemove, c) := acc in
  if bool_decide (h ∈ source) then acc
  else if dry then (removed, wouldRemove + 1, c)
  else
    match Cache.Delete (io h) h c with
    | (Ok _, c) => (removed + 1, wouldRemove, c)
    | (Err _, c) => (removed, wouldRemove, c)
    end.

Definition runSyncRemoval (listIO : Cache.IO) (io : string → Cache.IO) (source : gset string) (dry : bool) (c : Cache.Cache) : Z * Z * Cache.Cache :=
  match Cache.List listIO c with
  | (Err _, c) => (0, 0, c)
  | (Ok pkgs, c) => foldl (removeOne io source dry) (0, 0, c) (Cache.SHA256 <$> pkgs)
  end.

(** ** A run *)

Definition loadSyncState (file : option syncState) (sourcePath : string) : Z :=
  match file with
  | Some st => if String.eqb (Path st) sourcePath then LastSync st else 0
  | None => 0
  end.

(** A file that was cut short is not read back: it does not decode. *)
Definition saveSyncState (w : Write) (now : Z) (sourcePath : string) (file : option syncState) : option syncState :=
  match w with
  | NotOpened => file
  | CutShort => None
  | Written => Some (mkSyncState now sourcePath)
  end.

(** A dry run reads and writes no cache; this one stands in for it. *)
Definition nilCache : Cache.Cache := Cache.mkCache "" 0 0 0 ∅ ∅ ∅ ∅ 0.

(** A dry run has no cache: [None] is the nil pointer.  The state file is written at the
    end of an incremental run. *)
Definition runSingleImport (opts : seedImportOptions) (args : list (string * Tree)) (files : string → DebFile)
    (listIO : Cache.IO) (io : string → Cache.IO) (w : Write) (now : Z) (state : option syncState) (c : option Cache.Cache)
  : Outcome * option syncState * option Cache.Cache :=
  let source := match args with a :: _ => a.1 | [] => "" end in
  let lastSync := if incremental opts then loadSyncState state source else 0 in
  let debFiles := collectAll (recursive opts) lastSync args in
  match debFiles with
  | [] => ((if incremental opts && negb (lastSync =? 0) then NothingNew else NoFiles), state, c)
  | _ =>
      let none := mkTotals 0 0 0 0 ∅ in
      match c with
      | Some cache =>
          let '(t, cache) := importFiles files (dryRun opts) debFiles none cache in
          let '(removed, would, cache) :=
            if syncMode opts then runSyncRemoval listIO io (sourceHashes t) (dryRun opts) cache else (0, 0, cache) in
          (Finished t removed would,
           (if incremental opts && negb (dryRun opts) then saveSyncState w now source state else state), Some cache)
      | None =>
          let t := (importFiles files true debFiles none nilCache).1 in
          ((if syncMode opts then Panicked else Finished t 0 0), state, None)
      end
  end.

(** ** Watching *)

(** The files that changed and were not processed yet. *)
Definition watchEvent (name : string) (createdOrWritten : bool) (pendingFiles : gset string) : gset string :=
  if negb (HasSuffix (ToLower name) ".deb") then pendingFiles
  else if negb createdOrWritten then pendingFiles
  else {[name]} ∪ pendingFiles.

(** [at_] gives the files as they are when the timer goes off. *)
Definition processPending (at_ : string → DebFile) (dry : bool) (order : list string) (c : Cache.Cache) : Cache.Cache :=
  foldl (λ c p, (processDebFile (at_ p) p dry c).2) c order.

Fixpoint watchLoop (dry : bool) (events : list (WatchEvent * (string → DebFile))) (pendingFiles : gset string) (c : Cache.Cache)
  : gset string * Cache.Cache :=
  match events with
  | [] => (pendingFiles, c)
  | (FileChanged name cw, _) :: events => watchLoop dry events (watchEvent name cw pendingFiles) c
  | (WatchError, _) :: events => watchLoop dry events pendingFiles c
  | (TimerFired order, at_) :: events => watchLoop dry events ∅ (processPending at_ dry order c)
  end.

(** The first import does not have to succeed; a watcher that cannot be made ends the
    command. *)
Definition runWatchMode (opts : seedImportOptions) (args : list (string * Tree)) (files : string → DebFile)
    (listIO : Cache.IO) (io : string → Cache.IO) (w : Write) (now : Z) (state : option syncState) (c : option Cache.Cache)
    (watcher : bool) (events : list (WatchEvent * (string → DebFile))) : Outcome * option syncState * option Cache.Cache * gset string :=
  let '(o, state, c) := runSingleImport opts args files listIO io w now state c in
  match o, c with
  | Panicked, _ => (o, state, c, ∅)
  | _, None => (o, state, None, if watcher then (watchLoop true events ∅ nilCache).1 else ∅)
  | _, Some cache =>
      if watcher then let '(pending, cache) := watchLoop (dryRun opts) events ∅ cache in (o, state, Some cache, pending)
      else (o, state, c, ∅)
  end.

(** [runSeedImport] without [--watch]: a dry run does not open the cache. *)
Definition runSeedImport (opts : seedImportOptions) (args : list (string * Tree)) (files : string → DebFile)
    (listIO : Cache.IO) (io : string → Cache.IO) (w : Write) (now : Z) (state : option syncState) (cache : Cache.Cache)
  : Outcome * option syncState * option Cache.Cache :=
  runSingleImport opts args files listIO io w now state (if dryRun opts then None else Some cache).
End seed.
End Seed.
