(* ===== verification/SeedSys.v ===== *)
(** * Properties of importing a mirror

    A run with [--sync] leaves the packages of the source alone, removes the
    others, and accounts for every file; two documented combinations of options
    do not do what they promise. *)

From S2P Require Import Prelude GoStd GoText HashUtil Sql Cache CacheFacts CacheSys AptLocal AptLocalSys Seed.
From Stdlib Require Import Ascii.
Open Scope Z_scope.
Open Scope go_scope.

Module SeedSys.
Import Seed.

Section seeding.
Context `{GoUnicode, SqlOrder, Sha256}.

(** ** Importing *)

(** [sized] claims that the tracked size is exact, which needs the size queries to work. *)
Context (files : string → DebFile) (sized : Prop)
  (Hdb : sized → ∀ p h, Cache.db (df_io (files p)) (Cache.DbSelectSize h) = true).

Definition bytes_hash (p h : string) : Prop := ∃ data, df_bytes (files p) = Some data ∧ h = HashBytes data.

(** The hash of the bytes of a file is among those of the source. *)
Definition recorded (t : Totals) (p : string) : bool :=
  match df_bytes (files p) with Some data => bool_decide (HashBytes data ∈ sourceHashes t) | None => false end.

Definition unrecorded (t : Totals) (paths : list string) : Z := Z.of_nat (length (List.filter (λ p, negb (recorded t p)) paths)).

Lemma recorded_mono t t' p : sourceHashes t ⊆ sourceHashes t' → recorded t p = true → recorded t' p = true.
Proof. unfold recorded. destruct (df_bytes _); [|done]. rewrite !bool_decide_eq_true. set_solver. Qed.

Lemma unrecorded_none t paths p : unrecorded t paths <= 0 → p ∈ paths → ∃ h, bytes_hash p h ∧ h ∈ sourceHashes t.
Proof.
  intros Hn Hp. destruct (recorded t p) eqn:Hr.
  - unfold recorded in Hr. destruct (df_bytes (files p)) as [data|] eqn:Hd; [|done]. apply bool_decide_eq_true in Hr. exists (HashBytes data). by split; [exists data|].
  - exfalso. unfold unrecorded in Hn. assert (In p (List.filter (λ q, negb (recorded t q)) paths)) as Hin.
    { apply filter_In. split; [by apply list_elem_of_In|by rewrite Hr]. }
    destruct (List.filter _ _); [done|cbn in Hn; lia].
Qed.

(** What one file does to the totals. *)
Record collected (p : string) (t t' : Totals) : Prop := {
  cl_sum : imported t' + skipped t' + failed t' = imported t + skipped t + failed t + 1;
  cl_grow : sourceHashes t ⊆ sourceHashes t';
  cl_source : ∀ h, h ∈ sourceHashes t' → h ∈ sourceHashes t ∨ bytes_hash p h;
  cl_failed : failed t' = failed t + 1 ∨ failed t' = failed t ∧ recorded t' p = true;
}.

Lemma collect_failed p t : collected p t (collect Failed t).
Proof. constructor; cbn; [lia|done|auto|auto]. Qed.

Lemma collect_hash p data r size t :
  df_bytes (files p) = Some data → r = Imported (HashBytes data) size ∨ r = AlreadyCached (HashBytes data) size → collected p t (collect r t).
Proof.
  intros Hd Hr. assert (bytes_hash p (HashBytes data)) as Hb by by exists data.
  destruct Hr as [-> | ->]; (constructor; [cbn; lia|cbn; set_solver|cbn; set_solver|]; right; split; [done|];
    unfold recorded; rewrite Hd; apply bool_decide_eq_true; cbn; set_solver).
Qed.

Lemma process_spec p c l :
  CacheFacts.Held sized c l →
  let '(r, c') := processDebFile (files p) p false c in CacheFacts.Held sized c' l ∧ ∀ t, collected p t (collect r t).
Proof using Hdb.
  intros Hi. unfold processDebFile. destruct (negb _); [auto using collect_failed|].
  destruct (df_size (files p)) as [sz|]; [|auto using collect_failed].
  destruct (df_bytes (files p)) as [data|] eqn:Hd; [|auto using collect_failed].
  fold (HashBytes data). destruct (Cache.Has c _); [split; [done|]; intros t; eapply collect_hash; eauto|].
  destruct (negb _); [auto using collect_failed|].
  pose proof (CacheFacts.Put_inv (df_io (files p)) (df_put (files p)) (HashBytes data) (filepath_Base p) c l Hi (λ s, Hdb s p _)) as Hp.
  destruct (Cache.Put _ _ _ _ _) as [[u|e] c']; (split; [done|]); intros t; [eapply collect_hash; eauto|apply collect_failed].
Qed.

Lemma importFiles_spec paths t c l :
  CacheFacts.Held sized c l →
  let '(t', c') := importFiles files false paths t c in
  CacheFacts.Held sized c' l ∧ imported t' + skipped t' + failed t' = imported t + skipped t + failed t + Z.of_nat (length paths) ∧
  (∀ h, h ∈ sourceHashes t' → h ∈ sourceHashes t ∨ ∃ p, p ∈ paths ∧ bytes_hash p h) ∧
  sourceHashes t ⊆ sourceHashes t' ∧ failed t + unrecorded t' paths <= failed t'.
Proof using Hdb.
  revert t c. induction paths as [|p paths IH]; intros t c Hi; cbn [importFiles]; [split_and!; [done|cbn; lia|auto|done|unfold unrecorded; cbn; lia]|].
  pose proof (process_spec p c l Hi) as Hp. destruct (processDebFile _ _ _ _) as [r c1]. destruct Hp as [Hi1 Hp].
  specialize (IH (collect r t) c1 Hi1). destruct (importFiles _ _ _ _ _) as [t' c']. destruct IH as (Hi' & Hsum & Hsrc & Hgrow & Hfail).
  destruct (Hp t) as [Hc Hg Hh Hf]. split_and!; [done|cbn [length]; lia| |set_solver|].
  - intros h [Hin|(q & Hq & Hb)]%Hsrc; [|right; exists q; split; [by right|done]].
    apply Hh in Hin as [Hin|Hb]; [auto|]. right. exists p. split; [by left|done].
  - unfold unrecorded in *. cbn [List.filter]. destruct Hf as [Hf|[Hf Hrec]]; [destruct (negb _); cbn [length]; lia|].
    rewrite (recorded_mono _ _ _ Hgrow Hrec). cbn [negb]. lia.
Qed.

(** ** Removing *)

Context (io : string → Cache.IO).

(** Deleting works for a package: no failure, and nobody reads it. *)
Definition deletable (c : Cache.Cache) (h : string) : Prop :=
  (∀ op, Cache.db (io h) op = true) ∧ (∀ op, Cache.fs (io h) op = true) ∧ Cache.readers c h <= 0.

Lemma Delete_ok h c : deletable c h → (Cache.Delete (io h) h c).1 = Ok tt ∧ Cache.packages (Cache.Delete (io h) h c).2 !! h = None.
Proof.
  intros (Hd & Hf & Hr). unfold Cache.Delete, Cache.deleteUnlocked. replace (0 <? Cache.readers c h) with false by (symmetry; apply Z.ltb_ge; lia).
  rewrite Hd. cbn [andb negb Z.ltb]. unfold Cache.os_Remove. rewrite Hd.
  destruct (Cache.disk c !! _); [rewrite Hf|]; cbn; (split; [done|apply lookup_delete_eq]).
Qed.

(** What removing leaves alone, and what it removes. *)
Record removal (source : gset string) (hs : list string) (l : list Cache.trackedReader) (c c' : Cache.Cache) : Prop := {
  rv_inv : CacheFacts.Held sized c' l;
  rv_readers : Cache.activeReaders c' = Cache.activeReaders c;
  rv_kept : ∀ h, h ∈ source → valid_hash h = true → Cache.packages c' !! h = Cache.packages c !! h ∧ Cache.Has c' h = Cache.Has c h;
  rv_fewer : ∀ h, is_Some (Cache.packages c' !! h) → is_Some (Cache.packages c !! h);
  rv_gone : (∀ h, h ∈ hs → deletable c h) → ∀ h, h ∈ hs → is_Some (Cache.packages c' !! h) → h ∈ source;
}.

Lemma Delete_frame h x c l :
  CacheFacts.Held sized c l → valid_hash h = true → valid_hash x = true → x ≠ h →
  let c' := (Cache.Delete (io h) h c).2 in Cache.packages c' !! x = Cache.packages c !! x ∧ Cache.Has c' x = Cache.Has c x.
Proof.
  intros Hi Hv Hx Hne. pose proof (CacheFacts.delete_removes (io h) h (-1) c) as [Hb _ _ _ Hr Hd].
  fold (Cache.Delete (io h) h c) in *. cbv zeta. split.
  - destruct (Hr x) as [->|[[-> _] _]]; done.
  - unfold Cache.Has. rewrite (CacheFacts.packagePath_base _ c x Hb).
    destruct (Hd (Cache.packagePath c x)) as [->|[_ (y & [-> _] & Heq)]]; [done|].
    apply CacheFacts.packagePath_inj in Heq; done.
Qed.

Lemma removeAll_spec source hs r w c l :
  CacheFacts.Held sized c l → Forall (λ h, valid_hash h = true) hs →
  removal source hs l c (foldl (removeOne io source false) (r, w, c) hs).2.
Proof.
  intros Hi Hvs. revert r w c Hi. induction Hvs as [|h hs Hv Hvs IH]; intros r w c Hi; cbn [foldl].
  { constructor; auto. intros _ h Hh. by apply elem_of_nil in Hh. }
  cbn [removeOne]. case_bool_decide as Hin.
  { destruct (IH r w c Hi) as [Hi' Hrd Hk Hf Hg]. constructor; auto.
    intros Hdel x [->|Hx]%elem_of_cons Hs; [done|]. apply Hg; auto. intros y Hy. apply Hdel. by right. }
  pose proof (CacheFacts.Delete_inv (io h) h c l Hv Hi) as Hi1.
  pose proof (λ x Hx, Delete_frame h x c l Hi Hv Hx) as Hfr. cbv zeta in Hfr.
  pose proof (CacheFacts.delete_removes (io h) h (-1) c) as [_ _ _ Hrd1 Hrow _]. fold (Cache.Delete (io h) h c) in *.
  pose proof (Delete_ok h c) as Hok. destruct (Cache.Delete (io h) h c) as [res c1] eqn:Hdel. cbn [fst snd] in *.
  assert (removal source hs l c1 (foldl (removeOne io source false)
    (match res with Ok _ => (r + 1, w, c1) | Err _ => (r, w, c1) end) hs).2) as [Hi' Hrd Hk Hf Hg].
  { destruct res; by apply IH. }
  assert (∀ x, is_Some (Cache.packages c1 !! x) → is_Some (Cache.packages c !! x)) as Hless.
  { intros x. destruct (Hrow x) as [->|[_ ->]]; [done|by intros []]. }
  constructor; auto.
  - congruence.
  - intros x Hx Hvx. destruct (Hk x Hx Hvx) as [-> ->]. apply Hfr; [done|]. intros ->. done.
  - intros Hall x [->|Hx]%elem_of_cons Hs.
    + destruct (Hok (Hall h ltac:(by left))) as [_ Hnone]. destruct (decide (h ∈ hs)) as [Hh|Hh].
      * apply Hg; [|done..]. intros y Hy. destruct (Hall y ltac:(by right)) as (? & ? & Hry). split_and!; try done. unfold Cache.readers in *. by rewrite Hrd1.
      * exfalso. apply Hf in Hs. rewrite Hnone in Hs. by destruct Hs.
    + apply Hg; [|done..]. intros y Hy. destruct (Hall y ltac:(by right)) as (? & ? & Hry). split_and!; try done. unfold Cache.readers in *. by rewrite Hrd1.
Qed.

(** The listing before the removal. *)
Lemma removal_run listIO source c l :
  CacheFacts.Held sized c l →
  let c' := (runSyncRemoval listIO io source false c).2 in
  CacheFacts.Held sized c' l ∧
  (∀ h, h ∈ source → valid_hash h = true → Cache.Has c' h = Cache.Has c h) ∧
  (Cache.db listIO Cache.DbQuery = true → (∀ h, deletable c h) → ∀ h, is_Some (Cache.packages c' !! h) → h ∈ source).
Proof.
  intros Hi. cbv zeta. unfold runSyncRemoval, Cache.List.
  pose proof (CacheFacts.flushAccess_inv listIO c l Hi) as Hi1. destruct (CacheFacts.flushAccess_frame listIO c) as (Hb & _ & _ & Hd & Hr & _).
  set (c1 := Cache.flushAccess listIO c) in *.
  assert (∀ x, Cache.Has c1 x = Cache.Has c x) as Hhas by (intros x; unfold Cache.Has; by rewrite Hd, (CacheFacts.packagePath_base c1 c)).
  destruct (Cache.db listIO Cache.DbQuery); [|by split_and!; [|intros; apply Hhas|]].
  set (hs := Cache.SHA256 <$> _). assert (∀ h, h ∈ hs ↔ is_Some (Cache.packages c1 !! h)) as Hhs.
  { intros h. subst hs. unfold Cache.scan_all. rewrite <- list_fmap_compose, list_elem_of_fmap. split.
    - intros ([k r] & -> & Hin). apply elem_of_select in Hin as [Hk _]. by exists r.
    - intros [r Hk]. exists (h, r). split; [done|]. by apply elem_of_select. }
  assert (Forall (λ h, valid_hash h = true) hs) as Hvs.
  { apply Forall_forall. intros h [r Hk]%Hhs. by apply (CacheFacts.inv_rows _ _ _ Hi1 h r). }
  destruct (removeAll_spec source hs 0 0 c1 l Hi1 Hvs) as [Hi' Hrd Hk Hf Hg]. split; [done|]. split.
  - intros h Hh Hv. destruct (Hk h Hh Hv) as [_ ->]. apply Hhas.
  - intros _ Hdel h Hs. apply Hg; [|by apply Hhs, Hf|done]. intros x _. destruct (Hdel x) as (? & ? & Hx). split_and!; try done.
    unfold Cache.readers in *. by rewrite Hr.
Qed.

(** C36: a synchronising run accounts for every file it collected.  What it takes as the
    source are hashes of bytes it read from those files, and at most as many files are
    missing from it as failed: when none failed, every collected file's package, imported
    now or cached already, is in the source.  Removing leaves every package of the source
    in the cache, and, when the listing and the deletions work and nobody is reading, the
    cache ends up listing only packages of the source.  The invariant of the cache is
    kept, with its size when the size queries work.  With [--incremental] only the files
    changed since the last run are collected, so the others are not in the source. *)
Theorem seed_sync opts args listIO w now state c l :
  dryRun opts = false → syncMode opts = true → CacheFacts.Held sized c l →
  let source := match args with a :: _ => a.1 | [] => "" end in
  let paths := collectAll (recursive opts) (if incremental opts then loadSyncState state source else 0) args in
  paths ≠ [] →
  ∃ t removed would st c1 c',
    runSeedImport opts args files listIO io w now state c = (Finished t removed would, st, Some c') ∧
    CacheFacts.Held sized c' l ∧
    imported t + skipped t + failed t = Z.of_nat (length paths) ∧
    (∀ h, h ∈ sourceHashes t → ∃ p, p ∈ paths ∧ bytes_hash p h) ∧
    unrecorded t paths <= failed t ∧
    (failed t = 0 → ∀ p, p ∈ paths → ∃ h, bytes_hash p h ∧ h ∈ sourceHashes t) ∧
    importFiles files false paths (mkTotals 0 0 0 0 ∅) c = (t, c1) ∧
    (∀ h, h ∈ sourceHashes t → Cache.Has c' h = Cache.Has c1 h) ∧
    (Cache.db listIO Cache.DbQuery = true → (∀ h, deletable c1 h) → ∀ h, is_Some (Cache.packages c' !! h) → h ∈ sourceHashes t).
Proof using Hdb.
  intros Hdry Hsync Hi source paths Hne. unfold runSeedImport, runSingleImport. rewrite Hdry. fold source. cbv zeta. fold paths.
  destruct paths as [|p0 ps0] eqn:Hpaths; [done|]. rewrite <- Hpaths. rewrite Hsync.
  pose proof (importFiles_spec paths (mkTotals 0 0 0 0 ∅) c l Hi) as Hs. rewrite Hpaths in *.
  destruct (importFiles files false _ _ c) as [t c1]. destruct Hs as (Hi1 & Hsum & Hsrc & _ & Hfail).
  pose proof (removal_run listIO (sourceHashes t) c1 l Hi1) as (Hi' & Hkeep & Hgone).
  destruct (runSyncRemoval listIO io (sourceHashes t) false c1) as [[removed would] c'].
  exists t, removed, would. eexists _, c1, c'. split; [done|]. cbn [imported skipped failed sourceHashes snd] in *.
  split_and!; [done|lia| |lia| |done| |done].
  - intros h [Hh|Hp]%Hsrc; [set_solver|exact Hp].
  - intros Hz p Hp. apply (unrecorded_none t (p0 :: ps0)); [lia|done].
  - intros h Hh. apply Hkeep; [done|]. destruct (Hsrc h Hh) as [Hx|(p & _ & data & _ & ->)]; [set_solver|apply HashBytes_valid].
Qed.
End seeding.

(** ** Watching *)
Section watching.
Context `{GoUnicode, SqlOrder, Sha256}.
Implicit Types (events : list (WatchEvent * (string → DebFile))) (pending : gset string).

(** The map is emptied when the timer goes off: what is taken is what is pending. *)
Fixpoint timers_take_all events pending : Prop :=
  match events with
  | [] => True
  | (FileChanged name cw, _) :: events => timers_take_all events (watchEvent name cw pending)
  | (WatchError, _) :: events => timers_take_all events pending
  | (TimerFired order, _) :: events => list_to_set order = pending ∧ timers_take_all events ∅
  end.

(** The package files reported, and the files taken up by the timer. *)
Definition reported events : gset string :=
  list_to_set (omap (λ e, match e.1 with FileChanged name true => if HasSuffix (ToLower name) ".deb" then Some name else None | _ => None end) events).
Definition taken events : gset string :=
  list_to_set (concat ((λ e : WatchEvent * (string → DebFile), match e.1 with TimerFired order => order | _ => [] end) <$> events)).

(** Every package file that is reported is taken up or still pending, and nothing else. *)
Lemma watch_nothing_lost dry events pending c :
  timers_take_all events pending → pending ∪ reported events = taken events ∪ (watchLoop dry events pending c).1.
Proof.
  revert pending c. induction events as [|[e at_] events IH]; intros pending c Ht; cbn [watchLoop]; [set_solver|].
  destruct e as [name cw| |order]; cbn [timers_take_all] in Ht.
  - specialize (IH _ c Ht). rewrite <- (IH : _ = taken ((FileChanged name cw, at_) :: events) ∪ _).
    unfold watchEvent, reported. cbn [omap list_omap fst]. destruct (HasSuffix _ _), cw; cbn [negb]; set_solver.
  - by apply IH.
  - destruct Ht as [<- Ht]. specialize (IH ∅ (processPending at_ dry order c) Ht).
    unfold taken in *. cbn [fmap list_fmap concat fst]. rewrite (list_to_set_app_L order). change (reported ((TimerFired order, at_) :: events)) with (reported events). clear - IH. set_solver.
Qed.

(** Watching keeps the invariant of the cache. *)
Lemma watch_inv (sized : Prop) dry events pending c l :
  (sized → Forall (λ e, ∀ p h, Cache.db (df_io (e.2 p)) (Cache.DbSelectSize h) = true) events) → CacheFacts.Held sized c l →
  CacheFacts.Held sized (watchLoop dry events pending c).2 l.
Proof.
  intros Hio. revert pending c. induction events as [|[e at_] events IH]; intros pending c Hi; cbn [watchLoop snd]; [done|].
  assert (sized → ∀ p h, Cache.db (df_io (at_ p)) (Cache.DbSelectSize h) = true) as He by (intros Hs; exact (Forall_inv (Hio Hs))).
  specialize (IH (λ Hs, Forall_inv_tail (Hio Hs))).
  destruct e as [name cw| |order]; [by apply IH..|]. apply IH. clear IH Hio. unfold processPending.
  revert c Hi. induction order as [|p order IH]; intros c Hi; cbn [foldl]; [done|]. apply IH.
  destruct dry.
  - unfold processDebFile. repeat case_match; done.
  - pose proof (process_spec at_ sized He p c l Hi) as Hp. destruct (processDebFile _ _ _ _) as [r c']. apply Hp.
Qed.
End watching.

(** ** Evaluations *)
Section examples.
#[local] Existing Instance ascii_only.
#[local] Existing Instance toy_sha.
#[local] Existing Instance isort_order.

Definition file_of (data : string) : DebFile :=
  mkDebFile true (Some (Z.of_nat (String.length data))) (Some data) true (Cache.mkPutData [data] true (λ _, None) "r") AptLocalSys.good_io.

(** A mirror with two packages, of which the second is newer than the last run. *)
Definition pool_files (p : string) : DebFile := if HasSuffix p "/a_1_all.deb" then file_of "alpha" else file_of "beta".
Definition pool : list (string * Tree) :=
  [("/pool", TDir [("a", TDir [("a_1_all.deb", TFile 100)]); ("b", TDir [("b_1_all.deb", TFile 900); ("b_1.dsc", TFile 900)])])].
Definition good (h : string) : Cache.IO := AptLocalSys.good_io.

Definition run_seed (opts : seedImportOptions) (state : option syncState) (c : Cache.Cache) :=
  runSeedImport opts pool pool_files AptLocalSys.good_io good Written 1000 state c.
Definition full : seedImportOptions := mkOptions true true false false.
Definition after_full : Cache.Cache := default AptLocalSys.ex_cache (run_seed full None AptLocalSys.ex_cache).2.

(** A full run imports both packages. *)
Example full_run : (λ h, Cache.Has after_full (HashBytes h)) <$> ["alpha"; "beta"] = [true; true].
Proof. vm_compute. reflexivity. Qed.

(** An incremental run that synchronises looks only at the files changed since the last
    one and removes the packages of all others, although they are still in the
    source. *)
Example incremental_sync_removes_source :
  let r := run_seed (mkOptions true true false true) (Some (mkSyncState 500 "/pool")) after_full in
  (match r.1.1 with Finished t removed _ => Some (skipped t, removed) | _ => None end,
   (λ h, Cache.Has (default AptLocalSys.ex_cache r.2) (HashBytes h)) <$> ["alpha"; "beta"])
  = (Some (1, 1), [false; true]).
Proof. vm_compute. reflexivity. Qed.

(** Previewing a synchronisation dereferences the cache that a dry run does not open. *)
Example dry_sync_panics : (run_seed (mkOptions true true true false) None after_full).1.1 = Panicked.
Proof. vm_compute. reflexivity. Qed.

Lemma seed_sync_witness :
  ∃ t removed would st c', run_seed full None AptLocalSys.ex_cache = (Finished t removed would, st, Some c') ∧
    CacheFacts.Inv c' [] ∧ imported t + skipped t + failed t = 2 ∧ failed t = 0 ∧
    ∃ h, bytes_hash pool_files "/pool/a/a_1_all.deb" h ∧ h ∈ sourceHashes t.
Proof.
  destruct (seed_sync pool_files True ltac:(intros _ p h; unfold pool_files; destruct (HasSuffix p _); reflexivity) good full pool AptLocalSys.good_io Written 1000 None
    AptLocalSys.ex_cache [] eq_refl eq_refl AptLocalSys.empty_cache_inv ltac:(vm_compute; discriminate))
    as (t & removed & would & st & c1 & c' & Hrun & Hi & Hsum & _ & _ & Hall & Himp & _).
  assert (failed t = 0) as H0.
  { apply (f_equal fst) in Himp. cbn [fst] in Himp. rewrite <- Himp. vm_compute. reflexivity. }
  exists t, removed, would, st, c'. split; [exact Hrun|]. split; [exact Hi|]. split; [rewrite Hsum; vm_compute; reflexivity|].
  split; [exact H0|]. apply (Hall H0). apply (bool_decide_unpack _). vm_compute. exact I.
Defined.
End examples.
End SeedSys.
