(* ===== verification/CacheCmd.v ===== *)
(** * Operating a cache

    Opening the database with its check and recovery, and sweeping partial downloads
    (cache/cache.go), the periodic clean-up of download state (proxy/server.go), and
    the commands [debswarm cache] and [debswarm rollback] (cache_cmd.go,
    rollback_cmd.go) on an opened cache.  What is printed is left out, apart from
    what slicing a hash for it can do. *)

From S2P Require Import Prelude GoStd GoText HashUtil DebName Sql Cache DlState PkgIndex.
From Stdlib Require Import Ascii.
Open Scope Z_scope.
Open Scope go_scope.

Module CacheCmd.

(** ** Opening *)

(** [PRAGMA integrity_check]: it cannot be run or read, or its first row ([""] when
    there is none). *)
Inductive Check := CheckFailed | Checked (result : string).

Definition isDatabaseCorrupted (c : Check) : option bool :=
  match c with
  | CheckFailed => None
  | Checked result => Some (negb (String.eqb result "ok"))
  end.

(** The system calls of opening a database; [wal]: the files beside it are absent or
    could be moved; [leftover]: what a new database reads when they could not. *)
Record OpenIO := mkOpenIO {
  sqlOpen : bool; integrity : Check; moveDb : bool; wal : bool; leftover : gmap string Cache.Row; sqlCreate : bool;
  mkdirs : bool; createTables : bool }.

Inductive OpenErr := EMkdir | EOpen | ErrDatabaseCorrupted | ETables.

Definition recoverDatabase (io : OpenIO) : option (gmap string Cache.Row) :=
  if negb (moveDb io) then None
  else if negb (sqlCreate io) then None
  else Some (if wal io then ∅ else leftover io).

Definition openDatabaseWithRecovery (io : OpenIO) (rows : gmap string Cache.Row) : res OpenErr (gmap string Cache.Row) :=
  if negb (sqlOpen io) then Err EOpen
  else
    match isDatabaseCorrupted (integrity io) with
    | Some true => match recoverDatabase io with Some rows => Ok rows | None => Err ErrDatabaseCorrupted end
    | _ => Ok rows
    end.

(** [New] and [NewWithMinFreeSpace] on the database and the files there are. *)
Definition New (oio : OpenIO) (io : Cache.IO) (basePath : string) (maxSize minFreeSpace : Z)
    (rows : gmap string Cache.Row) (files : gmap string string) : res OpenErr Cache.Cache :=
  if negb (mkdirs oio) then Err EMkdir
  else
    match openDatabaseWithRecovery oio rows with
    | Err e => Err e
    | Ok rows =>
        if negb (createTables oio) then Err ETables
        else Ok (Cache.NewWithMinFreeSpace io basePath maxSize minFreeSpace rows files)
    end.

Definition CheckIntegrity (check : Check) : option OpenErr :=
  match isDatabaseCorrupted check with
  | None => Some EOpen
  | Some true => Some ErrDatabaseCorrupted
  | Some false => None
  end.

(** ** Partial downloads *)

(** An entry below [packages/partial]: a directory with its modification time, when it
    can be read, and whether it can be removed. *)
Record Entry := mkEntry { e_name : string; e_dir : bool; e_mtime : option Z; e_remove : bool }.

(** The directories removed; [cutoff] is [maxAge] before now. *)
Definition sweepable (cutoff : Z) (active : string → bool) (e : Entry) : bool :=
  e_dir e && match e_mtime e with Some t => negb (cutoff <? t) | None => false end && negb (active (e_name e)) && e_remove e.

(** [None]: the directory cannot be read for another reason than that it is not there. *)
Definition SweepStalePartials (entries : option (list Entry)) (cutoff : Z) (active : string → bool) : option (list string) :=
  match entries with
  | None => None
  | Some es => Some (e_name <$> filter (λ e, sweepable cutoff active e = true) es)
  end.

(** [CleanupDownloadState]: stale rows first, then directories without a row; [ev]
    gives the statements for a hash. *)
Definition hasState `{SqlOrder} (ev : string → DlState.Env) (stateManager : option DlState.SM) (hash : string) : bool :=
  match stateManager with
  | None => false
  | Some sm => match DlState.GetDownload (ev hash) hash sm with Ok (Some _) => true | _ => false end
  end.

Definition CleanupDownloadState `{SqlOrder} (fk : bool) (ev0 : DlState.Env) (ev : string → DlState.Env) (maxAge cutoff : Z)
    (entries : option (list Entry)) (stateManager : option DlState.SM) : option (list string) * option DlState.SM :=
  let sm := (λ sm, (DlState.CleanupStale fk ev0 maxAge sm).2) <$> stateManager in
  (SweepStalePartials entries cutoff (hasState ev sm), sm).

(** ** debswarm cache *)

Section commands.
Context `{SqlOrder}.
Context `{Sha256}.

(** A command that ends normally, with an error, or with a panic. *)
Inductive Outcome := Done | Failed | Panicked.

Definition sliced (h : string) (n : nat) : bool := (n <=? String.length h)%nat.

(** [cache clear]: a deletion that fails prints a slice of the hash. *)
Fixpoint clearAll (io : string → Cache.IO) (hs : list string) (c : Cache.Cache) : Outcome * Cache.Cache :=
  match hs with
  | [] => (Done, c)
  | h :: hs =>
      match Cache.Delete (io h) h c with
      | (Ok _, c) => clearAll io hs c
      | (Err _, c) => if sliced h 16 then clearAll io hs c else (Panicked, c)
      end
  end.

Definition cacheClear (listIO : Cache.IO) (io : string → Cache.IO) (c : Cache.Cache) : Outcome * Cache.Cache :=
  match Cache.List listIO c with
  | (Err _, c) => (Failed, c)
  | (Ok pkgs, c) => clearAll io (Cache.SHA256 <$> pkgs) c
  end.

(** [cache verify]: opening, when the file is there, and reading may fail. *)
Record Report := mkReport { verified : Z; corrupted : Z; missing : Z; corruptedList : list string }.

Definition noteMissing (h : string) (r : Report) : Report := mkReport (verified r) (corrupted r) (missing r + 1) (corruptedList r ++ [h]).
Definition noteCorrupt (h : string) (r : Report) : Report := mkReport (verified r) (corrupted r + 1) (missing r) (corruptedList r ++ [h]).
Definition noteVerified (r : Report) : Report := mkReport (verified r + 1) (corrupted r) (missing r) (corruptedList r).

Definition verifyOne (opens reads : string → bool) (base : string) (files : gmap string string) (h : string) (r : Report) : res Outcome Report :=
  if negb (sliced h 2) then Err Panicked
  else
    match files !! filepath_Join [base; "packages"; "sha256"; str_take 2 h; h] with
    | None => if sliced h 16 then Ok (noteMissing h r) else Err Panicked
    | Some data =>
        if negb (opens h) then Err (if sliced h 16 then Failed else Panicked)
        else if negb (reads h) then Err (if sliced h 16 then Failed else Panicked)
        else if String.eqb (EncodeToString (Sum256 data)) h then Ok (noteVerified r)
        else if sliced h 16 then Ok (noteCorrupt h r) else Err Panicked
    end.

Fixpoint verifyLoop (opens reads : string → bool) (base : string) (files : gmap string string) (hs : list string) (r : Report) : res Outcome Report :=
  match hs with
  | [] => Ok r
  | h :: hs =>
      match verifyOne opens reads base files h r with
      | Ok r => verifyLoop opens reads base files hs r
      | Err o => Err o
      end
  end.

Definition cacheVerify (listIO : Cache.IO) (opens reads : string → bool) (c : Cache.Cache) : Outcome * option Report * Cache.Cache :=
  match Cache.List listIO c with
  | (Err _, c) => (Failed, None, c)
  | (Ok [], c) => (Done, None, c)
  | (Ok pkgs, c) =>
      match verifyLoop opens reads (Cache.basePath c) (Cache.disk c) (Cache.SHA256 <$> pkgs) (mkReport 0 0 0 []) with
      | Err o => (o, None, c)
      | Ok r =>
          match corruptedList r with
          | [] => (Done, Some r, c)
          | l => ((if forallb (λ h, sliced h 16) l then Failed else Panicked), Some r, c)
          end
      end
  end.

(** [cache pin] and [cache unpin] take the prefix of a hash. *)
Definition matches (hashPrefix : string) (pkg : Cache.Package) : bool :=
  (String.length hashPrefix <=? String.length (Cache.SHA256 pkg))%nat &&
  String.eqb (str_take (String.length hashPrefix) (Cache.SHA256 pkg)) hashPrefix.

Definition pinOutcome (r : res Cache.CacheErr unit) : Outcome :=
  match r with Ok _ => Done | Err Cache.EPanic => Panicked | Err _ => Failed end.

Definition changePin (pin : bool) (io : Cache.IO) (pkg : Cache.Package) (c : Cache.Cache) : Outcome * Cache.Cache :=
  let h := Cache.SHA256 pkg in
  if Bool.eqb (Cache.Pinned pkg) pin then ((if sliced h 16 then Done else Panicked), c)
  else let '(r, c) := (if pin then Cache.Pin io h c else Cache.Unpin io h c) in (pinOutcome r, c).

Definition pinByPrefix (pin : bool) (listIO io : Cache.IO) (hashPrefix : string) (c : Cache.Cache) : Outcome * Cache.Cache :=
  match Cache.List listIO c with
  | (Err _, c) => (Failed, c)
  | (Ok pkgs, c) =>
      match filter (λ p, matches hashPrefix p = true) pkgs with
      | [pkg] => changePin pin io pkg c
      | [] => (Failed, c)
      | l => ((if forallb (λ p, sliced (Cache.SHA256 p) 16) l then Failed else Panicked), c)
      end
  end.

Definition cachePin (listIO io : Cache.IO) (hashPrefix : string) (c : Cache.Cache) : Outcome * Cache.Cache := pinByPrefix true listIO io hashPrefix c.

Fixpoint unpinAll (io : string → Cache.IO) (hs : list string) (c : Cache.Cache) : Outcome * Cache.Cache :=
  match hs with
  | [] => (Done, c)
  | h :: hs =>
      match Cache.Unpin (io h) h c with
      | (Ok _, c) => unpinAll io hs c
      | (Err Cache.EPanic, c) => (Panicked, c)
      | (Err _, c) => if sliced h 16 then unpinAll io hs c else (Panicked, c)
      end
  end.

Definition cacheUnpin (all : bool) (listIO : Cache.IO) (io : string → Cache.IO) (args : list string) (c : Cache.Cache) : Outcome * Cache.Cache :=
  if all then
    match Cache.ListPinned listIO c with
    | Err _ => (Failed, c)
    | Ok pkgs => unpinAll io (Cache.SHA256 <$> pkgs) c
    end
  else
    match args with
    | [] => (Failed, c)
    | p :: _ => pinByPrefix false listIO (io p) p c
    end.

(** ** debswarm rollback *)

Definition getDebianArch (GOARCH : string) : string :=
  if String.eqb GOARCH "386" then "i386" else if String.eqb GOARCH "arm" then "armhf" else GOARCH.

Definition rollbackMigrate `{GoUnicode} (io : Cache.IO) (c : Cache.Cache) : Outcome * Cache.Cache :=
  match Cache.PopulateMissingMetadata io c with
  | (Ok _, c) => (Done, c)
  | (Err _, c) => (Failed, c)
  end.

(** [copyFromCache]: the file written and its bytes; [create] is whether the output can
    be created, [write] the number of bytes after which a write fails. *)
Definition outputName (pkg : Cache.Package) (outputPath : string) : string :=
  if negb (String.eqb outputPath "") then outputPath
  else if negb (String.eqb (Cache.PackageName pkg) "") && negb (String.eqb (Cache.PackageVersion pkg) "") && negb (String.eqb (Cache.Architecture pkg) "")
  then Cache.PackageName pkg +:+ "_" +:+ Cache.PackageVersion pkg +:+ "_" +:+ Cache.Architecture pkg +:+ ".deb"
  else filepath_Base (Cache.Filename pkg).

Definition copyFromCache (io : Cache.IO) (wd : string) (create : bool) (write : option nat) (pkg : Cache.Package) (outputPath : string) (c : Cache.Cache)
  : Outcome * option (string * string) * Cache.Cache :=
  let out := outputName pkg outputPath in
  let out := if HasPrefix out "/" then out else filepath_Join [wd; out] in
  match Cache.Get io (Cache.SHA256 pkg) c with
  | (Err _, c) => (Failed, None, c)
  | (Ok (reader, _), c) =>
      let close c := (Cache.Close reader c).2 in
      if negb create then (Failed, None, close c)
      else
        match write with
        | Some n => (Failed, Some (out, str_take n (Cache.tr_file reader)), close c)
        | None => (Done, Some (out, Cache.tr_file reader), close c)
        end
  end.

(** [rollback fetch]: what is not in the cache is looked up in a new index; the peers
    are not asked. *)
Definition rollbackFetch `{GoRange} (queryIO io : Cache.IO) (wd : string) (create : bool) (write : option nat)
    (packageName version arch outputPath : string) (c : Cache.Cache) : Outcome * option (string * string) * Cache.Cache :=
  match Cache.GetByNameVersionArch queryIO packageName version arch c with
  | Ok pkg => copyFromCache io wd create write pkg outputPath c
  | Err Cache.ErrNotFound =>
      let idx := PkgIndex.New in
      let expectedFilename := packageName +:+ "_" +:+ version +:+ "_" +:+ arch +:+ ".deb" in
      let pkgInfo :=
        match PkgIndex.GetByPath expectedFilename idx with
        | Some p => Some p
        | None => PkgIndex.GetByPathSuffix expectedFilename idx
        end in
      match pkgInfo with
      | None => (Failed, None, c)
      | Some p => ((if sliced (PkgIndex.SHA256 p) 16 then Failed else Panicked), None, c)
      end
  | Err _ => (Failed, None, c)
  end.

(** [rollback list]: the versions shown, of the architecture asked for.  The query
    orders them by their last access; sorting them again moves at most those accessed
    at the same time, whose order is open. *)
Definition rollbackList (queryIO : Cache.IO) (allArch : bool) (currentArch packageName : string) (c : Cache.Cache) : res Cache.CacheErr (list Cache.Package) :=
  match Cache.ListByPackageName queryIO packageName c with
  | Err e => Err e
  | Ok pkgs =>
      Ok (if allArch then pkgs
          else filter (λ p, (String.eqb (Cache.Architecture p) currentArch || String.eqb (Cache.Architecture p) "all") = true) pkgs)
  end.
End commands.
End CacheCmd.
