(* ===== verification/CacheCmdSys.v ===== *)
(** * Properties of operating a cache

    Opening and recovering keep what the cache promises; the commands verify, clear,
    pin and copy what they say; the clean-up spares live downloads as long as the
    database answers. *)

From S2P Require Import Prelude GoStd GoText HashUtil DebName Sql Cache CacheFacts CacheSys DlState PkgIndex AptLocalSys Seed SeedSys CacheCmd.
From Stdlib Require Import Ascii.
Open Scope Z_scope.
Open Scope go_scope.

Module CacheCmdSys.
Import CacheCmd.

Section operating.
Context `{SqlOrder}.
Context `{Sha256}.

(** ** Opening *)

(** A cache opened on sound files and rows satisfies its invariant; one recovered from
    a corrupt database has all its files and lists none. *)
Lemma New_inv oio io base maxSize minFree rows files c :
  let old := Cache.mkCache base maxSize minFree 0 rows files ∅ ∅ 0 in
  Cache.db io Cache.DbQuery = true → CacheFacts.content_ok old → CacheFacts.rows_ok old → CacheFacts.rows_ok (Cache.set_packages (leftover oio) old) →
  New oio io base maxSize minFree rows files = Ok c → CacheFacts.Inv c [].
Proof.
  intros old Hq Hc Hr Hl. unfold New. destruct (negb (mkdirs oio)); [done|].
  destruct (openDatabaseWithRecovery oio rows) as [rows'|] eqn:Ho; [|done]. destruct (negb (createTables oio)); [done|]. intros [= <-].
  assert (CacheFacts.rows_ok (Cache.set_packages rows' old)) as Hr'.
  { revert Ho. unfold openDatabaseWithRecovery, recoverDatabase. destruct (negb (sqlOpen oio)); [done|].
    destruct (isDatabaseCorrupted _) as [[]|]; [|by intros [= <-]..].
    destruct (negb (moveDb oio)); [done|]. destruct (negb (sqlCreate oio)); [done|]. intros [= <-]. destruct (wal oio); [|done].
    intros h r Hx. cbn in Hx. by rewrite lookup_empty in Hx. }
  unfold Cache.NewWithMinFreeSpace, Cache.calculateSize. rewrite Hq. constructor; [done|exact Hc|exact Hr'|]. split; [|intros tr Htr; by apply elem_of_nil in Htr].
  intros h. unfold Cache.readers. cbn. by rewrite lookup_empty.
Qed.

Lemma recovered oio io base maxSize minFree rows files result :
  integrity oio = Checked result → result ≠ "ok" → mkdirs oio = true → sqlOpen oio = true → moveDb oio = true → wal oio = true →
  sqlCreate oio = true → createTables oio = true →
  ∃ c, New oio io base maxSize minFree rows files = Ok c ∧ Cache.packages c = ∅ ∧ Cache.disk c = files.
Proof.
  intros Hi Hne H1 H2 H3 H4 H5 H6. unfold New, openDatabaseWithRecovery, recoverDatabase. rewrite Hi, H1, H2, H3, H4, H5, H6. cbn [isDatabaseCorrupted negb].
  destruct (String.eqb_spec result "ok"); [done|]. cbn [negb]. eexists. split; [done|]. unfold Cache.NewWithMinFreeSpace, Cache.calculateSize.
  by destruct (Cache.db io _).
Qed.

(** ** Verifying *)

(** The file of a package is there and has its hash. *)
Definition sound (c : Cache.Cache) (h : string) : Prop := ∃ x, Cache.disk c !! Cache.packagePath c h = Some x ∧ HashBytes x = h.

#[global] Instance sound_dec c h : Decision (sound c h).
Proof.
  destruct (Cache.disk c !! Cache.packagePath c h) as [x|] eqn:Hx.
  - destruct (decide (HashBytes x = h)); [left; by exists x|right; intros (y & Hy & ?); unfold sound in *; congruence].
  - right. intros (y & Hy & _). congruence.
Defined.

Definition unsound (c : Cache.Cache) (hs : list string) : list string := filter (λ h, ¬ sound c h) hs.

Definition all_ok (h : string) : bool := true.

Lemma valid_sliced h n : valid_hash h = true → (n <= 64)%nat → sliced h n = true.
Proof. intros Hv Hn. apply CacheFacts.valid_hash_inv in Hv as [Hl _]. unfold sliced. apply Nat.leb_le. lia. Qed.

Lemma verifyLoop_spec c hs r :
  Forall (λ h, valid_hash h = true) hs →
  ∃ r', verifyLoop all_ok all_ok (Cache.basePath c) (Cache.disk c) hs r = Ok r' ∧ corruptedList r' = corruptedList r ++ unsound c hs ∧
    verified r' + corrupted r' + missing r' = verified r + corrupted r + missing r + Z.of_nat (length hs).
Proof.
  intros Hv. revert r. induction Hv as [|h hs Hh Hv IH]; intros r; cbn [verifyLoop].
  { exists r. split; [done|]. split; [by rewrite app_nil_r|cbn; lia]. }
  unfold verifyOne. rewrite (valid_sliced h 2), (valid_sliced h 16) by (done || lia). cbn [negb all_ok].
  assert (filepath_Join [Cache.basePath c; "packages"; "sha256"; str_take 2 h; h] = Cache.packagePath c h) as ->.
  { unfold Cache.packagePath. pose proof (valid_sliced h 2 Hh ltac:(lia)) as Hs. unfold sliced in Hs. apply Nat.leb_le in Hs.
    by replace (String.length h <? 2)%nat with false by (symmetry; apply Nat.ltb_ge; lia). }
  unfold unsound. rewrite filter_cons. destruct (Cache.disk c !! Cache.packagePath c h) as [x|] eqn:Hx.
  - destruct (String.eqb_spec (EncodeToString (Sum256 x)) h) as [Heq|Hne].
    + destruct (IH (noteVerified r)) as (r' & -> & Hl & Hn). exists r'. rewrite decide_False by (intros Hns; apply Hns; by exists x).
      split; [done|]. split; [done|]. cbn [noteVerified verified corrupted missing length] in *. lia.
    + destruct (IH (noteCorrupt h r)) as (r' & -> & Hl & Hn). exists r'.
      rewrite decide_True by (intros (y & Hy & Hhy); apply Hne; unfold HashBytes in Hhy; congruence).
      split; [done|]. split; [rewrite Hl; cbn [noteCorrupt corruptedList]; by rewrite <- app_assoc|]. cbn [noteCorrupt verified corrupted missing length] in *. lia.
  - destruct (IH (noteMissing h r)) as (r' & -> & Hl & Hn). exists r'. rewrite decide_True by (intros (y & Hy & _); congruence).
    split; [done|]. split; [rewrite Hl; cbn [noteMissing corruptedList]; by rewrite <- app_assoc|]. cbn [noteMissing verified corrupted missing length] in *. lia.
Qed.

(** What [List] gives: every row. *)
Lemma List_spec listIO c :
  Cache.db listIO Cache.DbQuery = true →
  ∃ pkgs, Cache.List listIO c = (Ok pkgs, Cache.flushAccess listIO c) ∧ NoDup (Cache.SHA256 <$> pkgs) ∧
    ∀ p, p ∈ pkgs ↔ ∃ h r, Cache.packages (Cache.flushAccess listIO c) !! h = Some r ∧ p = Cache.scan h r.
Proof.
  intros Hq. unfold Cache.List. rewrite Hq. eexists. split; [done|]. unfold Cache.scan_all. rewrite <- list_fmap_compose.
  change (Cache.SHA256 ∘ _) with (λ kv : string * Cache.Row, kv.1). split; [apply select_NoDup|].
  intros p. rewrite list_elem_of_fmap. split.
  - intros ([k r] & -> & [Hk _]%elem_of_select). eauto.
  - intros (h & r & Hr & ->). exists (h, r). split; [done|]. by apply elem_of_select.
Qed.

(** A flush of accesses lists the same packages. *)
Lemma flush_listed listIO c h : is_Some (Cache.packages (Cache.flushAccess listIO c) !! h) ↔ is_Some (Cache.packages c !! h).
Proof. destruct (CacheFacts.flushAccess_lookup listIO c h) as (f & -> & _). apply fmap_is_Some. Qed.

Lemma listed_hashes listIO c (pkgs : list Cache.Package) :
  (∀ p, p ∈ pkgs ↔ ∃ h r, Cache.packages (Cache.flushAccess listIO c) !! h = Some r ∧ p = Cache.scan h r) →
  ∀ h, h ∈ Cache.SHA256 <$> pkgs ↔ is_Some (Cache.packages c !! h).
Proof.
  intros Hp h. rewrite <- (flush_listed listIO), list_elem_of_fmap. split.
  - intros (p & -> & (k & r & Hk & ->)%Hp). by exists r.
  - intros [r Hr]. exists (Cache.scan h r). split; [done|]. apply Hp. eauto.
Qed.

(** C32: on a cache whose rows have valid hashes, as every cache it writes has, and when
    the database answers and every file can be opened and read, [cache verify] succeeds
    exactly when the file of every listed package is there with bytes of that SHA-256,
    accounts for every package, and reports precisely the others. *)
Theorem cache_verify_exact listIO c :
  CacheFacts.rows_ok c → Cache.db listIO Cache.DbQuery = true →
  let '(o, report, c') := cacheVerify listIO all_ok all_ok c in
  c' = Cache.flushAccess listIO c ∧ (o = Done ∨ o = Failed) ∧
  (o = Done ↔ ∀ h, is_Some (Cache.packages c !! h) → sound c h) ∧
  (Cache.packages c ≠ ∅ → ∃ r, report = Some r ∧ (∀ h, h ∈ corruptedList r ↔ is_Some (Cache.packages c !! h) ∧ ¬ sound c h) ∧
     verified r + corrupted r + missing r = Z.of_nat (base.size (Cache.packages c))).
Proof.
  intros Hrows Hq. unfold cacheVerify. destruct (List_spec listIO c Hq) as (pkgs & Hl & Hnd & Hp). pose proof (listed_hashes listIO c pkgs Hp) as Hh.
  rewrite Hl. set (c1 := Cache.flushAccess listIO c) in *. destruct (CacheFacts.flushAccess_frame listIO c) as (Hb & _ & _ & Hd & _). fold c1 in Hb, Hd.
  assert (length pkgs = base.size (Cache.packages c)) as Hlen.
  { rewrite <- (length_fmap Cache.SHA256), <- (size_dom (Cache.packages c)), <- (size_list_to_set (C:=gset string) _ Hnd).
    f_equal. apply set_eq. intros h. rewrite elem_of_list_to_set, Hh, elem_of_dom. done. }
  assert (∀ h, sound c1 h ↔ sound c h) as Hsound by (intros h; unfold sound; by rewrite Hd, (CacheFacts.packagePath_base c1 c h Hb)).
  destruct pkgs as [|p pkgs].
  { split_and!; [done|auto| |].
    - split; [|done]. intros _ h Hs. apply Hh in Hs. by apply elem_of_nil in Hs.
    - intros Hne. exfalso. apply Hne, map_size_empty_inv. by rewrite <- Hlen. }
  set (l := p :: pkgs) in *. destruct (verifyLoop_spec c1 (Cache.SHA256 <$> l) (mkReport 0 0 0 [])) as (r & -> & Hcl & Hsum).
  { apply Forall_forall. intros h [row Hr]%Hh. by apply (Hrows h row). }
  cbn [corruptedList app verified corrupted missing] in Hcl, Hsum. rewrite length_fmap in Hsum.
  assert (∀ h, h ∈ corruptedList r ↔ is_Some (Cache.packages c !! h) ∧ ¬ sound c h) as Hrep.
  { intros h. rewrite Hcl. unfold unsound. rewrite list_elem_of_filter, Hh, Hsound. tauto. }
  assert (forallb (λ h, sliced h 16) (corruptedList r) = true) as Hall.
  { apply forallb_forall. intros h Hin. apply list_elem_of_In, Hrep in Hin as [[row Hr] _]. apply valid_sliced; [by apply (Hrows h row)|lia]. }
  destruct (corruptedList r) as [|x bad] eqn:Hbad; [|rewrite Hall]; (split; [done|]); (split; [auto|]); (split; [|intros _; exists r; rewrite Hbad; split; [done|split; [done|lia]]]).
  - split; [|done]. intros _ h Hs. destruct (decide (sound c h)) as [|Hns]; [done|]. exfalso. by eapply elem_of_nil, Hrep.
  - split; [done|]. intros Hs. destruct (Hrep x) as [[Hx Hns] _]; [by left|]. by destruct (Hns (Hs x Hx)).
Qed.
(** ** Clearing *)

Lemma clearAll_removes (io : string → Cache.IO) hs r w c :
  Forall (λ h, valid_hash h = true) hs → clearAll io hs c = (Done, (foldl (Seed.removeOne io ∅ false) (r, w, c) hs).2).
Proof.
  intros Hv. revert r w c. induction Hv as [|h hs Hh Hv IH]; intros r w c; [done|]. cbn [clearAll foldl Seed.removeOne].
  rewrite bool_decide_false by set_solver. destruct (Cache.Delete (io h) h c) as [[u|e] c']; [apply IH|].
  rewrite (valid_sliced h 16 Hh) by lia. apply IH.
Qed.

(** [cache clear] never panics, keeps the invariant, and leaves nothing listed when
    nothing fails and nobody is reading. *)
Lemma clear_spec listIO (io : string → Cache.IO) c l :
  CacheFacts.Inv c l → Cache.db listIO Cache.DbQuery = true →
  let '(o, c') := cacheClear listIO io c in
  o = Done ∧ CacheFacts.Inv c' l ∧ ((∀ h, SeedSys.deletable io (Cache.flushAccess listIO c) h) → Cache.packages c' = ∅).
Proof.
  intros Hi Hq. unfold cacheClear. destruct (List_spec listIO c Hq) as (pkgs & -> & _ & Hp). pose proof (listed_hashes listIO c pkgs Hp) as Hh.
  pose proof (CacheFacts.flushAccess_inv listIO c l Hi) as Hi1.
  assert (Forall (λ h, valid_hash h = true) (Cache.SHA256 <$> pkgs)) as Hv.
  { apply Forall_forall. intros h [r Hr]%Hh. by apply (CacheFacts.inv_rows _ _ _ Hi h r). }
  rewrite (clearAll_removes io _ 0 0 _ Hv). destruct (SeedSys.removeAll_spec True io ∅ _ 0 0 _ l Hi1 Hv) as [Hi' _ _ Hf Hg].
  split; [done|]. split; [done|]. intros Hdel. apply map_empty. intros h. apply eq_None_not_Some. intros Hs.
  assert (h ∈ (∅ : gset string)) as Habs; [|set_solver]. apply Hg; [auto| |done]. apply Hh, (flush_listed listIO), Hf, Hs.
Qed.

(** ** Pinning *)

Definition hit (hashPrefix : string) (c : Cache.Cache) (h : string) : Prop :=
  is_Some (Cache.packages c !! h) ∧ str_take (String.length hashPrefix) h = hashPrefix.

Lemma matches_hit hashPrefix h r : matches hashPrefix (Cache.scan h r) = true ↔ str_take (String.length hashPrefix) h = hashPrefix.
Proof.
  unfold matches. cbn [Cache.scan Cache.SHA256]. rewrite andb_true_iff, String.eqb_eq, Nat.leb_le. split; [tauto|]. intros Heq. split; [|done].
  rewrite <- Heq at 1. rewrite str_length_take_le. lia.
Qed.

Lemma changePin_spec pin io h r c :
  (∀ op, Cache.db io op = true) → Cache.packages c !! h = Some r → sliced h 16 = true →
  let '(o, c') := changePin pin io (Cache.scan h r) c in
  o = Done ∧ Cache.IsPinned io c' h = pin ∧ ∀ x, x ≠ h → Cache.packages c' !! x = Cache.packages c !! x.
Proof.
  intros Hio Hr Hs. unfold changePin, Cache.IsPinned. cbn [Cache.scan Cache.SHA256 Cache.Pinned].
  destruct (Bool.eqb_spec (negb (Cache.pinned r =? 0)) pin) as [Heq|Hne]; [by rewrite Hs, Hio, Hr|].
  assert (∀ z, Cache.update_pin io z h c = (Ok tt, Cache.set_packages (alter (Cache.set_pinned z) h (Cache.packages c)) c)) as Hu.
  { intros z. unfold Cache.update_pin. rewrite !Hio, Hr. cbn [negb]. unfold sliced in Hs. apply Nat.leb_le in Hs.
    by replace (String.length h <? 16)%nat with false by (symmetry; apply Nat.ltb_ge; lia). }
  unfold Cache.Pin, Cache.Unpin. rewrite !Hu, Hio. destruct pin; cbn [pinOutcome Cache.set_packages Cache.packages]; rewrite lookup_alter_eq, Hr;
    (split; [done|split; [done|]]); intros x Hx; by rewrite lookup_alter_ne.
Qed.

(** With working statements the one package that has the prefix is pinned, or
    unpinned, and no other changes; when none has it, or several have, nothing
    changes and the command fails. *)
Lemma pin_exact pin listIO io hashPrefix c l :
  CacheFacts.Inv c l → Cache.db listIO Cache.DbQuery = true → (∀ op, Cache.db io op = true) →
  let '(o, c') := pinByPrefix pin listIO io hashPrefix c in
  (∀ h, hit hashPrefix c h → (∀ x, hit hashPrefix c x → x = h) →
     o = Done ∧ Cache.IsPinned io c' h = pin ∧ ∀ x, x ≠ h → Cache.packages c' !! x = Cache.packages (Cache.flushAccess listIO c) !! x) ∧
  ((¬ ∃ h, hit hashPrefix c h ∧ ∀ x, hit hashPrefix c x → x = h) → o = Failed ∧ c' = Cache.flushAccess listIO c).
Proof.
  intros Hi Hq Hio. unfold pinByPrefix. destruct (List_spec listIO c Hq) as (pkgs & -> & Hnd & Hp). pose proof (listed_hashes listIO c pkgs Hp) as Hh.
  set (c1 := Cache.flushAccess listIO c) in *. set (F := filter _ pkgs).
  assert (∀ p, p ∈ F ↔ ∃ h r, Cache.packages c1 !! h = Some r ∧ p = Cache.scan h r ∧ hit hashPrefix c h) as HF.
  { intros p. unfold F. rewrite list_elem_of_filter, Hp. split.
    - intros (Hm & h & r & Hr & ->). exists h, r. split; [done|]. split; [done|]. apply matches_hit in Hm. split; [|done]. apply (flush_listed listIO). by exists r.
    - intros (h & r & Hr & -> & _ & Hm). split; [by eapply matches_hit|eauto]. }
  assert (∀ h, hit hashPrefix c h → ∃ p, p ∈ F ∧ Cache.SHA256 p = h) as Hcov.
  { intros h Hhit. destruct (Hhit) as [[r Hr]%(flush_listed listIO) _]. exists (Cache.scan h r). split; [|done]. apply HF. eauto 6. }
  assert (∀ p, p ∈ F → sliced (Cache.SHA256 p) 16 = true) as Hsl.
  { intros p (h & r & Hr & -> & [row Hrow] & _)%HF. apply valid_sliced; [by apply (CacheFacts.inv_rows _ _ _ Hi h row)|lia]. }
  assert (NoDup F) as HFnd by (apply NoDup_filter; by eapply NoDup_fmap_1).
  clearbody F. destruct F as [|p [|q F]].
  - split; [|done]. intros h (p & Hin & _)%Hcov. by apply elem_of_nil in Hin.
  - destruct (HF p) as [(h & r & Hr & -> & Hhit) _]; [by left|]. pose proof (Hsl _ ltac:(by left)) as Hs16.
    pose proof (changePin_spec pin io h r c1 Hio Hr Hs16) as Hch. destruct (changePin pin io (Cache.scan h r) c1) as [o c'].
    assert (∀ x, hit hashPrefix c x → x = h) as Huniq by (intros x (p & ->%list_elem_of_singleton & <-)%Hcov; done).
    split; [|intros Hno; exfalso; apply Hno; eauto]. intros x Hx _. by rewrite (Huniq x Hx).
  - rewrite (proj2 (forallb_forall _ _)) by (intros x Hx; apply Hsl; by apply list_elem_of_In). split; [|done].
    intros h _ Huniq. exfalso. destruct (HF p) as [(hp & rp & Hrp & -> & Hp1) _]; [by left|]. destruct (HF q) as [(hq & rq & Hrq & -> & Hq1) _]; [by right; left|].
    rewrite (Huniq hp Hp1) in *. rewrite (Huniq hq Hq1) in *. simplify_eq. apply NoDup_cons in HFnd as [Hnot _]. apply Hnot. by left.
Qed.
(** ** Fetching *)

(** Nothing is ever found outside the cache: the index that is searched is new. *)
Lemma fetch_only_cached `{GoRange} queryIO io wd create write name version arch out c :
  Cache.GetByNameVersionArch queryIO name version arch c = Err Cache.ErrNotFound →
  rollbackFetch queryIO io wd create write name version arch out c = (Failed, None, c).
Proof.
  intros Hn. unfold rollbackFetch. rewrite Hn. unfold PkgIndex.GetByPath, PkgIndex.GetByPathSuffix, PkgIndex.New. cbn [PkgIndex.byRepo PkgIndex.byBasename].
  rewrite map_to_list_empty. assert (∀ A, go_range (@nil A) = []) as Hr by (intros A; apply Permutation_nil, symmetry, go_range_perm).
  rewrite !Hr. cbn [PkgIndex.first_match]. by rewrite lookup_empty.
Qed.

Lemma reader_closed tr c l : CacheFacts.Inv c (tr :: l) → CacheFacts.Inv (Cache.Close tr c).2 l.
Proof.
  intros Hi. pose proof (CacheFacts.Close_inv 0 tr c (tr :: l) eq_refl Hi) as Hc. unfold Cache.Close in *.
  destruct (Cache.tr_closed tr) eqn:Ht; cbn [snd] in *; (eapply CacheFacts.Inv_drop_closed; [|exact Hc]); done.
Qed.

(** [rollback fetch] that succeeds has written the bytes of a listed package with the
    name, the version and the architecture asked for, and leaves no reader behind. *)
Lemma fetch_verified `{GoRange} queryIO io wd create write name version arch out c l o file c' :
  CacheFacts.Inv c l → rollbackFetch queryIO io wd create write name version arch out c = (o, file, c') →
  CacheFacts.Inv c' l ∧
  (o = Done → ∃ f data h r, file = Some (f, data) ∧ HashBytes data = h ∧ Cache.packages c !! h = Some r ∧
     Cache.package_name r = name ∧ Cache.package_version r = version ∧ Cache.architecture r = arch).
Proof.
  intros Hi. destruct (Cache.GetByNameVersionArch queryIO name version arch c) as [pkg|e] eqn:Hq.
  2: { destruct (decide (e = Cache.ErrNotFound)) as [->|Hne].
       - rewrite fetch_only_cached by done. by intros [= <- <- <-].
       - unfold rollbackFetch. rewrite Hq. destruct e; try done; by intros [= <- <- <-]. }
  unfold rollbackFetch. rewrite Hq. unfold copyFromCache.
  assert (∃ h r, pkg = Cache.scan h r ∧ Cache.packages c !! h = Some r ∧ Cache.package_name r = name ∧ Cache.package_version r = version ∧ Cache.architecture r = arch)
    as (h & r & -> & Hr & Hmeta).
  { revert Hq. unfold Cache.GetByNameVersionArch. destruct (Cache.db queryIO _); [|done]. destruct (select_order _ _ _) as [|[h r] rest] eqn:Hsel; [done|].
    intros [= <-]. exists h, r. split; [done|]. assert ((h, r) ∈ (h, r) :: rest) as Hin by by left. rewrite <- Hsel in Hin.
    apply elem_of_select in Hin as [Hk Hm]. rewrite !andb_true_iff, !String.eqb_eq in Hm. tauto. }
  cbn [Cache.scan Cache.SHA256]. pose proof (CacheFacts.Get_inv_any io h c l Hi) as Hg.
  assert (∀ tr p c1, Cache.Get io h c = (Ok (tr, p), c1) → HashBytes (Cache.tr_file tr) = h) as Hrd.
  { intros tr p c1. unfold Cache.Get. destruct (Cache.disk c !! _) as [x|] eqn:Hd; [|done]. destruct (Cache.fs io _); [|done].
    destruct (Cache.getPackageInfo _ _ _); [|done]. intros [= <- <- <-]. cbn [Cache.tr_file].
    apply (CacheFacts.inv_content _ _ _ Hi); [by apply (CacheFacts.inv_rows _ _ _ Hi h r)|done]. }
  destruct (Cache.Get io h c) as [[[tr p]|e] c1]; [|by intros [= <- <- <-]].
  assert (CacheFacts.Inv (Cache.Close tr c1).2 l) as Hclosed by by apply reader_closed.
  specialize (Hrd tr p c1 eq_refl). destruct (negb create); [by intros [= <- <- <-]|]. destruct write; intros [= <- <- <-]; [done|].
  split; [done|]. intros _. eexists _, (Cache.tr_file tr), h, r. done.
Qed.

(** ** Cleaning up *)

(** The clean-up removes a partial download only if it is old; when the database
    answers, only if its download has no row any more. *)
Lemma cleanup_spares_live fk ev0 ev maxAge cutoff entries sm removed sm' :
  CleanupDownloadState fk ev0 ev maxAge cutoff entries sm = (Some removed, sm') →
  ∀ h, h ∈ removed →
  (∃ es e t, entries = Some es ∧ e ∈ es ∧ e_name e = h ∧ e_mtime e = Some t ∧ t <= cutoff) ∧
  ∀ s st, sm' = Some s → DlState.GetDownload (ev h) h s = Ok st → st = None.
Proof.
  unfold CleanupDownloadState, SweepStalePartials. destruct entries as [es|]; [|done]. intros [= <- <-] h Hin.
  apply list_elem_of_fmap in Hin as (e & -> & [Hsw He]%list_elem_of_filter). unfold sweepable in Hsw. rewrite !andb_true_iff, negb_true_iff in Hsw.
  destruct Hsw as [[[_ Ht] Hact] _]. split.
  - destruct (e_mtime e) as [t|] eqn:Hm; [|done]. exists es, e, t. apply negb_true_iff, Z.ltb_ge in Ht. done.
  - intros s st Hs Hg. unfold hasState in Hact. rewrite Hs, Hg in Hact. by destruct st.
Qed.
End operating.

(** ** Evaluations *)
Section examples.
#[local] Existing Instance ascii_only.
#[local] Existing Instance toy_sha.
#[local] Existing Instance isort_order.

(** A cache with two packages, of which the file of one has changed. *)
Definition two : Cache.Cache := SeedSys.after_full.
Definition damaged : Cache.Cache := Cache.set_disk (<[Cache.packagePath two (HashBytes "beta") := "bets"]> (Cache.disk two)) two.
Definition good : Cache.IO := AptLocalSys.good_io.

Example verify_finds_damage :
  (λ r : Outcome * option Report * Cache.Cache, (r.1.1, corruptedList <$> r.1.2)) <$> [cacheVerify good all_ok all_ok two; cacheVerify good all_ok all_ok damaged]
  = [(Done, Some []); (Failed, Some [HashBytes "beta"])].
Proof. vm_compute. reflexivity. Qed.

Example clear_empties : (Cache.packages (cacheClear good (λ _, good) two).2 = ∅) ∧ (cacheClear good (λ _, good) two).1 = Done.
Proof. vm_compute. done. Qed.

(** A statement that fails is taken for a download without state: the partial files of
    a download that is still known are removed. *)
Definition live : DlState.SM :=
  DlState.mkSM {[ "h" := DlState.mkDRow "http://m/p.deb" 100 (Some 40) 10 10 "in_progress" 0 900 None 0 ]} ∅.
Definition answers : DlState.Env := DlState.mkEnv (1000 * 10^9) (λ _, true).
Definition locked (h : string) : DlState.Env := DlState.mkEnv (1000 * 10^9) (λ _, false).

Example db_error_sweeps_live :
  let run ev := (CleanupDownloadState true answers ev (200 * 10^9) 800 (Some [mkEntry "h" true (Some 700) true]) (Some live)).1 in
  (run (λ _, answers), run locked) = (Some [], Some ["h"]).
Proof. vm_compute. reflexivity. Qed.

Lemma cache_verify_witness : (cacheVerify good all_ok all_ok two).1.1 = Done ↔ ∀ h, is_Some (Cache.packages two !! h) → sound two h.
Proof.
  assert (CacheFacts.rows_ok two) as Hr.
  { intros h r Hr. apply map_to_list_elem_of in Hr || apply elem_of_map_to_list in Hr. vm_compute in Hr.
    repeat (apply elem_of_cons in Hr as [[= -> ->]|Hr]; [split; [vm_compute; reflexivity|vm_compute; discriminate]|]). by apply elem_of_nil in Hr. }
  pose proof (cache_verify_exact good two Hr eq_refl) as Hv. destruct (cacheVerify good all_ok all_ok two) as [[o r] c']. apply Hv.
Defined.
End examples.
End CacheCmdSys.
