(* ===== verification/AdminApi.v ===== *)
(** * internal/proxy/api.go: the admin API of the cache

    The routes of the admin server, their multiplexer, and every handler of
    [/api/cache], behind the client gate of the admin server (Daemon.v).  A
    response is its status and its contents; times, sizes and percentages are
    formatted for display when it is written, which is left out.  Other paths
    (metrics, health, statistics, dashboard, profiling) only read. *)

From S2P Require Import Prelude GoStd GoText GoNet HashUtil Sql Cache Release Gateway Daemon.
From Stdlib Require Import Ascii.
Open Scope Z_scope.
Open Scope go_scope.

Module AdminApi.

(** ** Requests and responses *)

(** A request with the query parameters the handlers read ([""] when absent). *)
Record ApiRequest := mkApi { a_http : Gateway.HttpRequest; q_limit : string; q_pinned : string; q_name : string }.

Record apiPackage := mkApiPackage {
  SHA256 : string; Size : Z; Filename : string; PackageName : string; Version : string; Architecture : string;
  AddedAt : Z; LastAccessed : Z; AccessCount : Z; Pinned : bool; Announced : bool }.

Record apiCacheStats := mkApiStats {
  TotalPackages : Z; TotalSize : Z; MaxSize : Z; BandwidthSaved : Z; PinnedCount : Z; OldestAccess : option Z; NewestAccess : option Z }.

Inductive Body :=
| Empty
| apiError (msg : string)
| apiOK (msg : string)
| StatsBody (s : apiCacheStats)
| apiPackageList (packages : list apiPackage) (total : Z)
| Elsewhere.     (* another handler of the admin server *)

Record Response := mkResponse { status : Z; body : Body }.

(** ** The multiplexer *)

(** [firstSegment] unescapes a segment, and keeps one that cannot be. *)
Definition segment (s : string) : string := default s (PathUnescape s).

Inductive Route :=
| RouteCache | RouteList | RoutePopular | RouteRecent | RoutePin (hash : string) | RouteUnpin (hash : string) | RouteDelete (hash : string)
| RouteElse.

(** A pattern with GET also takes HEAD; a wildcard takes one segment that is not empty. *)
Definition route (method : string) (segments : list string) : Route :=
  let get := String.eqb method "GET" || String.eqb method "HEAD" in
  match segments with
  | ["api"; "cache"] => if get then RouteCache else RouteElse
  | ["api"; "cache"; "packages"] => if get then RouteList else RouteElse
  | ["api"; "cache"; "packages"; x] =>
      if get then if String.eqb x "popular" then RoutePopular else if String.eqb x "recent" then RouteRecent else RouteElse
      else if String.eqb method "DELETE" && negb (String.eqb x "") then RouteDelete x else RouteElse
  | ["api"; "cache"; "packages"; x; op] =>
      if String.eqb method "POST" && negb (String.eqb x "") then
        if String.eqb op "pin" then RoutePin x else if String.eqb op "unpin" then RouteUnpin x else RouteElse
      else RouteElse
  | _ => RouteElse
  end.

(** ** Handlers *)

Definition writeJSON (status : Z) (b : Body) : Response := mkResponse status b.
Definition writeError (status : Z) (msg : string) : Response := writeJSON status (apiError msg).

Definition isLoopbackClient (r : Gateway.HttpRequest) : bool :=
  let host := match SplitHostPort (Gateway.r_RemoteAddr r) with Some (host, _) => host | None => Gateway.r_RemoteAddr r end in
  match ParseIP host with Some ip => IsLoopback ip | None => false end.

Definition requireLoopback (r : Gateway.HttpRequest) (next : Cache.Cache → Response * Cache.Cache) (c : Cache.Cache) : Response * Cache.Cache :=
  if negb (isLoopbackClient r) then (writeError 403 "this endpoint is restricted to localhost", c) else next c.

(** A rune that is no ASCII character is neither a digit nor a letter. *)
Definition isValidSHA256 (hash : string) : bool := (String.length hash =? 64)%nat && str_forallb is_lower_hex hash.

Definition parseLimit (limit : string) (defaultLimit maxLimit : Z) : Z :=
  if String.eqb limit "" then defaultLimit
  else
    match Atoi limit with
    | None => defaultLimit
    | Some n => if n <=? 0 then defaultLimit else if maxLimit <? n then maxLimit else n
    end.

Definition packageToAPI (pkg : Cache.Package) : apiPackage :=
  mkApiPackage (Cache.SHA256 pkg) (Cache.Size pkg) (Cache.Filename pkg) (Cache.PackageName pkg) (Cache.PackageVersion pkg) (Cache.Architecture pkg)
    (Cache.AddedAt pkg) (Cache.LastAccessed pkg) (Cache.AccessCount pkg) (Cache.Pinned pkg) (0 <? Cache.Announced pkg).

Section handlers.
Context `{GoUnicode, SqlOrder}.

Definition handleAPICache (io : Cache.IO) (c : Cache.Cache) : Response * Cache.Cache :=
  match Cache.Stats io c with
  | (Err _, c) => (writeError 500 "failed to retrieve cache stats", c)
  | (Ok s, c) =>
      let at_ t := if 0 <? Cache.TotalPackages s then Some t else None in
      (writeJSON 200 (StatsBody (mkApiStats (Cache.TotalPackages s) (Cache.TotalSize s) (Cache.MaxSize s) (Cache.BandwidthSaved s)
         (Cache.PinnedCount io c) (at_ (Cache.OldestAccess s)) (at_ (Cache.NewestAccess s)))), c)
  end.

Definition handleAPIListPackages (io : Cache.IO) (r : ApiRequest) (c : Cache.Cache) : Response * Cache.Cache :=
  let limit := parseLimit (q_limit r) 20 100 in
  let '(res, c) :=
    if String.eqb (q_pinned r) "true" then (Cache.ListPinned io c, c)
    else
      let name := TrimSpace (q_name r) in
      if negb (String.eqb name "") then (Cache.ListByPackageName io name c, c) else Cache.List io c in
  match res with
  | Err _ => (writeError 500 "failed to list packages", c)
  | Ok packages =>
      let total := Z.of_nat (length packages) in
      let packages := if limit <? total then take (Z.to_nat limit) packages else packages in
      (writeJSON 200 (apiPackageList (packageToAPI <$> packages) total), c)
  end.

Definition writeList (msg : string) (res : res Cache.CacheErr (list Cache.Package)) : Response :=
  match res with
  | Err _ => writeError 500 msg
  | Ok packages => writeJSON 200 (apiPackageList (packageToAPI <$> packages) (Z.of_nat (length packages)))
  end.

Definition handleAPIPopularPackages (io : Cache.IO) (r : ApiRequest) (c : Cache.Cache) : Response :=
  writeList "failed to get popular packages" (Cache.PopularPackages io (parseLimit (q_limit r) 20 100) c).
Definition handleAPIRecentPackages (io : Cache.IO) (r : ApiRequest) (c : Cache.Cache) : Response :=
  writeList "failed to get recent packages" (Cache.RecentPackages io (parseLimit (q_limit r) 20 100) c).

Definition handleAPIPinPackage (io : Cache.IO) (hash : string) (c : Cache.Cache) : Response * Cache.Cache :=
  if negb (isValidSHA256 hash) then (writeError 400 "invalid SHA256 hash format", c)
  else
    match Cache.Pin io hash c with
    | (Ok _, c) => (writeJSON 200 (apiOK "package pinned"), c)
    | (Err Cache.ErrNotFound, c) => (writeError 404 "package not found", c)
    | (Err _, c) => (writeError 500 "failed to pin package", c)
    end.

Definition handleAPIUnpinPackage (io : Cache.IO) (hash : string) (c : Cache.Cache) : Response * Cache.Cache :=
  if negb (isValidSHA256 hash) then (writeError 400 "invalid SHA256 hash format", c)
  else
    match Cache.Unpin io hash c with
    | (Ok _, c) => (writeJSON 200 (apiOK "package unpinned"), c)
    | (Err Cache.ErrNotFound, c) => (writeError 404 "package not found", c)
    | (Err _, c) => (writeError 500 "failed to unpin package", c)
    end.

Definition handleAPIDeletePackage (io : Cache.IO) (hash : string) (c : Cache.Cache) : Response * Cache.Cache :=
  if negb (isValidSHA256 hash) then (writeError 400 "invalid SHA256 hash format", c)
  else if negb (Cache.Has c hash) then (writeError 404 "package not found", c)
  else
    match Cache.Delete io hash c with
    | (Ok _, c) => (writeJSON 200 (apiOK "package deleted"), c)
    | (Err Cache.ErrFileInUse, c) => (writeError 409 "package is currently being read", c)
    | (Err _, c) => (writeError 500 "failed to delete package", c)
    end.

(** [registerAPIRoutes]. *)
Definition dispatch (io : Cache.IO) (r : ApiRequest) (c : Cache.Cache) : Response * Cache.Cache :=
  let http := a_http r in
  match route (Gateway.r_Method http) (segment <$> tail (Split slash (Gateway.r_EscapedPath http))) with
  | RouteCache => handleAPICache io c
  | RouteList => handleAPIListPackages io r c
  | RoutePopular => (handleAPIPopularPackages io r c, c)
  | RouteRecent => (handleAPIRecentPackages io r c, c)
  | RoutePin h => requireLoopback http (handleAPIPinPackage io h) c
  | RouteUnpin h => requireLoopback http (handleAPIUnpinPackage io h) c
  | RouteDelete h => requireLoopback http (handleAPIDeletePackage io h) c
  | RouteElse => (mkResponse 0 Elsewhere, c)
  end.

(** The multiplexer redirects a path that is not clean. *)
Definition adminMux (io : Cache.IO) (r : ApiRequest) (c : Cache.Cache) : Response * Cache.Cache :=
  let path := Gateway.r_EscapedPath (a_http r) in
  if String.eqb path "*" then (mkResponse 400 Empty, c)
  else if negb (String.eqb (Gateway.r_Method (a_http r)) "CONNECT") && negb (String.eqb (Gateway.cleanPath path) path) then (mkResponse 301 Empty, c)
  else dispatch io r c.

(** The admin server as [startMetricsServer] builds it. *)
Definition ServeAdmin `{Gpg.OpenPGP} (sv : Daemon.ProxyServer) (io : Cache.IO) (r : ApiRequest) (c : Cache.Cache) : Response * Cache.Cache :=
  if Daemon.adminAllowed sv (a_http r) then adminMux io r c else (mkResponse 403 Empty, c).
End handlers.
End AdminApi.
