(* ===== verification/AdminApiSys.v ===== *)
(** * Properties of the admin API

    Whatever a client sends: only clients of the machine itself change which packages
    are cached or pinned, a package that is being read stays, the invariant of the
    cache is kept, and lists are bounded. *)

From S2P Require Import Prelude GoStd GoText GoNet HashUtil Sql Cache CacheFacts CacheSys Release ProxySys Gateway GatewaySys Daemon DaemonSys AptLocalSys Seed SeedSys AdminApi.
From Stdlib Require Import Ascii.
Open Scope Z_scope.
Open Scope go_scope.

Module AdminApiSys.
Import AdminApi.

Section api.
Context `{GoUnicode, SqlOrder, Gpg.OpenPGP, Sha256}.

(** The same packages, files and pins: only records of accesses may differ. *)
Definition untouched (c c' : Cache.Cache) : Prop :=
  Cache.basePath c' = Cache.basePath c ∧ Cache.disk c' = Cache.disk c ∧ ∀ h, Cache.pinned <$> Cache.packages c' !! h = Cache.pinned <$> Cache.packages c !! h.

Lemma untouched_refl c : untouched c c.
Proof. done. Qed.

Lemma untouched_flush io c : untouched c (Cache.flushAccess io c).
Proof.
  destruct (CacheFacts.flushAccess_frame io c) as (Hb & _ & _ & Hd & _). split; [done|]. split; [done|]. intros h.
  destruct (CacheFacts.flushAccess_lookup io c h) as (f & -> & Hf). destruct (Cache.packages c !! h) as [r|]; [|done].
  cbn. by destruct (Hf r) as (_ & -> & _).
Qed.
#[local] Hint Resolve untouched_refl untouched_flush CacheFacts.flushAccess_inv : core.

(** What a handler may do to the cache: nothing but flush accesses, or one change of a
    package that nobody reads, or of a pin. *)
Definition confined (local : bool) (l : list Cache.trackedReader) (c c' : Cache.Cache) : Prop :=
  CacheFacts.Inv c' l ∧ (local = false → untouched c c') ∧
  ∀ h, valid_hash h = true → 0 < Cache.readers c h → Cache.Has c' h = Cache.Has c h ∧ (is_Some (Cache.packages c' !! h) ↔ is_Some (Cache.packages c !! h)).

Lemma confined_untouched local l c c' : CacheFacts.Inv c' l → untouched c c' → confined local l c c'.
Proof.
  intros Hi (Hb & Hd & Hp). split; [done|]. split; [done|]. intros h _ _. split.
  - unfold Cache.Has. by rewrite Hd, (CacheFacts.packagePath_base _ c).
  - rewrite <- (fmap_is_Some Cache.pinned (Cache.packages c' !! h)), Hp. apply fmap_is_Some.
Qed.

Lemma pin_confined io z h c l : CacheFacts.Inv c l → confined true l c (Cache.update_pin io z h c).2.
Proof.
  intros Hi. unfold Cache.update_pin. destruct (negb _); [by apply confined_untouched|].
  assert (confined true l c (Cache.set_packages (alter (Cache.set_pinned z) h (Cache.packages c)) c)) as Hc.
  { split; [by apply CacheFacts.rows_update_inv|]. split; [done|]. intros x _ _. split; [done|]. cbn [Cache.set_packages Cache.packages].
    destruct (decide (x = h)) as [->|]; [rewrite lookup_alter_eq; apply fmap_is_Some|by rewrite lookup_alter_ne]. }
  destruct (negb _); [done|]. destruct (Cache.packages c !! h); [|done]. by destruct (_ <? 16)%nat.
Qed.

Lemma delete_confined io h c l : valid_hash h = true → CacheFacts.Inv c l → confined true l c (Cache.Delete io h c).2.
Proof.
  intros Hv Hi. split; [by apply CacheFacts.Delete_inv|]. split; [done|]. intros x Hx Hrd. destruct (decide (x = h)) as [->|Hne].
  - unfold Cache.Delete, Cache.deleteUnlocked. by rewrite (proj2 (Z.ltb_lt _ _) Hrd).
  - destruct (SeedSys.Delete_frame True (λ _, io) h x c l Hi Hv Hx Hne) as [Hp Hh]. by rewrite Hh, Hp.
Qed.

Lemma loopback_confined r next c l :
  CacheFacts.Inv c l → confined true l c (next c).2 → confined (isLoopbackClient r) l c (requireLoopback r next c).2.
Proof.
  intros Hi Hn. unfold requireLoopback. destruct (isLoopbackClient r); cbn [negb]; [done|]. by apply confined_untouched.
Qed.

Lemma dispatch_confined io r c l : CacheFacts.Inv c l → confined (isLoopbackClient (a_http r)) l c (dispatch io r c).2.
Proof.
  intros Hi. unfold dispatch. destruct (route _ _) as [| | | |h|h|h|]; try (by apply confined_untouched).
  - unfold handleAPICache, Cache.Stats. destruct (Cache.db io _); cbn [snd]; apply confined_untouched; auto.
  - unfold handleAPIListPackages, Cache.List. apply confined_untouched; repeat case_match; simplify_eq; cbn [snd]; auto.
  - apply loopback_confined; [done|]. unfold handleAPIPinPackage. destruct (negb _); [by apply confined_untouched|].
    pose proof (pin_confined io 1 h c l Hi) as Hp. unfold Cache.Pin. destruct (Cache.update_pin io 1 h c) as [[u|e] c']; [done|]. by destruct e.
  - apply loopback_confined; [done|]. unfold handleAPIUnpinPackage. destruct (negb _); [by apply confined_untouched|].
    pose proof (pin_confined io 0 h c l Hi) as Hp. unfold Cache.Unpin. destruct (Cache.update_pin io 0 h c) as [[u|e] c']; [done|]. by destruct e.
  - apply loopback_confined; [done|]. unfold handleAPIDeletePackage. destruct (isValidSHA256 h) eqn:Hv; cbn [negb]; [|by apply confined_untouched].
    destruct (negb _); [by apply confined_untouched|]. pose proof (delete_confined io h c l Hv Hi) as Hp.
    destruct (Cache.Delete io h c) as [[u|e] c']; [done|]. by destruct e.
Qed.

(** ** Bounded lists *)

Lemma parseLimit_range s : 1 <= parseLimit s 20 100 <= 100.
Proof. unfold parseLimit. repeat case_match; lia. Qed.

Definition short (b : Body) : Prop := ∀ ps total, b = apiPackageList ps total → (length ps <= 100)%nat ∧ Z.of_nat (length ps) <= total.

Lemma writeList_short msg le limit p io c :
  1 <= limit <= 100 →
  short (body (writeList msg (if Cache.db io Cache.DbQuery
    then Ok (Cache.scan_all (take (Z.to_nat (if limit <=? 0 then 10 else limit)) (select_order p le (Cache.packages c)))) else Err Cache.EDb))).
Proof.
  intros Hl. destruct (Z.leb_spec limit 0); [lia|]. unfold writeList. destruct (Cache.db io _); [|by intros ps total].
  intros ps total [= <- <-]. unfold Cache.scan_all. rewrite !length_fmap, length_take. lia.
Qed.

Lemma dispatch_short io r c : short (body (dispatch io r c).1).
Proof.
  pose proof (parseLimit_range (q_limit r)) as Hl. unfold dispatch. destruct (route _ _) as [| | | |h|h|h|].
  - unfold handleAPICache. by destruct (Cache.Stats io c) as [[s|e] c'].
  - unfold handleAPIListPackages. destruct (if _ : bool then _ else _) as [[pkgs|e] c']; [|by intros ps total].
    intros ps total [= <- <-]. rewrite length_fmap. case_match eqn:Hlt; [rewrite length_take|]; blia.
  - by apply writeList_short.
  - by apply writeList_short.
  - unfold requireLoopback, handleAPIPinPackage. repeat case_match; by intros ps total.
  - unfold requireLoopback, handleAPIUnpinPackage. repeat case_match; by intros ps total.
  - unfold requireLoopback, handleAPIDeletePackage. repeat case_match; by intros ps total.
  - by intros ps total.
Qed.

(** C31: whatever a client sends to the admin server, the invariant of the cache holds
    afterwards; a client that is not on the machine itself leaves every package,
    file and pin as it is; a package that is being read is neither removed nor
    dropped from the table; a client outside the allowlist of a server that has one
    is refused without touching the cache; and no list has more than a hundred
    packages. *)
Theorem admin_api sv io r c l :
  CacheFacts.Inv c l →
  let '(resp, c') := ServeAdmin sv io r c in
  CacheFacts.Inv c' l ∧
  (isLoopbackClient (a_http r) = false → untouched c c') ∧
  (∀ h, valid_hash h = true → 0 < Cache.readers c h → Cache.Has c' h = Cache.Has c h ∧ (is_Some (Cache.packages c' !! h) ↔ is_Some (Cache.packages c !! h))) ∧
  (Daemon.adminAllowed sv (a_http r) = false → status resp = 403 ∧ c' = c) ∧
  short (body resp).
Proof.
  intros Hi. unfold ServeAdmin. destruct (Daemon.adminAllowed sv (a_http r)); [|split_and!; try done].
  unfold adminMux. destruct (String.eqb _ "*"); [split_and!; try done|]. destruct (_ && _); [split_and!; try done|].
  pose proof (dispatch_confined io r c l Hi) as (Hi' & Hu & Hr). pose proof (dispatch_short io r c) as Hs.
  destruct (dispatch io r c) as [resp c']. by split_and!.
Qed.
End api.

(** ** Evaluations *)
Section examples.
#[local] Existing Instance ascii_only.
#[local] Existing Instance toy_sha.
#[local] Existing Instance isort_order.
#[local] Existing Instance ProxySys.toy_pgp.

Definition admin_req (method addr path : string) : ApiRequest :=
  mkApi (Gateway.mkHttp method addr "" "" path path path "" ProxySys.no_client) "" "" "".
Definition pkg_path (op : string) : string := "/api/cache/packages/" +:+ HashBytes "alpha" +:+ op.

(** An admin server on all interfaces, without an allowlist and with that of a LAN. *)
Definition open_server : Daemon.ProxyServer :=
  Daemon.mkProxyServer (Gateway.mkGConfig (ProxySys.ex_cfg "enforce") [] [] true true) "" false true "0.0.0.0" 9978 8.
Definition lan_server : Daemon.ProxyServer := Daemon.mkProxyServer (GatewaySys.ex_gcfg "enforce") "" false true "0.0.0.0" 9978 8.

Definition ask (sv : Daemon.ProxyServer) (r : ApiRequest) (c : Cache.Cache) : Response * Cache.Cache := ServeAdmin sv AptLocalSys.good_io r c.

(** Deleting from another machine is refused, from this one it works, unless the
    package is being read; outside of the allowlist nothing is answered. *)
Example delete_answers :
  (λ r : Response * Cache.Cache, (status r.1, Cache.Has r.2 (HashBytes "alpha"))) <$>
    [ask open_server (admin_req "DELETE" "192.168.1.7:5000" (pkg_path "")) SeedSys.after_full;
     ask open_server (admin_req "DELETE" "127.0.0.1:5000" (pkg_path "")) SeedSys.after_full;
     ask open_server (admin_req "DELETE" "[::1]:5000" (pkg_path "")) (Cache.incReader (HashBytes "alpha") SeedSys.after_full);
     ask open_server (admin_req "DELETE" "127.0.0.1:5000" "/api/cache/packages/popular") SeedSys.after_full;
     ask lan_server (admin_req "GET" "10.0.0.1:5000" "/api/cache") SeedSys.after_full]
  = [(403, true); (200, false); (409, true); (400, true); (403, true)].
Proof. vm_compute. reflexivity. Qed.

(** A pinned package is listed as such. *)
Example pin_then_list :
  let c := (ask open_server (admin_req "POST" "127.0.0.1:5000" (pkg_path "/pin")) SeedSys.after_full).2 in
  match body (ask open_server (mkApi (a_http (admin_req "GET" "192.168.1.7:5000" "/api/cache/packages")) "" "true" "") c).1 with
  | apiPackageList ps total => (SHA256 <$> ps, total)
  | _ => ([], 0)
  end = ([HashBytes "alpha"], 1).
Proof. vm_compute. reflexivity. Qed.

Lemma admin_api_witness :
  let '(resp, c') := ask open_server (admin_req "DELETE" "192.168.1.7:5000" (pkg_path "")) AptLocalSys.ex_cache in
  CacheFacts.Inv c' [] ∧ untouched AptLocalSys.ex_cache c'.
Proof.
  pose proof (admin_api open_server AptLocalSys.good_io (admin_req "DELETE" "192.168.1.7:5000" (pkg_path "")) AptLocalSys.ex_cache [] AptLocalSys.empty_cache_inv) as Ha.
  unfold ask. destruct (ServeAdmin _ _ _ _) as [resp c']. destruct Ha as (Hi & Hu & _). split; [exact Hi|]. apply Hu. vm_compute. reflexivity.
Defined.
End examples.
End AdminApiSys.
