(* ===== verification/Metrics.v ===== *)
(** * internal/metrics/metrics.go: counters, gauges, histograms and their exposition

    A labelled vector is a map from labels to pointers, so that a counter or a
    gauge that was looked up is shared with the vector (and lives on, unseen, after
    [Delete]).  [itoa] fills its buffer from the end, and every index of the code
    can panic ([None]).  The order in which a map is ranged over and the conversion
    of a float out of range are those of the surroundings. *)

From S2P Require Import Prelude GoStd GoText GoNum.
From Stdlib Require Import SpecFloat.
Open Scope Z_scope.
Open Scope go_scope.

Module Metrics.

(** ** Counters and gauges *)

Abbreviation Counter := Z (only parsing).
Definition Counter_Inc (c : Counter) : Counter := wrap64 (c + 1).
Definition Counter_Add (v : Z) (c : Counter) : Counter := wrap64 (c + v).

Abbreviation Gauge := float64 (only parsing).
Definition f_zero : float64 := S754_zero false.
Definition Gauge_Set (v : float64) (g : Gauge) : Gauge := v.
Definition Gauge_Inc (g : Gauge) : Gauge := fadd g (f_of_Z 1).
Definition Gauge_Dec (g : Gauge) : Gauge := fsub g (f_of_Z 1).
Definition Gauge_Add (v : float64) (g : Gauge) : Gauge := fadd g v.

(** ** Vectors

    [cells] is what the pointers of the map, and those that were handed out, point
    to. *)
Record Vec (A : Type) := mkVec { entries : gmap string nat; cells : list A }.
Arguments mkVec {A} _ _.
Arguments entries {A} _.
Arguments cells {A} _.

Definition NewVec {A} : Vec A := mkVec ∅ [].

(** [WithLabel]: the pointer for the label, created with [zero] when missing. *)
Definition WithLabel {A} (zero : A) (label : string) (v : Vec A) : nat * Vec A :=
  match entries v !! label with
  | Some p => (p, v)
  | None => (length (cells v), mkVec (<[label := length (cells v)]> (entries v)) (cells v ++ [zero]))
  end.

(** An operation on the object behind a pointer. *)
Definition on {A} (p : nat) (f : A → A) (v : Vec A) : Vec A := mkVec (entries v) (alter f p (cells v)).

Definition Delete {A} (label : string) (v : Vec A) : Vec A := mkVec (delete label (entries v)) (cells v).
Definition Values {A} (v : Vec A) : gmap string A := omap (λ p, cells v !! p) (entries v).

(** The usual call, [v.WithLabel(label).op()]. *)
Definition with_label {A} (zero : A) (label : string) (f : A → A) (v : Vec A) : Vec A :=
  let '(p, v) := WithLabel zero label v in on p f v.

(** The vector of counters and the vector of gauges. *)
Definition CounterVec : Type := Vec Z.
Definition NewCounterVec : CounterVec := NewVec.
Definition CounterVec_WithLabel (label : string) (cv : CounterVec) : nat * CounterVec := WithLabel 0 label cv.
Definition CounterVec_Values (cv : CounterVec) : gmap string Z := Values cv.
Definition GaugeVec : Type := Vec float64.
Definition NewGaugeVec : GaugeVec := NewVec.
Definition GaugeVec_WithLabel (label : string) (gv : GaugeVec) : nat * GaugeVec := WithLabel f_zero label gv.
Definition GaugeVec_Values (gv : GaugeVec) : gmap string float64 := Values gv.
Definition GaugeVec_Delete (label : string) (gv : GaugeVec) : GaugeVec := Delete label gv.

(** ** Histograms *)

Record Histogram := mkHistogram { buckets : list float64; counts : list Z; sum : float64; count : Z }.

Definition NewHistogram (buckets : list float64) : Histogram :=
  mkHistogram buckets (replicate (S (length buckets)) 0) f_zero 0.

(** [counts[i]++], which panics out of range. *)
Definition incr_at (i : nat) (l : list Z) : option (list Z) :=
  c ← l !! i; Some (<[i := wrap64 (c + 1)]> l).

(** The index of the first bucket that admits the value. *)
Fixpoint bucket_of (v : float64) (bs : list float64) (i : nat) : nat :=
  match bs with
  | [] => i
  | b :: bs => if SFleb v b then i else bucket_of v bs (S i)
  end.

Definition Observe (v : float64) (h : Histogram) : option Histogram :=
  cs ← incr_at (bucket_of v (buckets h) 0) (counts h);
  Some (mkHistogram (buckets h) cs (fadd (sum h) v) (wrap64 (count h + 1))).

Definition Stats (h : Histogram) : Z * float64 * list Z := (count h, sum h, counts h).

Record HistogramVec := mkHistogramVec { histograms : Vec Histogram; hv_buckets : list float64 }.
Definition NewHistogramVec (buckets : list float64) : HistogramVec := mkHistogramVec NewVec buckets.
Definition HistogramVec_WithLabel (label : string) (hv : HistogramVec) : nat * HistogramVec :=
  let '(p, v) := WithLabel (NewHistogram (hv_buckets hv)) label (histograms hv) in (p, mkHistogramVec v (hv_buckets hv)).

Definition DurationBuckets : list float64 :=
  [f_dec 1 1000; f_dec 5 1000; f_dec 1 100; f_dec 25 1000; f_dec 5 100; f_dec 1 10; f_dec 25 100; f_dec 5 10;
   f_of_Z 1; f_dec 25 10; f_of_Z 5; f_of_Z 10; f_of_Z 30; f_of_Z 60].
Definition SizeBuckets : list float64 :=
  f_of_Z <$> [1024; 10240; 102400; 1048576; 10485760; 104857600; 1073741824].
Definition LatencyBuckets : list float64 := f_of_Z <$> [1; 5; 10; 25; 50; 100; 250; 500; 1000; 2500; 5000].

(** *** Timers *)

(** The histogram may be nil. *)
Record Timer := mkTimer { start : Z; h : option Histogram }.
Definition NewTimer (now : Z) (h : option Histogram) : Timer := mkTimer now h.
Definition ObserveDuration (now : Z) (t : Timer) : option (Z * Timer) :=
  let d := now - start t in
  match h t with
  | None => Some (d, t)
  | Some h => h ← Observe (Seconds d) h; Some (d, mkTimer (start t) (Some h))
  end.

(** ** The registry *)

Record Metrics := mkMetrics {
  DownloadsTotal : CounterVec; BytesDownloaded : CounterVec; BytesUploaded : Counter; DHTQueries : CounterVec;
  CacheHits : Counter;
  CacheMisses : Counter; VerificationFailures : Counter; CacheEvictions : Counter; PeersBlacklisted : Counter;
  PackagesServedUncached : Counter;
  MetadataCacheHits : Counter; MetadataCacheMisses : Counter; MetadataCacheBytesSaved : Counter;
  MetadataCacheStaleServed : Counter; DownloadsResumed : Counter;
  ChunksRecovered : Counter; Errors : CounterVec; PeersJoined : Counter; PeersLeft : Counter; ConnectedPeers : Gauge;
  RoutingTableSize : Gauge; CacheSize : Gauge; CacheMaxSize : Gauge; CacheCount : Gauge; MetadataCacheSize : Gauge;
  ActiveDownloads : Gauge; ActiveUploads : Gauge; UploadRate : Gauge; DownloadRate : Gauge; PeerRateLimiters : Gauge;
  PeerRateLimitCurrent : GaugeVec; AdaptiveAdjustments : CounterVec; SchedulerWindowActive : Gauge;
  SchedulerCurrentRate : Gauge; SchedulerUrgentDownloads : Counter;
  FleetPeers : Gauge; FleetWANAvoided : Counter; FleetBytesAvoided : Counter; FleetCoordination : CounterVec;
  FleetInFlight : Gauge;
  VerificationResults : CounterVec; VerificationProviders : Histogram; VerificationDuration : Histogram;
  UpstreamVerifyTotal : CounterVec; PeerLatency : Histogram;
  ChunkDownloadTime : Histogram; DHTLookupDuration : Histogram; ConnectRequestsTotal : Counter;
  ConnectRequestsFailed : Counter; ActiveTunnels : Gauge;
  TunnelBytesIn : Counter; TunnelBytesOut : Counter; TunnelDuration : Histogram; RelayReservations : GaugeVec;
  RelayReservationsOK : Counter;
  RelayReservationErr : Counter; HolePunchTotal : CounterVec; ConnectionsByType : GaugeVec;
  RelayServiceActive : Gauge; RelayCircuitsActive : Gauge;
  Reachability : GaugeVec; BytesFromRelay : Counter; RelayedTransferTotal : CounterVec }.

Definition New : Metrics := mkMetrics
  NewCounterVec NewCounterVec 0 NewCounterVec 0 0 0 0 0 0
  0 0 0 0 0 0 NewCounterVec 0 0 f_zero
  f_zero f_zero f_zero f_zero f_zero f_zero f_zero f_zero f_zero f_zero
  NewGaugeVec NewCounterVec f_zero f_zero 0 f_zero 0 0 NewCounterVec f_zero
  NewCounterVec (NewHistogram (f_of_Z <$> [0; 1; 2; 3; 5; 10]))
  (NewHistogram DurationBuckets) NewCounterVec (NewHistogram LatencyBuckets) (NewHistogram DurationBuckets)
  (NewHistogram DurationBuckets) 0 0 f_zero
  0 0 (NewHistogram DurationBuckets) NewGaugeVec 0 0 NewCounterVec NewGaugeVec f_zero f_zero
  NewGaugeVec 0 NewCounterVec.

(** The gauges that [Server.UpdateMetrics] sets, and the series of the relay. *)
Definition set_status (cacheSize cacheCount metaSize peers table window rate fleetPeers inFlight : float64) (m : Metrics) : Metrics :=
  mkMetrics (DownloadsTotal m) (BytesDownloaded m) (BytesUploaded m) (DHTQueries m) (CacheHits m) (CacheMisses m)
    (VerificationFailures m) (CacheEvictions m) (PeersBlacklisted m) (PackagesServedUncached m)
    (MetadataCacheHits m) (MetadataCacheMisses m) (MetadataCacheBytesSaved m) (MetadataCacheStaleServed m)
    (DownloadsResumed m) (ChunksRecovered m) (Errors m) (PeersJoined m) (PeersLeft m) peers table cacheSize
    (CacheMaxSize m) cacheCount metaSize (ActiveDownloads m) (ActiveUploads m) (UploadRate m) (DownloadRate m)
    (PeerRateLimiters m) (PeerRateLimitCurrent m) (AdaptiveAdjustments m) window rate (SchedulerUrgentDownloads m)
    fleetPeers (FleetWANAvoided m) (FleetBytesAvoided m) (FleetCoordination m) inFlight (VerificationResults m)
    (VerificationProviders m) (VerificationDuration m) (UpstreamVerifyTotal m) (PeerLatency m) (ChunkDownloadTime m)
    (DHTLookupDuration m) (ConnectRequestsTotal m) (ConnectRequestsFailed m) (ActiveTunnels m) (TunnelBytesIn m)
    (TunnelBytesOut m) (TunnelDuration m) (RelayReservations m) (RelayReservationsOK m) (RelayReservationErr m)
    (HolePunchTotal m) (ConnectionsByType m) (RelayServiceActive m) (RelayCircuitsActive m) (Reachability m)
    (BytesFromRelay m) (RelayedTransferTotal m).

Definition set_relay (reservations : GaugeVec) (ok : Z) (holePunch : CounterVec) (conns : GaugeVec) (service circuits : float64) (reach : GaugeVec) (m : Metrics) : Metrics :=
  mkMetrics (DownloadsTotal m) (BytesDownloaded m) (BytesUploaded m) (DHTQueries m) (CacheHits m) (CacheMisses m)
    (VerificationFailures m) (CacheEvictions m) (PeersBlacklisted m) (PackagesServedUncached m)
    (MetadataCacheHits m) (MetadataCacheMisses m) (MetadataCacheBytesSaved m) (MetadataCacheStaleServed m)
    (DownloadsResumed m) (ChunksRecovered m) (Errors m) (PeersJoined m) (PeersLeft m) (ConnectedPeers m)
    (RoutingTableSize m) (CacheSize m) (CacheMaxSize m) (CacheCount m) (MetadataCacheSize m) (ActiveDownloads m)
    (ActiveUploads m) (UploadRate m) (DownloadRate m) (PeerRateLimiters m) (PeerRateLimitCurrent m)
    (AdaptiveAdjustments m) (SchedulerWindowActive m) (SchedulerCurrentRate m) (SchedulerUrgentDownloads m)
    (FleetPeers m) (FleetWANAvoided m) (FleetBytesAvoided m) (FleetCoordination m) (FleetInFlight m)
    (VerificationResults m) (VerificationProviders m) (VerificationDuration m) (UpstreamVerifyTotal m)
    (PeerLatency m) (ChunkDownloadTime m) (DHTLookupDuration m) (ConnectRequestsTotal m) (ConnectRequestsFailed m)
    (ActiveTunnels m) (TunnelBytesIn m) (TunnelBytesOut m) (TunnelDuration m) reservations ok
    (RelayReservationErr m) holePunch conns service circuits reach (BytesFromRelay m) (RelayedTransferTotal m).

(** ** Numbers as text *)

(** The loop of [itoa]: [pos] is the first position of the buffer in use and
    [text] what is stored from there on. *)
Fixpoint itoa_loop (fuel : nat) (i : Z) (pos : nat) (text : string) : option (nat * string) :=
  if 0 <? i then
    match fuel with
    | O => None
    | S fuel =>
        match pos with
        | O => None
        | S pos => itoa_loop fuel (Z.quot i 10) pos (String (byte_of (48 + Z.rem i 10)) text)
        end
    end
  else Some (pos, text).

Definition itoa (i : Z) : option string :=
  if i =? 0 then Some "0"
  else
    let neg := i <? 0 in
    let i := if neg then wrap64 (- i) else i in
    '(pos, text) ← itoa_loop 64 i 20 "";
    if neg then match pos with O => None | S _ => Some ("-" +:+ text) end else Some text.

Section text.
Context `{FloatConv} `{GoRange}.

Definition ftoa (f : float64) : option string :=
  if SFeqb f (f_of_Z (f_to_int64 f)) then itoa (f_to_int64 f)
  else
    let intPart := f_to_int64 f in
    let fracPart := f_to_int64 (fmul (fsub f (f_of_Z intPart)) (f_of_Z 1000000)) in
    let fracPart := if fracPart <? 0 then wrap64 (- fracPart) else fracPart in
    a ← itoa intPart; b ← itoa fracPart; Some (a +:+ "." +:+ b).

(** ** The exposition *)

Definition LF : string := String (byte_of 10) "".
Definition quote (s : string) : string := String (byte_of 34) (s +:+ String (byte_of 34) "").

Definition writeCounter (name : string) (value : Z) : option string :=
  v ← itoa value; Some ("# TYPE " +:+ name +:+ " counter" +:+ LF +:+ name +:+ " " +:+ v +:+ LF).
Definition writeCounterWithLabel (name labelName labelValue : string) (value : Z) : option string :=
  v ← itoa value; Some (name +:+ "{" +:+ labelName +:+ "=" +:+ quote labelValue +:+ "} " +:+ v +:+ LF).
Definition writeGauge (name : string) (value : float64) : option string :=
  v ← ftoa value; Some ("# TYPE " +:+ name +:+ " gauge" +:+ LF +:+ name +:+ " " +:+ v +:+ LF).
Definition writeGaugeWithLabel (name labelName labelValue : string) (value : float64) : option string :=
  v ← ftoa value; Some (name +:+ "{" +:+ labelName +:+ "=" +:+ quote labelValue +:+ "} " +:+ v +:+ LF).

Definition bucket_line (name le v : string) : string := name +:+ "_bucket{le=" +:+ quote le +:+ "} " +:+ v +:+ LF.

(** The loop over the buckets, with the running total. *)
Fixpoint bucket_lines (name : string) (bs : list float64) (i : nat) (counts : list Z) (cumulative : Z)
  : option (string * Z) :=
  match bs with
  | [] => Some ("", cumulative)
  | b :: bs =>
      c ← counts !! i;
      let cumulative := wrap64 (cumulative + c) in
      le ← ftoa b; v ← itoa cumulative;
      '(rest, total) ← bucket_lines name bs (S i) counts cumulative;
      Some (bucket_line name le v +:+ rest, total)
  end.

Definition writeHistogram (name : string) (h : Histogram) : option string :=
  let '(count, sum, counts) := Stats h in
  '(lines, cumulative) ← bucket_lines name (buckets h) 0 counts 0;
  last ← counts !! (length counts - 1)%nat;
  inf ← itoa (wrap64 (cumulative + last)); s ← ftoa sum; n ← itoa count;
  Some ("# TYPE " +:+ name +:+ " histogram" +:+ LF +:+ lines +:+ bucket_line name "+Inf" inf
        +:+ name +:+ "_sum " +:+ s +:+ LF +:+ name +:+ "_count " +:+ n +:+ LF).

Definition writeAll (l : list (option string)) : option string := foldr String.append "" <$> mapM id l.

(** The loops over [Values()]. *)
Definition writeCounterVec (name labelName : string) (v : CounterVec) : option string :=
  writeAll ((λ lv, writeCounterWithLabel name labelName lv.1 lv.2) <$> go_range (map_to_list (CounterVec_Values v))).
Definition writeGaugeVec (name labelName : string) (v : GaugeVec) : option string :=
  writeAll ((λ lv, writeGaugeWithLabel name labelName lv.1 lv.2) <$> go_range (map_to_list (GaugeVec_Values v))).

(** What is served as [text/plain; version=0.0.4]. *)
Definition Handler (m : Metrics) : option string :=
  writeAll [
    writeCounter "debswarm_cache_hits_total" (CacheHits m);
    writeCounter "debswarm_cache_misses_total" (CacheMisses m);
    writeCounter "debswarm_cache_evictions_total" (CacheEvictions m);
    writeCounter "debswarm_verification_failures_total" (VerificationFailures m);
    writeCounter "debswarm_peers_blacklisted_total" (PeersBlacklisted m);
    writeCounter "debswarm_packages_served_uncached_total" (PackagesServedUncached m);
    writeCounter "debswarm_metadata_cache_hits_total" (MetadataCacheHits m);
    writeCounter "debswarm_metadata_cache_misses_total" (MetadataCacheMisses m);
    writeCounter "debswarm_metadata_cache_bytes_saved_total" (MetadataCacheBytesSaved m);
    writeCounter "debswarm_metadata_cache_stale_served_total" (MetadataCacheStaleServed m);
    writeCounter "debswarm_downloads_resumed_total" (DownloadsResumed m);
    writeCounter "debswarm_chunks_recovered_total" (ChunksRecovered m);
    writeCounter "debswarm_peers_joined_total" (PeersJoined m);
    writeCounter "debswarm_peers_left_total" (PeersLeft m);
    writeCounterVec "debswarm_downloads_total" "source" (DownloadsTotal m);
    writeCounterVec "debswarm_bytes_downloaded_total" "source" (BytesDownloaded m);
    writeCounter "debswarm_bytes_uploaded_total" (BytesUploaded m);
    writeCounterVec "debswarm_dht_queries_total" "operation" (DHTQueries m);
    writeCounterVec "debswarm_errors_total" "type" (Errors m);
    writeGauge "debswarm_connected_peers" (ConnectedPeers m);
    writeGauge "debswarm_routing_table_size" (RoutingTableSize m);
    writeGauge "debswarm_cache_size_bytes" (CacheSize m);
    writeGauge "debswarm_cache_max_size_bytes" (CacheMaxSize m);
    writeGauge "debswarm_cache_count" (CacheCount m);
    writeGauge "debswarm_metadata_cache_size_bytes" (MetadataCacheSize m);
    writeGauge "debswarm_active_downloads" (ActiveDownloads m);
    writeGauge "debswarm_active_uploads" (ActiveUploads m);
    writeGauge "debswarm_upload_bytes_per_second" (UploadRate m);
    writeGauge "debswarm_download_bytes_per_second" (DownloadRate m);
    writeGauge "debswarm_peer_rate_limiters" (PeerRateLimiters m);
    writeGaugeVec "debswarm_peer_rate_limit_bytes_per_second" "peer_direction" (PeerRateLimitCurrent m);
    writeCounterVec "debswarm_adaptive_adjustments_total" "type" (AdaptiveAdjustments m);
    writeGauge "debswarm_scheduler_window_active" (SchedulerWindowActive m);
    writeGauge "debswarm_scheduler_current_rate_bytes" (SchedulerCurrentRate m);
    writeCounter "debswarm_scheduler_urgent_downloads_total" (SchedulerUrgentDownloads m);
    writeGauge "debswarm_fleet_peers" (FleetPeers m);
    writeCounter "debswarm_fleet_wan_avoided_total" (FleetWANAvoided m);
    writeCounter "debswarm_fleet_bytes_avoided_total" (FleetBytesAvoided m);
    writeCounterVec "debswarm_fleet_coordination_total" "action" (FleetCoordination m);
    writeGauge "debswarm_fleet_in_flight" (FleetInFlight m);
    writeCounterVec "debswarm_verification_results_total" "status" (VerificationResults m);
    writeHistogram "debswarm_verification_providers" (VerificationProviders m);
    writeHistogram "debswarm_verification_duration_seconds" (VerificationDuration m);
    writeCounterVec "debswarm_upstream_verify_total" "result" (UpstreamVerifyTotal m);
    writeHistogram "debswarm_peer_latency_milliseconds" (PeerLatency m);
    writeHistogram "debswarm_chunk_download_seconds" (ChunkDownloadTime m);
    writeHistogram "debswarm_dht_lookup_seconds" (DHTLookupDuration m);
    writeCounter "debswarm_connect_requests_total" (ConnectRequestsTotal m);
    writeCounter "debswarm_connect_requests_failed_total" (ConnectRequestsFailed m);
    writeGauge "debswarm_active_tunnels" (ActiveTunnels m);
    writeCounter "debswarm_tunnel_bytes_in_total" (TunnelBytesIn m);
    writeCounter "debswarm_tunnel_bytes_out_total" (TunnelBytesOut m);
    writeHistogram "debswarm_tunnel_duration_seconds" (TunnelDuration m);
    writeGaugeVec "debswarm_relay_reservations" "state" (RelayReservations m);
    writeCounter "debswarm_relay_reservations_obtained_total" (RelayReservationsOK m);
    writeCounter "debswarm_relay_reservation_errors_total" (RelayReservationErr m);
    writeCounterVec "debswarm_holepunch_total" "result" (HolePunchTotal m);
    writeGaugeVec "debswarm_connections" "type" (ConnectionsByType m);
    writeGauge "debswarm_relay_service_active" (RelayServiceActive m);
    writeGauge "debswarm_relay_circuits_active" (RelayCircuitsActive m);
    writeGaugeVec "debswarm_reachability" "state" (Reachability m);
    writeCounter "debswarm_bytes_from_relay_total" (BytesFromRelay m);
    writeCounterVec "debswarm_relayed_transfer_total" "result" (RelayedTransferTotal m)].

End text.
End Metrics.
