(* ===== verification/MetricsSys.v ===== *)
(** * internal/metrics/metrics.go: what is counted is what is served

    A labelled vector behaves as a map from labels to values; [itoa] never leaves
    its buffer and prints every [int64] but the least; and the histogram served to
    Prometheus is the one defined by the observations ([histogram_exact]). *)

From S2P Require Import Prelude GoStd GoText GoNum FloatInt Metrics.
From Stdlib Require Import SpecFloat.
Open Scope Z_scope.
Open Scope go_scope.
Import Metrics.

(** ** Vectors *)

(** The pointers of the map are valid and not shared. *)
Record vec_ok {A} (v : Vec A) : Prop := {
  vec_bound : ∀ l p, entries v !! l = Some p → (p < length (cells v))%nat;
  vec_inj : ∀ l l' p, entries v !! l = Some p → entries v !! l' = Some p → l = l';
}.

Lemma vec_New_ok A : vec_ok (NewVec : Vec A).
Proof. split; intros *; cbn; by rewrite ?lookup_empty. Qed.

Lemma WithLabel_ok {A} (zero : A) l v : vec_ok v → vec_ok (WithLabel zero l v).2.
Proof.
  intros [Hb Hi]. unfold WithLabel. destruct (entries v !! l) eqn:Hl; [done|]. cbn.
  assert (∀ l' p, <[l := length (cells v)]> (entries v) !! l' = Some p →
    (l' = l ∧ p = length (cells v)) ∨ (entries v !! l' = Some p ∧ p < length (cells v))%nat) as Hcase.
  { intros l' p. rewrite lookup_insert_Some. intros [[<- <-]|[_ Hp]]; [by left|]. right. eauto. }
  split; cbn.
  - intros l' p [[_ ->]|[_ ?]]%Hcase; rewrite length_app; cbn; lia.
  - intros l1 l2 p [[-> ->]|[? ?]]%Hcase [[-> ?]|[? ?]]%Hcase; try lia; eauto.
Qed.

Lemma on_ok {A} p (f : A → A) v : vec_ok v → vec_ok (on p f v).
Proof. intros [Hb Hi]. split; cbn; [|done]. intros l q Hq. rewrite length_alter. eauto. Qed.

Lemma vec_Delete_ok {A} l (v : Vec A) : vec_ok v → vec_ok (Delete l v).
Proof. intros [Hb Hi]. split; cbn; intros *; rewrite !lookup_delete_Some; naive_solver. Qed.

Lemma with_label_ok {A} (zero : A) l f v : vec_ok v → vec_ok (with_label zero l f v).
Proof.
  intros Hv. unfold with_label. pose proof (WithLabel_ok zero l v Hv) as Hw.
  destruct (WithLabel zero l v). by apply on_ok.
Qed.

Lemma lookup_Values {A} (v : Vec A) l : Values v !! l = entries v !! l ≫= λ p, cells v !! p.
Proof. unfold Values. by rewrite lookup_omap. Qed.

(** The operations on the abstract map: an update starts from the value that is
    there, or from zero; a deletion forgets the label. *)
Lemma with_label_spec {A} (zero : A) l f v :
  vec_ok v → Values (with_label zero l f v) = <[l := f (default zero (Values v !! l))]> (Values v).
Proof.
  intros [Hb Hi]. apply map_eq. intros k. unfold with_label, WithLabel.
  destruct (entries v !! l) as [p|] eqn:Hl.
  - destruct (lookup_lt_is_Some_2 (cells v) p ltac:(eauto)) as [x Hx].
    rewrite !lookup_Values, Hl. cbn [on entries cells mbind option_bind]. rewrite Hx. cbn [default from_option id].
    destruct (decide (k = l)) as [->|Hne].
    + rewrite Hl, lookup_insert_eq. cbn. by rewrite list_lookup_alter_eq, Hx.
    + rewrite lookup_insert_ne, lookup_Values by done. destruct (entries v !! k) as [q|] eqn:Hk; [|done]. cbn.
      apply list_lookup_alter_ne. intros ->. eauto.
  - rewrite !lookup_Values, Hl. cbn [on entries cells mbind option_bind default].
    destruct (decide (k = l)) as [->|Hne].
    + rewrite !lookup_insert_eq. cbn. rewrite list_lookup_alter_eq, lookup_app_r, Nat.sub_diag by done. done.
    + rewrite !lookup_insert_ne, lookup_Values by done. destruct (entries v !! k) as [q|] eqn:Hk; [|done]. cbn.
      pose proof (Hb _ _ Hk). rewrite list_lookup_alter_ne, lookup_app_l by lia. done.
Qed.

Lemma Delete_spec {A} l (v : Vec A) : Values (Delete l v) = delete l (Values v).
Proof.
  apply map_eq. intros k. rewrite lookup_Values. cbn.
  destruct (decide (k = l)) as [->|]; [by rewrite !lookup_delete_eq|].
  by rewrite !lookup_delete_ne, lookup_Values.
Qed.

(** A gauge that is held while its label is deleted is no longer served. *)
Example held_gauge_lost :
  let '(p, v) := GaugeVec_WithLabel "peer:up" NewGaugeVec in
  GaugeVec_Values (on p (Gauge_Set (f_of_Z 7)) (GaugeVec_Delete "peer:up" v)) = ∅.
Proof. reflexivity. Qed.

(** ** Decimal text *)

Lemma itoa_go_fuel n m i acc :
  0 <= i < 10 ^ Z.of_nat n → (0 < n <= m)%nat → itoa_go m i acc = itoa_go n i acc.
Proof.
  revert m i acc. induction n as [|n IH]; intros m i acc Hi Hnm; [lia|]. destruct m as [|m]; [lia|]. cbn [itoa_go].
  destruct (i <? 10) eqn:Hs; [done|]. rewrite Nat2Z.inj_succ, Z.pow_succ_r in Hi by lia.
  destruct n as [|n]; [cbn in Hi; blia|]. apply IH; [|lia].
  split; [apply Z.div_pos; lia|apply Z.div_lt_upper_bound; lia].
Qed.

Lemma itoa_loop_spec n fuel i pos acc :
  0 < i < 10 ^ Z.of_nat n → (n <= fuel)%nat → (n <= pos)%nat →
  ∃ pos', itoa_loop fuel i pos acc = Some (pos', itoa_go n i acc) ∧ (pos - n <= pos')%nat.
Proof.
  revert fuel i pos acc. induction n as [|n IH]; intros fuel i pos acc Hi Hf Hp; [cbn in Hi; lia|].
  destruct fuel as [|fuel], pos as [|pos]; try lia. cbn [itoa_loop itoa_go].
  replace (0 <? i) with true by (symmetry; blia). rewrite Z.quot_div_nonneg, Z.rem_mod_nonneg by lia.
  rewrite Nat2Z.inj_succ, Z.pow_succ_r in Hi by lia. destruct (i <? 10) eqn:Hs.
  - rewrite (Z.div_small i 10) by blia. exists pos. split; [by destruct fuel|lia].
  - assert (0 < i / 10) by (apply Z.div_str_pos; blia).
    destruct (IH fuel (i / 10) pos (String (byte_of (48 + i mod 10)) acc)) as (pos' & -> & Hpos); try lia.
    + split; [done|]. apply Z.div_lt_upper_bound; lia.
    + exists pos'. split; [done|lia].
Qed.

(** The buffer of twenty bytes is always enough, and every value but the least is
    printed in decimal; of the least only the sign is left. *)
Lemma itoa_spec i : int64_range i → itoa i = Some (if i =? - 2 ^ 63 then "-" else Itoa i).
Proof.
  unfold int64_range. intros Hi. destruct (i =? - 2 ^ 63) eqn:Hmin; [apply Z.eqb_eq in Hmin as ->; vm_compute; done|].
  unfold itoa, Itoa. destruct (i =? 0) eqn:Hz; [apply Z.eqb_eq in Hz as ->; vm_compute; done|].
  assert (∀ n, 0 < n < 2 ^ 63 → ∃ pos', itoa_loop 64 n 20 "" = Some (S pos', itoa_go 20 n "")) as Hloop.
  { intros n Hn. assert (2 ^ 63 < 10 ^ Z.of_nat 19) by done.
    destruct (itoa_loop_spec 19 64 n 20 "") as ([|pos'] & -> & Hpos); [lia..|]. exists pos'.
    rewrite (itoa_go_fuel 19 20) by lia. done. }
  destruct (i <? 0) eqn:Hneg.
  - rewrite (wrap64_id (- i)) by (unfold int64_range; blia).
    destruct (Hloop (- i)) as [pos' ->]; [blia|]. done.
  - destruct (Hloop i) as [pos' ->]; [blia|]. done.
Qed.

Lemma itoa_count n : 0 <= n < 2 ^ 63 → itoa n = Some (Itoa n).
Proof.
  intros Hn. rewrite itoa_spec by (unfold int64_range; lia). by replace (n =? _) with false by (symmetry; blia).
Qed.

Lemma ftoa_total `{FloatConv} f : is_Some (ftoa f).
Proof.
  unfold ftoa. destruct (SFeqb _ _); [rewrite itoa_spec by apply f_to_int64_range; by eexists|].
  rewrite (itoa_spec (f_to_int64 f)) by apply f_to_int64_range. cbn [mbind option_bind].
  rewrite itoa_spec; [by eexists|]. destruct (_ <? 0); [apply wrap64_range|apply f_to_int64_range].
Qed.

(** ** Histograms *)

(** Being at most is transitive, [NaN] included, which is at most nothing. *)
Lemma SFleb_trans a b c : SFleb a b = true → SFleb b c = true → SFleb a c = true.
Proof.
  unfold SFleb. destruct a as [[]|[]| |[] m e], b as [[]|[]| |[] m' e'], c as [[]|[]| |[] m'' e'']; cbn; try done;
    destruct (Z.compare_spec e e'), (Z.compare_spec e' e''), (Z.compare_spec e e''); subst; try done; try lia;
    repeat match goal with |- context [Pcompare ?x ?y Eq] => change (Pcompare x y Eq) with (Pos.compare x y) end;
    destruct (Pos.compare_spec m m'), (Pos.compare_spec m' m''), (Pos.compare_spec m m''); subst; cbn; done || lia.
Qed.

Definition ascending (bs : list float64) : Prop := StronglySorted (λ a b, SFleb a b = true) bs.

(** The bounds of every histogram of the registry are in order. *)
Lemma registry_ascending :
  Forall ascending [DurationBuckets; SizeBuckets; LatencyBuckets; buckets (VerificationProviders New)].
Proof. repeat (constructor; [vm_compute; repeat constructor|]). constructor. Qed.

Lemma bucket_of_shift v bs i : bucket_of v bs i = (i + bucket_of v bs 0)%nat.
Proof.
  revert i. induction bs as [|b bs IH]; intros i; cbn; [lia|]. destruct (SFleb v b); [lia|].
  rewrite (IH (S i)), (IH 1%nat). lia.
Qed.

(** In ascending order, the value is in one of the first buckets, up to the [i]-th,
    exactly when it is at most the bound of the [i]-th. *)
Lemma bucket_of_le v bs i b :
  ascending bs → bs !! i = Some b → (bucket_of v bs 0 <= i)%nat ↔ SFleb v b = true.
Proof.
  revert i. induction bs as [|b0 bs IH]; intros i Hs Hi; [done|].
  apply StronglySorted_inv in Hs as [Hs Hall]. cbn [bucket_of]. destruct (SFleb v b0) eqn:Hv.
  - split; [intros _|lia]. destruct i as [|i]; cbn in Hi; [by simplify_eq|].
    eapply SFleb_trans; [done|]. eapply Forall_lookup_1 in Hall; done.
  - rewrite bucket_of_shift. destruct i as [|i]; cbn in Hi; [simplify_eq; split; [lia|congruence]|].
    rewrite <- (IH i Hs Hi). lia.
Qed.

Lemma bucket_of_bound v bs : (bucket_of v bs 0 <= length bs)%nat.
Proof. induction bs as [|b bs IH]; cbn; [lia|]. destruct (SFleb v b); [lia|]. rewrite bucket_of_shift. lia. Qed.

Definition cnt {A} (P : A → bool) (l : list A) : Z := Z.of_nat (length (List.filter P l)).

Lemma cnt_snoc {A} (P : A → bool) l x : cnt P (l ++ [x]) = cnt P l + (if P x then 1 else 0).
Proof. unfold cnt. rewrite List.filter_app, length_app. cbn. destruct (P x); cbn; lia. Qed.

Lemma cnt_bound {A} (P : A → bool) l : 0 <= cnt P l <= Z.of_nat (length l).
Proof. unfold cnt. pose proof (List.filter_length_le P l). lia. Qed.

Lemma cnt_ext {A} (P Q : A → bool) l : (∀ x, P x = Q x) → cnt P l = cnt Q l.
Proof. intros HPQ. unfold cnt. by rewrite (List.filter_ext P Q). Qed.

Lemma cnt_split {A} (P Q R : A → bool) l :
  (∀ x, (if R x then 1 else 0) = (if P x then 1 else 0) + (if Q x then 1 else 0)) → cnt R l = cnt P l + cnt Q l.
Proof.
  intros Hx. induction l as [|x l IH] using rev_ind; [done|]. rewrite !cnt_snoc, (Hx x), IH. lia.
Qed.

Lemma cnt_none {A} (P : A → bool) l : (∀ x, P x = false) → cnt P l = 0.
Proof. intros Hx. rewrite (cnt_ext P (λ _, false)) by done. unfold cnt. by induction l. Qed.

Lemma cnt_all {A} (P : A → bool) l : (∀ x, P x = true) → cnt P l = Z.of_nat (length l).
Proof. intros Hx. rewrite (cnt_ext P (λ _, true)) by done. unfold cnt. f_equal. induction l; cbn; congruence. Qed.

(** All the observations, in the order in which they were made. *)
Definition observe_all (obs : list float64) (h : Histogram) : option Histogram :=
  foldl (λ o v, o ≫= Observe v) (Some h) obs.

(** The histogram that the observations define. *)
Definition in_bucket (bs : list float64) (j : nat) (v : float64) : bool := bool_decide (bucket_of v bs 0 = j).
Definition spec_counts (bs obs : list float64) : list Z :=
  (λ j, wrap64 (cnt (in_bucket bs j) obs)) <$> seq 0 (S (length bs)).

Lemma lookup_spec_counts bs obs j :
  (j <= length bs)%nat → spec_counts bs obs !! j = Some (wrap64 (cnt (in_bucket bs j) obs)).
Proof. intros Hj. unfold spec_counts. by rewrite list_lookup_fmap, lookup_seq_lt by lia. Qed.

Lemma length_spec_counts bs obs : length (spec_counts bs obs) = S (length bs).
Proof. unfold spec_counts. by rewrite length_fmap, length_seq. Qed.

Lemma observe_all_spec bs obs :
  observe_all obs (NewHistogram bs)
  = Some (mkHistogram bs (spec_counts bs obs) (foldl fadd f_zero obs) (wrap64 (Z.of_nat (length obs)))).
Proof.
  unfold observe_all. induction obs as [|v obs IH] using rev_ind.
  { cbn [foldl]. unfold NewHistogram, spec_counts. do 2 f_equal. symmetry. cbn [cnt List.filter].
    rewrite <- (length_seq (S (length bs)) 0) at 2. by rewrite <- const_fmap with (f := λ _, 0). }
  rewrite foldl_snoc, IH. cbn [mbind option_bind]. unfold Observe, incr_at. cbn [buckets counts sum count].
  rewrite lookup_spec_counts by apply bucket_of_bound. cbn [mbind option_bind]. rewrite foldl_snoc. do 2 f_equal.
  - apply list_eq. intros j. destruct (decide (j <= length bs)%nat) as [Hj|Hj].
    + rewrite lookup_spec_counts, cnt_snoc by done. unfold in_bucket at 3.
      destruct (decide (bucket_of v bs 0 = j)) as [<-|Hne].
      * rewrite list_lookup_insert_eq by (rewrite length_spec_counts; pose proof (bucket_of_bound v bs); lia).
        by rewrite bool_decide_true, wrap64_add_l by done.
      * rewrite list_lookup_insert_ne, lookup_spec_counts by done. by rewrite bool_decide_false, Z.add_0_r by done.
    + rewrite !lookup_ge_None_2; rewrite ?length_insert, ?length_spec_counts; auto with lia.
  - rewrite wrap64_add_l, length_app. cbn [length]. f_equal. lia.
Qed.

(** ** The exposition *)

Section exposition.
Context `{FloatConv} `{GoRange}.

(** The observations that are at most the bound. *)
Definition at_most (b : float64) (obs : list float64) : Z := cnt (λ v, SFleb v b) obs.

(** The histogram as Prometheus defines it: for each bound the number of the
    observations that are at most the bound, then all of them, their sum and
    their number. *)
Definition exposition (name : string) (bs : list float64) (les : list string) (s : string) (obs : list float64) : string :=
  "# TYPE " +:+ name +:+ " histogram" +:+ LF
  +:+ foldr String.append "" (zip_with (λ le b, bucket_line name le (Itoa (at_most b obs))) les bs)
  +:+ bucket_line name "+Inf" (Itoa (Z.of_nat (length obs)))
  +:+ name +:+ "_sum " +:+ s +:+ LF +:+ name +:+ "_count " +:+ Itoa (Z.of_nat (length obs)) +:+ LF.

Lemma cnt_next bs obs i :
  cnt (λ v, bool_decide (bucket_of v bs 0 < S i)%nat) obs
  = cnt (λ v, bool_decide (bucket_of v bs 0 < i)%nat) obs + cnt (in_bucket bs i) obs.
Proof.
  apply cnt_split. intros v. unfold in_bucket. repeat case_bool_decide; lia.
Qed.

Lemma at_most_bound b obs : 0 <= at_most b obs <= Z.of_nat (length obs).
Proof. apply cnt_bound. Qed.

Lemma at_most_cnt all obs i b :
  ascending all → all !! i = Some b → cnt (λ v, bool_decide (bucket_of v all 0 < S i)%nat) obs = at_most b obs.
Proof.
  intros Hasc Hb. apply cnt_ext. intros v. destruct (bucket_of_le v all i b Hasc Hb) as [H1 H2].
  case_bool_decide as Hcase; [by rewrite H1 by lia|]. destruct (SFleb v b); [|done]. specialize (H2 eq_refl). lia.
Qed.

Lemma bucket_lines_spec name all obs bs i :
  ascending all → Z.of_nat (length obs) < 2 ^ 63 → drop i all = bs → (i <= length all)%nat →
  ∃ les, mapM ftoa bs = Some les ∧
    bucket_lines name bs i (spec_counts all obs) (cnt (λ v, bool_decide (bucket_of v all 0 < i)%nat) obs)
    = Some (foldr String.append "" (zip_with (λ le b, bucket_line name le (Itoa (at_most b obs))) les bs),
            cnt (λ v, bool_decide (bucket_of v all 0 < length all)%nat) obs).
Proof.
  intros Hasc Hlen. revert i. induction bs as [|b bs IH]; intros i Hdrop Hi.
  { exists []. split; [done|]. apply (f_equal length) in Hdrop. rewrite length_drop in Hdrop. cbn in Hdrop |- *.
    by replace i with (length all) by lia. }
  assert (all !! i = Some b) as Hb by (rewrite <- (Nat.add_0_r i), <- lookup_drop, Hdrop; done).
  pose proof (lookup_lt_Some _ _ _ Hb).
  destruct (ftoa_total b) as [le Hle]. destruct (IH (S i)) as (les & Hles & Hlines); [|lia|].
  { rewrite <- Nat.add_1_r, <- drop_drop, Hdrop. done. }
  exists (le :: les). split; [cbn [mapM]; by rewrite Hle, Hles|]. cbn [bucket_lines zip_with foldr].
  rewrite lookup_spec_counts by lia. cbn [mbind option_bind]. rewrite Hle. cbn [mbind option_bind].
  rewrite wrap64_add_r, <- cnt_next, (at_most_cnt all obs i b Hasc Hb).
  assert (0 <= at_most b obs < 2 ^ 63) by (pose proof (at_most_bound b obs); lia).
  rewrite wrap64_id by (unfold int64_range; lia). rewrite itoa_count by lia.
  cbn [mbind option_bind]. rewrite <- (at_most_cnt all obs i b Hasc Hb), Hlines. cbn [mbind option_bind].
  by rewrite (at_most_cnt all obs i b Hasc Hb).
Qed.

(** The text of a whole number below 2^53 is its numeral. *)
Lemma ftoa_whole z : small z → ftoa (f_of_Z z) = Some (Itoa z).
Proof.
  intros Hz. unfold ftoa. rewrite f_to_int64_whole, SFeqb_finite by (done || by apply is_finite_whole).
  unfold small in Hz. rewrite itoa_spec by (unfold int64_range; lia).
  by replace (z =? - 2 ^ 63) with false by (symmetry; blia).
Qed.

Lemma ftoa_whole_all zs les : Forall small zs → mapM ftoa (f_of_Z <$> zs) = Some les → les = Itoa <$> zs.
Proof.
  intros Hz. revert les. induction Hz as [|z zs Hz Hzs IH]; intros les; cbn [fmap list_fmap mapM]; [by intros [= <-]|].
  rewrite (ftoa_whole z Hz). cbn [mbind option_bind]. destruct (mapM ftoa _) as [ls|]; [|done]. cbn. intros [= <-]. by rewrite (IH ls eq_refl).
Qed.

(** C37: the counts of a histogram that is served are those the observations define:
    whatever was observed, in any number (below [2^63]) and whatever the values, [NaN]
    and the infinities included, no index of [Observe] or [writeHistogram] is out of
    range, there is a line for each bound in order that carries the number of the
    observations that are at most the bound, and [+Inf] and [_count] carry all of them,
    provided the bounds are in ascending order.  Bounds that are whole numbers, as those
    of latencies, sizes and providers, are labelled with their numerals, and a sum that
    is a whole number is printed as its numeral (up to 2^53); the texts of the other
    bounds and sums are not described (those of fractions such as 0.01 are wrong). *)
Theorem histogram_exact name bs obs :
  ascending bs → Z.of_nat (length obs) < 2 ^ 63 →
  ∃ h les s, observe_all obs (NewHistogram bs) = Some h ∧ writeHistogram name h = Some (exposition name bs les s obs) ∧
    length les = length bs ∧
    (∀ zs, Forall small zs → bs = f_of_Z <$> zs → les = Itoa <$> zs) ∧
    (∀ z, small z → foldl fadd f_zero obs = f_of_Z z → s = Itoa z).
Proof.
  intros Hasc Hlen. rewrite observe_all_spec.
  destruct (bucket_lines_spec name bs obs bs 0 Hasc Hlen eq_refl ltac:(lia)) as (les & Hles & Hlines).
  destruct (ftoa_total (foldl fadd f_zero obs)) as [s Hs]. eexists _, les, s. split; [done|]. split.
  2: { split; [by rewrite (Forall2_length _ _ _ (mapM_Some_1 _ _ _ Hles))|]. split; [intros zs Hz ->; by apply ftoa_whole_all|].
       intros z Hz Hsum. rewrite Hsum, ftoa_whole in Hs by done. by injection Hs as <-. }
  unfold writeHistogram, Stats. cbn [buckets counts sum count].
  replace (cnt (λ v, bool_decide (bucket_of v bs 0 < 0)%nat) obs) with 0 in Hlines
    by (symmetry; apply cnt_none; intros v; by case_bool_decide; lia).
  rewrite Hlines. cbn [mbind option_bind]. rewrite length_spec_counts, lookup_spec_counts by lia.
  cbn [mbind option_bind]. replace (S (length bs) - 1)%nat with (length bs) by lia.
  rewrite wrap64_add_r, <- cnt_next, cnt_all.
  2:{ intros v. pose proof (bucket_of_bound v bs). case_bool_decide; [done|lia]. }
  rewrite wrap64_id by (unfold int64_range; lia). rewrite itoa_count by lia. cbn [mbind option_bind].
  rewrite Hs. done.
Qed.

End exposition.

(** Four latencies: two in the first buckets, one above the last bound and a
    [NaN], which only [+Inf] counts; the labels are numerals. *)
Lemma histogram_exact_witness :
  let obs := [f_of_Z 3; f_dec 7 2; f_of_Z 9000; S754_nan] in
  map (λ b, at_most b obs) LatencyBuckets = [0; 2; 2; 2; 2; 2; 2; 2; 2; 2; 2] ∧
  ∃ h s, observe_all obs (NewHistogram LatencyBuckets) = Some h ∧
    writeHistogram (H := amd64) "debswarm_peer_latency_milliseconds" h
    = Some (exposition "debswarm_peer_latency_milliseconds" LatencyBuckets ["1"; "5"; "10"; "25"; "50"; "100"; "250"; "500"; "1000"; "2500"; "5000"] s obs).
Proof.
  intros obs. split; [vm_compute; reflexivity|].
  destruct (histogram_exact (H := amd64) "debswarm_peer_latency_milliseconds" LatencyBuckets obs
    (Forall_inv (Forall_inv_tail (Forall_inv_tail registry_ascending))) ltac:(cbn; lia)) as (h & les & s & Hh & Hw & _ & Hl & _).
  exists h, s. split; [exact Hh|]. rewrite Hw. rewrite (Hl [1; 5; 10; 25; 50; 100; 250; 500; 1000; 2500; 5000]);
    [vm_compute; reflexivity|repeat constructor; unfold small; lia|reflexivity].
Defined.

(** ** What the text of a fraction is

    The fraction is printed without leading zeros: the bounds 0.001, 0.01 and 0.1
    are all printed as one tenth, 0.005, 0.05 and 0.5 as one half, and a negative
    fraction loses its sign. *)
Example duration_labels :
  mapM (ftoa (H := amd64)) DurationBuckets
  = Some ["0.1000"; "0.5000"; "0.10000"; "0.25000"; "0.50000"; "0.100000"; "0.250000"; "0.500000";
          "1"; "2.500000"; "5"; "10"; "30"; "60"].
Proof. vm_compute. reflexivity. Qed.

Example negative_fraction : ftoa (H := amd64) (f_dec (-1) 2) = Some "0.500000".
Proof. vm_compute. reflexivity. Qed.

(** The least counter and what is not a number. *)
Example not_numbers :
  itoa (- 2 ^ 63) = Some "-" ∧ ftoa (H := amd64) S754_nan = Some "-.-" ∧
  ftoa (H := amd64) (S754_infinity false) = Some "-.-".
Proof. vm_compute. done. Qed.
