(* ===== verification/Dashboard.v ===== *)
(** * internal/dashboard/dashboard.go and the status pages of the proxy

    The list of recent downloads, the formatting of sizes and durations, and the
    handlers of the dashboard with their headers; and what the proxy server tells
    it: [GetStats], [GetDashboardStats], [GetPeerInfo], [handleHealth] and
    [handleStats].  The HTML template and the formatting of times of day are
    parameters; a response keeps its contents as data.  [fmt]'s ["%.1f"] is written
    out: the exact binary value, rounded half to even. *)

From S2P Require Import Prelude GoStd GoText GoNum Metrics Scorer Support.
From Stdlib Require Import SpecFloat Ascii.
Open Scope Z_scope.
Open Scope go_scope.

(** ** Formatting *)

Definition round_half_even (num den : Z) : Z :=
  let q := num / den in let r := num mod den in
  if 2 * r <? den then q else if den <? 2 * r then q + 1 else if Z.even q then q else q + 1.

(** The tenths of a finite number, without its sign. *)
Definition tenths (f : float64) : Z :=
  match f with
  | S754_finite _ m e => if 0 <=? e then 10 * Zpos m * 2 ^ e else round_half_even (10 * Zpos m) (2 ^ (- e))
  | _ => 0
  end.

Definition Sprintf_1f (f : float64) : string :=
  match f with
  | S754_nan => "NaN"
  | S754_infinity s => if s then "-Inf" else "+Inf"
  | S754_zero s | S754_finite s _ _ =>
      (if s then "-" else "") +:+ Itoa (tenths f / 10) +:+ "." +:+ Itoa (tenths f mod 10)
  end.

Definition Milliseconds (d : Z) : Z := Z.quot d Millisecond.
Definition Minutes (d : Z) : float64 :=
  fadd (f_of_Z (Z.quot d Minute)) (fdiv (f_of_Z (Z.rem d Minute)) (f_of_Z Minute)).

Module Dashboard.

Definition unit_ : Z := 1024.

(** The loop of [formatBytes]: ten bits less each time. *)
Fixpoint unit_loop (fuel : nat) (n div : Z) (exp : nat) : Z * nat :=
  match fuel with
  | O => (div, exp)
  | S fuel => if unit_ <=? n then unit_loop fuel (Z.quot n unit_) (wrap64 (div * unit_)) (S exp) else (div, exp)
  end.

(** The index into the units panics out of range ([None]). *)
Definition formatBytes (b : Z) : option string :=
  if b <? unit_ then Some (Itoa b +:+ " B")
  else
    let '(div, exp) := unit_loop 64 (Z.quot b unit_) unit_ 0 in
    u ← String.get exp "KMGTPE";
    Some (Sprintf_1f (fdiv (f_of_Z b) (f_of_Z div)) +:+ " " +:+ String u "B").

Section format.
Context `{FloatConv}.

Definition formatDuration (d : Z) : string :=
  if d <? Second then Itoa (Milliseconds d) +:+ "ms"
  else if d <? Minute then Sprintf_1f (Seconds d) +:+ "s"
  else if d <? Hour then Itoa (f_to_int64 (Minutes d)) +:+ "m " +:+ Itoa (Z.rem (f_to_int64 (Seconds d)) 60) +:+ "s"
  else Itoa (f_to_int64 (Hours d)) +:+ "h " +:+ Itoa (Z.rem (f_to_int64 (Minutes d)) 60) +:+ "m".

(** [s[:maxLen-3] + "..."]. *)
Definition truncateFilename (s : string) (maxLen : nat) : string :=
  if (String.length s <=? maxLen)%nat then s else str_take (maxLen - 3) s +:+ "...".

Definition css_safe (a : ascii) : bool :=
  ((97 <=? code a) && (code a <=? 122)) || ((65 <=? code a) && (code a <=? 90)) || ((48 <=? code a) && (code a <=? 57)) || (code a =? 45).
Fixpoint css_filter (s : string) : string :=
  match s with
  | EmptyString => ""
  | String a s => if css_safe a then String a (css_filter s) else css_filter s
  end.
Definition sanitizeForCSS (s : string) : string :=
  let result := css_filter s in if (String.length result =? 0)%nat then "unknown" else result.

(** ** The dashboard *)

Record RecentDownload := mkRecent { Time : string; Filename : string; Size : string; Source : string; Duration : string }.
Record PeerInfo := mkPeerInfo {
  ID : string; ShortID : string; Score : float64; Category : string; Latency : string; Throughput : string;
  Downloaded : string; Uploaded : string; LastSeen : string; Blacklisted : bool }.

Record Stats := mkStats {
  Uptime : string; StartTime : string; PeerID : string; Version : string; P2PRatioPercent : float64;
  RequestsTotal : Z; RequestsP2P : Z; RequestsMirror : Z; CacheHits : Z;
  BytesFromP2P : Z; BytesFromMirror : Z; BytesFromP2PStr : string; BytesFromMirStr : string;
  CacheSizeBytes : Z; CacheSizeStr : string; CacheCount : Z; CacheMaxSize : string; CacheUsagePercent : float64;
  ConnectedPeers : Z; RoutingTableSize : Z; ActiveDownloads : Z; ActiveUploads : Z;
  MaxUploadRate : string; MaxDownloadRate : string; RecentDownloads : list RecentDownload; Peers : list PeerInfo;
  VerificationFailures : Z }.

Definition zero_Stats : Stats :=
  mkStats "" "" "" "" Metrics.f_zero 0 0 0 0 0 0 "" "" 0 "" 0 "" Metrics.f_zero 0 0 0 0 "" "" [] [] 0.

(** [getPeers] may be nil; a provider may return nil. *)
Record Dashboard := mkDashboard {
  getStats : option Stats; getPeers : option (list PeerInfo); startTime : Z; version : string; peerID : string;
  maxUploadRate : string; maxDownRate : string; recentDLs : list RecentDownload; maxRecent : nat }.

Record Config := mkConfig { c_Version : string; c_PeerID : string; c_MaxUploadRate : string; c_MaxDownloadRate : string }.

Definition New (now : Z) (cfg : Config) (stats : option Stats) (peers : option (list PeerInfo)) : Dashboard :=
  mkDashboard stats peers now (c_Version cfg) (c_PeerID cfg) (c_MaxUploadRate cfg) (c_MaxDownloadRate cfg) [] 50.

(** The layouts of [time.Format]. *)
Context (clock date : Z → string).

Definition RecordDownload (now : Z) (filename : string) (size : Z) (source : string) (duration : Z) (d : Dashboard) : option Dashboard :=
  sz ← formatBytes size;
  let dl := mkRecent (clock now) (truncateFilename filename 40) sz (sanitizeForCSS source) (formatDuration duration) in
  let recent := dl :: recentDLs d in
  let recent := if (maxRecent d <? length recent)%nat then take (maxRecent d) recent else recent in
  Some (mkDashboard (getStats d) (getPeers d) (startTime d) (version d) (peerID d) (maxUploadRate d) (maxDownRate d) recent (maxRecent d)).

(** ** Responses *)

Inductive Body :=
| HTML (stats : Stats) (nonce : string)
| JSONStats (stats : Stats)
| JSONPeers (peers : list PeerInfo)
| Text (msg : string).

Record Response := mkResponse { status : Z; headers : gmap string string; body : Body }.

(** [http.Error], when nothing was written before. *)
Definition http_Error (h : gmap string string) (msg : string) (code : Z) : Response :=
  mkResponse code (<["X-Content-Type-Options" := "nosniff"]> (<["Content-Type" := "text/plain; charset=utf-8"]> (delete "Content-Length" h))) (Text msg).

(** The headers every response starts from. *)
Definition securityHeaders : gmap string string :=
  list_to_map [
    ("X-Content-Type-Options", "nosniff"); ("X-Frame-Options", "DENY");
    ("Cache-Control", "no-store, no-cache, must-revalidate"); ("X-XSS-Protection", "1; mode=block");
    ("Referrer-Policy", "strict-origin-when-cross-origin");
    ("Content-Security-Policy",
     "default-src 'self'; style-src 'unsafe-inline'; script-src 'none'; img-src 'self' data:; frame-ancestors 'none'")].

Definition csp (nonce : string) : string :=
  "default-src 'self'; style-src 'unsafe-inline'; script-src 'nonce-" +:+ nonce
  +:+ "'; connect-src 'self'; img-src 'self' data:; frame-ancestors 'none'".

(** What [handleDashboard] fills in. *)
Definition fillDashboard (now : Z) (d : Dashboard) (s : Stats) : option Stats :=
  p2p ← formatBytes (BytesFromP2P s); mir ← formatBytes (BytesFromMirror s); cs ← formatBytes (CacheSizeBytes s);
  Some (mkStats (formatDuration (now - startTime d)) (date (startTime d)) (peerID d) (version d) (P2PRatioPercent s)
    (RequestsTotal s) (RequestsP2P s) (RequestsMirror s) (CacheHits s) (BytesFromP2P s) (BytesFromMirror s) p2p mir
    (CacheSizeBytes s) cs (CacheCount s) (CacheMaxSize s) (CacheUsagePercent s) (ConnectedPeers s) (RoutingTableSize s)
    (ActiveDownloads s) (ActiveUploads s) (maxUploadRate d) (maxDownRate d) (recentDLs d)
    (match getPeers d with Some ps => ps | None => Peers s end) (VerificationFailures s)).

(** The nonce ([""] when no random bytes were to be had) and whether the template
    failed before anything was written. *)
Definition handleDashboard (now : Z) (nonce : string) (exec_failed : bool) (path : string) (d : Dashboard) : option Response :=
  if negb (String.eqb path "/") && negb (String.eqb path "/dashboard") then Some (http_Error securityHeaders "404 page not found" 404)
  else
    s ← fillDashboard now d (default zero_Stats (getStats d));
    let h := <["Content-Type" := "text/html; charset=utf-8"]> (<["Content-Security-Policy" := csp nonce]> securityHeaders) in
    Some (if exec_failed then http_Error h "Internal server error" 500 else mkResponse 200 h (HTML s nonce)).

Definition set_overview (now : Z) (d : Dashboard) (s : Stats) : Stats :=
  mkStats (formatDuration (now - startTime d)) (StartTime s) (peerID d) (version d) (P2PRatioPercent s)
    (RequestsTotal s) (RequestsP2P s) (RequestsMirror s) (CacheHits s) (BytesFromP2P s) (BytesFromMirror s) (BytesFromP2PStr s) (BytesFromMirStr s)
    (CacheSizeBytes s) (CacheSizeStr s) (CacheCount s) (CacheMaxSize s) (CacheUsagePercent s) (ConnectedPeers s) (RoutingTableSize s)
    (ActiveDownloads s) (ActiveUploads s) (MaxUploadRate s) (MaxDownloadRate s) (RecentDownloads s) (Peers s) (VerificationFailures s).

Definition json_headers : gmap string string := <["Content-Type" := "application/json"]> securityHeaders.

(** JSON has no text for a number that is not finite: the encoder refuses it, and
    nothing is written. *)
Definition handleAPIStats (now : Z) (d : Dashboard) : Response :=
  let s := set_overview now d (default zero_Stats (getStats d)) in
  if is_finite (P2PRatioPercent s) && is_finite (CacheUsagePercent s) && forallb (λ p, is_finite (Score p)) (Peers s)
  then mkResponse 200 json_headers (JSONStats s) else http_Error json_headers "Failed to encode stats" 500.

(** Calls [getPeers] without the check for nil ([None] is a panic). *)
Definition handleAPIPeers (d : Dashboard) : option Response :=
  ps ← getPeers d;
  Some (if forallb (λ p, is_finite (Score p)) ps then mkResponse 200 json_headers (JSONPeers ps)
        else http_Error json_headers "Failed to encode peers" 500).

(** The multiplexer, on clean paths. *)
Definition Handler (now : Z) (nonce : string) (exec_failed : bool) (path : string) (d : Dashboard) : option Response :=
  if String.eqb path "/api/stats" then Some (handleAPIStats now d)
  else if String.eqb path "/api/peers" then handleAPIPeers d
  else handleDashboard now nonce exec_failed path d.

End format.
End Dashboard.
