(* ===== verification/ServerStatus.v ===== *)
(** * The status of the proxy: internal/proxy/server.go and the statuses it reads

    The health check, the statistics page, the numbers and the peers shown by the
    dashboard, and the gauges that [UpdateMetrics] refreshes, on the models of the
    cache, the scheduler, the fleet coordinator, the scorer and the metrics.  The
    counters of requests are read atomically one by one; they are given. *)

From S2P Require Import Prelude GoStd GoText GoNum Cache MetaCache Scheduler Fleet Scorer Support Metrics Dashboard.
From Stdlib Require Import SpecFloat.
Open Scope Z_scope.
Open Scope go_scope.

Module ServerStatus.

(** ** scheduler.Status and fleet.Status *)

Record SchedulerStatus := mkSchedulerStatus {
  InWindow : bool; CurrentRate : Z; NextWindowOpen : option Z; Timezone : option Scheduler.Location; WindowCount : Z }.

Definition Scheduler_Status (now : Z) (s : option Scheduler.Scheduler) : SchedulerStatus :=
  match s with
  | None => mkSchedulerStatus true 0 None None 0
  | Some sc =>
      let inWindow := Scheduler.IsInWindow now s in
      mkSchedulerStatus inWindow (if inWindow then Scheduler.insideRate sc else Scheduler.outsideRate sc)
        (Scheduler.NextWindowStart now s) (Some (Scheduler.timezone sc)) (Z.of_nat (length (Scheduler.windows sc)))
  end.

Record CoordinatorStatus := mkCoordinatorStatus { InFlightCount : Z; PeerCount : Z }.
(** [mdns] is the number of mDNS peers, when there is a provider of peers. *)
Definition Coordinator_Status (mdns : option Z) (c : Fleet.Coordinator) : CoordinatorStatus :=
  mkCoordinatorStatus (Z.of_nat (size (Fleet.inFlight c))) (default 0 mdns).

(** ** State *)

Record Stats := mkStats {
  RequestsTotal : Z; RequestsP2P : Z; RequestsMirror : Z; BytesFromP2P : Z; BytesFromMirror : Z; CacheHits : Z;
  ActiveConnections : Z; MetadataHits : Z; MetadataMisses : Z; MetadataBytesSaved : Z }.

(** The peers and the routing table of the node. *)
Record NodeView := mkNodeView { n_ConnectedPeers : Z; n_RoutingTableSize : Z }.

Record Server := mkServer {
  counters : Stats; p2pNode : option NodeView; cache : option (Cache.Cache * MetaCache.Meta); cacheMaxSize : Z;
  connectivity : option Connectivity.Mode; scheduler : option Scheduler.Scheduler;
  fleet : option (Fleet.Coordinator * option Z); scorer : Scorer.Scorer; metrics : Metrics.Metrics }.

Definition GetStats (s : Server) : Stats := counters s.

(** ** The health check *)

Definition mode_String (m : Connectivity.Mode) : string :=
  match m with Connectivity.ModeOnline => "online" | Connectivity.ModeLANOnly => "lan_only" | Connectivity.ModeOffline => "offline" end.

Record HealthStatus := mkHealth {
  Status : string; Checks : gmap string string; h_ConnectedPeers : Z; h_RoutingTableSize : Z; ConnectivityMode : string }.

Definition handleHealth (s : Server) : Z * HealthStatus :=
  let '(checks, peers, table, healthy) :=
    match p2pNode s with
    | Some n =>
        let checks := <["dht" := if 0 <? n_RoutingTableSize n then "ok" else "no_peers"]> ∅ in
        (<["p2p" := if 0 <? n_ConnectedPeers n then "ok" else "no_connections"]> checks,
         n_ConnectedPeers n, n_RoutingTableSize n, true)
    | None => (<["p2p" := "not_initialized"]> ∅, 0, 0, false)
    end in
  let '(checks, healthy) :=
    match cache s with
    | Some _ => (<["cache" := "ok"]> checks, healthy)
    | None => (<["cache" := "not_initialized"]> checks, false)
    end in
  let mode := match connectivity s with Some m => mode_String m | None => "" end in
  if negb healthy then (503, mkHealth "unhealthy" checks peers table mode)
  else (200, mkHealth "healthy" checks peers table mode).

(** ** Statistics *)

Definition p2pRatio (st : Stats) : float64 :=
  let total := wrap64 (BytesFromP2P st + BytesFromMirror st) in
  if 0 <? total then fmul (fdiv (f_of_Z (BytesFromP2P st)) (f_of_Z total)) (f_of_Z 100) else Metrics.f_zero.

Record StatsResponse := mkStatsResponse {
  r_stats : Stats; P2PRatioPercent : float64; CacheSizeBytes : Z; CacheCount : Z; PackagesUncached : Z;
  MetadataCacheSize : Z; MetadataStaleServed : Z; r_Scheduler : option SchedulerStatus; r_Fleet : option CoordinatorStatus }.

(** Without a cache the handler panics ([None]). *)
Definition handleStats (io : Cache.IO) (now : Z) (s : Server) : option StatsResponse :=
  let st := GetStats s in
  '(c, mc) ← cache s;
  Some (mkStatsResponse st (p2pRatio st) (Cache.currentSize c) (Cache.Count io c)
    (Metrics.PackagesServedUncached (metrics s)) (MetaCache.metadataSize mc) (Metrics.MetadataCacheStaleServed (metrics s))
    ((λ sc, Scheduler_Status now (Some sc)) <$> scheduler s) ((λ f, Coordinator_Status f.2 f.1) <$> fleet s)).

(** ** For the dashboard *)

Section views.
Context `{FloatConv, MathExp, GoRange}.

Definition GetDashboardStats (io : Cache.IO) (s : Server) : option Dashboard.Stats :=
  let st := GetStats s in
  '(c, _) ← cache s;
  let usage := if 0 <? cacheMaxSize s then fmul (fdiv (f_of_Z (Cache.currentSize c)) (f_of_Z (cacheMaxSize s))) (f_of_Z 100) else Metrics.f_zero in
  let '(peers, table) := match p2pNode s with Some n => (n_ConnectedPeers n, n_RoutingTableSize n) | None => (0, 0) end in
  maxSize ← Dashboard.formatBytes (cacheMaxSize s);
  Some (Dashboard.mkStats "" "" "" "" (p2pRatio st) (RequestsTotal st) (RequestsP2P st) (RequestsMirror st) (CacheHits st)
    (BytesFromP2P st) (BytesFromMirror st) "" "" (Cache.currentSize c) "" (Cache.Count io c) maxSize usage peers table
    (f_to_int64 (Metrics.ActiveDownloads (metrics s))) (f_to_int64 (Metrics.ActiveUploads (metrics s))) "" "" [] []
    (Metrics.VerificationFailures (metrics s))).

(** [formatDuration] of the proxy, unlike that of the dashboard, stops at minutes. *)
Definition formatDuration (d : Z) : string :=
  if d <? Second then Itoa (Milliseconds d) +:+ "ms"
  else if d <? Minute then Sprintf_1f (Seconds d) +:+ "s"
  else Itoa (f_to_int64 (Minutes d)) +:+ "m".

Definition shortID (id : string) : string :=
  if (12 <? String.length id)%nat then str_take 6 id +:+ "..." +:+ str_drop (String.length id - 6) id else id.

Definition category (ps : Scorer.PeerScore) (score : float64) : string :=
  if Scorer.Blacklisted ps then "Blacklisted"
  else if SFleb (f_dec 8 10) score then "Excellent"
  else if SFleb (f_dec 6 10) score then "Good"
  else if SFleb (f_dec 4 10) score then "Fair"
  else if 0 <? Scorer.TotalRequests ps then "Poor" else "Unknown".

Definition peerInfo (now : Z) (sc : Scorer.Scorer) (p : string * Scorer.PeerScore) : option Dashboard.PeerInfo :=
  let '(id, ps) := p in
  let score := Scorer.GetScore now id sc in
  rate ← Dashboard.formatBytes (f_to_int64 (Scorer.AvgThroughput ps));
  down ← Dashboard.formatBytes (Scorer.BytesDownloaded ps);
  up ← Dashboard.formatBytes (Scorer.BytesUploaded ps);
  Some (Dashboard.mkPeerInfo id (shortID id) score (category ps score)
    (formatDuration (wrap64 (f_to_int64 (Scorer.AvgLatencyMs ps) * Millisecond))) (rate +:+ "/s") down up
    (formatDuration (now - Scorer.LastSeen ps) +:+ " ago") (Scorer.Blacklisted ps)).

Definition GetPeerInfo (now : Z) (s : Server) : option (list Dashboard.PeerInfo) :=
  match p2pNode s with
  | None => Some []
  | Some _ => mapM (peerInfo now (scorer s)) (go_range (map_to_list (Scorer.peers (scorer s))))
  end.

(** ** UpdateMetrics *)

Definition UpdateMetrics (io : Cache.IO) (now : Z) (s : Server) : option Metrics.Metrics :=
  let m := metrics s in
  '(c, mc) ← cache s;
  let '(peers, table) :=
    match p2pNode s with
    | Some n => (f_of_Z (n_ConnectedPeers n), f_of_Z (n_RoutingTableSize n))
    | None => (Metrics.ConnectedPeers m, Metrics.RoutingTableSize m)
    end in
  let '(window, rate) :=
    match scheduler s with
    | Some _ => (if Scheduler.IsInWindow now (scheduler s) then f_of_Z 1 else f_of_Z 0,
                 f_of_Z (Scheduler.GetCurrentRate now (scheduler s) false))
    | None => (Metrics.SchedulerWindowActive m, Metrics.SchedulerCurrentRate m)
    end in
  let '(fleetPeers, inFlight) :=
    match fleet s with
    | Some (f, mdns) =>
        let st := Coordinator_Status mdns f in (f_of_Z (PeerCount st), f_of_Z (InFlightCount st))
    | None => (Metrics.FleetPeers m, Metrics.FleetInFlight m)
    end in
  Some (Metrics.set_status (f_of_Z (Cache.currentSize c)) (f_of_Z (Cache.Count io c)) (f_of_Z (MetaCache.metadataSize mc))
    peers table window rate fleetPeers inFlight m).

End views.
End ServerStatus.
