(* ===== verification/DashboardSys.v ===== *)
(** * The dashboard and the status pages: what they show

    Sizes are shown in the unit that leaves between 1 and 1024 of them and no index
    is out of range ([formatBytes_spec]); the activity list is the newest fifty
    downloads, and whatever names and sources were recorded, and whatever path is
    asked for, a response allows no script but the one with the nonce of its page
    ([dashboard_safe]); a health check passes exactly when the node and the cache
    are there; and the gauges served after [UpdateMetrics] are the numbers of the
    components ([gauges_current]). *)

From S2P Require Import Prelude GoStd GoText GoNum FloatInt Cache MetaCache Scheduler Fleet Scorer Support Metrics MetricsSys Dashboard ServerStatus.
From Stdlib Require Import SpecFloat Ascii.
Open Scope Z_scope.
Open Scope go_scope.

Module DashboardSys.
Import Dashboard.

(** ** Sizes *)

Lemma unit_loop_spec b e fuel :
  0 <= b < 1024 ^ 7 → (e <= 5)%nat → (6 - e <= fuel)%nat → 1024 ^ (Z.of_nat e + 1) <= b →
  ∃ k, (e <= k <= 5)%nat ∧ 1024 ^ (Z.of_nat k + 1) <= b < 1024 ^ (Z.of_nat k + 2) ∧
    unit_loop fuel (b / 1024 ^ (Z.of_nat e + 1)) (1024 ^ (Z.of_nat e + 1)) e = (1024 ^ (Z.of_nat k + 1), k).
Proof.
  intros Hb. revert e. induction fuel as [|fuel IH]; intros e He Hf Hlow; [lia|]. cbn [unit_loop]. unfold unit_.
  assert (0 < 1024 ^ (Z.of_nat e + 1)) as Hp by (apply Z.pow_pos_nonneg; lia).
  assert (1024 ^ (Z.of_nat e + 2) = 1024 ^ (Z.of_nat e + 1) * 1024) as Hs.
  { replace (Z.of_nat e + 2) with (Z.succ (Z.of_nat e + 1)) by lia. rewrite Z.pow_succ_r; lia. }
  destruct (1024 <=? _) eqn:Hn.
  - assert (1024 ^ (Z.of_nat e + 2) <= b) as Hnext.
    { rewrite Hs. apply Z.leb_le in Hn. pose proof (Z.mul_div_le b _ Hp). nia. }
    assert (e < 5)%nat as He5.
    { destruct (decide (e = 5%nat)) as [->|]; [|lia]. change (1024 ^ (Z.of_nat 5 + 2)) with (1024 ^ 7) in Hnext. lia. }
    rewrite Z.quot_div_nonneg by (try apply Z.div_pos; lia). rewrite Z.div_div, <- Hs by lia.
    destruct (IH (S e)) as (k & Hk & Hkb & Heq); [lia|lia| |].
    { replace (Z.of_nat (S e) + 1) with (Z.of_nat e + 2) by lia. done. }
    exists k. split; [lia|]. split; [done|]. replace (Z.of_nat (S e) + 1) with (Z.of_nat e + 2) in Heq by lia.
    rewrite wrap64_id; [exact Heq|]. unfold int64_range. split; [lia|].
    assert (1024 ^ (Z.of_nat e + 2) <= 1024 ^ 6) by (apply Z.pow_le_mono_r; lia). assert (1024 ^ 6 < 2 ^ 63) by done. lia.
  - exists e. split; [lia|]. split; [|done]. split; [done|]. rewrite Hs.
    apply Z.leb_gt in Hn. pose proof (Z.mul_succ_div_gt b _ Hp). nia.
Qed.

Definition units (k : nat) : option ascii := String.get k "KMGTPE".

Lemma units_total k : (k <= 5)%nat → is_Some (units k).
Proof. intros Hk. do 6 (destruct k as [|k]; [by eexists|]). lia. Qed.

(** A size of at least 1024 is divided by the power of 1024 that leaves between 1
    and 1024 units; the unit exists, and the divisor does not overflow. *)
Lemma formatBytes_spec b :
  1024 <= b < 2 ^ 63 →
  ∃ k u, 1024 ^ (Z.of_nat k + 1) <= b < 1024 ^ (Z.of_nat k + 2) ∧ units k = Some u ∧
    formatBytes b = Some (Sprintf_1f (fdiv (f_of_Z b) (f_of_Z (1024 ^ (Z.of_nat k + 1)))) +:+ " " +:+ String u "B").
Proof.
  intros Hb. assert (2 ^ 63 < 1024 ^ 7) by done.
  destruct (unit_loop_spec b 0 64) as (k & Hk & Hkb & Heq); [lia..|]. destruct (units_total k ltac:(lia)) as [u Hu].
  exists k, u. split; [done|]. split; [done|]. unfold formatBytes. unfold unit_ at 1.
  replace (b <? 1024) with false by (symmetry; blia). unfold unit_. rewrite Z.quot_div_nonneg by lia.
  change (1024 ^ (Z.of_nat 0 + 1)) with 1024 in Heq. rewrite Heq. unfold units in Hu. by rewrite Hu.
Qed.

Lemma formatBytes_total b : b < 2 ^ 63 → is_Some (formatBytes b).
Proof.
  intros Hb. destruct (decide (1024 <= b)).
  - destruct (formatBytes_spec b) as (k & u & _ & _ & ->); [lia|]. by eexists.
  - unfold formatBytes, unit_. replace (b <? 1024) with true by (symmetry; blia). by eexists.
Qed.

Example formatBytes_ex :
  formatBytes <$> [0; 1023; 1024; 1536; 10 * 1024 ^ 3; 2 ^ 63 - 1; -5]
  = Some <$> ["0 B"; "1023 B"; "1.0 KB"; "1.5 KB"; "10.0 GB"; "8.0 EB"; "-5 B"].
Proof. vm_compute. reflexivity. Qed.

(** Just below a unit the text rounds up to 1024 of the smaller one. *)
Example formatBytes_rounds_up : formatBytes (1024 ^ 2 - 1) = Some "1024.0 KB".
Proof. vm_compute. reflexivity. Qed.

Example formatDuration_ex :
  formatDuration (H := amd64) <$> [999999999; 59950000000; 61 * Second; 26 * Hour + 61 * Second]
  = ["999ms"; "60.0s"; "1m 1s"; "26h 1m"].
Proof. vm_compute. reflexivity. Qed.

(** ** The activity list *)

Lemma css_filter_safe s : str_forallb css_safe (css_filter s) = true.
Proof. induction s as [|a s IH]; [done|]. cbn [css_filter]. destruct (css_safe a) eqn:Ha; [|done]. cbn [str_forallb]. by rewrite Ha. Qed.

Lemma sanitizeForCSS_safe s : str_forallb css_safe (sanitizeForCSS s) = true ∧ sanitizeForCSS s ≠ "".
Proof.
  unfold sanitizeForCSS. pose proof (css_filter_safe s). destruct (css_filter s); [by vm_compute|].
  split; [done|]. by cbn.
Qed.

(** What is safe already is kept as it is. *)
Lemma sanitizeForCSS_id s : s ≠ "" → str_forallb css_safe s = true → sanitizeForCSS s = s.
Proof.
  intros Hne Hs. assert (css_filter s = s) as Hf.
  { clear Hne. induction s as [|a s IH]; [done|]. cbn [css_filter str_forallb] in *. apply andb_prop in Hs as [-> ?]. by rewrite IH. }
  unfold sanitizeForCSS. rewrite Hf. by destruct s.
Qed.

Lemma truncateFilename_length s n : (3 <= n)%nat → (String.length (truncateFilename s n) <= n)%nat.
Proof.
  intros Hn. unfold truncateFilename. destruct (_ <=? _)%nat eqn:Hl; [by apply Nat.leb_le|].
  rewrite str_length_app, str_length_take_le. cbn [String.length]. lia.
Qed.

Section dashboard.
Context `{FloatConv} (clock date : Z → string).

(** A download as it is recorded: when, and the four arguments. *)
Record download := mkDownload { at_ : Z; name : string; size : Z; source : string; duration : Z }.

Definition entry (dl : download) : RecentDownload :=
  mkRecent (clock (at_ dl)) (truncateFilename (name dl) 40) (default "" (formatBytes (size dl)))
    (sanitizeForCSS (source dl)) (formatDuration (duration dl)).

Definition record_all (dls : list download) (d : Dashboard) : option Dashboard :=
  foldl (λ o dl, o ≫= RecordDownload clock (at_ dl) (name dl) (size dl) (source dl) (duration dl)) (Some d) dls.

Definition with_recent (d : Dashboard) (l : list RecentDownload) : Dashboard :=
  mkDashboard (getStats d) (getPeers d) (startTime d) (version d) (peerID d) (maxUploadRate d) (maxDownRate d) l (maxRecent d).

(** The list is always the newest ones, the newest first. *)
Lemma record_all_spec d dls :
  recentDLs d = [] → Forall (λ dl, size dl < 2 ^ 63) dls →
  record_all dls d = Some (with_recent d (take (maxRecent d) (rev (entry <$> dls)))).
Proof.
  intros Hd. unfold record_all. induction dls as [|dl dls IH] using rev_ind; intros Hs.
  { cbn. rewrite take_nil, <- Hd. by destruct d. }
  apply Forall_app in Hs as [Hs Hdl]. apply Forall_inv in Hdl. rewrite foldl_snoc, (IH Hs).
  cbn [mbind option_bind]. unfold RecordDownload. destruct (formatBytes_total _ Hdl) as [sz Hsz]. rewrite Hsz.
  cbn [mbind option_bind]. unfold with_recent. cbn [getStats getPeers startTime version peerID maxUploadRate maxDownRate maxRecent recentDLs].
  do 2 f_equal. rewrite fmap_app, rev_app_distr. cbn [fmap list_fmap rev app].
  replace (mkRecent _ _ _ _ _) with (entry dl) by (unfold entry; by rewrite Hsz).
  destruct (maxRecent d) as [|n]; [done|]. cbn [take]. f_equal.
  destruct (_ <? _)%nat eqn:Hlt; cbn [take]; f_equal.
  - rewrite take_take. f_equal. lia.
  - apply Nat.ltb_ge in Hlt. cbn [length] in Hlt. rewrite length_take in Hlt.
    destruct (decide (length (rev (entry <$> dls)) <= n)%nat) as [Hle|]; [|lia].
    by rewrite !take_ge by lia.
Qed.

Lemma entry_safe dl :
  str_forallb css_safe (Source (entry dl)) = true ∧ Source (entry dl) ≠ "" ∧ (String.length (Filename (entry dl)) <= 40)%nat.
Proof. destruct (sanitizeForCSS_safe (source dl)). split_and!; [done..|]. apply truncateFilename_length. lia. Qed.

(** ** The responses *)

Definition default_csp : string := default "" (securityHeaders !! "Content-Security-Policy").

(** Not framed, not sniffed, not cached. *)
Definition guarded (r : Response) : Prop :=
  headers r !! "X-Frame-Options" = Some "DENY" ∧ headers r !! "X-Content-Type-Options" = Some "nosniff" ∧
  headers r !! "Cache-Control" = Some "no-store, no-cache, must-revalidate" ∧
  headers r !! "Referrer-Policy" = Some "strict-origin-when-cross-origin".

Definition sizes_ok (s : Stats) : Prop := BytesFromP2P s < 2 ^ 63 ∧ BytesFromMirror s < 2 ^ 63 ∧ CacheSizeBytes s < 2 ^ 63.

Definition safe_entry (e : RecentDownload) : Prop :=
  str_forallb css_safe (Source e) = true ∧ Source e ≠ "" ∧ (String.length (Filename e) <= 40)%nat.

(** What a page shows and allows. *)
Definition page_ok (nonce : string) (dls : list download) (peers : list PeerInfo) (r : Response) : Prop :=
  ∀ s n, body r = HTML s n →
    n = nonce ∧ status r = 200 ∧ headers r !! "Content-Security-Policy" = Some (csp nonce) ∧
    RecentDownloads s = take 50 (rev (entry <$> dls)) ∧ Forall safe_entry (RecentDownloads s) ∧ Peers s = peers.

Lemma http_Error_ok nonce dls peers h msg code :
  (∃ ct c, h = <["Content-Type" := ct]> (<["Content-Security-Policy" := c]> securityHeaders)) ∨ h = securityHeaders ∨ h = json_headers →
  guarded (http_Error h msg code) ∧ page_ok nonce dls peers (http_Error h msg code) ∧
  headers (http_Error h msg code) !! "Content-Security-Policy" = h !! "Content-Security-Policy".
Proof. intros [(ct & c & ->)|[->| ->]]; (split; [by vm_compute|split; [done|by vm_compute]]). Qed.

Lemma json_ok nonce dls peers b :
  (∀ s n, b ≠ HTML s n) →
  guarded (mkResponse 200 json_headers b) ∧ page_ok nonce dls peers (mkResponse 200 json_headers b) ∧
  json_headers !! "Content-Security-Policy" = Some default_csp.
Proof. intros Hb. split; [by vm_compute|]. split; [|by vm_compute]. intros s n Hbody. by destruct (Hb s n). Qed.

Lemma fillDashboard_total now d s :
  sizes_ok s → ∃ s', fillDashboard date now d s = Some s' ∧ RecentDownloads s' = recentDLs d ∧
    Peers s' = default (Peers s) (getPeers d).
Proof.
  intros (H1 & H2 & H3). unfold fillDashboard.
  destruct (formatBytes_total _ H1) as [a ->], (formatBytes_total _ H2) as [b ->], (formatBytes_total _ H3) as [c ->].
  eexists. split; [done|]. split; [done|]. by destruct (getPeers d).
Qed.

(** The dashboard is safe to open, whatever was downloaded and whatever path is
    asked for: with a provider of peers and sizes that are int64 values, no handler
    panics, and every response forbids framing, sniffing and caching; its policy
    admits no script at all, or, on the two paths of the page, only the script that
    carries the fresh nonce; and the page lists exactly the newest fifty downloads,
    the newest first, every source a non-empty name of letters, digits and hyphens
    (it becomes a CSS class) and every file name of at most forty bytes. *)
Theorem dashboard_safe start cfg stats peers dls now nonce exec_failed path :
  Forall (λ dl, size dl < 2 ^ 63) dls → sizes_ok (default zero_Stats stats) →
  ∃ d r, record_all dls (New start cfg stats (Some peers)) = Some d ∧
    Handler date now nonce exec_failed path d = Some r ∧
    guarded r ∧ page_ok nonce dls peers r ∧
    (headers r !! "Content-Security-Policy" = Some default_csp ∨
     (path = "/" ∨ path = "/dashboard") ∧ headers r !! "Content-Security-Policy" = Some (csp nonce)).
Proof.
  intros Hdls Hst. rewrite record_all_spec by done. set (d := with_recent _ _). exists d. unfold Handler.
  destruct (String.eqb path "/api/stats") eqn:H1; [|destruct (String.eqb path "/api/peers") eqn:H2].
  - eexists. split; [done|]. split; [done|]. unfold handleAPIStats. destruct (_ && _).
    + destruct (json_ok nonce dls peers (JSONStats (set_overview now d (default zero_Stats (getStats d)))) ltac:(done)) as (? & ? & ?). auto.
    + destruct (http_Error_ok nonce dls peers json_headers "Failed to encode stats" 500 ltac:(auto)) as (? & ? & ->). auto.
  - eexists. split; [done|]. split; [done|]. destruct (forallb _ _).
    + destruct (json_ok nonce dls peers (JSONPeers peers) ltac:(done)) as (? & ? & ?). auto.
    + destruct (http_Error_ok nonce dls peers json_headers "Failed to encode peers" 500 ltac:(auto)) as (? & ? & ->). auto.
  - unfold handleDashboard. destruct (negb _ && negb _) eqn:Hpath.
    { eexists. split; [done|]. split; [done|].
      destruct (http_Error_ok nonce dls peers securityHeaders "404 page not found" 404 ltac:(auto)) as (? & ? & ->). auto. }
    assert (path = "/" ∨ path = "/dashboard").
    { destruct (String.eqb_spec path "/"), (String.eqb_spec path "/dashboard"); auto; done. }
    destruct (fillDashboard_total now d (default zero_Stats (getStats d)) Hst) as (s' & -> & Hr & Hp).
    eexists. split; [done|]. split; [done|]. destruct exec_failed.
    + match goal with |- guarded (http_Error ?h ?m ?c) ∧ _ =>
        destruct (http_Error_ok nonce dls peers h m c ltac:(eauto)) as (? & ? & ->) end. auto.
    + split; [by vm_compute|]. split; [|right; split; [done|by vm_compute]].
      intros s n [= <- <-]. split_and!; [done|done|by vm_compute|done| |done].
      rewrite Hr. apply Forall_take, Forall_rev, Forall_fmap, Forall_true. intros dl. apply entry_safe.
Qed.

End dashboard.

(** Two downloads, one with a hostile source and a long name, and the page asked
    for. *)
Lemma dashboard_safe_witness :
  let dls := [mkDownload 0 "hello_2.10-3_amd64.deb" 53084 "p2p" (2 * Second);
              mkDownload Second "a-package-with-a-name-that-is-longer-than-forty-bytes.deb" 1048576 "x onload=alert(1)" Millisecond] in
  let clock := λ _ : Z, "12:00:00" in
  (∀ e, e ∈ entry (H := amd64) clock <$> dls → Source e = "p2p" ∨ Source e = "xonloadalert1") ∧
  ∃ d r, record_all (H := amd64) clock dls (New 0 (mkConfig "1" "id" "" "") None (Some [])) = Some d ∧
    Handler (H := amd64) (λ _, "date") Hour "bm9uY2U" false "/dashboard" d = Some r ∧
    guarded r ∧ page_ok (H := amd64) clock "bm9uY2U" dls [] r ∧
    (headers r !! "Content-Security-Policy" = Some default_csp ∨
     ("/dashboard" = "/" ∨ "/dashboard" = "/dashboard") ∧ headers r !! "Content-Security-Policy" = Some (csp "bm9uY2U")).
Proof.
  intros dls clock. split.
  - intros e He. vm_compute in He. set_unfold. destruct He as [->|[->|[]]]; [left|right]; vm_compute; reflexivity.
  - apply (dashboard_safe (H := amd64) clock (λ _, "date") 0 (mkConfig "1" "id" "" "") None [] dls Hour "bm9uY2U" false "/dashboard").
    + repeat constructor; vm_compute; reflexivity.
    + vm_compute. split_and!; reflexivity.
Defined.

(** A peer whose score is not a number takes the list of peers down. *)
Example nan_score_500 :
  let p := mkPeerInfo "id" "id" S754_nan "Unknown" "" "" "" "" "" false in
  status <$> handleAPIPeers (New 0 (mkConfig "1" "id" "" "") None (Some [p])) = Some 500.
Proof. vm_compute. reflexivity. Qed.

(** Without a provider of peers the page is served and the list of peers panics. *)
Example no_provider :
  let d := New 0 (mkConfig "1" "id" "" "") None None in
  (status <$> handleDashboard (H := amd64) (λ _, "date") 0 "n" false "/" d) = Some 200 ∧ handleAPIPeers d = None.
Proof. vm_compute. done. Qed.

(** ** The status of the server *)

Import ServerStatus.

(** A health check passes exactly when there are a node and a cache. *)
Lemma health_exact s :
  (handleHealth s).1 = match p2pNode s, cache s with Some _, Some _ => 200 | _, _ => 503 end ∧
  (Status (handleHealth s).2 = "healthy" ↔ (handleHealth s).1 = 200).
Proof. unfold handleHealth. destruct (p2pNode s) as [n|], (cache s) as [c|]; by cbn. Qed.

(** A gauge as it is served. *)
Definition served `{FloatConv} (name : string) (g : float64) (z : Z) : Prop :=
  Metrics.writeGauge name g = Some ("# TYPE " +:+ name +:+ " gauge" +:+ Metrics.LF +:+ name +:+ " " +:+ Itoa z +:+ Metrics.LF).

Lemma served_whole `{FloatConv} name z : small z → served name (f_of_Z z) z.
Proof. intros Hz. unfold served, Metrics.writeGauge. by rewrite ftoa_whole. Qed.

(** After [UpdateMetrics] the gauges on the metrics page are the numbers of the
    components themselves, to the last digit, as long as they are below 2^53. *)
Lemma gauges_current `{FloatConv} io now s c mc :
  cache s = Some (c, mc) → small (Cache.currentSize c) → small (Cache.Count io c) → small (MetaCache.metadataSize mc) →
  ∃ m, UpdateMetrics io now s = Some m ∧
    served "debswarm_cache_size_bytes" (Metrics.CacheSize m) (Cache.currentSize c) ∧
    served "debswarm_cache_count" (Metrics.CacheCount m) (Cache.Count io c) ∧
    served "debswarm_metadata_cache_size_bytes" (Metrics.MetadataCacheSize m) (MetaCache.metadataSize mc) ∧
    (∀ n, p2pNode s = Some n → small (n_ConnectedPeers n) →
      served "debswarm_connected_peers" (Metrics.ConnectedPeers m) (n_ConnectedPeers n)) ∧
    (∀ sc, scheduler s = Some sc →
      served "debswarm_scheduler_window_active" (Metrics.SchedulerWindowActive m)
        (if Scheduler.IsInWindow now (Some sc) then 1 else 0)) ∧
    (∀ f mdns, fleet s = Some (f, mdns) → small (Z.of_nat (base.size (Fleet.inFlight f))) →
      served "debswarm_fleet_in_flight" (Metrics.FleetInFlight m) (Z.of_nat (base.size (Fleet.inFlight f)))).
Proof.
  intros Hc H1 H2 H3. unfold UpdateMetrics. rewrite Hc. cbn [mbind option_bind].
  destruct (p2pNode s) as [n|], (scheduler s) as [sc|], (fleet s) as [[f mdns]|];
    (eexists; split; [done|]; split_and!; [by apply served_whole..| | |]; intros; simplify_eq; try by apply served_whole);
    unfold Metrics.set_status; cbn [Metrics.SchedulerWindowActive]; destruct (Scheduler.IsInWindow _ _); by apply served_whole.
Qed.

End DashboardSys.
