(* ===== verification/RelayWatch.v ===== *)
(** * internal/p2p/relay.go: relay candidates and the observers of the relay

    The limits of a relay, the configured relays, the candidates found in the DHT,
    the relay service this node runs for others, and the observers that turn the
    events of the host (connections, addresses, reachability, hole punches,
    circuits) into metrics and start and stop the service.  Multiaddrs, the default
    limits of circuit relays and the DHT are parameters. *)

From S2P Require Import Prelude GoStd GoText GoNum Metrics Node.
Open Scope Z_scope.
Open Scope go_scope.

Module RelayWatch.

(** ** Limits *)

Record RelayLimit := mkLimit { Data : Z; Duration : Z }.
(** [Limit] is a pointer. *)
Record Resources := mkResources { MaxReservations : Z; MaxCircuits : Z; Limit : option RelayLimit }.
Record RelayConfig := mkRelayConfig { RelayMaxReservations : Z; RelayMaxCircuits : Z; RelayBufferSize : Z; RelayDuration : Z }.

(** [None]: the default limit is nil and is dereferenced. *)
Definition relayResourcesFrom (DefaultResources : Resources) (cfg : RelayConfig) : option Resources :=
  let res := DefaultResources in
  let reservations := if 0 <? RelayMaxReservations cfg then RelayMaxReservations cfg else MaxReservations res in
  let circuits := if 0 <? RelayMaxCircuits cfg then RelayMaxCircuits cfg else MaxCircuits res in
  if (0 <? RelayBufferSize cfg) || (0 <? RelayDuration cfg) then
    limit ← Limit res;
    Some (mkResources reservations circuits (Some (mkLimit
      (if 0 <? RelayBufferSize cfg then RelayBufferSize cfg else Data limit)
      (if 0 <? RelayDuration cfg then RelayDuration cfg else Duration limit))))
  else Some (mkResources reservations circuits (Limit res)).

Section relay.
Context {Addr : Type} (isCircuitAddr : Addr → bool).

(** ** Candidates *)

(** A peer's ID and addresses. *)
Abbreviation AddrInfo := (string * list Addr)%type.

Fixpoint ParseRelayPeers (AddrInfoFromString : string → option AddrInfo) (addrs : list string) : list AddrInfo :=
  match addrs with
  | [] => []
  | a :: addrs =>
      if String.eqb a "" then ParseRelayPeers AddrInfoFromString addrs
      else
        match AddrInfoFromString a with
        | None => ParseRelayPeers AddrInfoFromString addrs
        | Some info => info :: ParseRelayPeers AddrInfoFromString addrs
        end
  end.

(** The node the source is attached to, once it is. *)
Record NodeRef := mkNodeRef { hostID : string; hasDiscovery : bool; privateSwarm : bool }.
Record relaySource := mkSource { node : option NodeRef }.
Definition attach (n : NodeRef) (rs : relaySource) : relaySource := mkSource (Some n).

(** The loop over the peers found; [room] is how many the other side takes before
    the context ends, if it does. *)
Fixpoint sendCandidates (self : string) (num sent : Z) (room : option nat) (found : list AddrInfo) : list AddrInfo :=
  match found with
  | [] => []
  | p :: found =>
      if String.eqb p.1 self || (length p.2 =? 0)%nat then sendCandidates self num sent room found
      else
        match room with
        | Some O => []
        | _ =>
            let sent := sent + 1 in
            p :: (if num <=? sent then [] else sendCandidates self num sent (pred <$> room) found)
        end
  end.

(** What is sent before the channel is closed; [found] is the answer of the DHT. *)
Definition FindCandidates (num : Z) (room : option nat) (found : option (list AddrInfo)) (rs : relaySource) : list AddrInfo :=
  match node rs with
  | None => []
  | Some n =>
      if negb (hasDiscovery n) then []
      else if privateSwarm n then []
      else match found with None => [] | Some l => sendCandidates (hostID n) num 0 room l end
  end.

(** ** Observers *)

Inductive Reachability := ReachabilityUnknown | ReachabilityPublic | ReachabilityPrivate.
#[global] Instance Reachability_eq_dec : EqDecision Reachability.
Proof. solve_decision. Defined.

Definition states : list (string * Reachability) :=
  [("public", ReachabilityPublic); ("private", ReachabilityPrivate); ("unknown", ReachabilityUnknown)].

(** The metrics, the count the watcher of addresses remembers, and whether the relay
    service runs ([n.relayService] is set). *)
Record Watch := mkWatch { metrics : Metrics.Metrics; lastCount : Z; running : bool }.
Definition set_metrics (m : Metrics.Metrics) (w : Watch) : Watch := mkWatch m (lastCount w) (running w).

Section observers.
Context `{GoRange}.

Definition recordReachability (r : Reachability) (m : Metrics.Metrics) : Metrics.Metrics :=
  let set gv (ls : string * Reachability) :=
    Metrics.with_label Metrics.f_zero ls.1 (Metrics.Gauge_Set (if bool_decide (ls.2 = r) then f_of_Z 1 else f_of_Z 0)) gv in
  Metrics.set_relay (Metrics.RelayReservations m) (Metrics.RelayReservationsOK m) (Metrics.HolePunchTotal m) (Metrics.ConnectionsByType m)
    (Metrics.RelayServiceActive m) (Metrics.RelayCircuitsActive m) (foldl set (Metrics.Reachability m) (go_range states)) m.

(** One notification of [watchRelayReservations]. *)
Definition addressesUpdated (addrs : list Addr) (w : Watch) : Watch :=
  let m := metrics w in
  let count := Z.of_nat (length (List.filter isCircuitAddr addrs)) in
  let active := Metrics.with_label Metrics.f_zero "active" (Metrics.Gauge_Set (f_of_Z count)) (Metrics.RelayReservations m) in
  let ok := if lastCount w <? count then Metrics.Counter_Add (count - lastCount w) (Metrics.RelayReservationsOK m)
            else Metrics.RelayReservationsOK m in
  mkWatch (Metrics.set_relay active ok (Metrics.HolePunchTotal m) (Metrics.ConnectionsByType m)
    (Metrics.RelayServiceActive m) (Metrics.RelayCircuitsActive m) (Metrics.Reachability m) m) count (running w).

(** [limited] is the flag of a connection over a circuit. *)
Definition connLabel (limited : bool) : string := if limited then "relayed" else "direct".
Definition adjustConnectionGauge (limited : bool) (delta : float64) (m : Metrics.Metrics) : Metrics.Metrics :=
  Metrics.set_relay (Metrics.RelayReservations m) (Metrics.RelayReservationsOK m) (Metrics.HolePunchTotal m)
    (Metrics.with_label Metrics.f_zero (connLabel limited) (Metrics.Gauge_Add delta) (Metrics.ConnectionsByType m))
    (Metrics.RelayServiceActive m) (Metrics.RelayCircuitsActive m) (Metrics.Reachability m) m.

(** An event of the hole puncher: the end of an attempt, or another one. *)
Definition Trace (end_ : option bool) (m : Metrics.Metrics) : Metrics.Metrics :=
  match end_ with
  | None => m
  | Some success =>
      Metrics.set_relay (Metrics.RelayReservations m) (Metrics.RelayReservationsOK m)
        (Metrics.with_label 0 (if success then "success" else "failure") Metrics.Counter_Inc (Metrics.HolePunchTotal m))
        (Metrics.ConnectionsByType m) (Metrics.RelayServiceActive m) (Metrics.RelayCircuitsActive m) (Metrics.Reachability m) m
  end.

Definition set_service (service circuits : float64) (m : Metrics.Metrics) : Metrics.Metrics :=
  Metrics.set_relay (Metrics.RelayReservations m) (Metrics.RelayReservationsOK m) (Metrics.HolePunchTotal m) (Metrics.ConnectionsByType m)
    service circuits (Metrics.Reachability m) m.

Definition RelayStatus (enabled : bool) (m : Metrics.Metrics) : Metrics.Metrics :=
  set_service (Metrics.Gauge_Set (if enabled then f_of_Z 1 else f_of_Z 0) (Metrics.RelayServiceActive m)) (Metrics.RelayCircuitsActive m) m.
Definition ConnectionOpened (m : Metrics.Metrics) : Metrics.Metrics :=
  set_service (Metrics.RelayServiceActive m) (Metrics.Gauge_Inc (Metrics.RelayCircuitsActive m)) m.
Definition ConnectionClosed (m : Metrics.Metrics) : Metrics.Metrics :=
  set_service (Metrics.RelayServiceActive m) (Metrics.Gauge_Dec (Metrics.RelayCircuitsActive m)) m.

(** ** The relay service *)

(** [ok]: whether the service can be started. *)
Definition startRelayService (ok : bool) (w : Watch) : Watch :=
  if running w then w
  else if negb ok then w
  else let m := metrics w in
       mkWatch (set_service (Metrics.Gauge_Set (f_of_Z 1) (Metrics.RelayServiceActive m)) (Metrics.RelayCircuitsActive m) m) (lastCount w) true.

Definition stopRelayService (w : Watch) : Watch :=
  if negb (running w) then w
  else let m := metrics w in
       mkWatch (set_service (Metrics.Gauge_Set (f_of_Z 0) (Metrics.RelayServiceActive m))
                  (Metrics.Gauge_Set (f_of_Z 0) (Metrics.RelayCircuitsActive m)) m) (lastCount w) false.

(** The node as it is set up: in mode "on" the service is started. *)
Definition initial (mode : Node.RelayMode) (ok : bool) (m : Metrics.Metrics) : Watch :=
  let w := mkWatch m 0 false in
  match mode with Node.RelayServiceOn => startRelayService ok w | _ => w end.

(** One verdict of AutoNAT. *)
Definition watchReachability (mode : Node.RelayMode) (r : Reachability) (ok : bool) (w : Watch) : Watch :=
  let w := set_metrics (recordReachability r (metrics w)) w in
  match mode with
  | Node.RelayServiceAuto =>
      match r with
      | ReachabilityPublic => startRelayService ok w
      | ReachabilityPrivate => stopRelayService w
      | ReachabilityUnknown => w
      end
  | _ => w
  end.

(** What the host reports, and the end of the node. *)
Inductive event :=
| Connected (limited : bool) | Disconnected (limited : bool)
| AddressesUpdated (addrs : list Addr)
| ReachabilityChanged (r : Reachability) (ok : bool)
| HolePunch (end_ : option bool)
| ServiceStatus (enabled : bool) | CircuitOpened | CircuitClosed
| NodeClosed.

(** The subscriptions of [trackConnectionTypes], [watchRelayReservations],
    [watchReachability] and of the two tracers, and [Close] of the node. *)
Definition observe (mode : Node.RelayMode) (w : Watch) (e : event) : Watch :=
  match e with
  | Connected l => set_metrics (adjustConnectionGauge l (f_of_Z 1) (metrics w)) w
  | Disconnected l => set_metrics (adjustConnectionGauge l (f_of_Z (-1)) (metrics w)) w
  | AddressesUpdated addrs => addressesUpdated addrs w
  | ReachabilityChanged r ok => watchReachability mode r ok w
  | HolePunch e => set_metrics (Trace e (metrics w)) w
  | ServiceStatus b => set_metrics (RelayStatus b (metrics w)) w
  | CircuitOpened => set_metrics (ConnectionOpened (metrics w)) w
  | CircuitClosed => set_metrics (ConnectionClosed (metrics w)) w
  | NodeClosed => stopRelayService w
  end.

End observers.
End relay.
End RelayWatch.
