(* ===== verification/RelayWatchSys.v ===== *)
(** * internal/p2p/relay.go: the relay metrics count what happens

    An abstract record of whole numbers (connections by type, reservations,
    attempts at hole punching, circuits, the relay service) and the proof that the
    floating point gauges and wrapping counters of the observers implement it
    ([relay_metrics_refine]); and what candidates for a relay can be. *)

From S2P Require Import Prelude GoStd GoText GoNum FloatInt Metrics MetricsSys Node RelayWatch.
Open Scope Z_scope.
Open Scope go_scope.

Module RelayWatchSys.
Import RelayWatch.

(** ** Candidates *)

Section candidates.
Context {Addr : Type}.

Lemma sendCandidates_spec self num sent room (found : list (string * list Addr)) :
  0 <= sent →
  Forall (λ p, p.1 ≠ self ∧ p.2 ≠ [] ∧ p ∈ found) (sendCandidates self num sent room found) ∧
  sent + Z.of_nat (length (sendCandidates self num sent room found)) <= Z.max num (sent + 1) ∧
  sublist (sendCandidates self num sent room found) found.
Proof.
  revert sent room. induction found as [|p found IH]; intros sent room Hs; cbn [sendCandidates].
  { split_and!; [constructor|cbn; lia|constructor]. }
  assert (∀ l, Forall (λ p, p.1 ≠ self ∧ p.2 ≠ [] ∧ p ∈ found) l → Forall (λ q, q.1 ≠ self ∧ q.2 ≠ [] ∧ q ∈ p :: found) l) as Hw.
  { intros l Hl. eapply Forall_impl; [exact Hl|]. intros q (? & ? & ?). split_and!; [done..|]. by right. }
  destruct (String.eqb_spec p.1 self) as [He|Hne]; cbn [orb].
  { destruct (IH sent room Hs) as (H1 & H2 & H3). split_and!; [by apply Hw|done|by apply sublist_cons]. }
  destruct (length p.2 =? 0)%nat eqn:Hl.
  { destruct (IH sent room Hs) as (H1 & H2 & H3). split_and!; [by apply Hw|done|by apply sublist_cons]. }
  assert (p.2 ≠ []) by (intros Hp; by rewrite Hp in Hl).
  destruct room as [[|room]|]; [split_and!; [constructor|cbn; lia|apply sublist_nil_l]|..].
  all: destruct (num <=? sent + 1) eqn:Hn;
    [split_and!; [constructor; [split_and!; [done..|left]|constructor]|cbn; lia|apply sublist_skip, sublist_nil_l]|].
  all: match goal with |- context [sendCandidates _ _ (_ + 1) ?r _] =>
      destruct (IH (sent + 1) r ltac:(lia)) as (H1 & H2 & H3) end.
  all: split_and!; [constructor; [split_and!; [done..|left]|by apply Hw]|cbn [length]; blia|by apply sublist_skip].
Qed.

(** A node never relays through itself or through a peer without an address, takes
    no more candidates than were asked for (but one, if none were), and a private
    swarm, or a node that is not ready, finds none. *)
Lemma candidates_ok num room found rs :
  let out := FindCandidates (Addr := Addr) num room found rs in
  Forall (λ p, Some p.1 ≠ (hostID <$> node rs) ∧ p.2 ≠ [] ∧ p ∈ default [] found) out ∧
  Z.of_nat (length out) <= Z.max num 1 ∧
  (∀ n, node rs = Some n → privateSwarm n = true → out = []) ∧ (node rs = None → out = []).
Proof.
  unfold FindCandidates. destruct (node rs) as [n|]; cbn; [|split_and!; [apply Forall_nil_2|cbn; lia|done|done]].
  destruct (hasDiscovery n); cbn; [|split_and!; [apply Forall_nil_2|cbn; lia|done|done]].
  destruct (privateSwarm n) eqn:Hp; [split_and!; [apply Forall_nil_2|cbn; lia|done|done]|].
  destruct found as [l|]; cbn; [|split_and!; [apply Forall_nil_2|cbn; lia|naive_solver|done]].
  destruct (sendCandidates_spec (hostID n) num 0 room l ltac:(lia)) as (H1 & H2 & _).
  split_and!; [|lia|intros ? [= <-]; congruence|done].
  eapply Forall_impl; [exact H1|]. intros p (? & ? & ?). split_and!; [|done..]. naive_solver.
Qed.
End candidates.

(** ** The abstract record *)

Section refine.
Context {Addr : Type} (isCircuitAddr : Addr → bool) `{range : GoRange}.

(** Whole numbers; [None] is a series that has not been touched yet. *)
Record Abs := mkAbs {
  conns : bool → option Z; reservations : option Z; obtained : Z; punches : bool → option Z;
  service : bool; circuits : Z; reach : option Reachability; serving : bool }.

(** In mode "on" the service starts with the node, if it can. *)
Definition Abs0 (mode : Node.RelayMode) (ok : bool) : Abs :=
  let on := ok && match mode with Node.RelayServiceOn => true | _ => false end in
  mkAbs (λ _, None) None 0 (λ _, None) on 0 None on.

Definition bump (d : Z) (b : bool) (f : bool → option Z) : bool → option Z :=
  λ b', if Bool.eqb b b' then Some (default 0 (f b) + d) else f b'.

Definition circuit_count (addrs : list Addr) : Z := Z.of_nat (length (List.filter isCircuitAddr addrs)).

(** The service ends, and its circuits with it. *)
Definition stopped (a : Abs) : Abs :=
  if serving a then mkAbs (conns a) (reservations a) (obtained a) (punches a) false 0 (reach a) false else a.

Definition started (ok : bool) (a : Abs) : Abs :=
  if negb (serving a) && ok then mkAbs (conns a) (reservations a) (obtained a) (punches a) true (circuits a) (reach a) true else a.

Definition abs_step (mode : Node.RelayMode) (a : Abs) (e : event (Addr := Addr)) : Abs :=
  let '(mkAbs co re ob pu se ci rc sv) := a in
  match e with
  | Connected l => mkAbs (bump 1 l co) re ob pu se ci rc sv
  | Disconnected l => mkAbs (bump (-1) l co) re ob pu se ci rc sv
  | AddressesUpdated addrs =>
      let n := circuit_count addrs in mkAbs co (Some n) (ob + Z.max 0 (n - default 0 re)) pu se ci rc sv
  | ReachabilityChanged r ok =>
      let a := mkAbs co re ob pu se ci (Some r) sv in
      match mode, r with
      | Node.RelayServiceAuto, ReachabilityPublic => started ok a
      | Node.RelayServiceAuto, ReachabilityPrivate => stopped a
      | _, _ => a
      end
  | HolePunch None => a
  | HolePunch (Some b) => mkAbs co re ob (bump 1 b pu) se ci rc sv
  | ServiceStatus b => mkAbs co re ob pu b ci rc sv
  | CircuitOpened => mkAbs co re ob pu se (ci + 1) rc sv
  | CircuitClosed => mkAbs co re ob pu se (ci - 1) rc sv
  | NodeClosed => stopped a
  end.

Definition punchLabel (b : bool) : string := if b then "success" else "failure".

(** A vector has exactly these series. *)
Definition series {A} (v : Metrics.Vec A) (l : list (string * option A)) : Prop :=
  vec_ok v ∧ ∀ k, Metrics.Values v !! k = mjoin ((list_to_map l : gmap string (option A)) !! k).

(** What the metrics show of the abstract record. *)
Record shows (w : Watch) (a : Abs) : Prop := {
  sh_conns : series (Metrics.ConnectionsByType (metrics w)) [("direct", f_of_Z <$> conns a false); ("relayed", f_of_Z <$> conns a true)];
  sh_reservations : series (Metrics.RelayReservations (metrics w)) [("active", f_of_Z <$> reservations a)];
  sh_running : running w = serving a;
  sh_last : lastCount w = default 0 (reservations a);
  sh_obtained : Metrics.RelayReservationsOK (metrics w) = wrap64 (obtained a);
  sh_punches : series (Metrics.HolePunchTotal (metrics w)) [("success", wrap64 <$> punches a true); ("failure", wrap64 <$> punches a false)];
  sh_service : Metrics.RelayServiceActive (metrics w) = f_of_Z (if service a then 1 else 0);
  sh_circuits : Metrics.RelayCircuitsActive (metrics w) = f_of_Z (circuits a);
  sh_reach : series (Metrics.Reachability (metrics w))
    ((λ ls, (ls.1, (λ r, if bool_decide (ls.2 = r) then f_of_Z 1 else f_of_Z 0) <$> reach a)) <$> states);
}.

(** The numbers that are added up float by float stay small. *)
Definition within (n : Z) (a : Abs) : Prop :=
  (∀ l, Z.abs (default 0 (conns a l)) <= n) ∧ Z.abs (circuits a) <= n.

Lemma series_update {A} (zero x : A) (f : A → A) v label l l' :
  series v l →
  f (default zero (mjoin ((list_to_map l : gmap string (option A)) !! label))) = x →
  (∀ k, mjoin ((list_to_map l' : gmap string (option A)) !! k)
        = if decide (k = label) then Some x else mjoin ((list_to_map l : gmap string (option A)) !! k)) →
  series (Metrics.with_label zero label f v) l'.
Proof.
  intros [Hok Hv] Hx Hl'. split; [by apply with_label_ok|]. intros k. rewrite with_label_spec, Hl' by done.
  case_decide as Hk; [subst k; by rewrite lookup_insert_eq, Hv, Hx|]. by rewrite lookup_insert_ne.
Qed.

Lemma series_new {A} (l : list (string * option A)) : Forall (λ kv, kv.2 = None) l → series Metrics.NewVec l.
Proof.
  intros Hl. split; [apply vec_New_ok|]. intros k. rewrite lookup_Values. cbn [Metrics.NewVec Metrics.entries].
  rewrite lookup_empty. cbn. destruct (list_to_map l !! k) as [o|] eqn:Ho; [|done].
  apply elem_of_list_to_map_2 in Ho. rewrite Forall_forall in Hl. specialize (Hl _ Ho). cbn in Hl. by subst.
Qed.

Lemma shows_new mode ok : shows (initial mode ok Metrics.New) (Abs0 mode ok).
Proof. destruct mode, ok; split; try done; apply series_new; repeat constructor. Qed.

(** ** One event *)

Ltac series_lookup :=
  intros k; cbn [list_to_map foldr uncurry fmap list_fmap states fst snd]; rewrite !lookup_insert, lookup_empty;
  repeat case_decide; subst; try done.

Lemma conns_update v (f : bool → option Z) l d :
  series v [("direct", f_of_Z <$> f false); ("relayed", f_of_Z <$> f true)] →
  small (default 0 (f l)) → small d → small (default 0 (f l) + d) →
  series (Metrics.with_label Metrics.f_zero (connLabel l) (Metrics.Gauge_Add (f_of_Z d)) v)
    [("direct", f_of_Z <$> bump d l f false); ("relayed", f_of_Z <$> bump d l f true)].
Proof.
  intros Hs H1 H2 H3. eapply (series_update _ (f_of_Z (default 0 (f l) + d)) _ _ _ _ _ Hs).
  - unfold Metrics.Gauge_Add. rewrite <- fadd_whole by done. f_equal.
    destruct l; cbn [connLabel list_to_map foldr uncurry]; rewrite !lookup_insert; cbn [decide decide_rel];
      [destruct (f true)|destruct (f false)]; reflexivity.
  - unfold bump, connLabel. destruct l; cbn [Bool.eqb]; series_lookup.
Qed.

Lemma punches_update v (f : bool → option Z) b :
  series v [("success", wrap64 <$> f true); ("failure", wrap64 <$> f false)] →
  series (Metrics.with_label 0 (punchLabel b) Metrics.Counter_Inc v)
    [("success", wrap64 <$> bump 1 b f true); ("failure", wrap64 <$> bump 1 b f false)].
Proof.
  intros Hs. eapply (series_update _ (wrap64 (default 0 (f b) + 1)) _ _ _ _ _ Hs).
  - unfold Metrics.Counter_Inc. rewrite <- (wrap64_add_l (default 0 (f b))). do 2 f_equal.
    destruct b; cbn [punchLabel list_to_map foldr uncurry]; rewrite !lookup_insert; cbn [decide decide_rel];
      [destruct (f true)|destruct (f false)]; reflexivity || (vm_compute; reflexivity).
  - unfold bump, punchLabel. destruct b; cbn [Bool.eqb]; series_lookup.
Qed.

(** Setting labels one after the other, each to the value that is its own. *)
Lemma fold_labels {A} (zero : A) (val : Reachability → A) (ls : list (string * Reachability)) v k :
  let v' := foldl (λ gv ls, Metrics.with_label zero ls.1 (λ _, val ls.2) gv) v ls in
  vec_ok v →
  vec_ok v' ∧
  (∀ st, (k, st) ∈ ls → (∀ st', (k, st') ∈ ls → st' = st) → Metrics.Values v' !! k = Some (val st)) ∧
  ((∀ st, (k, st) ∉ ls) → Metrics.Values v' !! k = Metrics.Values v !! k).
Proof.
  intros v' Hv. subst v'. induction ls as [|[l s] ls IH] using rev_ind; [split_and!; [done| |done]; by intros st ?%elem_of_nil|].
  destruct IH as (Hok & Hin & Hout). rewrite foldl_snoc. cbn [fst snd].
  split; [by apply with_label_ok|]. rewrite with_label_spec by done. split.
  - intros st Hst Huniq. destruct (decide (k = l)) as [->|Hne].
    + rewrite lookup_insert_eq. rewrite (Huniq s); [done|]. apply elem_of_app. right. by apply list_elem_of_singleton.
    + rewrite lookup_insert_ne by done. apply Hin.
      * apply elem_of_app in Hst as [?|[= ? ?]%list_elem_of_singleton]; [done|congruence].
      * intros st' Hst'. apply Huniq. apply elem_of_app. by left.
  - intros Hno. rewrite lookup_insert_ne.
    + apply Hout. intros st Hst. apply (Hno st), elem_of_app. by left.
    + intros ->. apply (Hno s), elem_of_app. right. by apply list_elem_of_singleton.
Qed.

Lemma reach_update v (val : Reachability → float64) (old : option Reachability) (old_val : Reachability → Reachability → float64) :
  series v ((λ ls, (ls.1, (λ r, old_val ls.2 r) <$> old)) <$> states) →
  series (foldl (λ gv ls, Metrics.with_label Metrics.f_zero ls.1 (λ _, val ls.2) gv) v (go_range states))
    ((λ ls, (ls.1, Some (val ls.2))) <$> states).
Proof.
  intros [Hok Hv]. pose proof (go_range_perm states) as Hperm.
  split; [by apply (fold_labels Metrics.f_zero val (go_range states) v "")|]. intros k.
  destruct (fold_labels Metrics.f_zero val (go_range states) v k Hok) as (_ & Hin & Hout).
  assert (∀ st, (k, st) ∈ go_range states ↔ (k, st) ∈ states) as Hmem by (intros st; by rewrite Hperm).
  cbn [states fmap list_fmap list_to_map foldr uncurry fst snd]. rewrite !lookup_insert, lookup_empty.
  repeat case_decide; subst.
  1-3: apply Hin; [apply Hmem; unfold states; set_solver|intros st' Hst'%Hmem; unfold states in Hst'; set_solver].
  rewrite Hout, Hv.
  - cbn [states fmap list_fmap list_to_map foldr uncurry fst snd]. rewrite !lookup_insert, lookup_empty.
    by repeat case_decide.
  - intros st Hst%Hmem. unfold states in Hst. set_solver.
Qed.

#[local] Arguments f_of_Z : simpl never.

Lemma obtained_update n last ok :
  (if last <? n then Metrics.Counter_Add (n - last) (wrap64 ok) else wrap64 ok) = wrap64 (ok + Z.max 0 (n - last)).
Proof.
  unfold Metrics.Counter_Add. destruct (last <? n) eqn:Hl.
  - rewrite wrap64_add_l. f_equal. blia.
  - f_equal. blia.
Qed.

Lemma started_refines ok w a : shows w a → shows (startRelayService ok w) (started ok a).
Proof.
  intros Hs. pose proof Hs as [Hc Hr Hrun Hl Ho Hp Hse Hci Hre]. unfold startRelayService, started. rewrite Hrun.
  destruct (serving a), ok; cbn [negb andb]; try exact Hs. by constructor.
Qed.

Lemma stopped_refines w a : shows w a → shows (stopRelayService w) (stopped a).
Proof.
  intros Hs. pose proof Hs as [Hc Hr Hrun Hl Ho Hp Hse Hci Hre]. unfold stopRelayService, stopped. rewrite Hrun.
  destruct (serving a); cbn [negb]; [|exact Hs]. by constructor.
Qed.

Lemma reachability_refines r w a :
  shows w a →
  shows (set_metrics (recordReachability r (metrics w)) w)
    (mkAbs (conns a) (reservations a) (obtained a) (punches a) (service a) (circuits a) (Some r) (serving a)).
Proof.
  intros [Hc Hr Hrun Hl Ho Hp Hse Hci Hre]. constructor; cbn; try done.
  pose (val := λ r st : Reachability, if bool_decide (st = r) then f_of_Z 1 else f_of_Z 0).
  exact (reach_update _ (val r) (reach a) (λ st r, val r st) Hre).
Qed.

Lemma within_step mode n a e : within n a → 0 <= n → within (n + 1) (abs_step mode a e).
Proof.
  intros [Hc Hi] Hn.
  assert (∀ l d, Z.abs d <= 1 → (∀ l', Z.abs (default 0 (bump d l (conns a) l')) <= n + 1)) as Hb.
  { intros l d Hd l'. unfold bump. destruct (Bool.eqb l l'); cbn; [specialize (Hc l)|specialize (Hc l')]; lia. }
  assert (∀ l, Z.abs (default 0 (conns a l)) <= n + 1) as Hc' by (intros l; specialize (Hc l); lia).
  destruct a as [co re ob pu se ci rc sv]. cbn [conns circuits] in *.
  destruct e as [l|l|addrs|r ok|[b|]|b| | |]; cbn [abs_step].
  4: destruct mode; [destruct r| |]; unfold started, stopped; cbn [serving]; [..|idtac|idtac];
       try (destruct sv; try destruct ok); cbn [negb andb].
  all: try (unfold stopped; cbn [serving]; destruct sv).
  all: split; cbn [conns circuits reservations obtained punches reach]; solve [by apply Hb|done|lia].
Qed.

Lemma step_refines mode n w a e :
  shows w a → within n a → 0 <= n < 2 ^ 53 - 1 → shows (observe isCircuitAddr mode w e) (abs_step mode a e).
Proof.
  intros Hs [Hc Hi] Hn.
  assert (∀ l, small (default 0 (conns a l))) as Hsm by (intros l; specialize (Hc l); unfold small; lia).
  assert (small (circuits a)) as Hcs by (unfold small; lia).
  assert (∀ r ok, shows (watchReachability mode r ok w) (abs_step mode a (ReachabilityChanged r ok))) as Hreach.
  { intros r ok. pose proof (reachability_refines r w a Hs) as Hr. destruct a. cbn [abs_step conns reservations obtained punches service circuits serving] in *.
    unfold watchReachability. destruct mode; [destruct r|..]; try exact Hr; [by apply started_refines|by apply stopped_refines]. }
  pose proof (stopped_refines w a Hs) as Hstop.
  destruct a as [co re ob pu se ci rc sv]. destruct e as [l|l|addrs|r ok|[b|]|b| | |]; cbn [observe abs_step]; try done.
  all: destruct Hs as [Hco Hre Hrun Hl Ho Hp Hse Hci Hrc]; cbn [conns reservations obtained punches service circuits reach serving] in *; split; cbn; try done.
  all: try (apply conns_update; [done|apply Hsm|unfold small; lia|specialize (Hc l); unfold small; lia]).
  all: try by apply punches_update.
  - eapply series_update; [done|done|]. series_lookup.
  - by rewrite Hl, Ho, obtained_update.
  - by destruct b.
  - unfold Metrics.Gauge_Inc. rewrite Hci. apply fadd_whole; unfold small; lia.
  - unfold Metrics.Gauge_Dec. rewrite Hci. apply fsub_whole; unfold small; lia.
Qed.

(** C30: the relay metrics implement the abstract record of whole numbers.  From a node
    set up with fresh metrics in any of the three modes, after any sequence of
    fewer than 2^53 events, in any order: the gauge of each type of connection,
    float by float, holds exactly how many more were opened than closed; the
    reservations gauge holds the circuit addresses of the last update and its
    counter the sum of the gains; the hole punch counters the attempts by result
    (modulo 2^64); exactly one reachability series is 1; the circuits gauge how many
    more circuits were opened than closed since the relay service was last stopped,
    and the service gauge what was written to it last: 1 when the service is
    started, 0 when it is stopped, or the status the library reports.  The service runs as
    the mode says: in "auto" from a verdict of public reachability to one of
    private reachability or the end of the node, in "on" from the start, in "off"
    never.  No vector ever has another series than these labels. *)
Theorem relay_metrics_refine mode ok (es : list event) :
  Z.of_nat (length es) < 2 ^ 53 →
  let a := foldl (abs_step mode) (Abs0 mode ok) es in
  shows (foldl (observe isCircuitAddr mode) (initial mode ok Metrics.New) es) a ∧
  (mode = Node.RelayServiceOff → serving a = false).
Proof.
  intros Hlen a.
  assert (shows (foldl (observe isCircuitAddr mode) (initial mode ok Metrics.New) es) a
    ∧ within (Z.of_nat (length es)) a ∧ (mode = Node.RelayServiceOff → serving a = false)) as (? & _ & ?); [|done].
  subst a. induction es as [|e es IH] using rev_ind.
  { split_and!; [apply shows_new|by split|]. intros ->. by destruct ok. }
  rewrite length_app in Hlen |- *. cbn [length] in *. rewrite !foldl_snoc.
  destruct IH as (Hs & Hw & Hoff); [lia|]. replace (Z.of_nat (length es + 1)) with (Z.of_nat (length es) + 1) by lia.
  split_and!; [eapply step_refines; [done..|lia]|by apply within_step; [|lia]|].
  intros Hm. specialize (Hoff Hm). subst mode. destruct (foldl _ _ es) as [co re ob pu se ci rc sv]. cbn [serving] in Hoff. subst sv.
  by destruct e as [| | | |[|]| | | |].
Qed.

End refine.

(** A relayed connection that becomes a direct one, a reservation, and a relay service
    that is stopped with a circuit open. *)
Lemma relay_metrics_refine_witness :
  let es := [Connected true; HolePunch (Some true); Connected false; Disconnected true; AddressesUpdated [true; false];
             ReachabilityChanged ReachabilityPublic true; CircuitOpened; CircuitOpened; CircuitClosed;
             ReachabilityChanged ReachabilityPrivate true] in
  let a := foldl (abs_step id Node.RelayServiceAuto) (Abs0 Node.RelayServiceAuto true) es in
  (conns a true, conns a false, reservations a, obtained a, punches a true, punches a false, circuits a, serving a)
  = (Some 0, Some 1, Some 1, 1, Some 1, None, 0, false) ∧
  shows (foldl (observe (H := range_id) id Node.RelayServiceAuto) (initial Node.RelayServiceAuto true Metrics.New) es) a.
Proof.
  intros es a. split; [reflexivity|].
  apply (relay_metrics_refine (range := range_id) id Node.RelayServiceAuto true es). cbn. lia.
Defined.

End RelayWatchSys.
