(* ===== verification/NodeSetup.v ===== *)
(** * internal/p2p/node.go: how a node is set up

    [New] from the configuration the daemon builds (Daemon.v) to the options given
    to libp2p and the fields of the node; [bootstrap]; and [GetMDNSPeers].  What
    libp2p makes of the options, multiaddrs, peer IDs and the identity file are
    parameters. *)

From S2P Require Import Prelude GoStd GoText GoNum Security Timeouts Scorer RateLimit Node Metrics RelayWatch Daemon.
From Stdlib Require Import SpecFloat.
Open Scope Z_scope.
Open Scope go_scope.

Module NodeSetup.
Import Daemon.

Section setup.
Context `{GoUnicode} {Key Addr : Type}.

(** ** The surroundings *)

Record Libs := mkLibs {
  NewMultiaddr : string → option Addr;
  AddrInfoFromString : string → option (string * list Addr);
  peer_Decode : string → option string;
  DefaultResources : RelayWatch.Resources;
  LoadOrCreateIdentity : string → option Key;
  GenerateEd25519Key : option Key;
  NewConnManager : Z → Z → bool;
}.

(** ** The options of the host *)

Inductive AutoRelay := NoAutoRelay | StaticRelays (relays : list (string * list Addr)) | PeerSource.

Record HostOptions := mkOptions {
  o_Identity : Key; o_ListenAddrs : list Addr; o_lowWater : Z; o_highWater : Z; o_EnableRelay : bool;
  o_ForceReachability : option RelayWatch.Reachability; o_AutoRelay : AutoRelay; o_HolePunching : bool;
  o_PrivateNetwork : option string; o_ConnectionGater : option Security.AllowlistGater }.

Record NodeInit := mkInit {
  n_options : HostOptions; n_privateSwarm : bool; n_pskEnabled : bool; n_relayMode : Node.RelayMode;
  n_relayResources : RelayWatch.Resources; n_relayedTransferMax : Z; n_maxConcurrentUploads : Z;
  n_uploadLimiter : RateLimit.Limiter; n_downloadLimiter : RateLimit.Limiter;
  n_peerLimiters : option (RateLimit.Manager * RateLimit.Manager); n_mdnsService : bool; n_relay : RelayWatch.Watch }.

Inductive SetupErr := EIdentity | EGenerateKey | EConnManager | EHost | EDHT | EPanic.

Definition identity (lib : Libs) (key : option Key) (dataDir : string) : res SetupErr Key :=
  match key with
  | Some k => Ok k
  | None =>
      if negb (String.eqb dataDir "") then match LoadOrCreateIdentity lib dataDir with Some k => Ok k | None => Err EIdentity end
      else match GenerateEd25519Key lib with Some k => Ok k | None => Err EGenerateKey end
  end.

Definition quicAddrs (port : Z) : list string :=
  ["/ip4/0.0.0.0/udp/" +:+ Itoa port +:+ "/quic-v1"; "/ip6/::/udp/" +:+ Itoa port +:+ "/quic-v1"].
Definition tcpAddrs (port : Z) : list string := ["/ip4/0.0.0.0/tcp/" +:+ Itoa port; "/ip6/::/tcp/" +:+ Itoa port].

(** QUIC first, or as the fallback; an address that does not parse is left out. *)
Definition listenAddrs (lib : Libs) (preferQUIC : bool) (port : Z) : list Addr :=
  omap (NewMultiaddr lib) (if preferQUIC then quicAddrs port ++ tcpAddrs port else tcpAddrs port ++ quicAddrs port).

Definition maxConns (configured : Z) : Z := if configured <=? 0 then 100 else configured.
Definition lowWater (maxConns : Z) : Z := Z.quot (wrap64 (maxConns * 80)) 100.

Definition forceReachability (s : string) : option RelayWatch.Reachability :=
  if String.eqb s "private" then Some RelayWatch.ReachabilityPrivate
  else if String.eqb s "public" then Some RelayWatch.ReachabilityPublic else None.

Definition autoRelay (lib : Libs) (cfg : P2PConfig) : AutoRelay :=
  let static := RelayWatch.ParseRelayPeers (AddrInfoFromString lib) (p_RelayPeers cfg) in
  if p_EnableAutoRelay cfg && p_EnableRelay cfg then
    match static with [] => PeerSource | _ => StaticRelays static end
  else NoAutoRelay.

Definition psk (cfg : P2PConfig) : option string :=
  match p_PSK cfg with Some k => if (0 <? String.length k)%nat then Some k else None | None => None end.

(** The gater and whether the swarm is private.  An entry that is no peer ID is
    logged and left out. *)
Definition gater (lib : Libs) (allow block : list string) : option Security.AllowlistGater * bool :=
  if (0 <? length allow)%nat || (0 <? length block)%nat then
    let allowedPeerIDs := omap (peer_Decode lib) allow in
    let blockedPeerIDs := omap (peer_Decode lib) block in
    if (0 <? length allowedPeerIDs)%nat || (0 <? length blockedPeerIDs)%nat
    then (Some (Security.NewGater allowedPeerIDs blockedPeerIDs), (0 <? length allowedPeerIDs)%nat)
    else (None, false)
  else (None, false).

Definition DefaultLatencyThreshold : float64 := f_of_Z 500.

Definition peerLimiterConfig (cfg : P2PConfig) (global perPeer : Z) : RateLimit.PeerLimiterConfig :=
  RateLimit.mkPLConfig global perPeer (p_ExpectedPeers cfg) (p_AdaptiveMinRate cfg) (p_AdaptiveEnabled cfg)
    (p_AdaptiveMaxBoost cfg) DefaultLatencyThreshold RateLimit.DefaultIdleTimeout.

Definition peerLimiters (cfg : P2PConfig) : option (RateLimit.Manager * RateLimit.Manager) :=
  if (0 <? p_ExpectedPeers cfg) || (0 <? p_PerPeerUploadRate cfg) || (0 <? p_PerPeerDownloadRate cfg) || p_AdaptiveEnabled cfg then
    Some (RateLimit.NewPeerLimiterManager (peerLimiterConfig cfg (p_MaxUploadRate cfg) (p_PerPeerUploadRate cfg)) true,
          RateLimit.NewPeerLimiterManager (peerLimiterConfig cfg (p_MaxDownloadRate cfg) (p_PerPeerDownloadRate cfg)) true)
  else None.

Definition relayConfig (cfg : P2PConfig) : RelayWatch.RelayConfig :=
  RelayWatch.mkRelayConfig (p_RelayMaxReservations cfg) (p_RelayMaxCircuits cfg) (p_RelayBufferSize cfg) (p_RelayDuration cfg).

(** Whether the host, the DHT, mDNS and the relay service can be started, and the
    metrics the node is given. *)
Record Starts := mkStarts { host_ok : HostOptions → bool; dht_ok : bool; mdns_ok : bool; relay_ok : bool; metrics0 : Metrics.Metrics }.

Definition New (lib : Libs) (st : Starts) (key : option Key) (cfg : P2PConfig) : res SetupErr NodeInit :=
  match identity lib key (p_DataDir cfg) with
  | Err e => Err e
  | Ok privKey =>
  let conns := maxConns (p_MaxConnections cfg) in
  if negb (NewConnManager lib (lowWater conns) conns) then Err EConnManager
  else
  let '(g, privateSwarmMode) := gater lib (p_PeerAllowlist cfg) (p_PeerBlocklist cfg) in
  let opts := mkOptions privKey (listenAddrs lib (p_PreferQUIC cfg) (p_ListenPort cfg)) (lowWater conns) conns
    (p_EnableRelay cfg) (forceReachability (p_ForceReachability cfg)) (autoRelay lib cfg) (p_EnableHolePunching cfg) (psk cfg) g in
  if negb (host_ok st opts) then Err EHost
  else if negb (dht_ok st) then Err EDHT
  else
  match RelayWatch.relayResourcesFrom (DefaultResources lib) (relayConfig cfg) with
  | None => Err EPanic
  | Some resources =>
  let mode := Node.relayServiceMode (p_RelayService cfg) in
  Ok (mkInit opts privateSwarmMode (match psk cfg with Some _ => true | None => false end) mode resources (p_RelayedTransferMax cfg)
        (if p_MaxConcurrentUploads cfg <=? 0 then Node.MaxConcurrentUploads else p_MaxConcurrentUploads cfg)
        (RateLimit.New (p_MaxUploadRate cfg)) (RateLimit.New (p_MaxDownloadRate cfg)) (peerLimiters cfg)
        (p_EnableMDNS cfg && mdns_ok st)
        (RelayWatch.initial mode (relay_ok st) (metrics0 st)))
  end
  end.

(** ** Bootstrapping *)

(** A connection attempt that ended: when, and after how long if it succeeded. *)
Record attempt := mkAttempt { a_now : Z; a_took : option Z }.

(** The attempts on the addresses that name a peer, in the order in which they end;
    [bootstrapDone] is closed whatever happens. *)
Definition bootstrap `{FloatConv} (attempts : list attempt) (tm : Timeouts.Manager) : Timeouts.Manager :=
  foldl (λ tm a, match a_took a with
                 | Some d => Timeouts.RecordSuccess Timeouts.OpPeerConnect d (a_now a) tm
                 | None => Timeouts.RecordFailure Timeouts.OpPeerConnect (a_now a) tm
                 end) tm attempts.

(** The peers that are dialled: an address that does not parse is skipped. *)
Definition bootstrapTargets (lib : Libs) (AddrInfoFromP2pAddr : Addr → option (string * list Addr)) (addrs : list string)
  : list (string * list Addr) :=
  omap (λ a, NewMultiaddr lib a ≫= AddrInfoFromP2pAddr) addrs.

(** ** The peers of the fleet *)

Definition GetMDNSPeers (peers : list string) (addrs : string → list Addr) (sc : Scorer.Scorer) (n : NodeInit) : list (string * list Addr) :=
  let includeAll := n_pskEnabled n && negb (n_mdnsService n) in
  omap (λ pid, if negb includeAll && negb (Scorer.IsMDNSPeer pid sc) then None
               else if (0 <? length (addrs pid))%nat then Some (pid, addrs pid) else None) peers.

End setup.
End NodeSetup.
