(* ===== verification/NodeSetupSys.v ===== *)
(** * internal/p2p/node.go: who may connect to the node of a running daemon

    From the configuration file to the options of the libp2p host: a configured
    pre-shared key isolates the host, a usable allowlist admits its members only,
    and a blocked peer passes no check ([node_admission]); what an allowlist with
    no usable entry comes to; and which peers count as the fleet. *)

From S2P Require Import Prelude GoStd GoText GoNet GoNum GoConf Security SecuritySys Scorer RateLimit Node Release Proxy ProxySys.
From S2P Require Import Metrics RelayWatch Config ConfigSys Daemon DaemonSys NodeSetup.
Open Scope Z_scope.
Open Scope go_scope.

Module NodeSetupSys.
Import Config Daemon NodeSetup.

Section admission.
Context {Key Addr : Type} (lib : Libs (Key := Key) (Addr := Addr)).

(** The peers that a list of the configuration names. *)
Definition names (l : list string) (p : string) : Prop := ∃ a, a ∈ l ∧ peer_Decode lib a = Some p.

Lemma elem_of_decoded l p : p ∈ omap (peer_Decode lib) l ↔ names l p.
Proof. apply list_elem_of_omap. Qed.

Lemma decoded_nonempty l p : names l p → (0 <? length (omap (peer_Decode lib) l))%nat = true ∧ (0 <? length l)%nat = true.
Proof.
  intros Hp. split; apply Nat.ltb_lt.
  - apply elem_of_decoded in Hp. destruct (omap _ _); [by apply elem_of_nil in Hp|cbn; lia].
  - destruct Hp as (a & Ha & _). destruct l; [by apply elem_of_nil in Ha|cbn; lia].
Qed.

(** With a usable entry in the allowlist: exactly its members that are not blocked. *)
Lemma gater_allow allow block p0 :
  names allow p0 →
  ∃ g, gater lib allow block = (Some g, true) ∧
    ∀ p, Security.isAllowed g p = true ↔ names allow p ∧ ¬ names block p.
Proof.
  intros Hp0. destruct (decoded_nonempty _ _ Hp0) as [H1 H2]. unfold gater. rewrite H1, H2. cbn [orb].
  eexists. split; [done|]. intros p. unfold Security.isAllowed, Security.NewGater.
  cbn [Security.blocklist Security.allowlist Security.allowlistEnabled]. rewrite H1, <- !elem_of_decoded.
  rewrite <- !(elem_of_list_to_set (C := gset string)). repeat case_bool_decide; naive_solver.
Qed.

(** A blocked peer, whatever the allowlist says. *)
Lemma gater_block allow block p :
  names block p → ∃ g, (gater lib allow block).1 = Some g ∧ p ∈ Security.blocklist g.
Proof.
  intros Hp. destruct (decoded_nonempty _ _ Hp) as [H1 H2]. unfold gater. rewrite H1, H2, !orb_true_r.
  eexists. split; [done|]. cbn [Security.blocklist Security.NewGater]. by apply elem_of_list_to_set, elem_of_decoded.
Qed.

(** Entries that are no peer IDs are dropped: with no other, everyone is admitted
    and the swarm is not private. *)
Lemma gater_unusable allow block :
  (∀ p, ¬ names allow p) → (∀ p, ¬ names block p) → gater lib allow block = (None, false).
Proof.
  assert (∀ l, (∀ p, ¬ names l p) → omap (peer_Decode lib) l = []) as Hnil.
  { intros l Hl. destruct (omap _ l) as [|p r] eqn:Ho; [done|]. destruct (Hl p). apply elem_of_decoded. rewrite Ho. left. }
  intros Ha Hb. unfold gater. rewrite (Hnil allow Ha), (Hnil block Hb). by destruct (_ || _).
Qed.
End admission.

(** ** Addresses of peers *)

Definition is_ip (p : Security.protocol) : bool :=
  match p with Security.P_IP4 | Security.P_IP6 => true | Security.P_other _ => false end.

(** The first IP component of a multiaddr is an address of one of the internal ranges. *)
Definition at_internal (ma : Security.Multiaddr) : Prop :=
  ∃ pre proto v post ip, ma = pre ++ (proto, v) :: post ∧ Forall (λ c, is_ip c.1 = false) pre ∧ is_ip proto = true ∧
    ParseIP v = Some ip ∧ SecuritySys.internal ip.

(** The IP components hold addresses, as the library that parses multiaddrs sees to. *)
Definition legible (ma : Security.Multiaddr) : Prop := Forall (λ c, is_ip c.1 = true → is_Some (ParseIP c.2)) ma.

Section addresses.
Context `{GoUnicode}.

Lemma isBlockedIP_internal v ip : ParseIP v = Some ip → Security.isBlockedIP v = true ↔ SecuritySys.internal ip.
Proof.
  intros Hp. destruct (Net.ParseIP_bytes v ip Hp) as [Hb Hl]. rewrite <- (SecuritySys.blocked_internal ip Hb Hl).
  unfold Security.isBlockedIP. rewrite Hp. cbn [Security.IsBlockedIP].
  destruct (_ || _) eqn:Hx; [done|]. split; [|done]. destruct (To4 ip) as [q|] eqn:H4; [done|].
  intros [_ H0]%andb_prop. rewrite !orb_false_iff in Hx. destruct Hx as [[[[_ Hpriv] _] _] _].
  unfold IsPrivate in Hpriv. rewrite H4 in Hpriv. apply Z.eqb_eq in H0. by rewrite H0 in Hpriv.
Qed.

Lemma blocked_at_internal ma : legible ma → Security.IsBlockedMultiaddr (Some ma) = true ↔ at_internal ma.
Proof.
  cbn [Security.IsBlockedMultiaddr]. unfold at_internal. induction ma as [|[proto v] ma IH]; intros Hl.
  { cbn. split; [done|]. by intros ([|] & ? & ? & ? & ? & ? & _). }
  apply Forall_cons in Hl as [Hv Hl]. cbn [fst snd] in Hv. destruct (is_ip proto) eqn:Hip.
  - destruct (Hv eq_refl) as [ip Hp]. assert (Security.extractIPFromMultiaddr ((proto, v) :: ma) = v) as -> by by destruct proto.
    destruct (String.eqb_spec v "") as [->|_]; [done|]. rewrite (isBlockedIP_internal v ip Hp). split.
    + intros Hi. exists [], proto, v, ma, ip. by split_and!.
    + intros (pre & proto' & v' & post & ip' & Heq & Hpre & Hip' & Hp' & Hi). destruct pre as [|c pre].
      * injection Heq as <- <- <-. congruence.
      * injection Heq as <- _. apply Forall_cons in Hpre as [Hf _]. cbn in Hf. congruence.
  - assert (Security.extractIPFromMultiaddr ((proto, v) :: ma) = Security.extractIPFromMultiaddr ma) as -> by by destruct proto.
    rewrite IH by done. split.
    + intros (pre & proto' & v' & post & ip & -> & Hpre & Hrest). exists ((proto, v) :: pre), proto', v', post, ip.
      split_and!; [done| |apply Hrest..]. by constructor.
    + intros (pre & proto' & v' & post & ip & Heq & Hpre & Hip' & Hrest). destruct pre as [|c pre].
      * injection Heq as <- _ _. congruence.
      * injection Heq as <- ->. apply Forall_cons in Hpre as [_ Hpre]. exists pre, proto', v', post, ip. split_and!; [done..|apply Hrest|apply Hrest].
Qed.
End addresses.

(** ** From the daemon's configuration *)

Section daemon.
Context `{GoUnicode, GoUpper, Gpg.OpenPGP} {Key Addr : Type} (lib : Libs (Key := Key) (Addr := Addr)) (st : Starts (Key := Key) (Addr := Addr)).

Definition node_ok (cfg : P2PConfig) : bool := match New lib st None cfg with Ok _ => true | Err _ => false end.

Lemma runDaemon_node env node f d :
  runDaemon env node f = Ok d →
  node (st_p2p d) = true ∧ p_PeerAllowlist (st_p2p d) = PeerAllowlist (Privacy (st_cfg d)) ∧
  p_PeerBlocklist (st_p2p d) = PeerBlocklist (Privacy (st_cfg d)).
Proof.
  unfold runDaemon. destruct (negb (checkPorts f)); [done|]. destruct (loadConfigWithWarnings env f) as [[file warns]|]; [|done].
  set (c := applyFlags f file). destruct (Validate (d_cfg env) c); [|done]. destruct (negb _); [done|].
  destruct (a_Enabled _ && _); [done|]. destruct (negb _); [done|]. destruct (ParseRate _) as [up|]; [|done].
  destruct (ParseRate _) as [down|]; [|done]. destruct (loadKey env (Privacy c)) as [key|]; [|done].
  destruct (node _) eqn:Hn; cbn [negb]; [|done]. destruct (ParsedAllowedCIDRs (Network c)); [|done].
  destruct (loadKeyring env c); [|done]. by intros [= <-].
Qed.

Lemma New_fields cfg nd :
  New lib st None cfg = Ok nd →
  (o_ConnectionGater (n_options nd), n_privateSwarm nd) = gater lib (p_PeerAllowlist cfg) (p_PeerBlocklist cfg) ∧
  o_PrivateNetwork (n_options nd) = psk cfg ∧ n_pskEnabled nd = (match psk cfg with Some _ => true | None => false end) ∧
  0 < o_highWater (n_options nd) ∧ 0 < n_maxConcurrentUploads nd ∧
  (o_AutoRelay (n_options nd) ≠ NoAutoRelay → o_EnableRelay (n_options nd) = true).
Proof.
  unfold New. destruct (identity _ _ _) as [k|]; [|done]. destruct (negb _); [done|].
  destruct (gater lib _ _) as [g priv] eqn:Hg. destruct (negb _); [done|]. destruct (negb _); [done|].
  destruct (RelayWatch.relayResourcesFrom _ _); [|done]. intros [= <-].
  cbn [n_options o_ConnectionGater n_privateSwarm o_PrivateNetwork n_pskEnabled o_highWater n_maxConcurrentUploads o_AutoRelay o_EnableRelay].
  split_and!; [done|done|done| | |].
  - unfold maxConns. destruct (_ <=? 0) eqn:Hm; blia.
  - unfold Node.MaxConcurrentUploads. destruct (_ <=? 0) eqn:Hm; blia.
  - unfold autoRelay. destruct (p_EnableAutoRelay cfg), (p_EnableRelay cfg); done.
Qed.

(** C13: who may connect to the node of a daemon that runs.  When the configuration
    names a pre-shared key, the host is given a key of 32 bytes and the node counts
    as private to it.  When the allowlist has an entry that is a peer ID, the swarm
    is private, and the checks that see a peer's identity (before it is dialled,
    after the handshake and after the upgrade) pass exactly the peers that the
    allowlist names and the blocklist does not; the two checks that see an address
    refuse internal ones besides, also those of allowlisted peers: dialling one
    passes exactly for such a peer at an address that is not loopback, private,
    link-local or unspecified, and accepting one exactly from such an address,
    whoever is there.  A peer that the blocklist names passes none of the checks
    that see its identity, with or without an allowlist. *)
Theorem node_admission env f d :
  runDaemon env node_ok f = Ok d →
  let p := Privacy (st_cfg d) in
  ∃ nd, New lib st None (st_p2p d) = Ok nd ∧
    (PSKPath p ≠ "" ∨ PSK p ≠ "" →
       n_pskEnabled nd = true ∧ ∃ key, o_PrivateNetwork (n_options nd) = Some key ∧ String.length key = 32%nat) ∧
    ((∃ id, names lib (PeerAllowlist p) id) →
       n_privateSwarm nd = true ∧
       ∃ g, o_ConnectionGater (n_options nd) = Some g ∧
         (∀ id, let member := names lib (PeerAllowlist p) id ∧ ¬ names lib (PeerBlocklist p) id in
            (Security.InterceptPeerDial g id = true ↔ member) ∧ (Security.InterceptSecured g id = true ↔ member) ∧
            (Security.InterceptUpgraded g id = true ↔ member) ∧
            ∀ addr, legible addr → Security.InterceptAddrDial g id (Some addr) = true ↔ member ∧ ¬ at_internal addr) ∧
         ∀ addr, legible addr → Security.InterceptAccept g (Some (Some addr)) = true ↔ ¬ at_internal addr) ∧
    (∀ id addr, names lib (PeerBlocklist p) id →
       ∃ g, o_ConnectionGater (n_options nd) = Some g ∧
         Security.InterceptPeerDial g id = false ∧ Security.InterceptAddrDial g id addr = false ∧
         Security.InterceptSecured g id = false ∧ Security.InterceptUpgraded g id = false).
Proof.
  intros Hrun p. destruct (runDaemon_node env node_ok f d Hrun) as (Hok & Ha & Hb).
  destruct (DaemonSys.runDaemon_steps env node_ok f d Hrun) as [_ _ _ _ Hkey _ _ _ _ _ _].
  unfold node_ok in Hok. destruct (New lib st None (st_p2p d)) as [nd|] eqn:Hnd; [|done].
  destruct (New_fields _ _ Hnd) as (Hg & Hp & He & _). rewrite Ha, Hb in Hg. fold p in Hg, Hkey.
  exists nd. split; [done|]. split_and!.
  - intros Hpsk. destruct (DaemonSys.loadKey_private env p _ Hkey Hpsk) as (key & Hk & Hlen).
    unfold psk in Hp, He. rewrite Hk in Hp, He. rewrite Hlen in Hp, He. cbn in Hp, He. eauto.
  - intros [id0 Hid]. destruct (gater_allow lib _ (PeerBlocklist p) _ Hid) as (g & Hgg & Hiff).
    rewrite Hgg in Hg. injection Hg as -> ->. split; [done|]. exists g. split; [done|]. split.
    + intros id. split_and!; try apply Hiff. intros addr Hlg. unfold Security.InterceptAddrDial. rewrite <- (Hiff id).
      pose proof (blocked_at_internal addr Hlg) as Hbl. destruct (Security.IsBlockedMultiaddr (Some addr)); naive_solver.
    + intros addr Hlg. unfold Security.InterceptAccept. rewrite negb_true_iff. pose proof (blocked_at_internal addr Hlg) as Hbl.
      destruct (Security.IsBlockedMultiaddr (Some addr)); naive_solver.
  - intros id addr Hid. destruct (gater_block lib (PeerAllowlist p) _ _ Hid) as (g & Hgg & Hin).
    rewrite <- Hg in Hgg. cbn in Hgg. exists g. split; [done|]. by apply SecuritySys.gater_blocks.
Qed.

(** Only peers found by mDNS and with an address count as the fleet, unless a
    pre-shared key vouches for every peer and mDNS is off. *)
Lemma fleet_peers peers addrs sc nd id as_ :
  (id, as_) ∈ GetMDNSPeers (Key := Key) (Addr := Addr) peers addrs sc nd →
  id ∈ peers ∧ as_ = addrs id ∧ as_ ≠ [] ∧
  (Scorer.IsMDNSPeer id sc = true ∨ n_pskEnabled nd = true ∧ n_mdnsService nd = false).
Proof.
  unfold GetMDNSPeers. intros (pid & Hin & Heq)%list_elem_of_omap.
  destruct (n_pskEnabled nd), (n_mdnsService nd), (Scorer.IsMDNSPeer pid sc) eqn:Hm; cbn [andb negb] in Heq; try done;
    destruct (addrs pid) eqn:Hp; cbn in Heq; try done; injection Heq as <- <-; rewrite Hp; split_and!; auto; done.
Qed.
End daemon.

(** ** Evaluations *)
Section examples.
#[local] Existing Instance ascii_only.
#[local] Existing Instance ascii_upper_only.
#[local] Existing Instance ProxySys.toy_pgp.

(** Peer IDs start with [12D3]; everything else works. *)
Definition ex_lib : Libs (Key := string) (Addr := string) :=
  mkLibs Some (λ _, None) (λ s, if HasPrefix s "12D3" then Some s else None)
    (RelayWatch.mkResources 128 16 (Some (RelayWatch.mkLimit 131072 120))) Some (Some "key") (λ _ _, true).
Definition ex_starts : Starts (Key := string) (Addr := string) := mkStarts (λ _, true) true true true Metrics.Metrics.New.

Definition allow_config (allow : list string) (key : string) : Config.Config :=
  let c := DefaultConfig ConfigSys.ex_env in let p := Privacy c in
  mkConfig (Network c) (Config.Proxy c) (Config.Cache c) (Transfer c) (DHT c)
    (mkPrivacy (EnableMDNS p) (AnnouncePackages p) (PSKPath p) key allow ["12D3B"])
    (Config.Metrics c) (Logging c) (Config.Scheduler c) (Config.Fleet c) (Config.Index c) (Config.Security c).

Definition ex_key : string := "00112233445566778899aabbccddeeff00112233445566778899aabbccddeeff".

Definition ex_run (allow : list string) (key : string) : res StartErr Started :=
  runDaemon (DaemonSys.ex_denv (λ _, Some (allow_config allow key)) true) (node_ok ex_lib ex_starts) DaemonSys.no_flags.

(** The allowlisted peer is let in, but not dialled at an address of the local
    network. *)
Lemma node_admission_witness :
  ∃ d nd g, ex_run ["12D3A"; "typo"] ex_key = Ok d ∧ New ex_lib ex_starts None (st_p2p d) = Ok nd ∧
    (∃ key, o_PrivateNetwork (n_options nd) = Some key ∧ String.length key = 32%nat) ∧
    o_ConnectionGater (n_options nd) = Some g ∧ Security.InterceptSecured g "12D3A" = true ∧
    Security.InterceptAddrDial g "12D3A" (Some [(Security.P_IP4, "192.168.1.7"); (Security.P_other 6, "4001")]) ≠ true.
Proof.
  destruct (ex_run ["12D3A"; "typo"] ex_key) as [d|e] eqn:Hd; [|vm_compute in Hd; discriminate].
  destruct (node_admission ex_lib ex_starts (DaemonSys.ex_denv (λ _, Some (allow_config ["12D3A"; "typo"] ex_key)) true)
    DaemonSys.no_flags d Hd) as (nd & Hnd & Hpsk & Hallow & _).
  vm_compute in Hd. injection Hd as <-.
  destruct Hpsk as [_ Hkey]; [right; discriminate|].
  destruct Hallow as (_ & g & Hg & Hiff & _); [exists "12D3A", "12D3A"; split; [left|reflexivity]|].
  destruct (Hiff "12D3A") as (_ & Hsec & _ & Hdial).
  eexists _, nd, g. split; [reflexivity|]. split; [exact Hnd|]. split; [exact Hkey|]. split; [exact Hg|]. split.
  - apply Hsec. split; [exists "12D3A"; split; [left|reflexivity]|]. intros (b & Hb & Hx).
    apply list_elem_of_singleton in Hb as ->. vm_compute in Hx. discriminate.
  - rewrite Hdial; [|repeat constructor; [by eexists|discriminate]]. intros [_ Hno]. apply Hno.
    exists [], Security.P_IP4, "192.168.1.7", [(Security.P_other 6, "4001")], (IPv4 192 168 1 7). split_and!; try done.
    left. exists 192, 168, 1, 7. split; [done|]. unfold SecuritySys.internal4. auto 10.
Defined.

(** An allowlist in which every entry is mistyped passes validation and admits
    everyone; only the blocklist is left. *)
Example mistyped_allowlist_open :
  match ex_run ["12d3A"] "" with
  | Ok d => match New ex_lib ex_starts None (st_p2p d) with
            | Ok nd => (n_privateSwarm nd, (λ g, Security.InterceptSecured g "12D3Stranger") <$> o_ConnectionGater (n_options nd))
            | Err _ => (true, None) end
  | Err _ => (true, None)
  end = (false, Some true).
Proof. vm_compute. reflexivity. Qed.

(** A swarm that is private by its key alone is not marked private: it looks for
    relays in the DHT, and would advertise itself there. *)
Example key_only_not_private :
  match ex_run [] ex_key with
  | Ok d => match New ex_lib ex_starts None (st_p2p d) with
            | Ok nd => (n_pskEnabled nd, n_privateSwarm nd) | Err _ => (false, false) end
  | Err _ => (false, false)
  end = (true, false).
Proof. vm_compute. reflexivity. Qed.
End examples.
End NodeSetupSys.
