(* ===== verification/Wizard.v ===== *)
(** * cmd/debswarm/config_wizard.go: the configuration wizard

    Every prompt reads the lines of the terminal; at the end of the input a line is
    empty, which stands for the default, for ever: a prompt that refuses its own
    default then never returns ([None]).  What is printed is left out.  The key file
    of the private profile and the configuration file are what the wizard writes. *)

From S2P Require Import Prelude GoStd GoText GoNum GoConf HashUtil Release Node Config Daemon PkgServe.
From Stdlib Require Import Ascii.
Open Scope Z_scope.
Open Scope go_scope.

Module Wizard.
Import Config.

Section wizard.
Context `{GoUnicode, GoUpper}.

(** ** Updates of the configuration *)

Definition with_Network (n : NetworkConfig) (c : Config) : Config :=
  mkConfig n (Proxy c) (Cache c) (Transfer c) (DHT c) (Privacy c) (Metrics c) (Logging c) (Scheduler c) (Fleet c) (Index c) (Security c).
Definition with_Proxy (p : ProxyConfig) (c : Config) : Config :=
  mkConfig (Network c) p (Cache c) (Transfer c) (DHT c) (Privacy c) (Metrics c) (Logging c) (Scheduler c) (Fleet c) (Index c) (Security c).
Definition with_Cache (k : CacheConfig) (c : Config) : Config :=
  mkConfig (Network c) (Proxy c) k (Transfer c) (DHT c) (Privacy c) (Metrics c) (Logging c) (Scheduler c) (Fleet c) (Index c) (Security c).
Definition with_Transfer (t : TransferConfig) (c : Config) : Config :=
  mkConfig (Network c) (Proxy c) (Cache c) t (DHT c) (Privacy c) (Metrics c) (Logging c) (Scheduler c) (Fleet c) (Index c) (Security c).
Definition with_Privacy (p : PrivacyConfig) (c : Config) : Config :=
  mkConfig (Network c) (Proxy c) (Cache c) (Transfer c) (DHT c) p (Metrics c) (Logging c) (Scheduler c) (Fleet c) (Index c) (Security c).
Definition with_Metrics (m : MetricsConfig) (c : Config) : Config :=
  mkConfig (Network c) (Proxy c) (Cache c) (Transfer c) (DHT c) (Privacy c) m (Logging c) (Scheduler c) (Fleet c) (Index c) (Security c).
Definition with_Logging (l : LoggingConfig) (c : Config) : Config :=
  mkConfig (Network c) (Proxy c) (Cache c) (Transfer c) (DHT c) (Privacy c) (Metrics c) l (Scheduler c) (Fleet c) (Index c) (Security c).
Definition with_Fleet (f : FleetConfig) (c : Config) : Config :=
  mkConfig (Network c) (Proxy c) (Cache c) (Transfer c) (DHT c) (Privacy c) (Metrics c) (Logging c) (Scheduler c) f (Index c) (Security c).

Definition set_MaxSize (v : string) (c : Config) : Config :=
  let k := Cache c in with_Cache (mkCacheConfig v (c_Path k) (MinFreeSpace k) (CacheMetadata k) (MetadataMaxSize k) (ServeStaleMetadata k)) c.
Definition set_rates (up down : string) (c : Config) : Config :=
  let t := Transfer c in
  with_Transfer (mkTransfer up down (MaxConcurrentUploads t) (MaxConcurrentPeerDownloads t) (RetryMaxAttempts t) (RetryInterval t)
    (RetryMaxAge t) (PerPeerUploadRate t) (PerPeerDownloadRate t) (ExpectedPeers t) (AdaptiveRateLimiting t) (AdaptiveMinRate t) (AdaptiveMaxBoost t)) c.
Definition set_privacy (mdns announce : bool) (pskPath : string) (c : Config) : Config :=
  let p := Privacy c in with_Privacy (mkPrivacy mdns announce pskPath (PSK p) (PeerAllowlist p) (PeerBlocklist p)) c.
Definition set_fleet (enabled : bool) (c : Config) : Config :=
  let f := Fleet c in with_Fleet (mkFleet enabled (ClaimTimeout f) (MaxWaitTime f) (AllowConcurrent f) (RefreshInterval f)) c.
Definition set_network (listen proxy : Z) (mode : string) (c : Config) : Config :=
  let n := Network c in
  with_Network (mkNetwork listen proxy (ProxyBind n) (ProxyAllowedCIDRs n) (MaxConnections n) (BootstrapPeers n) mode
    (ConnectivityCheckInterval n) (ConnectivityCheckURL n) (EnableRelay n) (EnableHolePunching n) (EnableAutoRelay n) (RelayService n)
    (RelayPeers n) (RelayLimits n) (ForceReachability n) (RelayedTransferMax n)) c.
Definition set_level (level : string) (c : Config) : Config :=
  let l := Logging c in with_Logging (mkLogging level (l_File l) (Audit l)) c.

(** ** The wizard *)

Record wizard := mkWizard {
  lines : list string; cfg : Config; existingPath : string; editing : bool;
  keyFile : option (string * string) }.    (* the PSK file that was written, if any *)

Definition set_lines (l : list string) (w : wizard) : wizard := mkWizard l (cfg w) (existingPath w) (editing w) (keyFile w).
Definition set_cfg (c : Config) (w : wizard) : wizard := mkWizard (lines w) c (existingPath w) (editing w) (keyFile w).

(** A step of the dialogue. *)
Definition M (A : Type) : Type := wizard → option (A * wizard).
Definition ret {A} (a : A) : M A := λ w, Some (a, w).
Definition bind {A B} (m : M A) (k : A → M B) : M B := λ w, match m w with Some (a, w) => k a w | None => None end.
#[local] Notation "'let*' x := m 'in' k" := (bind m (λ x, k)) (at level 10, x name, k at level 200).
Definition get : M Config := λ w, Some (cfg w, w).
Definition modify (f : Config → Config) : M unit := λ w, Some (tt, set_cfg (f (cfg w)) w).

(** *** Prompts *)

Definition readLine : M string := λ w,
  match lines w with
  | [] => Some ("", w)
  | l :: ls => Some (TrimSpace l, set_lines ls w)
  end.

Definition promptString (defaultVal : string) : M string :=
  let* line := readLine in ret (if String.eqb line "" then defaultVal else line).

Definition promptYesNo (defaultYes : bool) : M bool :=
  let* line := readLine in
  let line := ToLower (TrimSpace line) in
  ret (if String.eqb line "" then defaultYes else String.eqb line "y" || String.eqb line "yes").

(** The loops that read until an answer is accepted; [ls] is what is left of the
    input. *)
Fixpoint until {A} (accept : string → option A) (defaultVal : string) (ls : list string) : option (A * list string) :=
  match ls with
  | [] => (λ a, (a, [])) <$> accept defaultVal
  | l :: ls =>
      let line := TrimSpace l in
      match accept (if String.eqb line "" then defaultVal else line) with
      | Some a => Some (a, ls)
      | None => until accept defaultVal ls
      end
  end.
Definition promptUntil {A} (accept : string → option A) (defaultVal : string) : M A := λ w,
  match until accept defaultVal (lines w) with Some (a, ls) => Some (a, set_lines ls w) | None => None end.

(** The index chosen: the default needs no number. *)
Fixpoint choose (options : nat) (defaultIdx : nat) (ls : list string) : nat * list string :=
  match ls with
  | [] => (defaultIdx, [])
  | l :: ls =>
      let line := TrimSpace l in
      if String.eqb line "" then (defaultIdx, ls)
      else
        match Atoi line with
        | Some n => if (n <? 1) || (Z.of_nat options <? n) then choose options defaultIdx ls else (Z.to_nat (n - 1), ls)
        | None => choose options defaultIdx ls
        end
  end.
Definition promptChoice (options defaultIdx : nat) : M nat := λ w,
  let '(i, ls) := choose options defaultIdx (lines w) in Some (i, set_lines ls w).

Definition acceptPort (val : string) : option Z :=
  match Atoi val with Some n => if (n <? 0) || (65535 <? n) then None else Some n | None => None end.
Definition promptPort (defaultVal : Z) : M Z := promptUntil acceptPort (Itoa defaultVal).

(** *** Profiles *)

Record profile := mkProfile {
  p_cacheSize : string; p_uploadRate : string; p_downloadRate : string; p_enableMDNS : bool; p_announce : bool; p_pskPath : string;
  p_fleetEnabled : bool; p_metricsBind : string; p_connectivityMod : string }.

Definition profiles : list profile := [
  mkProfile "10GB" "0" "0" true true "" true "127.0.0.1" "";
  mkProfile "50GB" "50MB/s" "0" true true "" true "0.0.0.0" "";
  mkProfile "10GB" "0" "0" true true "" true "127.0.0.1" "lan_only"].

Definition applyProfileTo (p : profile) (c : Config) : Config :=
  let c := set_MaxSize (p_cacheSize p) c in
  let c := set_rates (p_uploadRate p) (p_downloadRate p) c in
  let c := set_privacy (p_enableMDNS p) (p_announce p) (PSKPath (Privacy c)) c in
  let c := set_fleet (p_fleetEnabled p) c in
  let c := with_Metrics (mkMetrics (m_Port (Metrics c)) (p_metricsBind p)) c in
  let c := if negb (String.eqb (p_connectivityMod p) "")
           then set_network (ListenPort (Network c)) (ProxyPort (Network c)) (p_connectivityMod p) c else c in
  if negb (String.eqb (p_pskPath p) "") then set_privacy (EnableMDNS (Privacy c)) (AnnouncePackages (Privacy c)) (p_pskPath p) c else c.

(** The index is out of range for no answer ([None] is the panic). *)
Definition applyProfile (idx : nat) : M unit := λ w,
  match profiles !! idx with Some p => modify (applyProfileTo p) w | None => None end.

Definition promptStartFresh : M bool :=
  let* idx := promptChoice 2 0 in
  if (idx =? 0)%nat then ret false else promptYesNo false.

(** [None] keeps the current settings. *)
Definition promptProfile (editing : bool) : M (option nat) :=
  if negb editing then let* i := promptChoice 3 0 in ret (Some i)
  else
    let* choice := promptChoice 4 0 in
    if (choice =? 0)%nat then ret None
    else let* yes := promptYesNo false in ret (if yes then Some (choice - 1)%nat else None).

(** *** Steps *)

Definition promptCacheSize : M unit :=
  let* c := get in
  let* val := promptUntil (λ v, (λ _, v) <$> ParseSize v) (MaxSize (Cache c)) in
  modify (set_MaxSize val).

Definition promptBandwidthLimits : M unit :=
  let* c := get in
  let* up := promptUntil (λ v, (λ _, v) <$> ParseRate v) (MaxUploadRate (Transfer c)) in
  let* _ := modify (λ c, set_rates up (MaxDownloadRate (Transfer c)) c) in
  let* c := get in
  let* down := promptUntil (λ v, (λ _, v) <$> ParseRate v) (MaxDownloadRate (Transfer c)) in
  modify (λ c, set_rates (MaxUploadRate (Transfer c)) down c).

Definition promptPorts : M unit :=
  let* c := get in
  let* proxy := promptPort (ProxyPort (Network c)) in
  let* _ := modify (λ c, set_network (ListenPort (Network c)) proxy (ConnectivityMode (Network c)) c) in
  let* listen := promptPort (ListenPort (Network c)) in
  let* _ := modify (λ c, set_network listen (ProxyPort (Network c)) (ConnectivityMode (Network c)) c) in
  let* port := promptPort (m_Port (Metrics c)) in
  modify (λ c, with_Metrics (mkMetrics port (m_Bind (Metrics c))) c).

Definition parseHostList (s : string) : list string :=
  if Release.EqualFold (TrimSpace s) "none" then []
  else List.filter (λ h, negb (String.eqb h "")) (TrimSpace <$> Split "," s).

Definition promptRepositories : M unit :=
  let* c := get in
  let* trust := promptYesNo (TrustsKnownRepos (Proxy c)) in
  let* hosts := promptString (Join (AllowedHosts (Proxy c)) ", ") in
  modify (λ c, with_Proxy (mkProxy (parseHostList hosts) (Some trust) (HTTPSUpstreamHosts (Proxy c))) c).

(** Writing a new key: the random bytes and the file system. *)
Record KeyEnv := mkKeyEnv { newKey : option string; home : string; mkdirOK : bool; keySaveOK : bool }.

Definition pskPath (home : string) : string := filepath_Join [home; ".config"; "debswarm"; "swarm.key"].

Definition generateKey (k : KeyEnv) : M unit := λ w,
  match newKey k with
  | None => Some (tt, w)
  | Some key =>
      if negb (mkdirOK k) then Some (tt, w)
      else if negb (keySaveOK k) then Some (tt, w)
      else
        let c := cfg w in
        Some (tt, mkWizard (lines w) (set_privacy (EnableMDNS (Privacy c)) (AnnouncePackages (Privacy c)) (pskPath (home k)) c)
                    (existingPath w) (editing w) (Some (pskPath (home k), Node.FormatPSK key)))
  end.

Definition promptPrivacy (k : KeyEnv) (profileIdx : option nat) : M unit :=
  let* c := get in
  let* mdns := promptYesNo (EnableMDNS (Privacy c)) in
  let* _ := modify (λ c, set_privacy mdns (AnnouncePackages (Privacy c)) (PSKPath (Privacy c)) c) in
  if bool_decide (profileIdx = Some 2%nat) then let* yes := promptYesNo true in if yes then generateKey k else ret tt
  else ret tt.

Definition promptFleet : M unit :=
  let* c := get in let* b := promptYesNo (f_Enabled (Fleet c)) in modify (set_fleet b).

Definition promptLogLevel : M unit :=
  let* c := get in
  let currentDefault := if String.eqb (Level (Logging c)) "debug" then 1%nat else if String.eqb (Level (Logging c)) "warn" then 2%nat else 0%nat in
  let* idx := promptChoice 3 currentDefault in
  match idx with
  | 0%nat => modify (set_level "info") | 1%nat => modify (set_level "debug") | 2%nat => modify (set_level "warn")
  | _ => ret tt
  end.

(** The nine steps, and whether to save. *)
Definition dialogue (env : Env) (k : KeyEnv) : M bool :=
  let* fresh := (λ w, if editing w then promptStartFresh w else Some (false, w)) in
  let* _ := (λ w, Some (tt, if fresh then mkWizard (lines w) (DefaultConfig env) (existingPath w) false (keyFile w) else w)) in
  let* ed := (λ w, Some (editing w, w)) in
  let* profileIdx := promptProfile ed in
  let* _ := match profileIdx with Some i => applyProfile i | None => ret tt end in
  let* _ := promptCacheSize in
  let* _ := promptBandwidthLimits in
  let* _ := promptPorts in
  let* _ := promptRepositories in
  let* _ := promptPrivacy k profileIdx in
  let* _ := promptFleet in
  let* _ := promptLogLevel in
  promptYesNo true.

Inductive outcome := Aborted | Invalid (fields : list string) | SaveFailed | Saved (path : string) (c : Config).

Definition savePath (outputPath cfgFile existing home : string) : string :=
  if negb (String.eqb outputPath "") then outputPath
  else if negb (String.eqb cfgFile "") then cfgFile
  else if negb (String.eqb existing "") then existing
  else filepath_Join [home; ".config"; "debswarm"; "config.toml"].

(** The outcome and the key file that was written on the way; [save] is whether
    [Config.Save] succeeds. *)
Definition run (env : Env) (k : KeyEnv) (save : string → bool) (outputPath cfgFile : string) (w : wizard)
  : option (outcome * option (string * string)) :=
  match dialogue env k w with
  | None => None
  | Some (yes, w) =>
      let path := savePath outputPath cfgFile (existingPath w) (home k) in
      Some (if negb yes then Aborted
            else match Validate env (cfg w) with
                 | (_ :: _) as errs => Invalid errs
                 | [] => if save path then Saved path (cfg w) else SaveFailed
                 end, keyFile w)
  end.

(** The wizard as the command sets it up. *)
Definition start (env : Daemon.DEnv) (f : Daemon.Flags) (input : list string) : wizard :=
  let e := Daemon.d_cfg env in
  match Daemon.existingConfigPath env f with
  | Some path =>
      match Load e path with
      | Some loaded => mkWizard input loaded path true None
      | None => mkWizard input (DefaultConfig e) path false None
      end
  | None => mkWizard input (DefaultConfig e) "" false None
  end.

End wizard.
End Wizard.
