(* ===== verification/WizardSys.v ===== *)
(** * The configuration wizard: it ends, and what it saves is valid

    A small logic for the dialogue ([wp]: the step returns, and then...), with which
    the wizard is shown to end on every input when the values it starts from can be
    answered with Enter ([wizard_ends]); that Enter keeps them ([enter_keeps]); and
    the cases in which it does not. *)

From S2P Require Import Prelude GoStd GoText GoNum GoConf HashUtil Release Node Config ConfigSys Daemon DaemonSys Wizard.
From Stdlib Require Import Ascii.
Open Scope Z_scope.
Open Scope go_scope.

Module WizardSys.
Import Config Wizard.

(** ** Ports as text *)

Lemma digits_itoa_go fuel n acc w :
  0 <= n < 10 ^ Z.of_nat fuel → parse_digits 10 n acc = Some w → parse_digits 10 0 (itoa_go fuel n acc) = Some w.
Proof.
  revert n acc. induction fuel as [|fuel IH]; intros n acc Hn Hw; [by assert (n = 0) as -> by (cbn in Hn; lia)|].
  cbn [itoa_go]. pose proof (Z.mod_pos_bound n 10 ltac:(lia)) as Hm. destruct (n <? 10) eqn:Hsmall.
  - cbn [parse_digits]. rewrite digit_value_decimal by lia. replace (n mod 10 <? 10) with true by (symmetry; blia).
    replace (0 * 10 + n mod 10) with n by (rewrite Z.mod_small; blia). done.
  - rewrite Nat2Z.inj_succ, Z.pow_succ_r in Hn by lia. apply IH.
    + split; [apply Z.div_pos; lia|apply Z.div_lt_upper_bound; lia].
    + cbn [parse_digits]. rewrite digit_value_decimal by lia. replace (n mod 10 <? 10) with true by (symmetry; blia).
      replace (n / 10 * 10 + n mod 10) with n by (pose proof (Z.div_mod n 10); lia). done.
Qed.

Lemma Atoi_Itoa n : 0 <= n < 2 ^ 63 → Atoi (Itoa n) = Some n.
Proof.
  intros Hn. unfold Itoa. replace (n <? 0) with false by (symmetry; blia).
  assert (parse_digits 10 0 (itoa_go 20 n "") = Some n) as Hp.
  { apply digits_itoa_go; [|done]. split; [lia|]. transitivity (2 ^ 63); [lia|done]. }
  destruct (itoa_go_cons 20 n "" ltac:(lia)) as (d & t & Heq). rewrite Heq in *. pose proof (digit_code d) as Hd.
  assert (∀ c, code c < 48 → Ascii.eqb (byte_of (48 + d mod 10)) c = false) as Hne.
  { intros c Hc. apply Ascii.eqb_neq. intros Hx. rewrite Hx in Hd. lia. }
  unfold Atoi. rewrite !Hne by (vm_compute; done). unfold ParseUint. rewrite Hp.
  replace (n <? 2 ^ 64) with true by (symmetry; blia). by replace (n <? 2 ^ 63) with true by (symmetry; blia).
Qed.

Lemma acceptPort_Itoa p : 0 <= p <= 65535 → acceptPort (Itoa p) = Some p.
Proof.
  intros Hp. unfold acceptPort. rewrite Atoi_Itoa by lia.
  by replace ((p <? 0) || (65535 <? p)) with false by (symmetry; blia).
Qed.

Lemma acceptPort_range v n : acceptPort v = Some n → 0 <= n <= 65535.
Proof. unfold acceptPort. destruct (Atoi v) as [m|]; [|done]. destruct (_ || _) eqn:Hm; [done|]. intros [= <-]. apply orb_false_iff in Hm. blia. Qed.

Section logic.
Context `{GoUnicode, GoUpper}.

(** ** A logic for the dialogue *)

(** The step returns, with a result and a state that satisfy [P]. *)
Definition wp {A} (m : M A) (P : A → wizard → Prop) (w : wizard) : Prop := ∃ a w', m w = Some (a, w') ∧ P a w'.

Lemma wp_ret {A} (a : A) (P : A → wizard → Prop) w : P a w → wp (ret a) P w.
Proof. intros Hp. by exists a, w. Qed.

Lemma wp_bind {A B} (m : M A) (k : A → M B) (P : B → wizard → Prop) w :
  wp m (λ a w', wp (k a) P w') w → wp (bind m k) P w.
Proof. intros (a & w' & Hm & b & w'' & Hk & Hp). exists b, w''. split; [|done]. unfold bind. by rewrite Hm. Qed.

Lemma wp_mono {A} (m : M A) (P Q : A → wizard → Prop) w : wp m P w → (∀ a w', P a w' → Q a w') → wp m Q w.
Proof. intros (a & w' & Hm & Hp) Hpq. exists a, w'. eauto. Qed.

Lemma wp_get (P : Config → wizard → Prop) w : P (cfg w) w → wp get P w.
Proof. intros Hp. by exists (cfg w), w. Qed.

Lemma wp_modify f (P : unit → wizard → Prop) w : P tt (set_cfg (f (cfg w)) w) → wp (modify f) P w.
Proof. intros Hp. by eexists _, _. Qed.

(** A prompt changes nothing but what is left of the input; [rest] is the state up
    to that. *)
Definition same (w w' : wizard) : Prop :=
  cfg w' = cfg w ∧ existingPath w' = existingPath w ∧ editing w' = editing w ∧ keyFile w' = keyFile w ∧
  (lines w = [] → lines w' = []).

Lemma same_set_lines ls w : (lines w = [] → ls = []) → same w (set_lines ls w).
Proof. intros Hl. unfold same. by split_and!. Qed.

(** At the end of the input every prompt takes its default. *)
Lemma wp_readLine (P : string → wizard → Prop) w :
  (∀ a w', same w w' → (lines w = [] → a = "") → P a w') → wp readLine P w.
Proof.
  intros Hp. unfold wp, readLine. destruct (lines w) as [|l ls] eqn:Hl; eexists _, _; (split; [done|]); apply Hp; try done.
  apply same_set_lines. congruence.
Qed.

Lemma wp_promptString d (P : string → wizard → Prop) w :
  (∀ a w', same w w' → (lines w = [] → a = d) → P a w') → wp (promptString d) P w.
Proof.
  intros Hp. apply wp_bind, wp_readLine. intros a w' Hs Ha. apply wp_ret, Hp; [done|]. intros Hl. by rewrite (Ha Hl).
Qed.

Lemma wp_promptYesNo d (P : bool → wizard → Prop) w :
  (∀ a w', same w w' → (lines w = [] → a = d) → P a w') → wp (promptYesNo d) P w.
Proof.
  intros Hp. apply wp_bind, wp_readLine. intros a w' Hs Ha. apply wp_ret, Hp; [done|]. intros Hl. rewrite (Ha Hl).
  unfold TrimSpace. cbn [isASCII str_forallb trim_left trim_right]. unfold ToLower. cbn. done.
Qed.

Lemma until_spec {A} (accept : string → option A) d ls :
  is_Some (accept d) →
  ∃ a ls', until accept d ls = Some (a, ls') ∧ (∃ v, accept v = Some a) ∧ (ls = [] → ls' = [] ∧ accept d = Some a).
Proof.
  intros [a0 Hd]. induction ls as [|l ls IH]; cbn [until].
  { rewrite Hd. exists a0, []. eauto. }
  destruct (accept (if _ : bool then _ else _)) as [a|] eqn:Ha; [exists a, ls; split_and!; [done|eauto|done]|].
  destruct IH as (a & ls' & -> & Hv & _). by exists a, ls'.
Qed.

Lemma wp_promptUntil {A} (accept : string → option A) d (P : A → wizard → Prop) w :
  is_Some (accept d) → (∀ a w', same w w' → (∃ v, accept v = Some a) → P a w') → wp (promptUntil accept d) P w.
Proof.
  intros Hd Hp. destruct (until_spec accept d (lines w) Hd) as (a & ls' & Hu & Hv & Hl).
  exists a, (set_lines ls' w). unfold promptUntil. rewrite Hu. split; [done|]. apply Hp; [|done].
  apply same_set_lines. intros Hn. by apply Hl.
Qed.

Lemma choose_spec n d ls : (d < n)%nat → ∃ i ls', choose n d ls = (i, ls') ∧ (i < n)%nat ∧ (ls = [] → ls' = []).
Proof.
  intros Hd. induction ls as [|l ls IH]; cbn [choose]; [by exists d, []|].
  destruct (String.eqb _ ""); [by exists d, ls|].
  assert (∃ i ls', choose n d ls = (i, ls') ∧ (i < n)%nat ∧ (l :: ls = [] → ls' = [])) as Hnext.
  { destruct IH as (i & ls' & -> & Hi & _). by exists i, ls'. }
  destruct (Atoi _) as [m|]; [|done]. destruct (_ || _) eqn:Hm; [done|].
  eexists _, _. split; [done|]. split; [|done]. apply orb_false_iff in Hm. blia.
Qed.

Lemma wp_promptChoice n d (P : nat → wizard → Prop) w :
  (d < n)%nat → (∀ i w', same w w' → (i < n)%nat → P i w') → wp (promptChoice n d) P w.
Proof.
  intros Hd Hp. destruct (choose_spec n d (lines w) Hd) as (i & ls' & Hc & Hi & Hl).
  exists i, (set_lines ls' w). unfold promptChoice. rewrite Hc. split; [done|]. apply Hp; [|done]. by apply same_set_lines.
Qed.

(** ** The steps *)

(** Enter is an answer to every prompt. *)
Record answerable (c : Config) : Prop := {
  an_size : is_Some (ParseSize (MaxSize (Cache c)));
  an_up : is_Some (ParseRate (MaxUploadRate (Transfer c)));
  an_down : is_Some (ParseRate (MaxDownloadRate (Transfer c)));
  an_proxy : 0 <= ProxyPort (Network c) <= 65535;
  an_listen : 0 <= ListenPort (Network c) <= 65535;
  an_metrics : 0 <= m_Port (Metrics c) <= 65535;
}.

Section steps.
Context (existing : string).

(** What holds between the steps: besides, a key that was written is the one the
    configuration names, and the path of the file that was found is remembered. *)
Definition good (w : wizard) : Prop :=
  answerable (cfg w) ∧ (∀ p t, keyFile w = Some (p, t) → PSKPath (Privacy (cfg w)) = p) ∧ existingPath w = existing.

Definition ok {A} (m : M A) : Prop := ∀ w, good w → wp m (λ _ w', good w') w.

Lemma good_same w w' : same w w' → good w → good w'.
Proof. intros (Hc & He & _ & Hk & _) (Ha & Hg & Hx). unfold good. by rewrite Hc, Hk, He. Qed.

Lemma ok_bind {A B} (m : M A) (k : A → M B) : ok m → (∀ a, ok (k a)) → ok (bind m k).
Proof. intros Hm Hk w Hw. apply wp_bind. eapply wp_mono; [by apply Hm|]. intros a w' Hw'. by apply Hk. Qed.

Lemma ok_ret {A} (a : A) : ok (ret a).
Proof. intros w Hw. by apply wp_ret. Qed.

Lemma ok_get : ok get.
Proof. intros w Hw. by apply wp_get. Qed.

Lemma ok_modify f :
  (∀ c, answerable c → answerable (f c)) → (∀ c, PSKPath (Privacy (f c)) = PSKPath (Privacy c)) → ok (modify f).
Proof. intros Ha Hp w (Hw & Hk & He). apply wp_modify. split_and!; cbn; [by apply Ha| |done]. intros p t Hkey. rewrite Hp. eauto. Qed.

Lemma ok_promptYesNo d : ok (promptYesNo d).
Proof. intros w Hw. apply wp_promptYesNo. intros a w' Hs _. by eapply good_same. Qed.

Lemma ok_promptString d : ok (promptString d).
Proof. intros w Hw. apply wp_promptString. intros a w' Hs _. by eapply good_same. Qed.

Lemma ok_promptChoice n d : (d < n)%nat → ok (promptChoice n d).
Proof. intros Hd w Hw. apply wp_promptChoice; [done|]. intros i w' Hs _. by eapply good_same. Qed.

Create HintDb wizard.
#[local] Hint Resolve ok_ret ok_get ok_promptYesNo ok_promptString : wizard.

Lemma accepted {A} (parse : string → option A) a : (∃ v, (λ _, v) <$> parse v = Some a) → is_Some (parse a).
Proof. intros [v Hv]. destruct (parse v) as [x|] eqn:Hx; [|done]. cbn in Hv. injection Hv as <-. by eexists. Qed.

Lemma accepts {A} (parse : string → option A) v : is_Some (parse v) → is_Some ((λ _, v) <$> parse v).
Proof. intros [x ->]. by eexists. Qed.

(** A prompt for one value, which is then stored. *)
Lemma ok_update {A} (accept : string → option A) (dflt : Config → string) (set : A → Config → Config) :
  (∀ c, answerable c → is_Some (accept (dflt c))) →
  (∀ a v c, accept v = Some a → answerable c → answerable (set a c)) →
  (∀ a c, PSKPath (Privacy (set a c)) = PSKPath (Privacy c)) →
  ok (bind get (λ c, bind (promptUntil accept (dflt c)) (λ a, modify (set a)))).
Proof.
  intros Hd Hs Hp w Hw. apply wp_bind, wp_get, wp_bind, wp_promptUntil; [apply Hd, Hw|].
  intros a w' Hsame [v Hv]. pose proof (good_same _ _ Hsame Hw) as (Ha & Hk & He). apply wp_modify.
  split_and!; cbn; [by eapply Hs| |done]. intros p t Hkey. rewrite Hp. eauto.
Qed.

Lemma ok_promptCacheSize : ok promptCacheSize.
Proof.
  apply ok_update.
  - intros c Ha. apply accepts, Ha.
  - intros a v c Hv Ha. assert (is_Some (ParseSize a)) by (apply (accepted ParseSize); eauto).
    destruct Ha. by constructor.
  - done.
Qed.

Lemma ok_promptBandwidthLimits : ok promptBandwidthLimits.
Proof.
  intros w Hw. unfold promptBandwidthLimits. apply wp_bind, wp_get, wp_bind, wp_promptUntil; [apply accepts, Hw|].
  intros up w1 Hs1 Hup%(accepted ParseRate). pose proof (good_same _ _ Hs1 Hw) as Hw1.
  apply wp_bind. eapply wp_mono; [apply ok_modify; [|done|exact Hw1]|].
  { intros c Ha. destruct Ha. by constructor. }
  intros []. apply (ok_update (λ v, (λ _, v) <$> ParseRate v) (λ c, MaxDownloadRate (Transfer c))).
  - intros c Ha. apply accepts, Ha.
  - intros a v c Hv Ha. assert (is_Some (ParseRate a)) by (apply (accepted ParseRate); eauto).
    destruct Ha. by constructor.
  - done.
Qed.

Lemma ok_promptPorts : ok promptPorts.
Proof.
  intros w Hw. unfold promptPorts, promptPort. pose proof Hw as [Ha _].
  apply wp_bind, wp_get, wp_bind, wp_promptUntil; [rewrite acceptPort_Itoa by apply Ha; by eexists|].
  intros p1 w1 Hs1 [v1 Hp1%acceptPort_range]. pose proof (good_same _ _ Hs1 Hw) as Hw1.
  apply wp_bind. eapply wp_mono; [apply ok_modify; [|done|exact Hw1]|]; [intros c Hc; destruct Hc; by constructor|].
  intros [] w2 Hw2. apply wp_bind, wp_promptUntil; [rewrite acceptPort_Itoa by apply Ha; by eexists|].
  intros p2 w3 Hs3 [v2 Hp2%acceptPort_range]. pose proof (good_same _ _ Hs3 Hw2) as Hw3.
  apply wp_bind. eapply wp_mono; [apply ok_modify; [|done|exact Hw3]|]; [intros c Hc; destruct Hc; by constructor|].
  intros [] w4 Hw4. apply wp_bind, wp_promptUntil; [rewrite acceptPort_Itoa by apply Ha; by eexists|].
  intros p3 w5 Hs5 [v3 Hp3%acceptPort_range]. pose proof (good_same _ _ Hs5 Hw4) as Hw5.
  apply ok_modify; [|done|exact Hw5]. intros c Hc. destruct Hc. by constructor.
Qed.

Lemma ok_promptRepositories : ok promptRepositories.
Proof.
  unfold promptRepositories. apply ok_bind; [auto with wizard|intros c]. apply ok_bind; [auto with wizard|intros trust].
  apply ok_bind; [auto with wizard|intros hosts]. apply ok_modify; [|done]. intros c' Hc. destruct Hc. by constructor.
Qed.

Lemma ok_generateKey k : ok (generateKey k).
Proof.
  intros w Hw. unfold wp, generateKey. destruct (newKey k) as [key|]; [|eauto].
  destruct (negb (mkdirOK k)); [eauto|]. destruct (negb (keySaveOK k)); [eauto|].
  eexists _, _. split; [done|]. destruct Hw as (Ha & _ & He). split_and!; cbn; [destruct Ha; by constructor| |done]. by intros p t [= <- _].
Qed.

Lemma ok_promptPrivacy k i : ok (promptPrivacy k i).
Proof.
  unfold promptPrivacy. apply ok_bind; [auto with wizard|intros c]. apply ok_bind; [auto with wizard|intros mdns].
  apply ok_bind; [apply ok_modify; [|done]; intros c' Hc; destruct Hc; by constructor|intros _].
  case_bool_decide; [|auto with wizard]. apply ok_bind; [auto with wizard|]. intros []; [apply ok_generateKey|auto with wizard].
Qed.

Lemma ok_promptFleet : ok promptFleet.
Proof.
  unfold promptFleet. apply ok_bind; [auto with wizard|intros c]. apply ok_bind; [auto with wizard|intros b].
  apply ok_modify; [|done]. intros c' Hc. destruct Hc. by constructor.
Qed.

Lemma ok_promptLogLevel : ok promptLogLevel.
Proof.
  unfold promptLogLevel. apply ok_bind; [auto with wizard|intros c].
  apply ok_bind; [apply ok_promptChoice; repeat destruct (String.eqb _ _); lia|].
  intros [|[|[|i]]]; [apply ok_modify; [|done]; intros c' Hc; destruct Hc; by constructor..|auto with wizard].
Qed.

(** Every profile can be answered, and none forgets the key. *)
Lemma ok_applyProfile i : (i < 3)%nat → ok (applyProfile i).
Proof.
  intros Hi w Hw. unfold applyProfile. destruct i as [|[|[|i]]]; [..|lia];
    cbn [profiles lookup list_lookup]; (apply ok_modify; [|done|done]); intros c Hc; destruct Hc; constructor; try done;
    eexists; vm_compute; reflexivity.
Qed.

Lemma default_answerable env : answerable (DefaultConfig env).
Proof. constructor; try (cbn; lia); eexists; vm_compute; reflexivity. Qed.

Lemma valid_answerable env c : Validate env c = [] → answerable c.
Proof.
  intros Hv. destruct (ConfigSys.Validate_effective env c Hv) as [Hports _ _ Hrates _ Hsizes _ _ _].
  destruct Hrates as [Hu Hd], Hsizes as (_ & n & Hn & _), Hports as (? & ? & ?).
  constructor; try lia; [rewrite Hn|rewrite Hu|rewrite Hd]; by eexists.
Qed.

Lemma ok_promptProfile ed : ok (promptProfile ed) ∧ ∀ w, good w → wp (promptProfile ed) (λ i w', good w' ∧ ∀ n, i = Some n → (n < 3)%nat) w.
Proof.
  assert (∀ w, good w → wp (promptProfile ed) (λ i w', good w' ∧ ∀ n, i = Some n → (n < 3)%nat) w) as Hp.
  { intros w Hw. unfold promptProfile. destruct ed; cbn [negb]; apply wp_bind, wp_promptChoice; try lia.
    - intros i w1 Hs Hi. pose proof (good_same _ _ Hs Hw) as Hw1. destruct (i =? 0)%nat eqn:Hz; [by apply wp_ret|].
      apply wp_bind, wp_promptYesNo. intros b w2 Hs2 _. apply wp_ret. split; [by eapply good_same|].
      intros n Hn. apply Nat.eqb_neq in Hz. destruct b; [injection Hn as <-; lia|done].
    - intros i w1 Hs Hi. apply wp_ret. split; [by eapply good_same|]. by intros n [= <-]. }
  split; [|done]. intros w Hw. eapply wp_mono; [by apply Hp|]. by intros i w' [? _].
Qed.

(** The dialogue returns, on every input. *)
Lemma dialogue_returns env k w : good w → keyFile w = None → wp (dialogue env k) (λ _ w', good w') w.
Proof.
  intros Hw Hk. unfold dialogue. apply wp_bind.
  assert (wp (λ w, if editing w then promptStartFresh w else Some (false, w)) (λ _ w', good w' ∧ keyFile w' = None) w) as Hfresh.
  { unfold wp. destruct (editing w); [|by eexists _, _]. fold (wp promptStartFresh (λ _ w', good w' ∧ keyFile w' = None) w).
    unfold promptStartFresh. apply wp_bind, wp_promptChoice; [lia|]. intros i w1 Hs _.
    pose proof (good_same _ _ Hs Hw) as Hw1. destruct Hs as (_ & _ & _ & Hk1 & _).
    destruct (i =? 0)%nat; [apply wp_ret; split; [done|congruence]|]. apply wp_promptYesNo. intros b w2 Hs2 _.
    split; [by eapply good_same|]. destruct Hs2 as (_ & _ & _ & Hk2 & _). congruence. }
  eapply wp_mono; [exact Hfresh|]. clear w Hw Hk Hfresh. intros fresh w [Hw Hk]. apply wp_bind.
  eexists _, _. split; [done|].
  assert (good (if fresh then mkWizard (lines w) (DefaultConfig env) (existingPath w) false (keyFile w) else w)) as Hw1.
  { destruct fresh; [|done]. split_and!; cbn; [apply default_answerable| |apply Hw]. intros p t. by rewrite Hk. }
  revert Hw1. generalize (if fresh then mkWizard (lines w) (DefaultConfig env) (existingPath w) false (keyFile w) else w) as w1.
  clear. intros w Hw. apply wp_bind. eexists _, _. split; [done|].
  apply wp_bind. eapply wp_mono; [apply ok_promptProfile; exact Hw|]. clear w Hw. intros i w [Hw Hi].
  revert w Hw. apply ok_bind; [destruct i as [n|]; [apply ok_applyProfile; by apply Hi|auto with wizard]|intros _].
  apply ok_bind; [apply ok_promptCacheSize|intros _]. apply ok_bind; [apply ok_promptBandwidthLimits|intros _].
  apply ok_bind; [apply ok_promptPorts|intros _]. apply ok_bind; [apply ok_promptRepositories|intros _].
  apply ok_bind; [apply ok_promptPrivacy|intros _]. apply ok_bind; [apply ok_promptFleet|intros _].
  apply ok_bind; [apply ok_promptLogLevel|intros _]. auto with wizard.
Qed.
End steps.

(** C35: the wizard ends, whatever is typed: when there is no configuration file, or
    one that cannot be parsed, or one that is valid, then on every input, however
    short (at its end every prompt takes its default) and however many answers are
    refused, the dialogue comes to an outcome.  What is saved passed validation; it is
    saved to the path given, else to the file named by --config, else to the file that
    was found, else to .config/debswarm/config.toml of the home directory; and when a new
    key was written, it is the key that the configuration saved names. *)
Theorem wizard_ends env f k save outputPath input :
  let e := Daemon.d_cfg env in
  (∀ path c, Daemon.existingConfigPath env f = Some path → Load e path = Some c → Validate e c = []) →
  ∃ o key, run e k save outputPath (Daemon.cfgFile f) (start env f input) = Some (o, key) ∧
    ∀ path c, o = Saved path c →
      Validate e c = [] ∧ save path = true ∧
      (outputPath ≠ "" → path = outputPath) ∧
      (outputPath = "" → Daemon.cfgFile f ≠ "" → path = Daemon.cfgFile f) ∧
      (outputPath = "" → Daemon.cfgFile f = "" → ∀ found, Daemon.existingConfigPath env f = Some found → found ≠ "" → path = found) ∧
      (outputPath = "" → Daemon.cfgFile f = "" → Daemon.existingConfigPath env f = None →
         path = filepath_Join [home k; ".config"; "debswarm"; "config.toml"]) ∧
      (∀ p t, key = Some (p, t) → PSKPath (Privacy c) = p).
Proof.
  intros e Hvalid. assert (good (default "" (Daemon.existingConfigPath env f)) (start env f input) ∧ keyFile (start env f input) = None) as [Hw Hk].
  { unfold start. fold e. destruct (Daemon.existingConfigPath env f) as [path|] eqn:Hp.
    - destruct (Load e path) as [c|] eqn:Hl; (split; [|done]); (split; [|done]); cbn [cfg].
      + by apply (valid_answerable e), (Hvalid path).
      + apply default_answerable.
    - split; [|done]. split; [apply default_answerable|done]. }
  destruct (dialogue_returns _ e k _ Hw Hk) as (yes & w' & Hd & _ & Hkey & Hfound).
  unfold run. rewrite Hd. eexists _, _. split; [done|]. intros path c Ho. destruct yes; cbn [negb] in Ho; [|done].
  destruct (Validate e (cfg w')) eqn:Hv; [|done]. destruct (save _) eqn:Hs; [|done]. injection Ho as <- <-.
  rewrite Hfound in *. split; [done|]. split; [done|]. clear - Hkey. unfold savePath. split_and!; [..|exact Hkey].
  - intros Hne. by destruct (String.eqb_spec outputPath "").
  - intros -> Hne. by destruct (String.eqb_spec (Daemon.cfgFile f) "").
  - intros -> -> found -> Hne. cbn. by destruct (String.eqb_spec found "").
  - by intros -> -> ->.
Qed.

(** ** Enter keeps the current values *)

(** At the end of the input, or with nothing but Enter. *)
Definition eof (w : wizard) : Prop := lines w = [].

Lemma set_lines_eof w : eof w → set_lines [] w = w.
Proof. destruct w as [l c p e k]. unfold eof. cbn. by intros ->. Qed.

Lemma promptUntil_eof {A} (accept : string → option A) d a w : eof w → accept d = Some a → promptUntil accept d w = Some (a, w).
Proof. intros Hw Ha. unfold promptUntil. rewrite Hw. cbn [until]. rewrite Ha. cbn. by rewrite set_lines_eof. Qed.

Lemma promptChoice_eof n d w : eof w → promptChoice n d w = Some (d, w).
Proof. intros Hw. unfold promptChoice. rewrite Hw. cbn [choose]. by rewrite set_lines_eof. Qed.

Lemma promptString_eof d w : eof w → promptString d w = Some (d, w).
Proof. intros Hw. unfold promptString, bind, readLine. by rewrite Hw. Qed.

Lemma promptYesNo_eof d w : eof w → promptYesNo d w = Some (d, w).
Proof. intros Hw. unfold promptYesNo, bind, readLine. by rewrite Hw. Qed.

(** A host that survives being listed with commas. *)
Definition clean_host (h : string) : bool :=
  str_forallb visible_char h && str_no "," h && negb (String.eqb h "") && negb (Release.EqualFold h "none").

Lemma trim_right_app s t : trim_right t ≠ "" → trim_right (s +:+ t) = s +:+ trim_right t.
Proof.
  intros Ht. induction s as [|a s IH]; [done|]. change (String a s +:+ t) with (String a (s +:+ t)). cbn [trim_right]. rewrite IH.
  destruct s as [|b s]; cbn; [by destruct (trim_right t)|done].
Qed.

Lemma Join_sep_cons h l : l ≠ [] → Join (h :: l) ", " = h +:+ String "," (String " " (Join l ", ")).
Proof. by destruct l. Qed.

Lemma Split_hosts l :
  l ≠ [] → Forall (λ h, clean_host h = true) l → TrimSpace <$> Split "," (Join l ", ") = l.
Proof.
  intros Hne Hl. assert (∀ h, clean_host h = true → str_forallb visible_char h = true ∧ str_no "," h = true) as Hc.
  { intros h. unfold clean_host. rewrite !andb_true_iff. tauto. }
  assert (∀ pre, pre = "" ∨ pre = " " → TrimSpace <$> Split "," (pre +:+ Join l ", ") = l) as Hgen; [|by apply (Hgen ""); left].
  induction Hl as [|h l Hh Hl IH]; [done|]. intros pre Hpre. destruct (Hc h Hh) as [Hv Hn].
  assert (str_no "," (pre +:+ h) = true) as Hpn.
  { destruct Hpre as [->| ->]; [done|]. exact Hn. }
  assert (TrimSpace (pre +:+ h) = h) as Ht.
  { destruct Hpre as [->| ->]; [by apply TrimSpace_visible|]. change (" " +:+ h) with (String " " h). unfold TrimSpace.
    assert (isASCII (String " " h) = true) as -> by exact (isASCII_visible h Hv).
    change (trim_left (String " " h)) with (trim_left h). by destruct (trim_visible h Hv) as [-> ->]. }
  destruct (decide (l = [])) as [->|Hne'].
  - change (Join [h] ", ") with h. rewrite Split_no by done. cbn. by rewrite Ht.
  - rewrite Join_sep_cons, <- str_app_assoc, Split_app, (Split_no _ (pre +:+ h)) by done. cbn [app fmap list_fmap]. rewrite Ht.
    f_equal. apply (IH Hne' " "). by right.
Qed.

Lemma EqualFold_letter s b t :
  Ascii.eqb (ascii_lower b) "s" = false → Ascii.eqb (ascii_lower b) "k" = false → ascii_lower b ≠ ","%char →
  Release.EqualFold s (String b t) = true → ∃ a s', s = String a s' ∧ Ascii.eqb a "," = false ∧ Release.EqualFold s' t = true.
Proof.
  intros Hs Hk Hb He. destruct s as [|a s']; [done|]. cbn [Release.EqualFold] in He. rewrite Hs, Hk in He. cbn [andb orb] in He.
  rewrite !orb_false_r, andb_true_iff, Ascii.eqb_eq in He. destruct He as [Ha He]. exists a, s'. split_and!; [done| |done].
  apply Ascii.eqb_neq. intros ->. by apply Hb.
Qed.

Lemma EqualFold_none_comma s : Release.EqualFold s "none" = true → str_no "," s = true.
Proof.
  intros (a1 & s1 & -> & Ha1 & (a2 & s2 & -> & Ha2 & (a3 & s3 & -> & Ha3 & (a4 & s4 & -> & Ha4 & He)%EqualFold_letter)%EqualFold_letter)%EqualFold_letter)%EqualFold_letter;
    try done.
  cbn in He. apply String.eqb_eq in He as ->. unfold str_no. cbn [str_forallb]. by rewrite Ha1, Ha2, Ha3, Ha4.
Qed.

Lemma visible_last h l : Forall (λ h, clean_host h = true) (h :: l) → ∃ s t, Join (h :: l) ", " = s +:+ t ∧ t ≠ "" ∧ str_forallb visible_char t = true.
Proof.
  revert h. induction l as [|x l IH]; intros h Hall; apply Forall_cons in Hall as [Hh Hl].
  - exists "", h. unfold clean_host in Hh. rewrite !andb_true_iff in Hh. destruct Hh as [[[Hv _] Hne] _].
    split_and!; [done| |done]. intros ->. done.
  - destruct (IH x Hl) as (s & t & Hj & ? & ?). exists (h +:+ String "," (String " " s)), t. split; [|done].
    rewrite Join_sep_cons, Hj by done. rewrite str_app_assoc. done.
Qed.

Lemma Join_ASCII l : Forall (λ h, clean_host h = true) l → isASCII (Join l ", ") = true.
Proof.
  induction 1 as [|h l Hh Hl IH]; [done|]. unfold clean_host in Hh. rewrite !andb_true_iff in Hh. destruct Hh as [[[Hv _] _] _].
  destruct (decide (l = [])) as [->|Hne]; [by apply isASCII_visible|]. rewrite Join_sep_cons by done.
  unfold isASCII in *. rewrite str_forallb_app. fold (isASCII h). rewrite (isASCII_visible h Hv). exact IH.
Qed.

Lemma TrimSpace_Join h l : Forall (λ h, clean_host h = true) (h :: l) → TrimSpace (Join (h :: l) ", ") = Join (h :: l) ", ".
Proof.
  intros Hl. unfold TrimSpace. rewrite Join_ASCII by done.
  assert (trim_left (Join (h :: l) ", ") = Join (h :: l) ", ") as ->.
  { apply Forall_cons in Hl as [Hh _]. unfold clean_host in Hh. rewrite !andb_true_iff in Hh. destruct Hh as [[[Hv _] Hne] _].
    destruct h as [|a h]; [done|]. cbn [str_forallb] in Hv. apply andb_prop in Hv as [Ha _].
    assert (∃ t, Join (String a h :: l) ", " = String a t) as [t ->] by (destruct l; by eexists).
    cbn [trim_left]. unfold visible_char in Ha. unfold ascii_space.
    match goal with |- (if ?b then _ else _) = _ => assert (b = false) as -> by (apply not_true_is_false; blia) end. done. }
  destruct (visible_last h l Hl) as (s & t & -> & Hne & Hv). destruct (trim_visible t Hv) as [_ Ht].
  rewrite trim_right_app; rewrite Ht; done.
Qed.

(** The hosts, printed as the default of the prompt and read back. *)
Lemma parseHostList_Join l : Forall (λ h, clean_host h = true) l → parseHostList (Join l ", ") = l.
Proof.
  intros Hl. destruct l as [|h l]; [by vm_compute|]. unfold parseHostList. rewrite Split_hosts, TrimSpace_Join by done.
  replace (Release.EqualFold (Join (h :: l) ", ") "none") with false.
  { assert (∀ x, x ∈ h :: l → negb (String.eqb x "") = true) as Hne.
    { intros x Hx. rewrite Forall_forall in Hl. specialize (Hl x Hx). unfold clean_host in Hl. rewrite !andb_true_iff in Hl. tauto. }
    revert Hne. generalize (h :: l). clear. intros l Hne. induction l as [|x l IH]; [done|]. cbn [List.filter].
    rewrite (Hne x) by left. f_equal. apply IH. intros y Hy. apply Hne. by right. }
  symmetry. apply not_true_is_false. intros He. destruct l as [|x l].
  - apply Forall_inv in Hl. change (Join [h] ", ") with h in He. unfold clean_host in Hl. rewrite He in Hl. by rewrite andb_false_r in Hl.
  - pose proof (EqualFold_none_comma _ He) as Hn. rewrite Join_sep_cons in Hn by done. unfold str_no in Hn.
    rewrite str_forallb_app in Hn. apply andb_prop in Hn as [_ Hn]. done.
Qed.

Lemma set_cfg_id c w : c = cfg w → set_cfg c w = w.
Proof. intros ->. by destruct w. Qed.

(** What Enter leaves behind: the trust in known repositories is written out. *)
Definition explicit_trust (c : Config) : Config :=
  with_Proxy (mkProxy (AllowedHosts (Proxy c)) (Some (TrustsKnownRepos (Proxy c))) (HTTPSUpstreamHosts (Proxy c))) c.

Lemma keeps_size w : eof w → answerable (cfg w) → promptCacheSize w = Some (tt, w).
Proof.
  intros Hw Ha. unfold promptCacheSize, bind, get. destruct (an_size _ Ha) as [n Hn].
  rewrite (promptUntil_eof _ _ (MaxSize (Cache (cfg w)))) by (done || by rewrite Hn). unfold modify.
  rewrite set_cfg_id; [done|]. by destruct (cfg w) as [? ? [] ? ? ? ? ? ? ? ? ?].
Qed.

Lemma keeps_rates w : eof w → answerable (cfg w) → promptBandwidthLimits w = Some (tt, w).
Proof.
  intros Hw Ha. unfold promptBandwidthLimits, bind, get. destruct (an_up _ Ha) as [u Hu], (an_down _ Ha) as [d Hd].
  assert (set_rates (MaxUploadRate (Transfer (cfg w))) (MaxDownloadRate (Transfer (cfg w))) (cfg w) = cfg w) as Hid.
  { by destruct (cfg w) as [? ? ? [] ? ? ? ? ? ? ? ?]. }
  rewrite (promptUntil_eof _ _ (MaxUploadRate (Transfer (cfg w)))) by (done || by rewrite Hu). unfold modify.
  rewrite Hid, set_cfg_id by done. rewrite (promptUntil_eof _ _ (MaxDownloadRate (Transfer (cfg w)))) by (done || by rewrite Hd).
  by rewrite Hid, set_cfg_id.
Qed.

Lemma keeps_ports w : eof w → answerable (cfg w) → promptPorts w = Some (tt, w).
Proof.
  intros Hw Ha. unfold promptPorts, promptPort, bind, get.
  assert (set_network (ListenPort (Network (cfg w))) (ProxyPort (Network (cfg w))) (ConnectivityMode (Network (cfg w))) (cfg w) = cfg w) as Hid.
  { by destruct (cfg w) as [[] ? ? ? ? ? ? ? ? ? ? ?]. }
  rewrite (promptUntil_eof _ _ _ _ Hw (acceptPort_Itoa _ (an_proxy _ Ha))). unfold modify. rewrite Hid, set_cfg_id by done.
  rewrite (promptUntil_eof _ _ _ _ Hw (acceptPort_Itoa _ (an_listen _ Ha))). rewrite Hid, set_cfg_id by done.
  rewrite (promptUntil_eof _ _ _ _ Hw (acceptPort_Itoa _ (an_metrics _ Ha))). rewrite set_cfg_id; [done|].
  by destruct (cfg w) as [? ? ? ? ? ? [] ? ? ? ? ?].
Qed.

Lemma keeps_repositories w :
  eof w → Forall (λ h, clean_host h = true) (AllowedHosts (Proxy (cfg w))) →
  promptRepositories w = Some (tt, set_cfg (explicit_trust (cfg w)) w).
Proof.
  intros Hw Hh. unfold promptRepositories, bind, get. rewrite promptYesNo_eof, promptString_eof by done.
  unfold modify. by rewrite parseHostList_Join.
Qed.

Lemma keeps_privacy k w : eof w → promptPrivacy k None w = Some (tt, w).
Proof.
  intros Hw. unfold promptPrivacy, bind, get. rewrite promptYesNo_eof by done. unfold modify.
  rewrite set_cfg_id; [by rewrite bool_decide_false|]. by destruct (cfg w) as [? ? ? ? ? [] ? ? ? ? ? ?].
Qed.

Lemma keeps_fleet w : eof w → promptFleet w = Some (tt, w).
Proof.
  intros Hw. unfold promptFleet, bind, get. rewrite promptYesNo_eof by done. unfold modify.
  rewrite set_cfg_id; [done|]. by destruct (cfg w) as [? ? ? ? ? ? ? ? ? [] ? ?].
Qed.

Lemma keeps_level w : eof w → Level (Logging (cfg w)) ∈ ["info"; "debug"; "warn"] → promptLogLevel w = Some (tt, w).
Proof.
  intros Hw Hl. unfold promptLogLevel, bind, get. rewrite promptChoice_eof by done.
  assert (set_level (Level (Logging (cfg w))) (cfg w) = cfg w) as Hid by (by destruct (cfg w) as [? ? ? ? ? ? ? [] ? ? ? ?]).
  set_unfold. destruct Hl as [Hl|[Hl|[Hl|[]]]]; rewrite Hl in Hid |- *; vm_compute (if String.eqb _ _ then _ else _); unfold modify;
    by rewrite Hid, set_cfg_id.
Qed.

(** Editing a configuration with Enter alone changes nothing but writing out the
    trust in known repositories, provided the level is one the wizard offers and
    the hosts survive the prompt. *)
Lemma enter_keeps env k w :
  eof w → editing w = true → answerable (cfg w) → Forall (λ h, clean_host h = true) (AllowedHosts (Proxy (cfg w))) →
  Level (Logging (cfg w)) ∈ ["info"; "debug"; "warn"] →
  dialogue env k w = Some (true, set_cfg (explicit_trust (cfg w)) w).
Proof.
  intros Hw He Ha Hh Hl. unfold dialogue. unfold bind at 1. rewrite He. unfold promptStartFresh, bind at 1. rewrite promptChoice_eof by done.
  cbn [Nat.eqb ret]. unfold bind at 1. unfold bind at 1. rewrite He. unfold promptProfile. cbn [negb]. unfold bind at 1 2.
  rewrite promptChoice_eof by done. cbn [Nat.eqb ret].
  unfold bind at 1. cbn [ret]. unfold bind at 1. rewrite keeps_size by done. unfold bind at 1. rewrite keeps_rates by done.
  unfold bind at 1. rewrite keeps_ports by done. unfold bind at 1. rewrite keeps_repositories by done.
  unfold bind at 1. rewrite keeps_privacy by done. unfold bind at 1. rewrite keeps_fleet by done.
  unfold bind at 1. rewrite keeps_level by done. by apply promptYesNo_eof.
Qed.

End logic.

(** ** Evaluations *)
Section examples.
#[local] Existing Instance ascii_only.
#[local] Existing Instance ascii_upper_only.

Definition ex_flags : Daemon.Flags := DaemonSys.no_flags.
Definition ex_key : KeyEnv := mkKeyEnv (Some "0123456789abcdef0123456789abcdef") "/root" true true.
Definition editing_env (c : Config) : Daemon.DEnv := DaemonSys.ex_denv (λ _, Some c) true.
Definition ex_wizard (c : Config) (input : list string) : option (outcome * option (string * string)) :=
  run (Daemon.d_cfg (editing_env c)) ex_key (λ _, true) "" "" (start (editing_env c) ex_flags input).

(** Editing a valid file: one answer is refused before one is accepted. *)
Lemma wizard_ends_witness :
  let env := editing_env ConfigSys.lan_config in let e := Daemon.d_cfg env in
  ∃ o key, run e ex_key (λ _, true) "" (Daemon.cfgFile ex_flags) (start env ex_flags [""; ""; "lots"; " 20GB "]) = Some (o, key) ∧
    (∃ path c, o = Saved path c ∧ MaxSize (Cache c) = "20GB" ∧ Validate e c = []).
Proof.
  intros env e.
  destruct (wizard_ends env ex_flags ex_key (λ _, true) "" [""; ""; "lots"; " 20GB "]) as (o & key & Hrun & Hsaved).
  { intros path c Hp Hl. assert (path = "/etc/debswarm/config.toml") as -> by (vm_compute in Hp; injection Hp as <-; reflexivity).
    vm_compute in Hl. injection Hl as <-. vm_compute. reflexivity. }
  exists o, key. split; [exact Hrun|]. clear Hsaved. vm_compute in Hrun. injection Hrun as <- <-.
  eexists _, _. split; [reflexivity|]. split; vm_compute; reflexivity.
Defined.

Definition with_size (s : string) : Config := set_MaxSize s (DefaultConfig ConfigSys.ex_env).

(** A file whose size cannot be read: Enter is refused for ever. *)
Example stuck_on_invalid_default : ex_wizard (with_size "lots") [] = None.
Proof. vm_compute. reflexivity. Qed.

(** Enter turns the level [error] into [info]. *)
Example error_level_lost :
  match ex_wizard (set_level "error" (DefaultConfig ConfigSys.ex_env)) [] with
  | Some (Saved _ c, _) => Some (Level (Logging c)) | _ => None end = Some "info".
Proof. vm_compute. reflexivity. Qed.

(** The private profile without a key: nothing isolates the swarm. *)
Example private_without_key :
  match ex_wizard (DefaultConfig ConfigSys.ex_env) ["2"; "y"; "3"; ""; ""; ""; ""; ""; ""; ""; ""; ""; "n"] with
  | Some (Saved _ c, key) => Some (ConnectivityMode (Network c), PSKPath (Privacy c), PSK (Privacy c), key) | _ => None end
  = Some ("lan_only", "", "", None).
Proof. vm_compute. reflexivity. Qed.

(** The key file is written although the configuration is not saved. *)
Example key_written_when_aborted :
  match ex_wizard (DefaultConfig ConfigSys.ex_env) ["2"; "y"; "3"; ""; ""; ""; ""; ""; ""; ""; ""; ""; ""; ""; ""; "n"] with
  | Some (Aborted, Some (p, _)) => Some p | _ => None end = Some "/root/.config/debswarm/swarm.key".
Proof. vm_compute. reflexivity. Qed.

(** Port 0 is accepted by the prompt and refused at the end. *)
Example port_zero_refused_late :
  ex_wizard (DefaultConfig ConfigSys.ex_env) [""; ""; ""; ""; ""; "0"] = Some (Invalid ["network.proxy_port"], None).
Proof. vm_compute. reflexivity. Qed.
End examples.
End WizardSys.
